(* ===== verification/_CoqProject ===== *)
-Q . S2P
Prelude.v
KMonad.v
Memory.v
Riscv.v
Kalloc.v
Vm.v
VmProofs.v
UserVm.v
UserMem.v
UserLife.v
CString.v
Sleeplock.v
Bio.v
Session.v
FsLayout.v
Log.v
LogProofs.v
LogSystem.v
Fs.v
FsTx.v
FsBlocks.v
FsFiles.v
FsData.v
FsWrite.v
FsExample.v
FsNames.v
FsInodes.v
Mkfs.v
MkfsProofs.v
MkfsImage.v
Spinlock.v
Machine.v
Virtio.v
VirtioSystem.v
Kernel.v
Spaces.v
Sched.v
Pipe.v
PipeProofs.v
PipeSystem.v
Ulib.v
Grep.v
Printf.v
UPrintf.v
Sh.v
ShPrint.v
ShRun.v
Umalloc.v
Console.v
Program.v
UserPrograms.v
ShMain.v
TestPrograms.v
Grind.v
File.v
FileWrite.v
KernelExample.v
Proc.v
ProcMem.v
Asm.v
Trampoline.v
ProcLife.v
Fork.v
Exec.v
Sysfile.v
Syscall.v
Grow.v
LifeExample.v
TrapExample.v
