(* ===== verification/Prelude.v ===== *)
(** * A verification library for xv6

    xv6 is a small Unix-like system for RISC-V: a kernel in C ([src/kernel]) and
    user programs ([src/user]).  This library translates the C code into Rocq
    functions, one definition per C function (or per loop of one), and proves
    what the parts of the system promise to each other.

    ** The program and its files

    From the bottom to the top; every file opens with how it represents the data
    of the C file it models.

    - Foundations.  [Prelude.v]: machine integers, list and map lemmas, tactics.
      [KMonad.v]: the state monad of kernel code, with the outcomes return, panic,
      sleep and out of fuel, the locks a thread holds, and the contract of
      [acquire], [release], [sleep] and [wakeup] ([spinlock.c], [proc.c]) that
      sequential code relies on.  [Memory.v]: byte memory, [memset], [memmove]
      ([string.c]).  [CString.v]: the routines on strings ([string.c]).
      [Riscv.v]: the macros and limits of [riscv.h], [memlayout.h], [param.h].
      [Machine.v]: control registers, [start.c], [plic.c].
    - Memory.  [Kalloc.v]: the page allocator ([kalloc.c]).  [Vm.v]: page tables
      and copies to and from user memory ([vm.c]); its proofs are in [VmProofs.v],
      [UserVm.v], [UserMem.v], [UserLife.v].
    - Disk and cache.  [Virtio.v]: the disk driver ([virtio_disk.c]);
      [VirtioSystem.v]: the driver with its callers, its interrupts and the device.
      [Sleeplock.v] ([sleeplock.c]).  [Bio.v]: the buffer cache ([bio.c]), with
      the rules for its clients in [Session.v].
    - Log.  [Log.v] ([log.c]), [LogProofs.v], [LogSystem.v].
    - File system.  [FsLayout.v] ([fs.h]) and [Fs.v] ([fs.c]).  [FsTx.v] is the
      interface between [fs.c] and the log: a class [TxStore] that the log
      implements and against which [FsBlocks.v], [FsFiles.v], [FsData.v],
      [FsWrite.v], [FsNames.v] and [FsInodes.v] are proved; [FileWrite.v] is about
      writes from user memory; [FsExample.v] is a small file system.
    - The image builder.  [Mkfs.v] ([mkfs.c], which runs on the host), with its proofs
      in [MkfsProofs.v] and [MkfsImage.v].
    - Assembly.  [Asm.v]: a hart with its registers and its view of memory through
      [satp], and the instructions of [entry.S], [swtch.S], [trampoline.S] and
      [kernelvec.S]; [Trampoline.v]: what they do; [TrapExample.v]: machine states.
    - Concurrency.  [Spinlock.v]: [spinlock.c] one memory access at a time on
      several CPUs.  [Sched.v]: [scheduler], [sched], [yield], [sleep] and
      [wakeup] of [proc.c] on several CPUs.
    - The kernel above the file system.  [Kernel.v]: its state.  [Spaces.v]: who
      owns which page.  [Pipe.v] ([pipe.c]), [PipeProofs.v], [PipeSystem.v].
      [Printf.v] and [Console.v] ([printf.c], [console.c], [uart.c]).  [File.v]
      ([file.c]).  [Proc.v] ([proc.c]) with [ProcMem.v], [ProcLife.v] and
      [Fork.v].  [Exec.v] ([exec.c]).  [Sysfile.v] ([sysfile.c], the arguments of
      [syscall.c]).  [Syscall.v] ([sysproc.c], [syscall.c], [trap.c], [main.c]).
      [Grow.v]: [sbrk].  [KernelExample.v] and [LifeExample.v]: kernel states on
      which the theorems are evaluated.
    - User level.  [Ulib.v] ([ulib.c]), [UPrintf.v] ([printf.c]), [Umalloc.v]
      ([umalloc.c]), [Grep.v] ([grep.c]), and the shell [sh.c]: its parser
      [Sh.v], a printer for its commands [ShPrint.v], [runcmd] in [ShRun.v] and
      [main] in [ShMain.v].  [Program.v]: programs as interaction trees of system
      calls, and what it means that a program ends well in a world of files and
      processes ([must]).  [UserPrograms.v]: [cat], [wc], [grep], [echo], [ls],
      [rm], [ln], [mkdir], [kill], [zombie] and [init].  [TestPrograms.v]:
      [forktest], [stressfs], [logstress], [forphan], [dorphan].  [Grind.v]:
      [grind].

    ** State and operations

    A C structure is a record, an array a list, a pointer into an array an index
    (with -1 for the null pointer) or, for memory that is allocated in pages, a
    physical address.  Data that the kernel keeps in pages (the free list, page
    tables, trap frames, user memory) is kept in byte memory, so that sharing and
    overlap are possible and have to be excluded.  Integers are [Z] with the
    wrap of their C type ([u8], [u16], [u32], [u64], [s16], [s32]) wherever the
    code can leave its range.  An early return is a value of the monad, [panic]
    an outcome that the theorems either exclude or characterise.

    Layers are combined by lenses ([Lens], [zoom]): the file system runs inside
    the kernel's state, the log inside the file system's, and so on, so that a
    theorem about a layer holds inside the ones above it.

    ** What the theorems show

    - Page allocation: [kalloc] and [kfree] refine a pool of pages, [kinit] fills
      it, [kfree] panics exactly on bad addresses.
    - Address spaces: [uvmalloc] is all or nothing, [uvmcopy] makes a private
      copy, [uvmfree] returns every page once, [copyout] writes only where it may
      and [copyin] reads it back.
    - Cache and log: the cache refines an array of blocks and recycles the least
      recently used buffer; transactions are atomic under a power failure at any
      write to the disk and any interleaving of system calls, and a transaction
      that fills the log stops the kernel.
    - Disk driver: with any number of callers, and a device that completes requests
      in any order and may fail some, a transfer that returns has done what a disk
      would do, and the driver does not get stuck and panics only on a request that
      the device has failed.
    - Image builder: for programs that fit, [mkfs] returns an image that meets what
      the kernel assumes, with every program under its name; the size of a root
      directory that fills its last block covers a block that does not exist.
    - Assembly: a trap saves all registers and gives them back, [swtch] resumes a
      thread where it left off, an interrupt in the kernel changes no register of
      the interrupted code but [tp].
    - File system: [balloc] and [bfree], [writei] followed by [readi], isolation
      of files, the bound on the blocks a chunk of [filewrite] logs, references of inodes, path
      names, the layout of inodes.
    - Locks and scheduling: mutual exclusion and progress of spin locks, a process
      runs on one CPU at a time, the tests of [sched] never fail, no wakeup is lost.
    - Pipes: a pipe is a bounded queue of bytes for any number of processes, and
      nobody sleeps without a reason.
    - Processes: [fork] copies and loses no page, eager [sbrk] maps or unmaps what
      was asked for, and lazy [sbrk] beyond [MAXVA] stops the kernel.
    - Output: [printint] is exact in the kernel and truncates in user programs.
    - User level: [grep] prints the lines that match; the shell's parser ends,
      returns well-formed commands and inverts printing, and [runcmd] connects the
      programs as the command says; a session of the shell makes the calls its lines
      ask for; [cat] copies, [wc] counts, [forktest] gives the verdict the size of
      the process table asks for, and [grind] draws the numbers it means to;
      [malloc] and [free] keep the heap tiled, and a
      request near four gigabytes is granted without memory.
    ** Bounds and fuel

    A C loop that is not structural has a fuel argument, and running out of it is
    an outcome of its own ([diverge], [PFuel], [None]) that every theorem about a
    result excludes.  The fuel is a bound the data gives: the number of pages or
    blocks in the range, of buffers in the LRU list, of bytes that are left of a
    line, of blocks on [malloc]'s list; [walk] recurses on the level.  Loops that
    wait for a device ([uartputc_sync]) run as long as the device has answers
    left, and the loops that wait for another process are steps of a system
    ([PipeSystem.v], [Sched.v], [Spinlock.v]).  The number of CPUs is arbitrary.
    Reference counts of files and inodes are unbounded integers.  The loops of the
    user programs are iterations of interaction trees, without fuel; [must] is
    inductive, so that a program that meets it ends.

    ** What is not modelled

    - The step from C to machine code: in the models of C code a context switch is
      the end of a step, and a call is a call; the assembly files are separate.
    - Weak memory: the CPUs of [Spinlock.v] and [Sched.v] see memory in the same
      order; the fences of the code are steps without effect.
    - Interrupt handlers that interrupt the kernel while no process runs;
      [kerneltrap] itself is in [Syscall.v].
    - Devices: what they answer is an arbitrary sequence of register values.
    - User programs are not linked to the kernel's model: [must] states what the
      system calls answer, and output does not change the files that are read.
    - [usertests.c], a list of checks of what the system calls do, the scripts that
      grade the tests, [memdump.c], an exercise whose function is empty, and the
      declarations, linker scripts and stubs the build generates. *)

From Stdlib Require Export ZArith Lia Bool.
From stdpp Require Export base numbers list gmap strings sets.

Open Scope Z_scope.

(** ** Machine integers

    C integers are [Z]; every place where the code can leave the range of its
    type applies one of these wraps. *)

Definition u8 (x : Z) : Z := x mod 2 ^ 8.
Definition u16 (x : Z) : Z := x mod 2 ^ 16.
Definition u32 (x : Z) : Z := x mod 2 ^ 32.
Definition u64 (x : Z) : Z := x mod 2 ^ 64.
Definition s16 (x : Z) : Z := (x + 2 ^ 15) mod 2 ^ 16 - 2 ^ 15.
Definition s32 (x : Z) : Z := (x + 2 ^ 31) mod 2 ^ 32 - 2 ^ 31.

(** A C condition is an [int]. *)
Definition b2z (b : bool) : Z := if b then 1 else 0.

Lemma u8_small x : 0 <= x < 256 -> u8 x = x.
Proof. intros; unfold u8; apply Z.mod_small; lia. Qed.
Lemma u32_small x : 0 <= x < 2 ^ 32 -> u32 x = x.
Proof. intros; unfold u32; apply Z.mod_small; lia. Qed.
Lemma u64_small x : 0 <= x < 2 ^ 64 -> u64 x = x.
Proof. intros; unfold u64; apply Z.mod_small; lia. Qed.
Lemma s32_small x : - 2 ^ 31 <= x < 2 ^ 31 -> s32 x = x.
Proof. intros; unfold s32; rewrite Z.mod_small; lia. Qed.
Lemma u32_s32 x : u32 (s32 x) = u32 x.
Proof. unfold u32, s32; rewrite Zminus_mod_idemp_l; f_equal; lia. Qed.
Lemma s32_range x : - 2 ^ 31 <= s32 x < 2 ^ 31.
Proof. unfold s32; pose proof (Z.mod_pos_bound (x + 2 ^ 31) (2 ^ 32) ltac:(lia)); lia. Qed.
Lemma s32_u32 x : s32 (u32 x) = s32 x.
Proof. unfold u32, s32; by rewrite Zplus_mod_idemp_l. Qed.
Lemma u32_idem x : u32 (u32 x) = u32 x.
Proof. unfold u32; by rewrite Zmod_mod. Qed.
Lemma u8_range x : 0 <= u8 x < 256.
Proof. unfold u8; apply Z.mod_pos_bound; lia. Qed.
Lemma u32_range x : 0 <= u32 x < 2 ^ 32.
Proof. unfold u32; apply Z.mod_pos_bound; lia. Qed.
Lemma u64_range x : 0 <= u64 x < 2 ^ 64.
Proof. unfold u64; apply Z.mod_pos_bound; lia. Qed.

(** ** Bytes, little-endian encodings, arrays *)

(** The [n] little-endian bytes of [x], and the number a byte list denotes. *)
Fixpoint le_bytes (n : nat) (x : Z) : list Z :=
  match n with
  | O => []
  | S n => u8 x :: le_bytes n (x / 256)
  end.

Fixpoint le_val (l : list Z) : Z :=
  match l with
  | [] => 0
  | b :: l => b + 256 * le_val l
  end.

Definition byte_ok (b : Z) : Prop := 0 <= b < 256.

Lemma length_le_bytes n x : length (le_bytes n x) = n.
Proof. revert x; induction n; intros; simpl; auto. Qed.

Lemma le_bytes_ok n x : Forall byte_ok (le_bytes n x).
Proof.
  revert x; induction n; intros; simpl; constructor; auto.
  unfold byte_ok; apply u8_range.
Qed.

Lemma le_val_bound l :
  Forall byte_ok l -> 0 <= le_val l < 256 ^ Z.of_nat (length l).
Proof.
  induction 1 as [|b l Hb _ IH]; [simpl; lia|].
  cbn [le_val length]; unfold byte_ok in *.
  rewrite Nat2Z.inj_succ, Z.pow_succ_r by lia; lia.
Qed.

Lemma le_val_le_bytes n x : le_val (le_bytes n x) = x mod 256 ^ Z.of_nat n.
Proof.
  revert x; induction n as [|n IH]; intros x; [by rewrite Z.mod_1_r|].
  cbn [le_bytes le_val]; rewrite IH, Nat2Z.inj_succ, Z.pow_succ_r by lia.
  unfold u8; change (2 ^ 8) with 256.
  rewrite Z.rem_mul_r by (try apply Z.pow_nonzero; lia); lia.
Qed.

Lemma le_bytes_le_val l : Forall byte_ok l -> le_bytes (length l) (le_val l) = l.
Proof.
  induction 1 as [|b l Hb _ IH]; [done|].
  cbn [length le_bytes le_val]; unfold byte_ok in *; f_equal.
  - unfold u8; change (2 ^ 8) with 256; rewrite Z.mul_comm, Z_mod_plus_full.
    by apply Z.mod_small.
  - rewrite Z.mul_comm, Z_div_plus_full, Z.div_small by lia; simpl; apply IH.
Qed.

(** C arrays held as lists: [a[i]] and [a[i] = v].  The theorems that use them
    carry the bounds; an index out of range reads the default and writes
    nothing. *)
Definition aget {A} (d : A) (l : list A) (i : Z) : A := nth (Z.to_nat i) l d.
Definition aset {A} (l : list A) (i : Z) (v : A) : list A := <[Z.to_nat i := v]> l.

Lemma length_aset {A} (l : list A) i v : length (aset l i v) = length l.
Proof. apply length_insert. Qed.

Lemma aget_aset_eq {A} (d : A) l i v :
  0 <= i < Z.of_nat (length l) -> aget d (aset l i v) i = v.
Proof.
  intros Hi; unfold aget, aset.
  rewrite nth_lookup, list_lookup_insert_eq by lia; done.
Qed.

Lemma aget_aset_ne {A} (d : A) l i j v :
  0 <= i -> 0 <= j -> i <> j -> aget d (aset l i v) j = aget d l j.
Proof.
  intros; unfold aget, aset.
  rewrite !nth_lookup, list_lookup_insert_ne by lia; done.
Qed.

Lemma aget_aset {A} (d : A) l i j x :
  0 <= i < Z.of_nat (length l) -> 0 <= j -> aget d (aset l i x) j = if decide (j = i) then x else aget d l j.
Proof. intros Hi Hj; case_decide as E; [subst; by apply aget_aset_eq|apply aget_aset_ne; lia]. Qed.

Lemma aget_ge {A} (d : A) l i : Z.of_nat (length l) <= i -> aget d l i = d.
Proof. intros; unfold aget; apply nth_overflow; lia. Qed.

Lemma aget_app {A} (d : A) l1 l2 i :
  0 <= i -> aget d (l1 ++ l2) i = if i <? Z.of_nat (length l1) then aget d l1 i else aget d l2 (i - Z.of_nat (length l1)).
Proof.
  intros Hi; unfold aget; destruct (Z.ltb_spec i (Z.of_nat (length l1))); [apply app_nth1; lia|].
  rewrite app_nth2 by lia; f_equal; lia.
Qed.

Lemma aget_lookup {A} (d : A) l i x :
  0 <= i -> l !! Z.to_nat i = Some x -> aget d l i = x.
Proof. intros ? H; unfold aget; by rewrite nth_lookup, H. Qed.

Lemma lookup_aget {A} (d : A) l i :
  0 <= i < Z.of_nat (length l) -> l !! Z.to_nat i = Some (aget d l i).
Proof.
  intros Hi; unfold aget; rewrite nth_lookup.
  destruct (lookup_lt_is_Some_2 l (Z.to_nat i)) as [x ->]; [lia|done].
Qed.

Lemma aset_id {A} (d : A) l i : aset l i (aget d l i) = l.
Proof.
  unfold aset, aget; rewrite nth_lookup.
  destruct (l !! Z.to_nat i) eqn:E; simpl; [by apply list_insert_id|].
  apply list_insert_ge; by apply lookup_ge_None.
Qed.

(** The [n] numbers [a, a+1, ...]: the values of a C loop counter. *)
Fixpoint zrange (a : Z) (n : nat) : list Z :=
  match n with
  | O => []
  | S n => a :: zrange (a + 1) n
  end.

Lemma length_zrange a n : length (zrange a n) = n.
Proof. revert a; induction n; intros; simpl; auto. Qed.

Lemma elem_of_zrange a n x : x ∈ zrange a n <-> a <= x < a + Z.of_nat n.
Proof.
  revert a; induction n as [|n IH]; intros a.
  - simpl; split; [by intros ?%not_elem_of_nil|lia].
  - cbn [zrange]; rewrite elem_of_cons, IH; lia.
Qed.

Lemma lookup_zrange a n k : (k < n)%nat -> zrange a n !! k = Some (a + Z.of_nat k).
Proof.
  revert a k; induction n as [|n IH]; intros a k Hk; [lia|]; destruct k as [|k]; cbn [zrange].
  - simpl; f_equal; lia.
  - rewrite lookup_cons_ne_0 by lia; simpl; rewrite IH by lia; f_equal; lia.
Qed.

Lemma zrange_app a n k : zrange a (n + k) = zrange a n ++ zrange (a + Z.of_nat n) k.
Proof.
  revert a; induction n as [|n IH]; intros a; simpl; [by rewrite Z.add_0_r|].
  rewrite IH; by replace (a + 1 + Z.of_nat n) with (a + Z.pos (Pos.of_succ_nat n)) by lia.
Qed.

Lemma zrange_snoc a n : zrange a (S n) = zrange a n ++ [a + Z.of_nat n].
Proof. by rewrite <- Nat.add_1_r, zrange_app. Qed.

Lemma zrange_split a n k : (k < n)%nat ->
  zrange a n = zrange a k ++ (a + Z.of_nat k) :: zrange (a + Z.of_nat k + 1) (n - k - 1).
Proof. intros; replace n with (k + S (n - k - 1))%nat at 1 by lia; by rewrite zrange_app. Qed.

(** A search over a range finds the least element. *)
Lemma find_zrange (f : Z -> bool) a n :
  match List.find f (zrange a n) with
  | Some i => a <= i < a + Z.of_nat n /\ f i = true /\ forall j, a <= j < i -> f j = false
  | None => forall j, a <= j < a + Z.of_nat n -> f j = false
  end.
Proof.
  revert a; induction n as [|n IH]; intros a; cbn [zrange List.find]; [lia|].
  destruct (f a) eqn:E; [split_and!; auto; lia|]; specialize (IH (a + 1)).
  destruct (List.find f _) as [i|].
  - destruct IH as (H1 & H2 & H3); split_and!; auto; try lia.
    intros j Hj; destruct (decide (j = a)) as [->|]; [done|]; apply H3; lia.
  - intros j Hj; destruct (decide (j = a)) as [->|]; [done|]; apply IH; lia.
Qed.

Lemma NoDup_zrange a n : NoDup (zrange a n).
Proof.
  revert a; induction n as [|n IH]; intros a; simpl; constructor; auto.
  rewrite elem_of_zrange; lia.
Qed.

(** Membership in lists built with [::] and [++], without search over the
    context. *)
Ltac elt :=
  rewrite ?elem_of_cons, ?elem_of_app, ?elem_of_cons, ?elem_of_app, ?elem_of_nil; tauto.
Ltac elt_in H :=
  rewrite ?not_elem_of_cons, ?not_elem_of_app, ?not_elem_of_cons, ?not_elem_of_app in H.
