(* ===== verification/KMonad.v ===== *)
(** * The kernel monad

    Kernel code is written in a state monad whose computations run on behalf of
    one kernel thread.  [ctx] is the thread's own context: the pid that
    [myproc()->pid] reads and the spinlocks the thread holds, innermost first.
    A computation ends in one of four ways: it returns, it calls [panic], it
    goes to [sleep] on a wait channel, or the fuel of one of its loops runs
    out.  [Ret] also carries the channels the computation passed to [wakeup].

    [acquire] and [release] work on the context: acquiring a lock the thread
    holds and releasing one it does not hold panic, as in [kernel/spinlock.c];
    [sleep] panics unless the condition lock is the only lock held, which is
    the test [sched()] makes on [noff].  What the locks guarantee between
    threads is the subject of [Spinlock.v]. *)

From S2P Require Import Prelude.

(** Spinlocks by identity.  A sleep lock owns a spinlock of its own. *)
Inductive lockid :=
| KMEM | BCACHE | LOGLOCK | ITABLE | FTABLE | WAITLOCK | PIDLOCK | TICKSLOCK
| CONSLOCK | TXLOCK | PRLOCK | VDISK
| PROCLOCK (i : Z) | PIPELOCK (pa : Z) | BUFLK (i : Z) | INODELK (i : Z).

#[global] Instance lockid_eq_dec : EqDecision lockid.
Proof. solve_decision. Defined.

(** Wait channels: the addresses the code sleeps on; [ChNone] for a process that
    gives up the CPU without waiting for an event. *)
Inductive wchan :=
| ChLog | ChSleepLock (lk : lockid) | ChPipeRead (pa : Z) | ChPipeWrite (pa : Z)
| ChProc (i : Z) | ChTicks | ChCons | ChBuf (i : Z) | ChDiskFree | ChTx
| ChNone.

#[global] Instance wchan_eq_dec : EqDecision wchan.
Proof. solve_decision. Defined.

Record ctx := Ctx { c_pid : Z; c_held : list lockid }.

Inductive out (S A : Type) : Type :=
| Ret (a : A) (c : ctx) (s : S) (w : list wchan)
| Panic (msg : string)
| Block (ch : wchan) (c : ctx) (s : S)
| Diverge.
Arguments Ret {S A}. Arguments Panic {S A}. Arguments Block {S A}. Arguments Diverge {S A}.

Definition M (S A : Type) : Type := ctx -> S -> out S A.

Section monad.
Context {S : Type}.

Definition ret {A} (a : A) : M S A := fun c s => Ret a c s [].

Definition bind {A B} (m : M S A) (k : A -> M S B) : M S B :=
  fun c s =>
    match m c s with
    | Ret a c' s' w =>
        match k a c' s' with
        | Ret b c'' s'' w' => Ret b c'' s'' (w ++ w')
        | o => o
        end
    | Panic e => Panic e
    | Block ch c' s' => Block ch c' s'
    | Diverge => Diverge
    end.

Definition panic {A} (msg : string) : M S A := fun _ _ => Panic msg.
Definition diverge {A} : M S A := fun _ _ => Diverge.
Definition get : M S S := fun c s => Ret s c s [].
Definition put (s : S) : M S unit := fun c _ => Ret tt c s [].
Definition gets {A} (f : S -> A) : M S A := fun c s => Ret (f s) c s [].
Definition modify (f : S -> S) : M S unit := fun c s => Ret tt c (f s) [].
Definition mypid : M S Z := fun c s => Ret (c_pid c) c s [].

(** [spinlock.c]: [acquire] panics when this CPU holds the lock, [release]
    when it does not. *)
Definition holding (lk : lockid) (c : ctx) : bool := bool_decide (lk ∈ c_held c).
Definition acquire (lk : lockid) : M S unit :=
  fun c s => if holding lk c then Panic "acquire"
             else Ret tt (Ctx (c_pid c) (lk :: c_held c)) s [].
Definition release (lk : lockid) : M S unit :=
  fun c s => if holding lk c
             then Ret tt (Ctx (c_pid c) (filter (.≠ lk) (c_held c))) s []
             else Panic "release".

(** [proc.c]: [sleep] releases the condition lock and enters [sched], which
    panics when another lock is still held. *)
Definition sleep {A} (ch : wchan) (lk : lockid) : M S A :=
  fun c s => if holding lk c
             then if bool_decide (c_held c = [lk]) then Block ch c s
                  else Panic "sched locks"
             else Panic "release".
Definition wakeup (ch : wchan) : M S unit := fun c s => Ret tt c s [ch].
End monad.

Declare Scope kernel_scope.
Delimit Scope kernel_scope with K.
Notation "'let!' x := m 'in' k" := (bind m (fun x => k))
  (at level 10, x pattern, m at level 100, k at level 200,
   format "'[v' 'let!'  x  :=  m  'in' '/' k ']'") : kernel_scope.
Notation "'do!' m ; k" := (bind m (fun _ : unit => k))
  (at level 10, m at level 100, k at level 200,
   format "'[v' 'do!'  m ; '/' k ']'") : kernel_scope.
Open Scope kernel_scope.

(** [for] loops over the values of their counter.  [for_each] runs to the end;
    [for_find] stops at the first value whose body returns [Some] (a [return] or
    [goto] inside the loop). *)
Fixpoint for_each {S X} (l : list X) (body : X -> M S unit) : M S unit :=
  match l with
  | [] => ret tt
  | x :: l => do! body x; for_each l body
  end.

Fixpoint for_find {S X R} (l : list X) (body : X -> M S (option R)) : M S (option R) :=
  match l with
  | [] => ret None
  | x :: l =>
      let! r := body x in
      match r with
      | Some v => ret (Some v)
      | None => for_find l body
      end
  end.

(** Running a computation on a part of a larger state. *)
Class Lens (T S : Type) := {
  lget : T -> S;
  lset : S -> T -> T;
  lget_lset : forall s t, lget (lset s t) = s;
  lset_lget : forall t, lset (lget t) t = t;
  lset_lset : forall s s' t, lset s (lset s' t) = lset s t
}.

Definition zoom {T S A} `{Lens T S} (m : M S A) : M T A :=
  fun c t =>
    match m c (lget t) with
    | Ret a c' s w => Ret a c' (lset s t) w
    | Panic e => Panic e
    | Block ch c' s => Block ch c' (lset s t)
    | Diverge => Diverge
    end.

(** ** Total correctness

    [wp m c s Φ]: run from [c] and [s], [m] returns and the result satisfies
    [Φ].  In particular it neither panics, blocks, nor runs out of fuel. *)
Definition wp {S A} (m : M S A) (c : ctx) (s : S) (Φ : A -> ctx -> S -> Prop) : Prop :=
  match m c s with
  | Ret a c' s' _ => Φ a c' s'
  | _ => False
  end.

(** [panics m c s msg]: the computation stops in [panic(msg)]. *)
Definition panics {S A} (m : M S A) (c : ctx) (s : S) (msg : string) : Prop :=
  m c s = Panic msg.

(** [wpb m c s Φ Ψ]: the computation returns with [Φ] or goes to sleep with [Ψ]. *)
Definition wpb {S A} (m : M S A) (c : ctx) (s : S) (Φ : A -> ctx -> S -> Prop) (Ψ : wchan -> ctx -> S -> Prop) : Prop :=
  match m c s with
  | Ret a c' s' _ => Φ a c' s'
  | Block ch c' s' => Ψ ch c' s'
  | _ => False
  end.

Definition blocks {S A} (m : M S A) (c : ctx) (s : S) (ch : wchan) : Prop :=
  match m c s with Block ch' _ _ => ch' = ch | _ => False end.

(** [wakes m c s ch]: the computation returns after [wakeup(ch)]. *)
Definition wakes {S A} (m : M S A) (c : ctx) (s : S) (ch : wchan) : Prop :=
  match m c s with Ret _ _ _ w => ch ∈ w | _ => False end.

Section wp.
Context {S : Type}.
Implicit Types (c : ctx) (s : S).

Lemma wp_mono {A} (m : M S A) c s (Φ Ψ : A -> ctx -> S -> Prop) :
  wp m c s Φ -> (forall a c' s', Φ a c' s' -> Ψ a c' s') -> wp m c s Ψ.
Proof. unfold wp; destruct (m c s); auto. Qed.

Lemma wp_conj {A} (m : M S A) c s (Φ Ψ : A -> ctx -> S -> Prop) :
  wp m c s Φ -> wp m c s Ψ -> wp m c s (fun a c' s' => Φ a c' s' /\ Ψ a c' s').
Proof. unfold wp; destruct (m c s); auto. Qed.

Lemma wp_ret {A} (a : A) c s (Φ : A -> ctx -> S -> Prop) : Φ a c s -> wp (ret a) c s Φ.
Proof. done. Qed.

Lemma wp_bind {A B} (m : M S A) (k : A -> M S B) c s Φ :
  wp m c s (fun a c' s' => wp (k a) c' s' Φ) -> wp (bind m k) c s Φ.
Proof.
  unfold wp, bind; destruct (m c s) as [a c' s' w| | |]; auto.
  destruct (k a c' s'); auto.
Qed.

Lemma wp_bind_inv {A B} (m : M S A) (k : A -> M S B) c s Φ :
  wp (bind m k) c s Φ -> wp m c s (fun a c' s' => wp (k a) c' s' Φ).
Proof.
  unfold wp, bind; destruct (m c s) as [a c' s' w| | |]; auto.
  destruct (k a c' s'); auto.
Qed.

Lemma wpb_wp {A} (m : M S A) c s Φ Ψ : wp m c s Φ -> wpb m c s Φ Ψ.
Proof. unfold wp, wpb; by destruct (m c s). Qed.

Lemma wpb_mono {A} (m : M S A) c s (Φ Φ' : A -> ctx -> S -> Prop) (Ψ Ψ' : wchan -> ctx -> S -> Prop) :
  wpb m c s Φ Ψ -> (forall a c' s', Φ a c' s' -> Φ' a c' s') -> (forall ch c' s', Ψ ch c' s' -> Ψ' ch c' s') ->
  wpb m c s Φ' Ψ'.
Proof. unfold wpb; destruct (m c s); auto. Qed.

Lemma wpb_bind {A B} (m : M S A) (k : A -> M S B) c s Φ Ψ :
  wp m c s (fun a c' s' => wpb (k a) c' s' Φ Ψ) -> wpb (bind m k) c s Φ Ψ.
Proof.
  unfold wp, wpb, bind; destruct (m c s) as [a c' s' w| | |]; try done; by destruct (k a c' s').
Qed.

Lemma wp_get c s (Φ : S -> ctx -> S -> Prop) : Φ s c s -> wp get c s Φ.
Proof. done. Qed.
Lemma wp_put s' c s (Φ : unit -> ctx -> S -> Prop) : Φ tt c s' -> wp (put s') c s Φ.
Proof. done. Qed.
Lemma wp_gets {A} (f : S -> A) c s Φ : Φ (f s) c s -> wp (gets f) c s Φ.
Proof. done. Qed.
Lemma wp_modify (f : S -> S) c s Φ : Φ tt c (f s) -> wp (modify f) c s Φ.
Proof. done. Qed.
Lemma wp_mypid c s (Φ : Z -> ctx -> S -> Prop) : Φ (c_pid c) c s -> wp mypid c s Φ.
Proof. done. Qed.
Lemma wp_wakeup ch c s (Φ : unit -> ctx -> S -> Prop) : Φ tt c s -> wp (wakeup ch) c s Φ.
Proof. done. Qed.

Lemma wp_acquire lk c s (Φ : unit -> ctx -> S -> Prop) :
  lk ∉ c_held c -> Φ tt (Ctx (c_pid c) (lk :: c_held c)) s -> wp (acquire lk) c s Φ.
Proof.
  intros Hn H; unfold wp, acquire, holding.
  by rewrite bool_decide_eq_false_2.
Qed.

Lemma filter_head_lock (lk : lockid) l : lk ∉ l -> filter (.≠ lk) (lk :: l) = l.
Proof.
  intros Hn; rewrite filter_cons_False by auto.
  induction l as [|x l IH]; [done|].
  apply not_elem_of_cons in Hn as [? ?]; rewrite filter_cons_True by auto.
  by rewrite IH.
Qed.

(** Releasing the lock acquired last, the usual case. *)
Lemma wp_release lk h c s (Φ : unit -> ctx -> S -> Prop) :
  c_held c = lk :: h -> lk ∉ h -> Φ tt (Ctx (c_pid c) h) s -> wp (release lk) c s Φ.
Proof.
  intros Hh Hn H; unfold wp, release, holding.
  rewrite bool_decide_eq_true_2 by (rewrite Hh; by left).
  by rewrite Hh, filter_head_lock.
Qed.

Lemma wp_for_each {X} (body : X -> M S unit) (I : list X -> ctx -> S -> Prop) l c s
    (Φ : unit -> ctx -> S -> Prop) :
  I l c s ->
  (forall x l' c' s', I (x :: l') c' s' ->
     wp (body x) c' s' (fun _ c'' s'' => I l' c'' s'')) ->
  (forall c' s', I [] c' s' -> Φ tt c' s') ->
  wp (for_each l body) c s Φ.
Proof.
  intros HI Hb HΦ; revert c s HI; induction l as [|x l IH]; intros c s HI; simpl.
  - apply wp_ret; auto.
  - apply wp_bind; eapply wp_mono; [by apply Hb|]; simpl; auto.
Qed.

Lemma wp_for_find {X R} (body : X -> M S (option R)) (I : list X -> ctx -> S -> Prop) l c s
    (Φ : option R -> ctx -> S -> Prop) :
  I l c s ->
  (forall x l' c' s', I (x :: l') c' s' ->
     wp (body x) c' s' (fun r c'' s'' =>
       match r with Some v => Φ (Some v) c'' s'' | None => I l' c'' s'' end)) ->
  (forall c' s', I [] c' s' -> Φ None c' s') ->
  wp (for_find l body) c s Φ.
Proof.
  intros HI Hb HΦ; revert c s HI; induction l as [|x l IH]; intros c s HI; simpl.
  - apply wp_ret; auto.
  - apply wp_bind; eapply wp_mono; [by apply Hb|]; simpl.
    intros [v|] c' s' H; [by apply wp_ret|auto].
Qed.
End wp.

Lemma wp_zoom {T S A} `{Lens T S} (m : M S A) c t (Φ : A -> ctx -> T -> Prop) :
  wp m c (lget t) (fun a c' s => Φ a c' (lset s t)) -> wp (zoom m) c t Φ.
Proof. unfold wp, zoom; destruct (m c (lget t)); auto. Qed.

Lemma bind_assoc {T A B C} (m : M T A) (f : A -> M T B) (g : B -> M T C) c s :
  bind (bind m f) g c s = bind m (fun x => bind (f x) g) c s.
Proof.
  unfold bind; destruct (m c s) as [a c1 s1 w1| | |]; auto; destruct (f a c1 s1) as [b c2 s2 w2| | |]; auto.
  destruct (g b c2 s2); auto; by rewrite app_assoc.
Qed.

Lemma bind_assoc_wp {T A B C} (m : M T A) (f : A -> M T B) (g : B -> M T C) c s Φ :
  wp (let! y := (let! x := m in f x) in g y) c s Φ -> wp (let! x := m in let! y := f x in g y) c s Φ.
Proof.
  unfold wp, bind; destruct (m c s) as [a c1 s1 w1| | |]; auto.
  destruct (f a c1 s1) as [b c2 s2 w2| | |]; auto; by destruct (g b c2 s2).
Qed.

Lemma wp_run {T A} (m : M T A) c s Φ :
  wp m c s Φ -> exists s', wp m c s (fun _ _ s'' => s'' = s') /\ exists a c', Φ a c' s'.
Proof. unfold wp; destruct (m c s) as [a c' s' w| | |]; try done; intros H; exists s'; eauto. Qed.

Lemma wp_panics {T A B} (m : M T A) (k : A -> M T B) c s e :
  wp m c s (fun a c' s' => panics (k a) c' s' e) -> panics (bind m k) c s e.
Proof. unfold wp, panics, bind; destruct (m c s); [|done..]; by intros ->. Qed.

(** Runs that end in a panic. *)
Lemma bind_panic {T A B} (m : M T A) (f : A -> M T B) c s e :
  m c s = Panic e -> bind m f c s = Panic e.
Proof. unfold bind; by intros ->. Qed.
Lemma bind_ret_panic {T A B} (m : M T A) (f : A -> M T B) c s a c' s' w e :
  m c s = Ret a c' s' w -> f a c' s' = Panic e -> bind m f c s = Panic e.
Proof. unfold bind; by intros -> ->. Qed.
Lemma acquire_ret {T} lk c (s : T) :
  lk ∉ c_held c -> acquire lk c s = Ret tt (Ctx (c_pid c) (lk :: c_held c)) s [].
Proof. intros H; unfold acquire, holding; by rewrite bool_decide_eq_false_2. Qed.
Lemma zoom_panic {T S A} `{Lens T S} (m : M S A) c t e :
  m c (lget t) = Panic e -> zoom m c t = Panic e.
Proof. unfold zoom; by intros ->. Qed.

(** A counting loop, with an invariant indexed by the counter. *)
Lemma wp_for_range {T} (n : Z) (body : Z -> M T unit) (I : Z -> ctx -> T -> Prop) c s
    (Φ : unit -> ctx -> T -> Prop) :
  0 <= n -> I 0 c s ->
  (forall k c' s', 0 <= k < n -> I k c' s' -> wp (body k) c' s' (fun _ c'' s'' => I (k + 1) c'' s'')) ->
  (forall c' s', I n c' s' -> Φ tt c' s') ->
  wp (for_each (zrange 0 (Z.to_nat n)) body) c s Φ.
Proof.
  intros Hn H0 Hb HΦ.
  apply (wp_for_each _ (fun l c s => exists k, 0 <= k <= n /\ l = zrange k (Z.to_nat (n - k)) /\ I k c s)).
  - exists 0; rewrite Z.sub_0_r; auto with lia.
  - intros x l c' s' (k & Hk & El & HI).
    assert (k <> n) by (intros ->; rewrite Z.sub_diag in El; done).
    replace (Z.to_nat (n - k)) with (S (Z.to_nat (n - (k + 1)))) in El by lia.
    injection El as -> ->; eapply wp_mono; [apply Hb; auto; lia|].
    intros ? c'' s'' HI'; exists (k + 1); auto with lia.
  - intros c' s' (k & Hk & El & HI); apply HΦ; destruct (decide (k = n)) as [->|]; [done|].
    replace (Z.to_nat (n - k)) with (S (Z.to_nat (n - (k + 1)))) in El by lia; done.
Qed.

Lemma wp_find_range {T R} (a n : Z) (body : Z -> M T (option R)) (I : Z -> ctx -> T -> Prop) c s
    (Φ : option R -> ctx -> T -> Prop) :
  0 <= n -> I a c s ->
  (forall k c' s', a <= k < a + n -> I k c' s' ->
     wp (body k) c' s' (fun r c'' s'' => match r with Some v => Φ (Some v) c'' s'' | None => I (k + 1) c'' s'' end)) ->
  (forall c' s', I (a + n) c' s' -> Φ None c' s') ->
  wp (for_find (zrange a (Z.to_nat n)) body) c s Φ.
Proof.
  intros Hn H0 Hb HΦ.
  apply (wp_for_find _ (fun l c s => exists k, a <= k <= a + n /\ l = zrange k (Z.to_nat (a + n - k)) /\ I k c s)).
  - exists a; split_and!; [lia|lia|f_equal; lia|done].
  - intros x l' c' s' (k & Hk & E & HI).
    destruct (Z.to_nat (a + n - k)) as [|j] eqn:Ej; cbn [zrange] in E; [done|]; injection E as -> ->.
    eapply wp_mono; [apply Hb; [lia|done]|]; intros [v|] c'' s'' H; [done|].
    exists (k + 1); split_and!; [lia|lia|f_equal; lia|done].
  - intros c' s' (k & Hk & E & HI); apply HΦ; replace (a + n) with k; [done|].
    destruct (Z.to_nat (a + n - k)) as [|j] eqn:Ej; [lia|done].
Qed.

(** [wp_step] applies the rule of the first primitive of the goal; [lock_tac]
    closes the side conditions of the lock rules. *)
Ltac lock_tac :=
  simpl in *; rewrite ?elem_of_cons, ?elem_of_nil; try (intuition congruence); set_solver.

Ltac wp_step :=
  lazymatch goal with
  | |- wp (bind _ _) _ _ _ => apply wp_bind
  | |- wp (ret _) _ _ _ => apply wp_ret
  | |- wp get _ _ _ => apply wp_get
  | |- wp (put _) _ _ _ => apply wp_put
  | |- wp (gets _) _ _ _ => apply wp_gets
  | |- wp (modify _) _ _ _ => apply wp_modify
  | |- wp mypid _ _ _ => apply wp_mypid
  | |- wp (wakeup _) _ _ _ => apply wp_wakeup
  | |- wp (acquire _) _ _ _ => apply wp_acquire; [try solve [lock_tac]|]
  | |- wp (release _) _ _ _ =>
      eapply wp_release; [reflexivity | try solve [lock_tac] |]
  end; cbn [c_pid c_held].
Ltac wp_steps := repeat wp_step.

Create HintDb xv6.
