(* ===== verification/Memory.v ===== *)
(** * Physical memory and [kernel/string.c]

    The kernel runs with a direct map, so a kernel pointer is a physical
    address.  [mem] maps an address to the byte stored there; an address that
    was never written reads as zero.  The functions of [string.c] that write
    memory are loops over [mem]; those that only read take each [const char *]
    argument as the function from an offset to the byte at that offset, so that
    they apply to memory and to arrays alike. *)

From S2P Require Import Prelude.

Abbreviation mem := (gmap Z Z).

Definition rd (m : mem) (a : Z) : Z := default 0 (m !! a).
Definition wr (m : mem) (a v : Z) : mem := <[a := u8 v]> m.

Lemma rd_wr_eq m a v : rd (wr m a v) a = u8 v.
Proof. unfold rd, wr; by rewrite lookup_insert_eq. Qed.
Lemma rd_wr_ne m a b v : a <> b -> rd (wr m a v) b = rd m b.
Proof. intros; unfold rd, wr; by rewrite lookup_insert_ne. Qed.
Lemma rd_wr m a b v : rd (wr m a v) b = if decide (a = b) then u8 v else rd m b.
Proof. case_decide; subst; [apply rd_wr_eq|by apply rd_wr_ne]. Qed.

(** Every stored value is a byte; [wr] keeps it so. *)
Definition mem_ok (m : mem) : Prop := forall a, byte_ok (rd m a).

Lemma mem_ok_empty : mem_ok ∅.
Proof. intros a; unfold rd; rewrite lookup_empty; unfold byte_ok; simpl; lia. Qed.
Lemma mem_ok_wr m a v : mem_ok m -> mem_ok (wr m a v).
Proof. intros Hm b; rewrite rd_wr; case_decide; [unfold byte_ok; apply u8_range|apply Hm]. Qed.

(** A run of bytes. *)
Definition rdn (m : mem) (a : Z) (n : nat) : list Z := map (rd m) (zrange a n).
Fixpoint wrn (m : mem) (a : Z) (l : list Z) : mem :=
  match l with
  | [] => m
  | b :: l => wrn (wr m a b) (a + 1) l
  end.

(** 64-bit loads and stores. *)
Definition rd64 (m : mem) (a : Z) : Z := le_val (rdn m a 8).
Definition wr64 (m : mem) (a v : Z) : mem := wrn m a (le_bytes 8 v).

Lemma length_rdn m a n : length (rdn m a n) = n.
Proof. unfold rdn; by rewrite length_map, length_zrange. Qed.

Lemma rdn_S m a n : rdn m a (S n) = rd m a :: rdn m (a + 1) n.
Proof. done. Qed.

Lemma rdn_ext m m' a n :
  (forall x, a <= x < a + Z.of_nat n -> rd m' x = rd m x) -> rdn m' a n = rdn m a n.
Proof.
  revert a; induction n as [|n IH]; intros a H; [done|].
  rewrite !rdn_S; f_equal; [apply H; lia|apply IH; intros; apply H; lia].
Qed.

Lemma rdn_lookup m a n i :
  (i < n)%nat -> rdn m a n !! i = Some (rd m (a + Z.of_nat i)).
Proof.
  revert a i; induction n as [|n IH]; intros a i Hi; [lia|].
  rewrite rdn_S; destruct i as [|i]; simpl.
  - do 2 f_equal; lia.
  - rewrite IH by lia; do 2 f_equal; lia.
Qed.

Lemma rdn_ok m a n : mem_ok m -> Forall byte_ok (rdn m a n).
Proof. intros Hm; unfold rdn; apply Forall_map, Forall_true; intros x; apply Hm. Qed.

Lemma rd_wrn_out m a l x :
  x < a \/ a + Z.of_nat (length l) <= x -> rd (wrn m a l) x = rd m x.
Proof.
  revert m a; induction l as [|b l IH]; intros m a Hx; [done|].
  cbn [wrn]; cbn [length] in Hx; rewrite IH by lia; apply rd_wr_ne; lia.
Qed.

Lemma rd_wrn_in m a l i b :
  l !! i = Some b -> rd (wrn m a l) (a + Z.of_nat i) = u8 b.
Proof.
  revert m a i; induction l as [|b' l IH]; intros m a i Hi; [done|].
  destruct i as [|i]; cbn [wrn].
  - simpl in Hi; injection Hi as ->.
    rewrite rd_wrn_out by lia; rewrite Z.add_0_r; apply rd_wr_eq.
  - replace (a + Z.of_nat (S i)) with (a + 1 + Z.of_nat i) by lia; by apply IH.
Qed.

Lemma rdn_wrn m a l : Forall byte_ok l -> rdn (wrn m a l) a (length l) = l.
Proof.
  intros Hl; apply list_eq; intros i.
  destruct (decide (i < length l)%nat) as [Hi|Hi].
  - rewrite rdn_lookup by done.
    destruct (lookup_lt_is_Some_2 l i Hi) as [b Hb]; rewrite Hb.
    rewrite (rd_wrn_in _ _ _ _ _ Hb); f_equal.
    apply u8_small; exact (Forall_lookup_1 _ _ _ _ Hl Hb).
  - rewrite !lookup_ge_None_2; [done|lia|rewrite length_rdn; lia].
Qed.

Lemma mem_ok_wrn m a l : mem_ok m -> mem_ok (wrn m a l).
Proof. revert m a; induction l; intros; simpl; auto using mem_ok_wr. Qed.
Lemma mem_ok_wr64 m a v : mem_ok m -> mem_ok (wr64 m a v).
Proof. apply mem_ok_wrn. Qed.

Lemma rd64_wr64_eq m a v : rd64 (wr64 m a v) a = u64 v.
Proof.
  unfold rd64, wr64.
  rewrite <- (length_le_bytes 8 v) at 2.
  rewrite rdn_wrn by apply le_bytes_ok.
  rewrite le_val_le_bytes; done.
Qed.

Lemma rd_wr64_out m a v x : x < a \/ a + 8 <= x -> rd (wr64 m a v) x = rd m x.
Proof. intros; unfold wr64; apply rd_wrn_out; rewrite length_le_bytes; lia. Qed.

Lemma rd_wr64_zero m a x : a <= x < a + 8 -> rd (wr64 m a 0) x = 0.
Proof.
  intros Hx; unfold wr64; replace x with (a + Z.of_nat (Z.to_nat (x - a))) by lia.
  rewrite (rd_wrn_in _ _ _ _ 0); [done|]; assert (Z.to_nat (x - a) < 8)%nat as Hk by lia; revert Hk; generalize (Z.to_nat (x - a)).
  intros k Hk; do 8 (destruct k as [|k]; [done|]); lia.
Qed.

Lemma rd64_ext m m' a :
  (forall x, a <= x < a + 8 -> rd m' x = rd m x) -> rd64 m' a = rd64 m a.
Proof. intros H; unfold rd64; f_equal; apply rdn_ext; intros; apply H; lia. Qed.

Lemma rd64_wr64_ne m a b v : b + 8 <= a \/ a + 8 <= b -> rd64 (wr64 m a v) b = rd64 m b.
Proof. intros; apply rd64_ext; intros; apply rd_wr64_out; lia. Qed.

Lemma rd64_range m a : mem_ok m -> 0 <= rd64 m a < 2 ^ 64.
Proof.
  intros Hm; unfold rd64; pose proof (le_val_bound (rdn m a 8) (rdn_ok _ _ _ Hm)) as H.
  rewrite length_rdn in H; exact H.
Qed.

(** ** [memset], [memmove], [memcpy] *)

Fixpoint memset_loop (dst c i : Z) (k : nat) (m : mem) : mem :=
  match k with
  | O => m
  | S k => memset_loop dst c (i + 1) k (wr m (dst + i) c)
  end.

Definition memset (dst c n : Z) (m : mem) : mem :=
  memset_loop dst c 0 (Z.to_nat n) m.

(** [*d++ = *s++], [k] times. *)
Fixpoint copy_forward (d s : Z) (k : nat) (m : mem) : mem :=
  match k with
  | O => m
  | S k => copy_forward (d + 1) (s + 1) k (wr m d (rd m s))
  end.

(** [*--d = *--s], [k] times. *)
Fixpoint copy_backward (d s : Z) (k : nat) (m : mem) : mem :=
  match k with
  | O => m
  | S k => copy_backward (d - 1) (s - 1) k (wr m (d - 1) (rd m (s - 1)))
  end.

Definition memmove (dst src n : Z) (m : mem) : mem :=
  if n =? 0 then m
  else if (src <? dst) && (dst <? src + n)
  then copy_backward (dst + n) (src + n) (Z.to_nat n) m
  else copy_forward dst src (Z.to_nat n) m.

Definition memcpy (dst src n : Z) (m : mem) : mem := memmove dst src n m.

Lemma rd_memset_loop dst c i k m x :
  rd (memset_loop dst c i k m) x =
  if decide (dst + i <= x < dst + i + Z.of_nat k) then u8 c else rd m x.
Proof.
  revert i m; induction k as [|k IH]; intros i m; cbn [memset_loop].
  - case_decide; [lia|done].
  - rewrite IH, rd_wr; repeat case_decide; try lia; done.
Qed.

Lemma rd_memset dst c n m x :
  0 <= n -> rd (memset dst c n m) x = if decide (dst <= x < dst + n) then u8 c else rd m x.
Proof.
  intros; unfold memset; rewrite rd_memset_loop; repeat case_decide; try lia; done.
Qed.

Lemma mem_ok_memset dst c n m : mem_ok m -> mem_ok (memset dst c n m).
Proof.
  intros Hm x; unfold memset; rewrite rd_memset_loop.
  case_decide; [apply u8_range|apply Hm].
Qed.

Lemma rd_copy_forward d s k m x :
  mem_ok m -> d <= s \/ s + Z.of_nat k <= d ->
  rd (copy_forward d s k m) x =
  if decide (d <= x < d + Z.of_nat k) then rd m (s + (x - d)) else rd m x.
Proof.
  revert d s m; induction k as [|k IH]; intros d s m Hm Hd; cbn [copy_forward].
  - case_decide; [lia|done].
  - rewrite IH by (auto using mem_ok_wr; lia); rewrite !rd_wr, u8_small by apply Hm.
    repeat case_decide; try lia; f_equal; lia.
Qed.

Lemma rd_copy_backward d s k m x :
  mem_ok m -> s <= d ->
  rd (copy_backward d s k m) x =
  if decide (d - Z.of_nat k <= x < d) then rd m (s - (d - x)) else rd m x.
Proof.
  revert d s m; induction k as [|k IH]; intros d s m Hm Hd; cbn [copy_backward].
  - case_decide; [lia|done].
  - rewrite IH by (auto using mem_ok_wr; lia); rewrite !rd_wr, u8_small by apply Hm.
    repeat case_decide; try lia; f_equal; lia.
Qed.

(** [memmove] copies correctly however the two ranges overlap. *)
Lemma rd_memmove dst src n m x :
  mem_ok m -> 0 <= n ->
  rd (memmove dst src n m) x =
  if decide (dst <= x < dst + n) then rd m (src + (x - dst)) else rd m x.
Proof.
  intros Hm Hn; unfold memmove.
  destruct (Z.eqb_spec n 0) as [->|Hn0]; [case_decide; [lia|done]|].
  destruct (Z.ltb_spec src dst); simpl; [destruct (Z.ltb_spec dst (src + n))|].
  - rewrite rd_copy_backward by (auto; lia); repeat case_decide; try lia; f_equal; lia.
  - rewrite rd_copy_forward by (auto; lia); repeat case_decide; try lia; f_equal; lia.
  - rewrite rd_copy_forward by (auto; lia); repeat case_decide; try lia; f_equal; lia.
Qed.

Lemma mem_ok_memmove dst src n m : mem_ok m -> 0 <= n -> mem_ok (memmove dst src n m).
Proof. intros Hm Hn x; rewrite rd_memmove by done; case_decide; apply Hm. Qed.

(** A memory equivalence coarser than equality: the same byte everywhere.
    ([rd] does not see whether a zero byte was written or never touched.) *)
Definition mem_eq (m m' : mem) : Prop := forall a, rd m a = rd m' a.
#[global] Instance mem_eq_equiv : Equivalence mem_eq.
Proof.
  split; unfold mem_eq; [by intros m a | by intros m m' H a |].
  by intros m1 m2 m3 H1 H2 a; rewrite H1.
Qed.
#[global] Instance rd_proper : Proper (mem_eq ==> eq ==> eq) rd.
Proof. intros m m' H a b <-; apply H. Qed.
#[global] Instance wr_proper : Proper (mem_eq ==> eq ==> eq ==> mem_eq) wr.
Proof. intros m m' H a b <- v v' <- x; rewrite !rd_wr; by case_decide. Qed.
#[global] Instance rd64_proper : Proper (mem_eq ==> eq ==> eq) rd64.
Proof. intros m m' H a b <-; symmetry; apply rd64_ext; intros; symmetry; apply H. Qed.

#[export] Hint Resolve mem_ok_wr mem_ok_wrn mem_ok_wr64 mem_ok_memset mem_ok_memmove : core.

Arguments rdn : simpl never.
Arguments wrn : simpl never.
Arguments rd64 : simpl never.
Arguments wr64 : simpl never.
Arguments memset : simpl never.
Arguments memmove : simpl never.
#[global] Opaque memset memmove wr64 rd64.
