(* ===== verification/Riscv.v ===== *)
(** * [kernel/riscv.h], [kernel/memlayout.h] and [kernel/param.h]

    The constants and the bit-level macros for pages, page-table entries and
    virtual addresses, with the arithmetic facts the memory code relies on. *)

From S2P Require Import Prelude.

Definition PGSIZE : Z := 4096.
Definition PGSHIFT : Z := 12.
Definition PGROUNDUP (sz : Z) : Z := Z.land (u64 (sz + PGSIZE - 1)) (u64 (Z.lnot (PGSIZE - 1))).
Definition PGROUNDDOWN (a : Z) : Z := Z.land a (u64 (Z.lnot (PGSIZE - 1))).

Definition PTE_V : Z := Z.shiftl 1 0.
Definition PTE_R : Z := Z.shiftl 1 1.
Definition PTE_W : Z := Z.shiftl 1 2.
Definition PTE_X : Z := Z.shiftl 1 3.
Definition PTE_U : Z := Z.shiftl 1 4.

Definition PA2PTE (pa : Z) : Z := u64 (Z.shiftl (Z.shiftr pa 12) 10).
Definition PTE2PA (pte : Z) : Z := u64 (Z.shiftl (Z.shiftr pte 10) 12).
Definition PTE_FLAGS (pte : Z) : Z := Z.land pte 1023.

Definition PXMASK : Z := 511.
Definition PXSHIFT (level : Z) : Z := PGSHIFT + 9 * level.
Definition PX (level va : Z) : Z := Z.land (Z.shiftr va (PXSHIFT level)) PXMASK.
Definition MAXVA : Z := Z.shiftl 1 (9 + 9 + 9 + 12 - 1).

Definition SATP_SV39 : Z := Z.shiftl 8 60.
Definition MAKE_SATP (pagetable : Z) : Z := Z.lor SATP_SV39 (Z.shiftr pagetable 12).

(** [memlayout.h] *)
Definition UART0 : Z := 268435456.
Definition VIRTIO0 : Z := 268439552.
Definition PLIC : Z := 201326592.
Definition KERNBASE : Z := 2147483648.
Definition PHYSTOP : Z := KERNBASE + 128 * 1024 * 1024.
Definition TRAMPOLINE : Z := MAXVA - PGSIZE.
Definition KSTACK (p : Z) : Z := TRAMPOLINE - (p + 1) * 2 * PGSIZE.
Definition TRAPFRAME : Z := TRAMPOLINE - PGSIZE.

(** [param.h], as configured by [conf/lab.mk] ([LAB=util]). *)
Definition NPROC : Z := 64.
Definition NCPU : Z := 8.
Definition NOFILE : Z := 16.
Definition NFILE : Z := 100.
Definition NINODE : Z := 50.
Definition NDEV : Z := 10.
Definition ROOTDEV : Z := 1.
Definition MAXARG : Z := 32.
Definition MAXOPBLOCKS : Z := 10.
Definition LOGBLOCKS : Z := MAXOPBLOCKS * 3.
Definition NBUF : Z := MAXOPBLOCKS * 3.
Definition FSSIZE : Z := 2000.
Definition MAXPATH : Z := 128.
Definition USERSTACK : Z := 2.

(** Clearing the low bits of a word. *)
Lemma land_lnot_low a n : 0 <= n -> Z.land a (Z.lnot (2 ^ n - 1)) = a - a mod 2 ^ n.
Proof.
  intros Hn; pose proof (Z.pow_pos_nonneg 2 n ltac:(lia) Hn).
  rewrite <- Z.ldiff_land, Z.sub_1_r, <- Z.ones_equiv, Z.ldiff_ones_r by done.
  rewrite Z.shiftl_mul_pow2, Z.shiftr_div_pow2 by done.
  pose proof (Z.div_mod a (2 ^ n) ltac:(lia)); lia.
Qed.

Lemma land_u64_r a b : 0 <= a < 2 ^ 64 -> Z.land a (u64 b) = Z.land a b.
Proof.
  intros Ha; unfold u64; rewrite <- Z.land_ones by lia.
  rewrite (Z.land_comm b), Z.land_assoc, Z.land_ones, Z.mod_small by lia; done.
Qed.

(** Filling the low bits of a word whose low bits are clear. *)
Lemma land_low_disjoint x fl n : 0 <= n -> 0 <= fl < 2 ^ n -> Z.land (x * 2 ^ n) fl = 0.
Proof.
  intros Hn Hfl; rewrite <- (Z.mod_small fl (2 ^ n)), <- Z.land_ones by done.
  rewrite (Z.land_comm fl), Z.land_assoc, Z.land_ones by done.
  rewrite Z_mod_mult; apply Z.land_0_l.
Qed.

Lemma lor_low x fl n : 0 <= n -> 0 <= fl < 2 ^ n -> Z.lor (x * 2 ^ n) fl = x * 2 ^ n + fl.
Proof.
  intros; pose proof (Z.add_lor_land (x * 2 ^ n) fl) as E.
  rewrite land_low_disjoint in E by done; lia.
Qed.

Lemma PGROUNDDOWN_eq a : 0 <= a < 2 ^ 64 -> PGROUNDDOWN a = a - a mod 4096.
Proof.
  intros; unfold PGROUNDDOWN, PGSIZE; rewrite land_u64_r by done.
  change (4096 - 1) with (2 ^ 12 - 1); by rewrite land_lnot_low by lia.
Qed.

Lemma PGROUNDUP_eq a :
  0 <= a <= 2 ^ 64 - 4096 -> PGROUNDUP a = (a + 4095) - (a + 4095) mod 4096.
Proof.
  intros; unfold PGROUNDUP, PGSIZE; rewrite u64_small by lia.
  rewrite land_u64_r by lia; change (4096 - 1) with (2 ^ 12 - 1).
  rewrite land_lnot_low by lia; change (2 ^ 12) with 4096.
  replace (a + 4096 - 1) with (a + 4095) by lia; done.
Qed.

Lemma PA2PTE_eq pa : 0 <= pa < 2 ^ 56 -> PA2PTE pa = pa / 4096 * 1024.
Proof.
  intros; unfold PA2PTE; rewrite Z.shiftl_mul_pow2, Z.shiftr_div_pow2 by lia.
  change (2 ^ 12) with 4096; change (2 ^ 10) with 1024.
  apply u64_small; pose proof (Z.div_pos pa 4096); pose proof (Z.div_lt_upper_bound pa 4096 (2 ^ 44)).
  lia.
Qed.

(** A page-aligned address with flag bits below bit 10 survives the trip through
    a page-table entry. *)
Lemma PTE2PA_PA2PTE pa fl :
  0 <= pa < 2 ^ 56 -> pa mod 4096 = 0 -> 0 <= fl < 1024 ->
  PTE2PA (Z.lor (PA2PTE pa) fl) = pa.
Proof.
  intros Hpa Hal Hfl; rewrite PA2PTE_eq by done.
  change 1024 with (2 ^ 10) in *; rewrite lor_low by lia.
  unfold PTE2PA; rewrite Z.shiftl_mul_pow2, Z.shiftr_div_pow2 by lia.
  change (2 ^ 10) with 1024; change (2 ^ 12) with 4096.
  rewrite Z.div_add_l, (Z.div_small fl) by lia.
  rewrite u64_small; pose proof (Z.div_mod pa 4096 ltac:(lia)); lia.
Qed.

Lemma lor_range a b n : 0 <= n -> 0 <= a < 2 ^ n -> 0 <= b < 2 ^ n -> 0 <= Z.lor a b < 2 ^ n.
Proof.
  intros Hn Ha Hb; rewrite <- (Z.mod_small a (2 ^ n)), <- (Z.mod_small b (2 ^ n)) by done.
  rewrite <- !Z.land_ones, <- Z.land_lor_distr_l, Z.land_ones by done.
  apply Z.mod_pos_bound; lia.
Qed.

(** An entry of a leaf page table: the page, the permissions, the valid bit. *)
Definition leaf_pte (pa perm : Z) : Z := Z.lor (Z.lor (PA2PTE pa) perm) PTE_V.

Lemma leaf_pte_eq pa perm :
  0 <= pa < 2 ^ 56 -> 0 <= perm < 1024 -> leaf_pte pa perm = pa / 4096 * 1024 + Z.lor perm PTE_V.
Proof.
  intros; unfold leaf_pte; rewrite <- Z.lor_assoc, PA2PTE_eq by done.
  change 1024 with (2 ^ 10) in *; rewrite lor_low; [done|lia|].
  apply lor_range; [lia|done|change PTE_V with 1; lia].
Qed.

Lemma leaf_pte_range pa perm :
  0 <= pa < 2 ^ 56 -> 0 <= perm < 1024 -> 0 <= leaf_pte pa perm < 2 ^ 64.
Proof.
  intros; rewrite leaf_pte_eq by done.
  assert (0 <= Z.lor perm PTE_V < 2 ^ 10) by (apply lor_range; [lia|done|change PTE_V with 1; lia]).
  pose proof (Z.div_lt_upper_bound pa 4096 (2 ^ 44)); pose proof (Z.div_pos pa 4096); lia.
Qed.

Lemma leaf_pte_pa pa perm :
  0 <= pa < 2 ^ 56 -> pa mod 4096 = 0 -> 0 <= perm < 1024 -> PTE2PA (leaf_pte pa perm) = pa.
Proof.
  intros; unfold leaf_pte; rewrite <- Z.lor_assoc; apply PTE2PA_PA2PTE; auto.
  change 1024 with (2 ^ 10); apply lor_range; [lia|done|change PTE_V with 1; lia].
Qed.

Lemma leaf_pte_flags pa perm :
  0 <= pa < 2 ^ 56 -> 0 <= perm < 1024 -> PTE_FLAGS (leaf_pte pa perm) = Z.lor perm PTE_V.
Proof.
  intros; rewrite leaf_pte_eq by done; unfold PTE_FLAGS; change 1023 with (Z.ones 10).
  assert (0 <= Z.lor perm PTE_V < 2 ^ 10) by (apply lor_range; [lia|done|change PTE_V with 1; lia]).
  rewrite Z.land_ones, Z.add_comm by lia; change (2 ^ 10) with 1024 in *.
  by rewrite Z_mod_plus_full, Z.mod_small.
Qed.

(** Flag tests on an entry look at its low ten bits. *)
Lemma land_flags v fl : 0 <= fl < 1024 -> Z.land v fl = Z.land (PTE_FLAGS v) fl.
Proof.
  intros; unfold PTE_FLAGS; rewrite <- Z.land_assoc; f_equal; rewrite Z.land_comm.
  change 1023 with (Z.ones 10); rewrite Z.land_ones by lia; by rewrite Z.mod_small.
Qed.
