(* ===== verification/Kalloc.v ===== *)
(** * The physical page allocator, [kernel/kalloc.c]

    The free list is threaded through the free pages themselves: the first eight
    bytes of a free page hold the address of the next one.  [free_rep] relates a
    memory and a list head to the list of free pages it denotes, and the
    operations are shown to be push and pop on that list. *)

From S2P Require Import Prelude KMonad Memory Riscv.

(** Addresses the linker script provides. *)
Class KernelLayout := {
  kend : Z;
  etext : Z;
  trampoline : Z;
  kend_range : KERNBASE <= kend <= PHYSTOP;
  etext_range : KERNBASE < etext <= kend;
  etext_aligned : etext mod PGSIZE = 0;
  trampoline_range : KERNBASE <= trampoline < etext;
  trampoline_aligned : trampoline mod PGSIZE = 0
}.

Record kmem := Kmem { k_mem : mem; k_freelist : Z }.

Definition set_mem (m : mem) (s : kmem) : kmem := Kmem m (k_freelist s).
Definition set_freelist (r : Z) (s : kmem) : kmem := Kmem (k_mem s) r.
Definition mod_mem (f : mem -> mem) : M kmem unit := modify (fun s => set_mem (f (k_mem s)) s).

Section kalloc.
Context {L : KernelLayout}.

Definition kfree (pa : Z) : M kmem unit :=
  if negb (pa mod PGSIZE =? 0) || (pa <? kend) || (PHYSTOP <=? pa)
  then panic "kfree"
  else
    do! mod_mem (memset pa 1 PGSIZE);
    do! acquire KMEM;
    let! head := gets k_freelist in
    do! mod_mem (fun m => wr64 m pa head);
    do! modify (set_freelist pa);
    release KMEM.

Definition kalloc : M kmem Z :=
  do! acquire KMEM;
  let! r := gets k_freelist in
  do! (if r =? 0 then ret tt
       else modify (fun s => set_freelist (rd64 (k_mem s) r) s));
  do! release KMEM;
  do! (if r =? 0 then ret tt else mod_mem (memset r 5 PGSIZE));
  ret r.

Fixpoint freerange_loop (fuel : nat) (p pa_end : Z) : M kmem unit :=
  match fuel with
  | O => diverge
  | S fuel =>
      if p + PGSIZE <=? pa_end
      then do! kfree p; freerange_loop fuel (p + PGSIZE) pa_end
      else ret tt
  end.

Definition freerange (pa_start pa_end : Z) : M kmem unit :=
  freerange_loop (S (Z.to_nat (pa_end / PGSIZE))) (PGROUNDUP pa_start) pa_end.

Definition kinit : M kmem unit := freerange kend PHYSTOP.

(** ** Representation *)

Definition page_ok (pa : Z) : Prop :=
  pa mod 4096 = 0 /\ kend <= pa /\ pa < PHYSTOP.

Fixpoint free_rep (m : mem) (head : Z) (l : list Z) : Prop :=
  match l with
  | [] => head = 0
  | pa :: l => head = pa /\ free_rep m (rd64 m pa) l
  end.

Record kalloc_inv (s : kmem) (l : list Z) : Prop := {
  ki_mem : mem_ok (k_mem s);
  ki_rep : free_rep (k_mem s) (k_freelist s) l;
  ki_nodup : NoDup l;
  ki_pages : Forall page_ok l
}.

(** [m'] differs from [m] at most inside the page at [pa]. *)
Definition only_page (pa : Z) (m m' : mem) : Prop :=
  forall x, x < pa \/ pa + 4096 <= x -> rd m' x = rd m x.

Lemma page_ok_bounds pa : page_ok pa -> 0 < pa /\ pa + 4096 <= PHYSTOP /\ pa < 2 ^ 32.
Proof.
  intros (Hal & Hlo & Hhi); pose proof kend_range; unfold PHYSTOP, KERNBASE in *.
  pose proof (Z.div_mod pa 4096 ltac:(lia)); lia.
Qed.

Lemma pages_disjoint p q :
  p mod 4096 = 0 -> q mod 4096 = 0 -> p <> q -> p + 4096 <= q \/ q + 4096 <= p.
Proof.
  intros; pose proof (Z.div_mod p 4096 ltac:(lia)); pose proof (Z.div_mod q 4096 ltac:(lia)).
  lia.
Qed.

(** The free list only depends on the free pages. *)
Lemma free_rep_frame m m' head l :
  (forall pa, pa ∈ l -> forall x, pa <= x < pa + 8 -> rd m' x = rd m x) ->
  free_rep m head l -> free_rep m' head l.
Proof.
  revert head; induction l as [|pa l IH]; intros head Hf; simpl; [done|].
  intros [-> Hrep]; split; [done|].
  rewrite (rd64_ext m m') by (apply Hf; by left).
  apply IH; [intros; apply (Hf pa0); [by right|done]|done].
Qed.

Lemma free_rep_only_page m m' pa head l :
  only_page pa m m' -> pa mod 4096 = 0 -> Forall page_ok l -> pa ∉ l ->
  free_rep m head l -> free_rep m' head l.
Proof.
  intros Ho Hal Hl Hn; apply free_rep_frame; intros q Hq x Hx; apply Ho.
  rewrite Forall_forall in Hl; destruct (Hl q Hq) as [Hq' _].
  destruct (pages_disjoint pa q); [done|done|congruence|lia|lia].
Qed.

Lemma kfree_spec pa l c s :
  kalloc_inv s l -> page_ok pa -> pa ∉ l -> KMEM ∉ c_held c ->
  wp (kfree pa) c s (fun _ c' s' =>
    c' = c /\ kalloc_inv s' (pa :: l) /\ only_page pa (k_mem s) (k_mem s')).
Proof.
  intros [Hm Hrep Hnd Hpg] Hpa Hn Hlk; pose proof (page_ok_bounds _ Hpa).
  destruct Hpa as (Hal & Hlo & Hhi); unfold kfree, mod_mem.
  change PGSIZE with 4096; rewrite Hal.
  destruct (Z.ltb_spec pa kend); [lia|]; destruct (Z.leb_spec PHYSTOP pa); [lia|]; simpl.
  wp_steps; simpl; split; [by destruct c|].
  assert (Ho : only_page pa (k_mem s) (wr64 (memset pa 1 4096 (k_mem s)) pa (k_freelist s))).
  { intros x Hx; rewrite rd_wr64_out, rd_memset by lia; case_decide; [lia|done]. }
  split; [|done]; split; simpl; auto.
  - split; [done|]; rewrite rd64_wr64_eq, u64_small.
    + by eapply free_rep_only_page.
    + destruct l as [|q l]; simpl in Hrep; [lia|destruct Hrep as [-> _]].
      apply Forall_cons in Hpg as [Hq _]; apply page_ok_bounds in Hq; lia.
  - by constructor.
  - constructor; [by split|done].
Qed.

Lemma kalloc_spec l c s :
  kalloc_inv s l -> KMEM ∉ c_held c ->
  wp kalloc c s (fun r c' s' =>
    c' = c /\
    match l with
    | [] => r = 0 /\ s' = s
    | pa :: l' =>
        r = pa /\ kalloc_inv s' l' /\ only_page pa (k_mem s) (k_mem s') /\
        forall x, pa <= x < pa + 4096 -> rd (k_mem s') x = 5
    end).
Proof.
  intros [Hm Hrep Hnd Hpg] Hlk; unfold kalloc, mod_mem; wp_steps.
  destruct l as [|pa l]; simpl in Hrep.
  - rewrite Hrep; simpl; wp_steps; split; [by destruct c|done].
  - destruct Hrep as [-> Hrep].
    apply NoDup_cons in Hnd as [Hn Hnd]; apply Forall_cons in Hpg as [Hpa Hpg].
    pose proof (page_ok_bounds _ Hpa) as Hb.
    destruct (Z.eqb_spec pa 0); [lia|]; wp_steps; simpl.
    split; [by destruct c|]; split; [done|].
    assert (Ho : only_page pa (k_mem s) (memset pa 5 4096 (k_mem s))).
    { intros x Hx; rewrite rd_memset by lia; case_decide; [lia|done]. }
    split; [split; simpl; auto|split; [done|]].
    + eapply free_rep_only_page; eauto; apply Hpa.
    + intros x Hx; change PGSIZE with 4096; rewrite rd_memset by lia; case_decide; [done|lia].
Qed.

(** [kfree] rejects anything that is not a page of the allocator's range. *)
Lemma kfree_bad pa c s : ~ page_ok pa -> panics (kfree pa) c s "kfree".
Proof.
  intros Hpa; unfold panics, kfree, page_ok in *; change PGSIZE with 4096.
  destruct (Z.eqb_spec (pa mod 4096) 0); simpl; [|done].
  destruct (Z.ltb_spec pa kend); simpl; [done|].
  destruct (Z.leb_spec PHYSTOP pa); simpl; [done|exfalso; apply Hpa; lia].
Qed.

(** ** Refinement of a stack of free pages *)

Inductive alloc_op := Alloc | Free (pa : Z).

Definition impl_step (o : alloc_op) : M kmem Z :=
  match o with
  | Alloc => kalloc
  | Free pa => do! kfree pa; ret 0
  end.

(** The abstract allocator: a stack of free pages and the pages in use. *)
Record pool := Pool { p_free : list Z; p_used : list Z }.

Definition spec_step (o : alloc_op) (p : pool) : Z * pool :=
  match o with
  | Alloc =>
      match p_free p with
      | [] => (0, p)
      | pa :: l => (pa, Pool l (pa :: p_used p))
      end
  | Free pa => (0, Pool (pa :: p_free p) (filter (.≠ pa) (p_used p)))
  end.

Fixpoint impl_run (ops : list alloc_op) : M kmem (list Z) :=
  match ops with
  | [] => ret []
  | o :: ops =>
      let! r := impl_step o in
      let! rs := impl_run ops in
      ret (r :: rs)
  end.

Fixpoint spec_run (ops : list alloc_op) (p : pool) : list Z * pool :=
  match ops with
  | [] => ([], p)
  | o :: ops =>
      let (r, p) := spec_step o p in
      let (rs, p) := spec_run ops p in (r :: rs, p)
  end.

(** A client frees only pages it was given and has not freed since. *)
Fixpoint client_ok (ops : list alloc_op) (p : pool) : Prop :=
  match ops with
  | [] => True
  | o :: ops =>
      match o with Free pa => pa ∈ p_used p | Alloc => True end /\
      client_ok ops (snd (spec_step o p))
  end.

Definition pool_ok (p : pool) : Prop :=
  NoDup (p_used p ++ p_free p) /\ Forall page_ok (p_used p ++ p_free p).

Lemma filter_ne_perm (pa : Z) l : NoDup l -> pa ∈ l -> pa :: filter (.≠ pa) l ≡ₚ l.
Proof.
  induction 1 as [|x l Hx Hl IH]; [by intros ?%not_elem_of_nil|].
  intros [->|Hin]%elem_of_cons.
  - rewrite filter_cons_False by auto; f_equiv.
    assert (filter (.≠ x) l = l) as ->; [|done].
    clear -Hx; induction l as [|y l IH]; [done|].
    apply not_elem_of_cons in Hx as [? ?]; rewrite filter_cons_True by auto; by rewrite IH.
  - assert (x <> pa) by (intros ->; done).
    rewrite filter_cons_True by done; rewrite Permutation_swap, IH by done; done.
Qed.

(** Pages are conserved by the abstract allocator. *)
Lemma spec_step_perm o p :
  NoDup (p_used p) -> client_ok [o] p ->
  p_used (snd (spec_step o p)) ++ p_free (snd (spec_step o p)) ≡ₚ p_used p ++ p_free p.
Proof.
  intros Hnd [Ho _]; destruct o as [|pa]; simpl.
  - destruct (p_free p) as [|q l] eqn:E; simpl; [by rewrite E|].
    by rewrite <- Permutation_middle.
  - rewrite <- Permutation_middle, app_comm_cons, filter_ne_perm by done; done.
Qed.

Lemma pool_ok_step o p : pool_ok p -> client_ok [o] p -> pool_ok (snd (spec_step o p)).
Proof.
  intros [Hnd Hpg] Ho; apply NoDup_app in Hnd as Hnd'; destruct Hnd' as (Hu & _).
  unfold pool_ok; by rewrite spec_step_perm.
Qed.

Lemma impl_step_refines o p c s :
  kalloc_inv s (p_free p) -> pool_ok p -> KMEM ∉ c_held c -> client_ok [o] p ->
  wp (impl_step o) c s (fun r c' s' =>
    c' = c /\ r = fst (spec_step o p) /\ kalloc_inv s' (p_free (snd (spec_step o p)))).
Proof.
  intros Hi [Hnd Hpg] Hk [Ho _]; destruct o as [|pa]; simpl.
  - eapply wp_mono; [by apply kalloc_spec|]; intros r c' s' [-> H].
    destruct (p_free p) as [|q l] eqn:E; simpl; [|destruct H as (-> & H & _); auto].
    destruct H as [-> ->]; rewrite E; auto.
  - wp_step; apply NoDup_app in Hnd as (_ & Hd & _); apply Forall_app in Hpg as [Hpg _].
    rewrite Forall_forall in Hpg.
    eapply wp_mono; [apply (kfree_spec pa (p_free p)); auto|].
    intros _ c' s' (-> & H & _); wp_steps; auto.
Qed.

Lemma impl_run_refines ops p c s :
  kalloc_inv s (p_free p) -> pool_ok p -> KMEM ∉ c_held c -> client_ok ops p ->
  wp (impl_run ops) c s (fun rs c' s' =>
    c' = c /\ rs = fst (spec_run ops p) /\ kalloc_inv s' (p_free (snd (spec_run ops p)))).
Proof.
  revert p s; induction ops as [|o ops IH]; intros p s Hi Hp Hk Hok; simpl.
  - wp_steps; auto.
  - destruct Hok as [Ho Hok]; assert (client_ok [o] p) by (split; done); wp_step.
    eapply wp_mono; [by apply (impl_step_refines o p)|].
    intros r c' s' (-> & -> & Hi'); wp_step.
    eapply wp_mono; [apply (IH (snd (spec_step o p))); auto using pool_ok_step|].
    intros rs c' s'' (-> & -> & Hi''); wp_steps.
    destruct (spec_step o p) as [r p1]; simpl in *; by destruct (spec_run ops p1).
Qed.

Lemma spec_run_perm ops p :
  pool_ok p -> client_ok ops p ->
  p_used (snd (spec_run ops p)) ++ p_free (snd (spec_run ops p)) ≡ₚ p_used p ++ p_free p.
Proof.
  revert p; induction ops as [|o ops IH]; intros p Hp Hok; [done|].
  destruct Hok as [Ho Hok]; assert (Ho' : client_ok [o] p) by (split; done).
  pose proof (IH (snd (spec_step o p)) (pool_ok_step _ _ Hp Ho') Hok) as E.
  destruct Hp as [Hnd _]; apply NoDup_app in Hnd as (Hnd & _).
  rewrite <- (spec_step_perm o p Hnd Ho'), <- E; simpl.
  destruct (spec_step o p) as [r p1]; simpl; by destruct (spec_run ops p1).
Qed.

(** ** Initialisation *)

(** The pages of [lo, hi), lowest first. *)
Definition pages (lo : Z) (n : nat) : list Z := map (fun i => lo + i * 4096) (zrange 0 n).

Lemma elem_of_pages lo n pa :
  pa ∈ pages lo n <-> exists i, 0 <= i < Z.of_nat n /\ pa = lo + i * 4096.
Proof.
  unfold pages; rewrite list_elem_of_fmap; split.
  - intros (i & -> & Hi%elem_of_zrange); exists i; lia.
  - intros (i & Hi & ->); exists i; split; [done|apply elem_of_zrange; lia].
Qed.

Lemma pages_snoc lo n : pages lo (S n) = pages lo n ++ [lo + Z.of_nat n * 4096].
Proof. unfold pages; by rewrite zrange_snoc, map_app. Qed.

Lemma freerange_loop_spec lo n k c s fuel :
  lo mod 4096 = 0 -> kend <= lo -> lo + Z.of_nat n * 4096 = PHYSTOP ->
  (k <= n)%nat -> (n - k < fuel)%nat -> KMEM ∉ c_held c ->
  kalloc_inv s (reverse (pages lo k)) ->
  wp (freerange_loop fuel (lo + Z.of_nat k * 4096) PHYSTOP) c s
     (fun _ c' s' => c' = c /\ kalloc_inv s' (reverse (pages lo n))).
Proof.
  intros Hal Hlo Hhi Hk Hf Hlk.
  revert k s Hk Hf; induction fuel as [|fuel IH]; intros k s Hk Hf Hi; [lia|].
  cbn [freerange_loop]; change PGSIZE with 4096.
  destruct (decide (k = n)) as [->|Hne].
  - destruct (Z.leb_spec (lo + Z.of_nat n * 4096 + 4096) PHYSTOP); [lia|]; by wp_steps.
  - destruct (Z.leb_spec (lo + Z.of_nat k * 4096 + 4096) PHYSTOP); [|lia]; wp_step.
    eapply wp_mono; [apply kfree_spec; eauto|].
    + split; [rewrite Z.mod_add by lia; done|]; lia.
    + rewrite elem_of_reverse, elem_of_pages; intros (i & ? & ?); lia.
    + intros _ c' s' (-> & Hi' & _).
      replace (lo + Z.of_nat k * 4096 + 4096) with (lo + Z.of_nat (S k) * 4096) by lia.
      apply IH; [lia|lia|].
      rewrite pages_snoc, reverse_app; exact Hi'.
Qed.
(** The address of the first whole page at or above [kend] and the number of
    pages from there to [PHYSTOP]. *)
Definition first_page : Z := PGROUNDUP kend.
Definition npages : nat := Z.to_nat ((PHYSTOP - first_page) / 4096).

Lemma first_page_spec :
  first_page mod 4096 = 0 /\ kend <= first_page /\ first_page < kend + 4096 /\
  first_page + Z.of_nat npages * 4096 = PHYSTOP.
Proof.
  pose proof kend_range as Hk; unfold npages, first_page, PHYSTOP, KERNBASE in *.
  rewrite PGROUNDUP_eq by lia.
  pose proof (Z.div_mod (kend + 4095) 4096 ltac:(lia)) as E.
  pose proof (Z.mod_pos_bound (kend + 4095) 4096 ltac:(lia)) as B.
  set (q := (kend + 4095) / 4096) in *; set (r := (kend + 4095) mod 4096) in *.
  replace (kend + 4095 - r) with (q * 4096) by lia.
  replace (2147483648 + 128 * 1024 * 1024 - q * 4096) with ((557056 - q) * 4096) by lia.
  rewrite Z.mod_mul, Z.div_mul by lia; rewrite Z2Nat.id by lia; lia.
Qed.

(** C2.  Any sequence of [kalloc] and [kfree] calls by a client that frees only
    pages it was given behaves like the abstract stack of free pages, result by
    result: the calls return, the lock is released, the free list in memory is
    the abstract one, and the pages in use together with the free pages are a
    permutation of those at the start, so no page is lost or handed out twice. *)
Theorem kalloc_refines_pool ops p c s :
  kalloc_inv s (p_free p) -> pool_ok p -> KMEM ∉ c_held c -> client_ok ops p ->
  wp (impl_run ops) c s (fun rs c' s' =>
    let (rs_spec, p') := spec_run ops p in
    c' = c /\ rs = rs_spec /\ kalloc_inv s' (p_free p') /\
    NoDup (p_used p' ++ p_free p') /\
    p_used p' ++ p_free p' ≡ₚ p_used p ++ p_free p).
Proof.
  intros Hi Hp Hk Hok; eapply wp_mono; [by apply impl_run_refines|].
  intros rs c' s' (-> & -> & Hi'); pose proof (spec_run_perm _ _ Hp Hok) as E.
  destruct (spec_run ops p) as [rs p']; simpl in *; do 3 (split; [done|]).
  split; [by rewrite E; apply Hp|done].
Qed.

(** C13.  [kinit] from an empty allocator puts every whole page between the end of
    the kernel and [PHYSTOP] on the free list, once each, and leaves the lock
    free; the loop of [freerange] terminates and [kfree] never panics. *)
Theorem kinit_frees_all c m :
  mem_ok m -> KMEM ∉ c_held c ->
  wp kinit c (Kmem m 0) (fun _ c' s' =>
    c' = c /\ kalloc_inv s' (reverse (pages first_page npages))).
Proof.
  intros Hm Hk; destruct first_page_spec as (Hal & Hlo & _ & Hhi).
  unfold kinit, freerange; fold first_page.
  replace first_page with (first_page + Z.of_nat 0 * 4096) at 1 by lia.
  apply freerange_loop_spec; auto; [lia| |by split; simpl; auto; constructor].
  change (PHYSTOP / PGSIZE) with 557056; change PHYSTOP with (557056 * 4096) in Hhi.
  pose proof kend_range; unfold KERNBASE in *; lia.
Qed.

(** The guard of [kfree]: an address that is unaligned, below the end of the
    kernel or not below [PHYSTOP] stops the kernel with ["kfree"], and these are
    the only addresses that do, whatever the state. *)
Theorem kfree_panics_iff pa c s :
  KMEM ∉ c_held c -> (panics (kfree pa) c s "kfree" <-> ~ page_ok pa).
Proof.
  intros Hk; split; [|by apply kfree_bad]; unfold panics; intros H (Hal & Hlo & Hhi).
  assert (Hw : wp (kfree pa) c s (fun _ _ _ => True)); [|unfold wp in Hw; by rewrite H in Hw].
  unfold kfree, mod_mem; change PGSIZE with 4096; rewrite Hal.
  destruct (Z.ltb_spec pa kend); [lia|]; destruct (Z.leb_spec PHYSTOP pa); [lia|]; simpl.
  wp_steps; done.
Qed.
End kalloc.

(** A machine with three allocatable pages, for evaluating the definitions. *)
#[global] Instance tiny_layout : KernelLayout.
Proof.
  refine {| kend := PHYSTOP - 3 * 4096 - 100; etext := KERNBASE + 4096 * 2;
            trampoline := KERNBASE + 4096 |};
    unfold PHYSTOP, KERNBASE, PGSIZE; first [lia | reflexivity].
Defined.

Definition idle : ctx := Ctx 1 [].

Lemma kinit_frees_all_witness :
  wp kinit idle (Kmem ∅ 0) (fun _ c' s' =>
    c' = idle /\ kalloc_inv s' (reverse (pages first_page npages))).
Proof.
  apply (kinit_frees_all (L := tiny_layout) idle ∅); [apply mem_ok_empty|apply not_elem_of_nil].
Defined.

Definition two_pages : kmem :=
  Kmem (wr64 ∅ (PHYSTOP - 8192) (PHYSTOP - 4096)) (PHYSTOP - 8192).

Lemma two_pages_inv : kalloc_inv two_pages [PHYSTOP - 8192; PHYSTOP - 4096].
Proof.
  split.
  - apply mem_ok_wr64, mem_ok_empty.
  - vm_compute; auto.
  - by apply (bool_decide_unpack _); vm_compute.
  - repeat constructor; by vm_compute.
Qed.

Lemma kalloc_refines_pool_witness :
  wp (impl_run [Alloc; Alloc; Alloc; Free (PHYSTOP - 4096); Alloc]) idle two_pages
    (fun rs c' s' =>
      let (rs_spec, p') :=
        spec_run [Alloc; Alloc; Alloc; Free (PHYSTOP - 4096); Alloc]
          (Pool [PHYSTOP - 8192; PHYSTOP - 4096] []) in
      c' = idle /\ rs = rs_spec /\ kalloc_inv s' (p_free p') /\
      NoDup (p_used p' ++ p_free p') /\
      p_used p' ++ p_free p' ≡ₚ [PHYSTOP - 8192; PHYSTOP - 4096]).
Proof.
  apply (kalloc_refines_pool (L := tiny_layout)
           _ (Pool [PHYSTOP - 8192; PHYSTOP - 4096] [])).
  - apply two_pages_inv.
  - split; apply two_pages_inv.
  - apply not_elem_of_nil.
  - simpl; repeat split; by left.
Defined.

Lemma kfree_panics_iff_witness :
  panics (kfree (PHYSTOP - 4095)) idle two_pages "kfree" <-> ~ page_ok (PHYSTOP - 4095).
Proof. apply (kfree_panics_iff (L := tiny_layout)); apply not_elem_of_nil. Defined.
