(* ===== verification/Vm.v ===== *)
(** * Page tables and user memory, [kernel/vm.c]

    A page table is the physical address of its root page; its pages lie in the
    memory of [Kalloc.v].  A kernel buffer that [copyin] and [copyout] move bytes
    to or from is a list of bytes.  The two fields of the current process that
    [vmfault] uses are the argument [p].  [walk] returns a null pointer as 0. *)

From S2P Require Import Prelude KMonad Memory Riscv Kalloc.

Abbreviation pte_t := Z (only parsing).
Abbreviation pagetable_t := Z (only parsing).

(** [p->sz] and [p->pagetable] of [myproc()]. *)
Record uproc := UProc { up_sz : Z; up_pagetable : pagetable_t }.

Definition set (pte fl : Z) : bool := negb (Z.land pte fl =? 0).
Definition read_pte (a : Z) : M kmem pte_t := gets (fun s => rd64 (k_mem s) a).
Definition write_pte (a : Z) (v : pte_t) : M kmem unit := mod_mem (fun m => wr64 m a v).
Definition pte_addr (pagetable : pagetable_t) (level va : Z) : Z := pagetable + 8 * PX level va.

Section vm.
Context {L : KernelLayout}.

(** One turn of the loop of [walk]: the next page table, or nothing when the
    function returns 0. *)
Definition walk_level (pagetable : pagetable_t) (va level : Z) (alloc : bool) : M kmem (option pagetable_t) :=
  let pte := pte_addr pagetable level va in
  let! v := read_pte pte in
  if set v PTE_V then ret (Some (PTE2PA v))
  else if negb alloc then ret None
  else
    let! pagetable := kalloc in
    if pagetable =? 0 then ret None
    else
      do! mod_mem (memset pagetable 0 PGSIZE);
      do! write_pte pte (Z.lor (PA2PTE pagetable) PTE_V);
      ret (Some pagetable).

Definition walk (pagetable : pagetable_t) (va : Z) (alloc : bool) : M kmem Z :=
  if MAXVA <=? va then panic "walk" else
  let! p1 := walk_level pagetable va 2 alloc in
  match p1 with
  | None => ret 0
  | Some p1 =>
      let! p0 := walk_level p1 va 1 alloc in
      match p0 with
      | None => ret 0
      | Some p0 => ret (pte_addr p0 0 va)
      end
  end.

Definition walkaddr (pagetable : pagetable_t) (va : Z) : M kmem Z :=
  if MAXVA <=? va then ret 0 else
  let! pte := walk pagetable va false in
  if pte =? 0 then ret 0 else
  let! v := read_pte pte in
  if negb (set v PTE_V) then ret 0 else
  if negb (set v PTE_U) then ret 0 else
  ret (PTE2PA v).

(** The [for(;;)] loop of [mappages]; it makes [size / PGSIZE] turns. *)
Fixpoint mappages_loop (fuel : nat) (pagetable : pagetable_t) (a last pa perm : Z) : M kmem Z :=
  match fuel with
  | O => diverge
  | S fuel =>
      let! pte := walk pagetable a true in
      if pte =? 0 then ret (-1) else
      let! v := read_pte pte in
      if set v PTE_V then panic "mappages: remap" else
      do! write_pte pte (Z.lor (Z.lor (PA2PTE pa) perm) PTE_V);
      if a =? last then ret 0
      else mappages_loop fuel pagetable (u64 (a + PGSIZE)) last (u64 (pa + PGSIZE)) perm
  end.

Definition mappages (pagetable : pagetable_t) (va size pa perm : Z) : M kmem Z :=
  if negb (va mod PGSIZE =? 0) then panic "mappages: va not aligned" else
  if negb (size mod PGSIZE =? 0) then panic "mappages: size not aligned" else
  if size =? 0 then panic "mappages: size" else
  mappages_loop (Z.to_nat (size / PGSIZE)) pagetable va (u64 (va + size - PGSIZE)) pa perm.

Definition uvmcreate : M kmem pagetable_t :=
  let! pagetable := kalloc in
  if pagetable =? 0 then ret 0 else
  do! mod_mem (memset pagetable 0 PGSIZE);
  ret pagetable.

(** The loop of [uvmunmap] makes at most [npages] turns. *)
Fixpoint uvmunmap_loop (fuel : nat) (pagetable : pagetable_t) (a last : Z) (do_free : bool) : M kmem unit :=
  if negb (a <? last) then ret tt else
  match fuel with
  | O => diverge
  | S fuel =>
      let! pte := walk pagetable a false in
      do! (if pte =? 0 then ret tt else
           let! v := read_pte pte in
           if negb (set v PTE_V) then ret tt else
           do! (if do_free then kfree (PTE2PA v) else ret tt);
           write_pte pte 0);
      uvmunmap_loop fuel pagetable (u64 (a + PGSIZE)) last do_free
  end.

Definition uvmunmap (pagetable : pagetable_t) (va npages : Z) (do_free : bool) : M kmem unit :=
  if negb (va mod PGSIZE =? 0) then panic "uvmunmap: not aligned" else
  uvmunmap_loop (Z.to_nat npages) pagetable va (u64 (va + npages * PGSIZE)) do_free.

Definition uvmdealloc (pagetable : pagetable_t) (oldsz newsz : Z) : M kmem Z :=
  if oldsz <=? newsz then ret oldsz else
  do! (if PGROUNDUP newsz <? PGROUNDUP oldsz then
         let npages := s32 ((PGROUNDUP oldsz - PGROUNDUP newsz) / PGSIZE) in
         uvmunmap pagetable (PGROUNDUP newsz) (u64 npages) true
       else ret tt);
  ret newsz.

Fixpoint uvmalloc_loop (fuel : nat) (pagetable : pagetable_t) (a oldsz newsz xperm : Z) : M kmem Z :=
  if negb (a <? newsz) then ret newsz else
  match fuel with
  | O => diverge
  | S fuel =>
      let! mem := kalloc in
      if mem =? 0 then
        let! _ := uvmdealloc pagetable a oldsz in
        ret 0
      else
        do! mod_mem (memset mem 0 PGSIZE);
        let! r := mappages pagetable a PGSIZE mem (Z.lor (Z.lor PTE_R PTE_U) xperm) in
        if negb (r =? 0) then
          do! kfree mem;
          let! _ := uvmdealloc pagetable a oldsz in
          ret 0
        else uvmalloc_loop fuel pagetable (u64 (a + PGSIZE)) oldsz newsz xperm
  end.

Definition uvmalloc (pagetable : pagetable_t) (oldsz newsz xperm : Z) : M kmem Z :=
  if newsz <? oldsz then ret oldsz else
  let oldsz := PGROUNDUP oldsz in
  uvmalloc_loop (S (Z.to_nat ((newsz - oldsz) / PGSIZE))) pagetable oldsz oldsz newsz xperm.

(** The recursion of [freewalk] is over the levels of the table. *)
Fixpoint freewalk (levels : nat) (pagetable : pagetable_t) : M kmem unit :=
  match levels with
  | O => diverge
  | S levels =>
      do! for_each (zrange 0 512) (fun i =>
            let! pte := read_pte (pagetable + 8 * i) in
            if set pte PTE_V && (Z.land pte (Z.lor (Z.lor PTE_R PTE_W) PTE_X) =? 0) then
              do! freewalk levels (PTE2PA pte);
              write_pte (pagetable + 8 * i) 0
            else if set pte PTE_V then panic "freewalk: leaf"
            else ret tt);
      kfree pagetable
  end.

Definition uvmfree (pagetable : pagetable_t) (sz : Z) : M kmem unit :=
  do! (if 0 <? sz then uvmunmap pagetable 0 (PGROUNDUP sz / PGSIZE) true else ret tt);
  freewalk 3 pagetable.

(** The loop of [uvmcopy]; [err] is the code under the label. *)
Fixpoint uvmcopy_loop (fuel : nat) (old new : pagetable_t) (i sz : Z) : M kmem Z :=
  let err := do! uvmunmap new 0 (i / PGSIZE) true; ret (-1) in
  if negb (i <? sz) then ret 0 else
  match fuel with
  | O => diverge
  | S fuel =>
      let! pte := walk old i false in
      if pte =? 0 then uvmcopy_loop fuel old new (u64 (i + PGSIZE)) sz else
      let! v := read_pte pte in
      if negb (set v PTE_V) then uvmcopy_loop fuel old new (u64 (i + PGSIZE)) sz else
      let pa := PTE2PA v in
      let flags := PTE_FLAGS v in
      let! mem := kalloc in
      if mem =? 0 then err else
      do! mod_mem (memmove mem pa PGSIZE);
      let! r := mappages new i PGSIZE mem flags in
      if negb (r =? 0) then do! kfree mem; err
      else uvmcopy_loop fuel old new (u64 (i + PGSIZE)) sz
  end.

Definition uvmcopy (old new : pagetable_t) (sz : Z) : M kmem Z :=
  uvmcopy_loop (Z.to_nat (sz / PGSIZE + 1)) old new 0 sz.

Definition uvmclear (pagetable : pagetable_t) (va : Z) : M kmem unit :=
  let! pte := walk pagetable va false in
  if pte =? 0 then panic "uvmclear" else
  let! v := read_pte pte in
  write_pte pte (Z.land v (u64 (Z.lnot PTE_U))).

Definition ismapped (pagetable : pagetable_t) (va : Z) : M kmem bool :=
  let! pte := walk pagetable va false in
  if pte =? 0 then ret false else
  let! v := read_pte pte in
  ret (set v PTE_V).

Definition vmfault (p : uproc) (pagetable : pagetable_t) (va : Z) : M kmem Z :=
  if up_sz p <=? va then ret 0 else
  let va := PGROUNDDOWN va in
  let! b := ismapped pagetable va in
  if b then ret 0 else
  let! mem := kalloc in
  if mem =? 0 then ret 0 else
  do! mod_mem (memset mem 0 PGSIZE);
  let! r := mappages (up_pagetable p) va PGSIZE mem (Z.lor (Z.lor PTE_W PTE_U) PTE_R) in
  if negb (r =? 0) then do! kfree mem; ret 0
  else ret mem.

(** [copyout] and [copyin] go page by page; every turn but the first and the
    last moves [PGSIZE] bytes, so [len / PGSIZE + 2] turns are enough.  A null
    [pte], which [copyout] does not test, faults in the kernel. *)
Fixpoint copyout_loop (fuel : nat) (p : uproc) (pagetable : pagetable_t) (dstva : Z) (src : list Z) : M kmem Z :=
  match src with
  | [] => ret 0
  | _ =>
  match fuel with
  | O => diverge
  | S fuel =>
      let va0 := PGROUNDDOWN dstva in
      if MAXVA <=? va0 then ret (-1) else
      let! pa := walkaddr pagetable va0 in
      let! pa0 := (if pa =? 0 then vmfault p pagetable va0 else ret pa) in
      if pa0 =? 0 then ret (-1) else
      let! pte := walk pagetable va0 false in
      let! v := (if pte =? 0 then panic "kerneltrap" else read_pte pte) in
      if Z.land v PTE_W =? 0 then ret (-1) else
      let len := Z.of_nat (length src) in
      let n := Z.min (PGSIZE - (dstva - va0)) len in
      do! mod_mem (fun m => wrn m (pa0 + (dstva - va0)) (take (Z.to_nat n) src));
      copyout_loop fuel p pagetable (u64 (va0 + PGSIZE)) (drop (Z.to_nat n) src)
  end
  end.

Definition copyout (p : uproc) (pagetable : pagetable_t) (dstva : Z) (src : list Z) : M kmem Z :=
  copyout_loop (length src / 4096 + 2) p pagetable dstva src.

(** The bytes [copyin] has stored at [dst], with its result. *)
Fixpoint copyin_loop (fuel : nat) (p : uproc) (pagetable : pagetable_t) (srcva len : Z) : M kmem (Z * list Z) :=
  if len =? 0 then ret (0, []) else
  match fuel with
  | O => diverge
  | S fuel =>
      let va0 := PGROUNDDOWN srcva in
      let! pa := walkaddr pagetable va0 in
      let! pa0 := (if pa =? 0 then vmfault p pagetable va0 else ret pa) in
      if pa0 =? 0 then ret (-1, []) else
      let n := Z.min (PGSIZE - (srcva - va0)) len in
      let! bs := gets (fun s => rdn (k_mem s) (pa0 + (srcva - va0)) (Z.to_nat n)) in
      let! r := copyin_loop fuel p pagetable (u64 (va0 + PGSIZE)) (len - n) in
      ret (r.1, bs ++ r.2)
  end.

Definition copyin (p : uproc) (pagetable : pagetable_t) (srcva len : Z) : M kmem (Z * list Z) :=
  copyin_loop (Z.to_nat (len / PGSIZE + 2)) p pagetable srcva len.

(** The inner loop of [copyinstr]: the bytes of one page up to [n] or a null
    byte, and whether it was found. *)
Fixpoint copyinstr_page (m : mem) (a : Z) (n : nat) : list Z * bool :=
  match n with
  | O => ([], false)
  | S n =>
      if rd m a =? 0 then ([0], true)
      else let r := copyinstr_page m (a + 1) n in (rd m a :: r.1, r.2)
  end.

Fixpoint copyinstr_loop (fuel : nat) (pagetable : pagetable_t) (srcva max : Z) : M kmem (Z * list Z) :=
  if max =? 0 then ret (-1, []) else
  match fuel with
  | O => diverge
  | S fuel =>
      let va0 := PGROUNDDOWN srcva in
      let! pa0 := walkaddr pagetable va0 in
      if pa0 =? 0 then ret (-1, []) else
      let n := Z.min (PGSIZE - (srcva - va0)) max in
      let! r := gets (fun s => copyinstr_page (k_mem s) (pa0 + (srcva - va0)) (Z.to_nat n)) in
      if r.2 then ret (0, r.1)
      else
        let! r' := copyinstr_loop fuel pagetable (u64 (va0 + PGSIZE)) (max - n) in
        ret (r'.1, r.1 ++ r'.2)
  end.

Definition copyinstr (pagetable : pagetable_t) (srcva max : Z) : M kmem (Z * list Z) :=
  copyinstr_loop (Z.to_nat (max / PGSIZE + 2)) pagetable srcva max.

(** ** The kernel's page table *)

Definition kvmmap (kpgtbl : pagetable_t) (va pa sz perm : Z) : M kmem unit :=
  let! r := mappages kpgtbl va sz pa perm in
  if negb (r =? 0) then panic "kvmmap" else ret tt.

(** [proc.c]: a kernel stack for each process, with an unmapped page below it. *)
Definition proc_mapstacks (kpgtbl : pagetable_t) : M kmem unit :=
  for_each (zrange 0 (Z.to_nat NPROC)) (fun i =>
    let! pa := kalloc in
    if pa =? 0 then panic "kalloc" else
    kvmmap kpgtbl (KSTACK i) pa PGSIZE (Z.lor PTE_R PTE_W)).

Definition kvmmake : M kmem pagetable_t :=
  let! kpgtbl := kalloc in
  do! mod_mem (memset kpgtbl 0 PGSIZE);
  do! kvmmap kpgtbl UART0 UART0 PGSIZE (Z.lor PTE_R PTE_W);
  do! kvmmap kpgtbl VIRTIO0 VIRTIO0 PGSIZE (Z.lor PTE_R PTE_W);
  do! kvmmap kpgtbl PLIC PLIC 0x4000000 (Z.lor PTE_R PTE_W);
  do! kvmmap kpgtbl KERNBASE KERNBASE (etext - KERNBASE) (Z.lor PTE_R PTE_X);
  do! kvmmap kpgtbl etext etext (PHYSTOP - etext) (Z.lor PTE_R PTE_W);
  do! kvmmap kpgtbl TRAMPOLINE trampoline PGSIZE (Z.lor PTE_R PTE_X);
  do! proc_mapstacks kpgtbl;
  ret kpgtbl.
End vm.
