(* ===== verification/VmProofs.v ===== *)
(** * Page tables as maps

    A page table in memory stands for a tree of page-table pages ([ptree]); the
    entry of a virtual address is [pte_of].  [walk] finds or makes the entry,
    [mappages] and [uvmunmap] change entries, and the data of pages that belong
    neither to the table nor to the free list is never touched. *)

From S2P Require Import Prelude KMonad Memory Riscv Kalloc Vm.

(** ** Indices and flags *)

Lemma PX_eq level va : 0 <= level -> 0 <= va -> PX level va = (va / 2 ^ (12 + 9 * level)) mod 512.
Proof.
  intros; unfold PX, PXSHIFT, PXMASK, PGSHIFT; change 511 with (Z.ones 9).
  by rewrite Z.land_ones, Z.shiftr_div_pow2 by lia.
Qed.

Lemma PX_range level va : 0 <= PX level va < 512.
Proof.
  unfold PX, PXMASK; change 511 with (Z.ones 9); rewrite Z.land_ones by lia.
  apply Z.mod_pos_bound; lia.
Qed.

Lemma PX2_range va : 0 <= va < MAXVA -> 0 <= PX 2 va < 256.
Proof.
  intros Hva; change MAXVA with (2 ^ 38) in Hva; rewrite PX_eq by lia; change (2 ^ (12 + 9 * 2)) with (2 ^ 30).
  pose proof (Z.div_pos va (2 ^ 30)); pose proof (Z.div_lt_upper_bound va (2 ^ 30) 256).
  rewrite Z.mod_small; lia.
Qed.

Lemma PX_surj i j k : 0 <= i < 256 -> 0 <= j < 512 -> 0 <= k < 512 ->
  let va := ((i * 512 + j) * 512 + k) * 4096 in
  0 <= va < MAXVA /\ PX 2 va = i /\ PX 1 va = j /\ PX 0 va = k.
Proof.
  intros Hi Hj Hk va; change MAXVA with (2 ^ 38); split; [unfold va; lia|]; rewrite !PX_eq by (unfold va; lia).
  change (2 ^ (12 + 9 * 0)) with 4096; change (2 ^ (12 + 9 * 1)) with (4096 * 512).
  change (2 ^ (12 + 9 * 2)) with (4096 * 512 * 512).
  rewrite <- !(Z.div_div _ (4096 * 512) 512), <- !(Z.div_div _ 4096 512) by lia.
  assert (Hd : forall x y, 0 <= y < 512 -> (x * 512 + y) / 512 = x /\ (x * 512 + y) mod 512 = y).
  { intros x y Hy; rewrite Z.div_add_l, Z.div_small by lia; rewrite (Z.add_comm (x * 512)), Z_mod_plus_full, Z.mod_small by lia; lia. }
  unfold va; rewrite Z.div_mul by lia; rewrite (proj1 (Hd _ k Hk)), (proj1 (Hd _ j Hj)).
  rewrite (proj2 (Hd _ k Hk)), (proj2 (Hd _ j Hj)), Z.mod_small by lia; auto.
Qed.

(** The three indices determine the page. *)
Lemma PX_inj va va' :
  0 <= va < MAXVA -> 0 <= va' < MAXVA ->
  PX 2 va = PX 2 va' -> PX 1 va = PX 1 va' -> PX 0 va = PX 0 va' -> va / 4096 = va' / 4096.
Proof.
  intros Hva Hva'; rewrite !PX_eq by lia; change MAXVA with (2 ^ 38) in *.
  change (2 ^ (12 + 9 * 0)) with 4096; change (2 ^ (12 + 9 * 1)) with (4096 * 512).
  change (2 ^ (12 + 9 * 2)) with (4096 * 512 * 512).
  rewrite <- !(Z.div_div _ (4096 * 512) 512), <- !(Z.div_div _ 4096 512) by lia.
  set (v := va / 4096); set (v' := va' / 4096).
  assert (0 <= v < 2 ^ 26) by (unfold v; split; [apply Z.div_pos; lia|apply Z.div_lt_upper_bound; lia]).
  assert (0 <= v' < 2 ^ 26) by (unfold v'; split; [apply Z.div_pos; lia|apply Z.div_lt_upper_bound; lia]).
  clearbody v v'; intros E2 E1 E0.
  pose proof (Z.div_mod v 512 ltac:(lia)); pose proof (Z.div_mod v' 512 ltac:(lia)).
  pose proof (Z.div_mod (v / 512) 512 ltac:(lia)); pose proof (Z.div_mod (v' / 512) 512 ltac:(lia)).
  rewrite (Z.mod_small (v / 512 / 512)), (Z.mod_small (v' / 512 / 512)) in E2; [lia|..].
  all: split; [apply Z.div_pos; [apply Z.div_pos|]; lia|].
  all: apply Z.div_lt_upper_bound; [lia|]; apply Z.div_lt_upper_bound; lia.
Qed.

Lemma PX_page level va va' : 0 <= level -> 0 <= va -> 0 <= va' -> va / 4096 = va' / 4096 -> PX level va = PX level va'.
Proof.
  intros Hl Hva Hva' E; rewrite !PX_eq by lia; rewrite Z.pow_add_r by lia; change (2 ^ 12) with 4096.
  by rewrite <- !Z.div_div, E by lia.
Qed.

(** A directory entry. *)
Definition dir_pte (o : option Z) : Z :=
  match o with Some p => Z.lor (PA2PTE p) PTE_V | None => 0 end.

Lemma set_lor_V x : set (Z.lor x PTE_V) PTE_V = true.
Proof.
  unfold set; destruct (Z.eqb_spec (Z.land (Z.lor x PTE_V) PTE_V) 0) as [E|]; [|done].
  assert (H : Z.testbit (Z.land (Z.lor x PTE_V) PTE_V) 0 = true).
  { rewrite Z.land_spec, Z.lor_spec; change PTE_V with 1; by rewrite orb_true_r. }
  by rewrite E in H.
Qed.

Section ptree.
Context {L : KernelLayout}.

Lemma page_ok_pte p fl : page_ok p -> 0 <= fl < 1024 -> PTE2PA (Z.lor (PA2PTE p) fl) = p.
Proof.
  intros Hp Hfl; pose proof (page_ok_bounds _ Hp); apply PTE2PA_PA2PTE; [lia|apply Hp|done].
Qed.

(** [m'] differs from [m] only inside the pages [F]. *)
Definition same_except (F : list Z) (m m' : mem) : Prop :=
  forall x, (forall p, p ∈ F -> x < p \/ p + 4096 <= x) -> rd m' x = rd m x.

Lemma same_except_refl F m : same_except F m m.
Proof. done. Qed.

Lemma same_except_trans F m1 m2 m3 : same_except F m1 m2 -> same_except F m2 m3 -> same_except F m1 m3.
Proof. intros H1 H2 x Hx; rewrite H2, H1; auto. Qed.

Lemma same_except_mono F F' m m' : (forall p, p ∈ F -> p ∈ F') -> same_except F m m' -> same_except F' m m'.
Proof. intros Hs H x Hx; apply H; auto. Qed.

Lemma same_except_rd64 F m m' q i :
  same_except F m m' -> Forall page_ok F -> page_ok q -> q ∉ F -> 0 <= i < 512 ->
  rd64 m' (q + 8 * i) = rd64 m (q + 8 * i).
Proof.
  intros H HF Hq Hn Hi; apply rd64_ext; intros x Hx; apply H; intros p Hp.
  rewrite Forall_forall in HF; destruct (HF p Hp) as [Hal _]; destruct Hq as [Hal' _].
  destruct (pages_disjoint p q) as [|]; [done|done|congruence|lia|lia].
Qed.

(** ** One level *)

Definition dir_rep (m : mem) (d : Z) (D : Z -> option Z) : Prop :=
  forall i, 0 <= i < 512 -> rd64 m (d + 8 * i) = dir_pte (D i).

Lemma walk_level_spec d va level alloc (D : Z -> option Z) free c s :
  dir_rep (k_mem s) d D -> kalloc_inv s free -> page_ok d -> d ∉ free -> KMEM ∉ c_held c ->
  (forall i p, D i = Some p -> page_ok p) ->
  wp (walk_level d va level alloc) c s (fun r c' s' =>
    c' = c /\
    match D (PX level va) with
    | Some p => r = Some p /\ s' = s
    | None =>
        match free with
        | p :: free' =>
            if alloc then
              r = Some p /\ kalloc_inv s' free' /\
              (forall x, x < p \/ p + 4096 <= x -> x < d + 8 * PX level va \/ d + 8 * PX level va + 8 <= x ->
                 rd (k_mem s') x = rd (k_mem s) x) /\
              (forall x, p <= x < p + 4096 -> rd (k_mem s') x = 0) /\
              rd64 (k_mem s') (d + 8 * PX level va) = dir_pte (Some p)
            else r = None /\ s' = s
        | [] => r = None /\ s' = s
        end
    end).
Proof.
  intros Hd Hk Hpd Hdf Hlk HD; pose proof (PX_range level va) as Hpx.
  unfold walk_level, read_pte, write_pte, mod_mem, pte_addr; wp_steps.
  rewrite (Hd _ Hpx); destruct (D (PX level va)) as [p|] eqn:E; cbn [dir_pte].
  { rewrite set_lor_V; wp_steps; rewrite page_ok_pte; [done|by eapply HD|change PTE_V with 1; lia]. }
  change (set 0 PTE_V) with false; cbn iota; destruct alloc; cbn [negb]; wp_steps.
  2:{ by destruct free. }
  eapply wp_mono; [by eapply kalloc_spec|]; intros r c' s1 [-> Hr].
  destruct free as [|p free]; [destruct Hr as [-> ->]; by wp_steps|].
  destruct Hr as (-> & Hk1 & Ho & _); apply ki_pages in Hk as Hpg.
  apply Forall_cons in Hpg as [Hp Hpg]; pose proof (page_ok_bounds _ Hp) as Hb.
  destruct (Z.eqb_spec p 0); [lia|]; wp_steps; cbn [k_mem set_mem].
  assert (Hpd' : p <> d) by (intros ->; apply Hdf; by left).
  assert (Hdis : p + 4096 <= d \/ d + 4096 <= p).
  { destruct Hp as [? _], Hpd as [? _]; by apply pages_disjoint. }
  change PGSIZE with 4096; split; [done|]; split; [done|]; split_and!.
  - destruct Hk1 as [H1 H2 H3 H4]; split; cbn [k_mem k_freelist set_mem]; [auto| |done|done].
    apply not_elem_of_cons in Hdf as [_ Hdf].
    apply (free_rep_only_page (memset p 0 4096 (k_mem s1)) _ d); auto; [|apply Hpd|].
    + intros x Hx; rewrite rd_wr64_out by lia; done.
    + apply (free_rep_only_page (k_mem s1) _ p); auto; [|apply Hp|].
      * intros x Hx; rewrite rd_memset by lia; case_decide; [lia|done].
      * apply ki_nodup in Hk; by apply NoDup_cons in Hk as [? _].
  - intros x Hx1 Hx2; rewrite rd_wr64_out, rd_memset by lia; case_decide; [lia|by apply Ho].
  - intros x Hx; rewrite rd_wr64_out, rd_memset by lia; case_decide; [done|lia].
  - rewrite rd64_wr64_eq; apply u64_small; rewrite PA2PTE_eq by lia.
    change PTE_V with 1; change 1024 with (2 ^ 10); rewrite lor_low by lia.
    pose proof (Z.div_lt_upper_bound p 4096 (2 ^ 20)); pose proof (Z.div_pos p 4096); lia.
Qed.

(** ** Page-table trees *)

Record ptree := PTree {
  pt_root : Z;
  pt_l1 : gmap Z Z;        (* root index -> second-level page *)
  pt_l0 : gmap (Z * Z) Z   (* root and second-level index -> third-level page *)
}.

Definition pt_pages (t : ptree) : list Z :=
  pt_root t :: (map_to_list (pt_l1 t)).*2 ++ (map_to_list (pt_l0 t)).*2.

Record pt_rep (m : mem) (t : ptree) : Prop := {
  pr_root : dir_rep m (pt_root t) (fun i => pt_l1 t !! i);
  pr_l1 : forall i p, pt_l1 t !! i = Some p -> dir_rep m p (fun j => pt_l0 t !! (i, j));
  pr_l0 : forall i j p, pt_l0 t !! (i, j) = Some p -> is_Some (pt_l1 t !! i);
  pr_dom1 : forall i p, pt_l1 t !! i = Some p -> 0 <= i < 256;
  pr_dom0 : forall i j p, pt_l0 t !! (i, j) = Some p -> 0 <= j < 512
}.

(** The state of the allocator and of one page table. *)
Record vm_inv (s : kmem) (free : list Z) (t : ptree) : Prop := {
  vi_kalloc : kalloc_inv s free;
  vi_rep : pt_rep (k_mem s) t;
  vi_nodup : NoDup (pt_pages t ++ free);
  vi_pages : Forall page_ok (pt_pages t)
}.

(** The third-level page that holds the entry of [va], and the entry. *)
Definition leaf_page (t : ptree) (va : Z) : option Z := pt_l0 t !! (PX 2 va, PX 1 va).
Definition pte_of (m : mem) (t : ptree) (va : Z) : pte_t :=
  match leaf_page t va with
  | Some p => rd64 m (p + 8 * PX 0 va)
  | None => 0
  end.

Lemma pages_root t : pt_root t ∈ pt_pages t.
Proof. by left. Qed.
Lemma pages_l1 t i p : pt_l1 t !! i = Some p -> p ∈ pt_pages t.
Proof.
  intros H; right; apply elem_of_app; left; apply list_elem_of_fmap; exists (i, p).
  by rewrite elem_of_map_to_list.
Qed.
Lemma pages_l0 t k p : pt_l0 t !! k = Some p -> p ∈ pt_pages t.
Proof.
  intros H; right; apply elem_of_app; right; apply list_elem_of_fmap; exists (k, p).
  by rewrite elem_of_map_to_list.
Qed.

Lemma vi_ok s free t p : vm_inv s free t -> p ∈ pt_pages t -> page_ok p.
Proof. intros Hv Hp; pose proof (vi_pages _ _ _ Hv) as H; rewrite Forall_forall in H; auto. Qed.

Lemma vi_not_free s free t p : vm_inv s free t -> p ∈ pt_pages t -> p ∉ free.
Proof.
  intros Hv Hp Hf; pose proof (vi_nodup _ _ _ Hv) as Hn; apply NoDup_app in Hn as (_ & H & _).
  by apply (H p).
Qed.

(** [walk] without allocation. *)
Lemma walk_spec s free t va c :
  vm_inv s free t -> KMEM ∉ c_held c -> 0 <= va < MAXVA ->
  wp (walk (pt_root t) va false) c s (fun a c' s' =>
    c' = c /\ s' = s /\
    a = match leaf_page t va with Some p => p + 8 * PX 0 va | None => 0 end).
Proof.
  intros Hv Hk Hva; pose proof (vi_rep _ _ _ Hv) as [Hr H1 H0 Hd1 Hd0].
  unfold walk; destruct (Z.leb_spec MAXVA va); [lia|]; wp_step.
  eapply wp_mono.
  { apply (walk_level_spec _ _ _ _ (fun i => pt_l1 t !! i) free); auto.
    - apply Hv.
    - eapply vi_ok, pages_root; eauto.
    - eapply vi_not_free, pages_root; eauto.
    - intros i p Hi; eapply vi_ok, pages_l1; eauto. }
  intros r c' s' [-> Hm]; destruct (pt_l1 t !! PX 2 va) as [p1|] eqn:E1.
  2:{ assert (r = None /\ s' = s) as [-> ->] by (by destruct free); wp_steps; split_and!; auto.
      unfold leaf_page; destruct (pt_l0 t !! _) eqn:E; [|done].
      apply H0 in E as [? ?]; congruence. }
  destruct Hm as [-> ->]; wp_step; eapply wp_mono.
  { apply (walk_level_spec _ _ _ _ (fun j => pt_l0 t !! (PX 2 va, j)) free); auto.
    - apply Hv.
    - eapply vi_ok, pages_l1; eauto.
    - eapply vi_not_free, pages_l1; eauto.
    - intros i p Hi; eapply vi_ok, pages_l0; eauto. }
  intros r c' s' [-> Hm]; unfold leaf_page; destruct (pt_l0 t !! (PX 2 va, PX 1 va)) as [p0|] eqn:E0.
  - destruct Hm as [-> ->]; by wp_steps.
  - assert (r = None /\ s' = s) as [-> ->] by (by destruct free); by wp_steps.
Qed.

(** ** Growing a tree *)

Lemma pages_distinct t :
  NoDup (pt_pages t) ->
  (forall i p, pt_l1 t !! i = Some p -> p <> pt_root t) /\
  (forall k p, pt_l0 t !! k = Some p -> p <> pt_root t) /\
  (forall i k p q, pt_l1 t !! i = Some p -> pt_l0 t !! k = Some q -> p <> q).
Proof.
  unfold pt_pages; intros Hn; apply NoDup_cons in Hn as [Hr Hn]; apply NoDup_app in Hn as (_ & Hd & _).
  assert (M1 : forall i p, pt_l1 t !! i = Some p -> p ∈ (map_to_list (pt_l1 t)).*2).
  { intros i p H; apply list_elem_of_fmap; exists (i, p); by rewrite elem_of_map_to_list. }
  assert (M0 : forall k p, pt_l0 t !! k = Some p -> p ∈ (map_to_list (pt_l0 t)).*2).
  { intros k p H; apply list_elem_of_fmap; exists (k, p); by rewrite elem_of_map_to_list. }
  split_and!.
  - intros i p H ->; apply Hr, elem_of_app; eauto.
  - intros k p H ->; apply Hr, elem_of_app; eauto.
  - intros i k p q Hp Hq ->; eapply Hd; eauto.
Qed.

Lemma values_inj `{Countable K} (m : gmap K Z) i j p :
  NoDup (map_to_list m).*2 -> m !! i = Some p -> m !! j = Some p -> i = j.
Proof.
  intros Hn Hi Hj; rewrite <- elem_of_map_to_list in Hi, Hj.
  apply list_elem_of_lookup in Hi as [a Ha], Hj as [b Hb].
  assert (a = b); [|subst; congruence].
  eapply NoDup_lookup; [exact Hn|..]; rewrite list_lookup_fmap; [by rewrite Ha|by rewrite Hb].
Qed.

Lemma pages_inj t :
  NoDup (pt_pages t) ->
  (forall i j p, pt_l1 t !! i = Some p -> pt_l1 t !! j = Some p -> i = j) /\
  (forall i j p, pt_l0 t !! i = Some p -> pt_l0 t !! j = Some p -> i = j).
Proof.
  unfold pt_pages; intros Hn; apply NoDup_cons in Hn as [_ Hn]; apply NoDup_app in Hn as (H1 & _ & H0).
  split; intros; eapply values_inj; eauto.
Qed.

Definition add_l1 (i p : Z) (t : ptree) : ptree := PTree (pt_root t) (<[i := p]> (pt_l1 t)) (pt_l0 t).
Definition add_l0 (i j p : Z) (t : ptree) : ptree := PTree (pt_root t) (pt_l1 t) (<[(i, j) := p]> (pt_l0 t)).

Lemma pages_add_l1 i p t : pt_l1 t !! i = None -> pt_pages (add_l1 i p t) ≡ₚ p :: pt_pages t.
Proof.
  intros H; unfold pt_pages, add_l1; simpl; rewrite map_to_list_insert by done; simpl.
  apply Permutation_swap.
Qed.

Lemma pages_add_l0 i j p t : pt_l0 t !! (i, j) = None -> pt_pages (add_l0 i j p t) ≡ₚ p :: pt_pages t.
Proof.
  intros H; unfold pt_pages, add_l0; simpl; rewrite map_to_list_insert by done; simpl.
  by rewrite <- Permutation_middle, Permutation_swap.
Qed.

Lemma rd64_zero m a : (forall x, a <= x < a + 8 -> rd m x = 0) -> rd64 m a = 0.
Proof.
  intros H; rewrite (rd64_ext ∅ m); [reflexivity|].
  intros x Hx; rewrite H by lia; unfold rd; by rewrite lookup_empty.
Qed.

(** A table that has taken pages from the free list; its entries may have
    changed, the data of other pages has not. *)
Record tbl_ext (s s' : kmem) (free free' : list Z) (t t' : ptree) : Prop := {
  te_inv : vm_inv s' free' t';
  te_root : pt_root t' = pt_root t;
  te_pages : pt_pages t' ++ free' ≡ₚ pt_pages t ++ free;
  te_free : exists used, free = used ++ free';
  te_sub : forall p, p ∈ pt_pages t -> p ∈ pt_pages t';
  te_leaf : forall va p, leaf_page t va = Some p -> leaf_page t' va = Some p;
  te_mem : same_except (pt_pages t') (k_mem s) (k_mem s')
}.

Lemma tbl_ext_refl s free t : vm_inv s free t -> tbl_ext s s free free t t.
Proof. intros H; split; auto; [by exists []|apply same_except_refl]. Qed.

Lemma tbl_ext_trans s1 s2 s3 f1 f2 f3 t1 t2 t3 :
  tbl_ext s1 s2 f1 f2 t1 t2 -> tbl_ext s2 s3 f2 f3 t2 t3 -> tbl_ext s1 s3 f1 f3 t1 t3.
Proof.
  intros [A1 A2 A3 [u1 A4] A5 A6 A8] [B1 B2 B3 [u2 B4] B5 B6 B8]; split; auto.
  - congruence.
  - by rewrite B3.
  - exists (u1 ++ u2); by rewrite A4, B4, app_assoc.
  - apply (same_except_trans _ _ (k_mem s2)); [|done]; by eapply same_except_mono.
Qed.

Lemma tbl_ext_page s s' free free' t t' p :
  tbl_ext s s' free free' t t' -> p ∈ pt_pages t' -> p ∈ pt_pages t ++ free.
Proof. intros H Hp; rewrite <- (te_pages _ _ _ _ _ _ H), elem_of_app; auto. Qed.

(** What [walk] with allocation may do: no entry changes. *)
Record walk_ext (s s' : kmem) (free free' : list Z) (t t' : ptree) : Prop := {
  we_tbl : tbl_ext s s' free free' t t';
  we_pte : forall va, pte_of (k_mem s') t' va = pte_of (k_mem s) t va
}.

Lemma walk_ext_refl s free t : vm_inv s free t -> walk_ext s s free free t t.
Proof. intros H; split; [by apply tbl_ext_refl|done]. Qed.

Lemma walk_ext_trans s1 s2 s3 f1 f2 f3 t1 t2 t3 :
  walk_ext s1 s2 f1 f2 t1 t2 -> walk_ext s2 s3 f2 f3 t2 t3 -> walk_ext s1 s3 f1 f3 t1 t3.
Proof.
  intros [A A'] [B B']; split; [by eapply tbl_ext_trans|]; intros va; by rewrite B'.
Qed.

(** The common part of adding a page [p] and its entry at index [i] of the
    directory page [d]. *)
Lemma add_frame s s' free p t d i q k :
  vm_inv s (p :: free) t -> d ∈ pt_pages t -> 0 <= i < 512 ->
  (forall x, x < p \/ p + 4096 <= x -> x < d + 8 * i \/ d + 8 * i + 8 <= x -> rd (k_mem s') x = rd (k_mem s) x) ->
  q ∈ pt_pages t -> 0 <= k < 512 -> q <> d \/ k <> i ->
  rd64 (k_mem s') (q + 8 * k) = rd64 (k_mem s) (q + 8 * k).
Proof.
  intros Hv Hd Hi Hm Hq Hk Hne; apply rd64_ext; intros x Hx.
  assert (Hqp : q <> p) by (intros ->; eapply vi_not_free; [done|exact Hq|by left]).
  destruct (vi_ok _ _ _ _ Hv Hq) as [Hq1 _]; destruct (vi_ok _ _ _ _ Hv Hd) as [Hd1 _].
  pose proof (ki_pages _ _ (vi_kalloc _ _ _ Hv)) as Hf; apply Forall_cons in Hf as [[Hp1 _] _].
  destruct (pages_disjoint q p Hq1 Hp1 Hqp); apply Hm; try lia.
  all: destruct (decide (q = d)) as [->|Hqd]; [lia|]; destruct (pages_disjoint q d Hq1 Hd1 Hqd); lia.
Qed.

(** The memory after [walk_level] has added page [p] at index [i] of [d]. *)
Record added (s s' : kmem) (free : list Z) (d i p : Z) : Prop := {
  ad_kalloc : kalloc_inv s' free;
  ad_same : forall x, x < p \/ p + 4096 <= x -> x < d + 8 * i \/ d + 8 * i + 8 <= x ->
    rd (k_mem s') x = rd (k_mem s) x;
  ad_zero : forall x, p <= x < p + 4096 -> rd (k_mem s') x = 0;
  ad_entry : rd64 (k_mem s') (d + 8 * i) = dir_pte (Some p)
}.

Lemma added_pages s s' free p t t' d i :
  vm_inv s (p :: free) t -> pt_pages t' ≡ₚ p :: pt_pages t -> d ∈ pt_pages t -> 0 <= i < 512 ->
  added s s' free d i p -> pt_rep (k_mem s') t' ->
  vm_inv s' free t' /\ pt_pages t' ++ free ≡ₚ pt_pages t ++ p :: free /\
  same_except (pt_pages t') (k_mem s) (k_mem s').
Proof.
  intros Hv Hp Hd Hi [Hk Hs _ _] Hr.
  assert (Hperm : pt_pages t' ++ free ≡ₚ pt_pages t ++ p :: free).
  { by rewrite Hp, <- Permutation_middle. }
  split_and!; auto.
  - split; auto; [rewrite Hperm; apply Hv|]; rewrite Hp; constructor; [|apply Hv].
    pose proof (ki_pages _ _ (vi_kalloc _ _ _ Hv)) as Hf; by apply Forall_cons in Hf as [? _].
  - intros x Hx; apply Hs; [apply Hx; rewrite Hp; by left|].
    destruct (Hx d); [rewrite Hp; by right|lia|lia].
Qed.

Lemma added_zero s s' free p d i k :
  added s s' free d i p -> 0 <= k < 512 -> rd64 (k_mem s') (p + 8 * k) = 0.
Proof. intros H Hk; apply rd64_zero; intros x Hx; apply (ad_zero _ _ _ _ _ _ H); lia. Qed.

Lemma add_l1_ext s s' free p t i :
  vm_inv s (p :: free) t -> pt_l1 t !! i = None -> 0 <= i < 256 ->
  added s s' free (pt_root t) i p -> walk_ext s s' (p :: free) free t (add_l1 i p t).
Proof.
  intros Hv Hi Hdx Ha; assert (Hidx : 0 <= i < 512) by lia; pose proof (vi_rep _ _ _ Hv) as [Hr H1 H0 Hd1 Hd0].
  assert (Hnd : NoDup (pt_pages t)) by (pose proof (vi_nodup _ _ _ Hv) as Hn; by apply NoDup_app in Hn as [? _]).
  destruct (pages_distinct t Hnd) as (D1 & D0 & _).
  assert (Hfr := fun q k => add_frame s s' free p t (pt_root t) i q k Hv (pages_root t) Hidx (ad_same _ _ _ _ _ _ Ha)).
  assert (Hrep : pt_rep (k_mem s') (add_l1 i p t)).
  { split; cbn [add_l1 pt_root pt_l1 pt_l0].
    - intros k Hk; destruct (decide (k = i)) as [->|].
      + rewrite lookup_insert_eq; apply Ha.
      + rewrite lookup_insert_ne by done; rewrite Hfr by (auto using pages_root); auto.
    - intros k q Hq j Hj; destruct (decide (k = i)) as [->|].
      + rewrite lookup_insert_eq in Hq; injection Hq as <-.
        rewrite (added_zero _ _ _ _ _ _ _ Ha Hj).
        destruct (pt_l0 t !! (i, j)) eqn:E; [|done]; apply H0 in E as [? ?]; congruence.
      + rewrite lookup_insert_ne in Hq by done; rewrite Hfr by (eauto using pages_l1).
        by apply H1.
    - intros k j q Hq; apply H0 in Hq; destruct (decide (k = i)) as [->|].
      + by rewrite lookup_insert_eq.
      + by rewrite lookup_insert_ne.
    - intros k q [[<- _]|[_ Hq]]%lookup_insert_Some; eauto.
    - done. }
  destruct (added_pages s s' free p t (add_l1 i p t) (pt_root t) i) as (Hv' & Hperm & Hsame);
    auto using pages_add_l1, pages_root.
  split; [split; auto; [by exists [p]|by intros q Hq; rewrite pages_add_l1 by done; right]|].
  intros va; unfold pte_of, leaf_page; cbn [add_l1 pt_l0].
  destruct (pt_l0 t !! _) as [q|] eqn:E; [|done]; apply Hfr; eauto using pages_l0, PX_range.
Qed.

Lemma add_l0_ext s s' free p t i j d :
  vm_inv s (p :: free) t -> pt_l1 t !! i = Some d -> pt_l0 t !! (i, j) = None -> 0 <= j < 512 ->
  added s s' free d j p -> walk_ext s s' (p :: free) free t (add_l0 i j p t).
Proof.
  intros Hv Hd Hj Hidx Ha; pose proof (vi_rep _ _ _ Hv) as [Hr H1 H0 Hd1 Hd0].
  assert (Hnd : NoDup (pt_pages t)) by (pose proof (vi_nodup _ _ _ Hv) as Hn; by apply NoDup_app in Hn as [? _]).
  destruct (pages_distinct t Hnd) as (D1 & D0 & D10); destruct (pages_inj t Hnd) as [I1 _].
  assert (Hfr := fun q k => add_frame s s' free p t d j q k Hv (pages_l1 _ _ _ Hd) Hidx (ad_same _ _ _ _ _ _ Ha)).
  assert (Hrep : pt_rep (k_mem s') (add_l0 i j p t)).
  { split; cbn [add_l0 pt_root pt_l1 pt_l0].
    - intros k Hk; rewrite Hfr; [by apply Hr|apply pages_root|done|left; symmetry; eauto].
    - intros k q Hq k' Hk'; destruct (decide (k = i /\ k' = j)) as [[-> ->]|Hne].
      + rewrite lookup_insert_eq; replace q with d by congruence; apply Ha.
      + rewrite lookup_insert_ne by (intros [= -> ->]; by apply Hne); rewrite Hfr; [by apply H1|by eapply pages_l1|done|].
        destruct (decide (q = d)) as [->|]; [right|by left].
        intros ->; apply Hne; split; [by eapply I1|done].
    - intros k k' q Hq; destruct (decide ((k, k') = (i, j))) as [[= -> ->]|Hne]; [by rewrite Hd|].
      rewrite lookup_insert_ne in Hq by congruence; eauto.
    - done.
    - intros k k' q [[[= <- <-] _]|[_ Hq]]%lookup_insert_Some; eauto. }
  destruct (added_pages s s' free p t (add_l0 i j p t) d j) as (Hv' & Hperm & Hsame);
    eauto using pages_add_l0, pages_l1.
  assert (Hleaf : forall va q, leaf_page t va = Some q -> leaf_page (add_l0 i j p t) va = Some q).
  { intros va q; unfold leaf_page; cbn [add_l0 pt_l0]; intros Hq.
    rewrite lookup_insert_ne; [done|intros E; congruence]. }
  split; [split; auto; [by exists [p]|by intros q Hq; rewrite pages_add_l0 by done; right]|].
  intros va; unfold pte_of; destruct (leaf_page t va) as [q|] eqn:E.
  - rewrite (Hleaf _ _ E); apply Hfr; [by eapply pages_l0|apply PX_range|left; intros ->; by eapply D10].
  - unfold leaf_page in *; cbn [add_l0 pt_l0].
    destruct (decide ((PX 2 va, PX 1 va) = (i, j))) as [->|].
    + rewrite lookup_insert_eq; eapply added_zero; [exact Ha|apply PX_range].
    + by rewrite lookup_insert_ne, E.
Qed.

(** [walk] with allocation: the entry's address, or 0 when memory ran out. *)
Lemma walk_alloc_spec s free t va c :
  vm_inv s free t -> KMEM ∉ c_held c -> 0 <= va < MAXVA ->
  wp (walk (pt_root t) va true) c s (fun a c' s' =>
    c' = c /\ exists free' t', walk_ext s s' free free' t t' /\
    ((a = 0 /\ free' = [] /\ leaf_page t' va = None) \/
     exists p, leaf_page t' va = Some p /\ a = p + 8 * PX 0 va)).
Proof.
  intros Hv Hk Hva; pose proof (vi_rep _ _ _ Hv) as [Hr H1 H0 Hd1 Hd0].
  unfold walk; destruct (Z.leb_spec MAXVA va); [lia|]; wp_step; eapply wp_mono.
  { apply (walk_level_spec _ _ _ _ (fun i => pt_l1 t !! i) free); auto.
    - apply Hv.
    - eapply vi_ok, pages_root; eauto.
    - eapply vi_not_free, pages_root; eauto.
    - intros i p Hi; eapply vi_ok, pages_l1; eauto. }
  cbv beta; intros r c' s1 [-> Hm].
  assert (Hstep : (r = None /\ free = [] /\ s1 = s /\ pt_l1 t !! PX 2 va = None) \/
    exists p1 f1 t1, r = Some p1 /\ pt_l1 t1 !! PX 2 va = Some p1 /\ walk_ext s s1 free f1 t t1).
  { destruct (pt_l1 t !! PX 2 va) as [p1|] eqn:E1.
    - right; destruct Hm as [-> ->]; exists p1, free, t; auto using walk_ext_refl.
    - destruct free as [|p free']; [left; destruct Hm as [-> ->]; auto|right].
      destruct Hm as (-> & K1 & K2 & K3 & K4); exists p, free', (add_l1 (PX 2 va) p t).
      split; [done|]; split; [cbn [add_l1 pt_l1]; by rewrite lookup_insert_eq|].
      apply add_l1_ext; auto using PX2_range; by split. }
  clear Hm; destruct Hstep as [(-> & -> & -> & E1)|(p1 & f1 & t1 & -> & E1 & Hext)]; wp_steps.
  { split; [done|]; exists [], t; split; [by apply walk_ext_refl|]; left; split_and!; auto.
    unfold leaf_page; destruct (pt_l0 t !! _) eqn:E; [|done]; apply H0 in E as [? ?]; congruence. }
  pose proof (te_inv _ _ _ _ _ _ (we_tbl _ _ _ _ _ _ Hext)) as Hv1; pose proof (vi_rep _ _ _ Hv1) as [Hr1 H11 H01 _ _].
  eapply wp_mono.
  { apply (walk_level_spec _ _ _ _ (fun j => pt_l0 t1 !! (PX 2 va, j)) f1); auto.
    - apply Hv1.
    - eapply vi_ok, pages_l1; eauto.
    - eapply vi_not_free, pages_l1; eauto.
    - intros i p Hi; eapply vi_ok, pages_l0; eauto. }
  cbv beta; intros r c' s2 [-> Hm]; destruct (pt_l0 t1 !! (PX 2 va, PX 1 va)) as [p0|] eqn:E0.
  { destruct Hm as [-> ->]; wp_steps; split; [done|]; exists f1, t1; split; [done|]; right; by exists p0. }
  destruct f1 as [|p f2]; [destruct Hm as [-> ->]; wp_steps; split; [done|]; exists [], t1; auto|].
  destruct Hm as (-> & K1 & K2 & K3 & K4); wp_steps; split; [done|].
  exists f2, (add_l0 (PX 2 va) (PX 1 va) p t1); split.
  - eapply walk_ext_trans; [exact Hext|]; eapply add_l0_ext; eauto using PX_range; by split.
  - right; exists p; unfold leaf_page; cbn [add_l0 pt_l0]; by rewrite lookup_insert_eq.
Qed.

(** ** Writing an entry *)

Lemma leaf_same t va va' :
  0 <= va < MAXVA -> 0 <= va' < MAXVA -> va / 4096 = va' / 4096 -> leaf_page t va = leaf_page t va'.
Proof.
  intros Hva Hva' E; unfold leaf_page.
  by rewrite (PX_page 2 va va'), (PX_page 1 va va') by lia.
Qed.

Lemma pte_of_page m t va va' :
  0 <= va < MAXVA -> 0 <= va' < MAXVA -> va / 4096 = va' / 4096 -> pte_of m t va = pte_of m t va'.
Proof.
  intros Hva Hva' E; unfold pte_of; rewrite (leaf_same t va va'), (PX_page 0 va va') by (done || lia); done.
Qed.

Lemma pte_write s free t va p v :
  vm_inv s free t -> 0 <= va < MAXVA -> leaf_page t va = Some p -> 0 <= v < 2 ^ 64 ->
  let s' := set_mem (wr64 (k_mem s) (p + 8 * PX 0 va) v) s in
  tbl_ext s s' free free t t /\
  forall va', 0 <= va' < MAXVA ->
    pte_of (k_mem s') t va' = if decide (va' / 4096 = va / 4096) then v else pte_of (k_mem s) t va'.
Proof.
  intros Hv Hva Hp Hv64 s'; pose proof (vi_rep _ _ _ Hv) as [Hr H1 H0 Hd1 Hd0].
  assert (Hnd : NoDup (pt_pages t)) by (pose proof (vi_nodup _ _ _ Hv) as Hn; by apply NoDup_app in Hn as [? _]).
  destruct (pages_distinct t Hnd) as (D1 & D0 & D10); destruct (pages_inj t Hnd) as [_ I0].
  assert (Hpin : p ∈ pt_pages t) by (by eapply pages_l0).
  pose proof (vi_ok _ _ _ _ Hv Hpin) as Hpok; pose proof (PX_range 0 va) as Hpx.
  assert (Hmem : same_except [p] (k_mem s) (k_mem s')).
  { intros x Hx; simpl; rewrite rd_wr64_out; [done|]; destruct (Hx p); [by left|lia|lia]. }
  assert (Hoth : forall q k, page_ok q -> q <> p -> 0 <= k < 512 -> rd64 (k_mem s') (q + 8 * k) = rd64 (k_mem s) (q + 8 * k)).
  { intros q k Hq Hne Hk; apply (same_except_rd64 [p]); auto; by rewrite list_elem_of_singleton. }
  assert (Hrep : pt_rep (k_mem s') t).
  { split; auto.
    - intros i Hi; rewrite Hoth; [by apply Hr|eapply vi_ok, pages_root; eauto|intros E; eapply D0; eauto|done].
    - intros i q Hq j Hj; rewrite Hoth; [by apply H1|eapply vi_ok, pages_l1; eauto|by eapply D10|done]. }
  split.
  - split; auto; [|by exists []|by eapply same_except_mono; [|exact Hmem]; intros q ->%list_elem_of_singleton].
    split; [|done|apply Hv|apply Hv]; destruct (vi_kalloc _ _ _ Hv) as [K1 K2 K3 K4].
    split; auto; [by simpl; auto|]; apply (free_rep_only_page (k_mem s) _ p); auto; [|apply Hpok|by eapply vi_not_free].
    intros x Hx; apply Hmem; by intros q ->%list_elem_of_singleton.
  - intros va' Hva'; case_decide as E.
    + rewrite (pte_of_page _ _ va' va) by done; unfold pte_of; rewrite Hp; simpl.
      rewrite rd64_wr64_eq; by apply u64_small.
    + unfold pte_of; destruct (leaf_page t va') as [q|] eqn:Eq; [|done].
      pose proof (PX_range 0 va') as Hpx'; destruct (decide (q = p)) as [->|].
      2:{ apply Hoth; auto; eapply vi_ok, pages_l0; eauto. }
      simpl; apply rd64_wr64_ne; assert (PX 0 va <> PX 0 va'); [|lia].
      intros E0; apply E; injection (I0 _ _ _ Hp Eq) as E2 E1; symmetry; by apply PX_inj.
Qed.

(** ** [mappages] *)

(** The entries after [k] pages from [a] have been mapped to [pa]. *)
Definition mapped_upto (m : mem) (t : ptree) (m' : mem) (t' : ptree) (a pa perm k : Z) : Prop :=
  forall va, 0 <= va < MAXVA -> pte_of m' t' va =
    if decide (a <= va < a + k * 4096) then leaf_pte (pa + (va - a) / 4096 * 4096) perm
    else pte_of m t va.

Definition unmapped (m : mem) (t : ptree) (a n : Z) : Prop :=
  forall va, a <= va < a + n * 4096 -> set (pte_of m t va) PTE_V = false.

Lemma same_page a va : a mod 4096 = 0 -> va / 4096 = a / 4096 <-> a <= va < a + 4096.
Proof.
  intros Ha; pose proof (Z.div_mod a 4096 ltac:(lia)); pose proof (Z.div_mod va 4096 ltac:(lia)).
  pose proof (Z.mod_pos_bound va 4096 ltac:(lia)); lia.
Qed.

Lemma walk_leaf_nonzero s free t va p : vm_inv s free t -> leaf_page t va = Some p -> p + 8 * PX 0 va <> 0.
Proof.
  intros Hv Hp; pose proof (PX_range 0 va).
  assert (Hok : page_ok p) by (eapply vi_ok; [done|by eapply pages_l0]).
  pose proof (page_ok_bounds p Hok); lia.
Qed.

Lemma mappages_loop_spec n s free t a pa perm c :
  vm_inv s free t -> KMEM ∉ c_held c -> (0 < n)%nat -> a mod 4096 = 0 ->
  0 <= a -> a + Z.of_nat n * 4096 <= MAXVA ->
  0 <= pa -> pa + Z.of_nat n * 4096 <= 2 ^ 56 -> 0 <= perm < 1024 ->
  unmapped (k_mem s) t a (Z.of_nat n) ->
  wp (mappages_loop n (pt_root t) a (a + Z.of_nat n * 4096 - 4096) pa perm) c s (fun r c' s' =>
    c' = c /\ exists free' t' k, tbl_ext s s' free free' t t' /\
    mapped_upto (k_mem s) t (k_mem s') t' a pa perm k /\
    ((r = 0 /\ k = Z.of_nat n) \/ (r = -1 /\ 0 <= k < Z.of_nat n /\ free' = []))).
Proof.
  revert s free t a pa; induction n as [|n IH]; intros s free t a pa Hv Hk Hn Hal Ha Hhi Hpa Hpahi Hperm Hun; [lia|].
  change MAXVA with (2 ^ 38) in Hhi; cbn [mappages_loop]; wp_step.
  eapply wp_mono; [apply (walk_alloc_spec s free t a c); auto; change MAXVA with (2 ^ 38); lia|].
  intros w c' s1 (-> & free1 & t1 & [Hext Hpte] & [(-> & -> & _)|(p & Hp & ->)]).
  { wp_steps; split; [done|]; exists [], t1, 0; split_and!; auto; [|right; auto with lia].
    intros va Hva; rewrite decide_False by lia; auto. }
  pose proof (te_inv _ _ _ _ _ _ Hext) as Hv1.
  destruct (Z.eqb_spec (p + 8 * PX 0 a) 0) as [E|_]; [by eapply walk_leaf_nonzero in E|].
  unfold read_pte, write_pte, mod_mem; wp_steps.
  assert (E : rd64 (k_mem s1) (p + 8 * PX 0 a) = pte_of (k_mem s1) t1 a) by (unfold pte_of; by rewrite Hp).
  rewrite E, Hpte, (Hun a) by lia; wp_steps.
  destruct (pte_write s1 free1 t1 a p (leaf_pte pa perm)) as [Hext2 Hpte2]; auto.
  { change MAXVA with (2 ^ 38); lia. }
  { apply leaf_pte_range; lia. }
  fold (leaf_pte pa perm); set (s2 := set_mem _ s1) in *.
  assert (Hm2 : mapped_upto (k_mem s) t (k_mem s2) t1 a pa perm 1).
  { intros va Hva; rewrite Hpte2, Hpte by done; pose proof (same_page a va Hal).
    repeat case_decide; try tauto; try lia; f_equal; rewrite Z.div_small; lia. }
  pose proof (tbl_ext_trans _ _ _ _ _ _ _ _ _ Hext Hext2) as Hext3.
  destruct (Z.eqb_spec a (a + Z.of_nat (S n) * 4096 - 4096)) as [El|El]; wp_steps.
  { split; [done|]; exists free1, t1, 1; split_and!; auto; left; lia. }
  change PGSIZE with 4096; rewrite (u64_small (a + 4096)), (u64_small (pa + 4096)) by lia.
  rewrite <- (te_root _ _ _ _ _ _ Hext3).
  replace (a + Z.of_nat (S n) * 4096 - 4096) with (a + 4096 + Z.of_nat n * 4096 - 4096) by lia.
  eapply wp_mono; [apply (IH s2 free1 t1 (a + 4096) (pa + 4096)); auto|].
  all: try lia; try apply Hext3; try (change MAXVA with (2 ^ 38); lia).
  { rewrite <- Z.add_mod_idemp_l, Hal by lia; done. }
  { intros va Hva; rewrite Hm2 by (change MAXVA with (2 ^ 38); lia); rewrite decide_False by lia; apply Hun; lia. }
  intros r c' s3 (-> & free3 & t3 & k & Hext4 & Hm4 & Hr); split; [done|].
  exists free3, t3, (k + 1); split_and!; [by eapply tbl_ext_trans| |].
  - assert (0 <= k) by lia.
    intros va Hva; rewrite Hm4, Hm2 by done; repeat case_decide; try lia; auto; f_equal.
    replace (va - a) with (va - (a + 4096) + 1 * 4096) by lia; rewrite Z.div_add by lia; lia.
  - destruct Hr as [[-> ->]|(-> & Hr & ->)]; [left|right]; auto with lia.
Qed.

Lemma mappages_spec s free t va n pa perm c :
  vm_inv s free t -> KMEM ∉ c_held c -> 0 < n -> va mod 4096 = 0 -> 0 <= va ->
  va + n * 4096 <= MAXVA -> 0 <= pa -> pa + n * 4096 <= 2 ^ 56 -> 0 <= perm < 1024 ->
  unmapped (k_mem s) t va n ->
  wp (mappages (pt_root t) va (n * 4096) pa perm) c s (fun r c' s' =>
    c' = c /\ exists free' t' k, tbl_ext s s' free free' t t' /\
    mapped_upto (k_mem s) t (k_mem s') t' va pa perm k /\
    ((r = 0 /\ k = n) \/ (r = -1 /\ 0 <= k < n /\ free' = []))).
Proof.
  intros Hv Hk Hn Hal Ha Hhi Hpa Hpahi Hperm Hun; change MAXVA with (2 ^ 38) in Hhi.
  unfold mappages; change PGSIZE with 4096; rewrite Hal, Z_mod_mult, Z.eqb_refl; cbn [negb].
  destruct (Z.eqb_spec (n * 4096) 0); [lia|]; rewrite Z.div_mul by lia.
  rewrite u64_small by lia; replace (va + n * 4096) with (va + Z.of_nat (Z.to_nat n) * 4096) by lia.
  eapply wp_mono; [apply (mappages_loop_spec (Z.to_nat n) s free t); auto; try lia|].
  - change MAXVA with (2 ^ 38); lia.
  - by rewrite Z2Nat.id by lia.
  - intros r c' s'; by rewrite Z2Nat.id by lia.
Qed.
End ptree.
