(* ===== verification/UserVm.v ===== *)
(** * User address spaces

    The part of a user page table below the trapframe as a map from page numbers
    to physical pages and permissions.  [uspace] ties it to the tables in memory
    and says that the table's pages, the user's pages and the free pages are all
    different, which is what keeps processes and the kernel apart. *)

From S2P Require Import Prelude KMonad Memory Riscv Kalloc Vm VmProofs.

(** The first page number that is not user memory. *)
Definition ulimit : Z := TRAPFRAME / PGSIZE.

Abbreviation umap := (gmap Z (Z * Z)).

Definition upages (U : umap) : list Z := (map_to_list U).*2.*1.

Definition pte_for (o : option (Z * Z)) : Z :=
  match o with Some (pa, perm) => leaf_pte pa perm | None => 0 end.

Lemma ulimit_eq : ulimit = 2 ^ 26 - 2.
Proof. reflexivity. Qed.

Lemma upages_insert U v pa perm : U !! v = None -> upages (<[v := (pa, perm)]> U) ≡ₚ pa :: upages U.
Proof. intros H; unfold upages; by rewrite map_to_list_insert. Qed.

Lemma upages_delete U v pa perm : U !! v = Some (pa, perm) -> upages U ≡ₚ pa :: upages (delete v U).
Proof. intros H; unfold upages; by rewrite <- (map_to_list_delete U v (pa, perm)). Qed.

Lemma upages_in U v pa perm : U !! v = Some (pa, perm) -> pa ∈ upages U.
Proof. intros H; rewrite upages_delete by done; by left. Qed.

Section uspace.
Context {L : KernelLayout}.

Record uspace (s : kmem) (free : list Z) (t : ptree) (U : umap) : Prop := {
  us_inv : vm_inv s free t;
  us_pte : forall v, 0 <= v < ulimit -> pte_of (k_mem s) t (v * 4096) = pte_for (U !! v);
  us_high : forall va, ulimit * 4096 <= va < MAXVA -> set (pte_of (k_mem s) t va) PTE_U = false;
  us_dom : forall v pa perm, U !! v = Some (pa, perm) -> 0 <= v < ulimit /\ page_ok pa /\ 0 <= perm < 1024;
  us_nodup : NoDup (pt_pages t ++ upages U ++ free)
}.

Lemma vpn_va v : 0 <= v < ulimit -> 0 <= v * 4096 < MAXVA /\ v * 4096 / 4096 = v.
Proof. rewrite ulimit_eq; change MAXVA with (2 ^ 38); intros; split; [lia|by rewrite Z.div_mul]. Qed.

Lemma us_pte_va s free t U va :
  uspace s free t U -> 0 <= va / 4096 < ulimit -> pte_of (k_mem s) t va = pte_for (U !! (va / 4096)).
Proof.
  intros Hu Hva; pose proof (vpn_va _ Hva) as [Hr Hd]; rewrite <- (us_pte _ _ _ _ Hu) by done.
  apply pte_of_page; [|done|by rewrite Hd].
  rewrite ulimit_eq in Hva; change MAXVA with (2 ^ 38).
  pose proof (Z.div_mod va 4096 ltac:(lia)); pose proof (Z.mod_pos_bound va 4096 ltac:(lia)); lia.
Qed.

Lemma pte_for_valid pa perm : set (pte_for (Some (pa, perm))) PTE_V = true.
Proof. apply set_lor_V. Qed.

(** A user page is neither part of the table nor free. *)
Lemma upage_apart s free t U v pa perm :
  uspace s free t U -> U !! v = Some (pa, perm) -> (pa ∉ pt_pages t) /\ (pa ∉ free) /\ (pa ∉ upages (delete v U)).
Proof.
  intros Hu Hv; pose proof (us_nodup _ _ _ _ Hu) as Hn; rewrite (upages_delete _ _ _ _ Hv) in Hn.
  cbn [app] in Hn; rewrite <- Permutation_middle in Hn; apply NoDup_cons in Hn as [Hn _].
  rewrite !elem_of_app in Hn; tauto.
Qed.

(** The bytes of user pages outside [F] are the same. *)
Lemma same_except_page F m m' q x :
  same_except F m m' -> Forall page_ok F -> page_ok q -> q ∉ F -> q <= x < q + 4096 -> rd m' x = rd m x.
Proof.
  intros H HF Hq Hn Hx; apply H; intros p Hp; rewrite Forall_forall in HF.
  destruct (HF p Hp) as [Hal _], Hq as [Hal' _].
  destruct (pages_disjoint p q) as [|]; [done|done|congruence|lia|lia].
Qed.

(** ** Unmapping *)

(** Freeing the page of one entry and clearing the entry. *)
Lemma unmap_one s s1 free t U v pa perm p :
  uspace s free t U -> U !! v = Some (pa, perm) -> leaf_page t (v * 4096) = Some p ->
  kalloc_inv s1 (pa :: free) -> only_page pa (k_mem s) (k_mem s1) ->
  let s2 := set_mem (wr64 (k_mem s1) (p + 8 * PX 0 (v * 4096)) 0) s1 in
  uspace s2 (pa :: free) t (delete v U) /\ same_except (pa :: pt_pages t) (k_mem s) (k_mem s2) /\
  forall va, ulimit * 4096 <= va < MAXVA -> pte_of (k_mem s2) t va = pte_of (k_mem s) t va.
Proof.
  intros Hu Hv Hp Hk1 Ho s2; destruct (us_dom _ _ _ _ Hu _ _ _ Hv) as (Hvr & Hpa & _).
  destruct (vpn_va v Hvr) as [Hva Hvd]; destruct (upage_apart _ _ _ _ _ _ _ Hu Hv) as (Npt & Nf & Nu).
  pose proof (us_inv _ _ _ _ Hu) as Hvi; pose proof (us_nodup _ _ _ _ Hu) as Hn.
  assert (Hs1 : same_except [pa] (k_mem s) (k_mem s1)).
  { intros x Hx; apply Ho; destruct (Hx pa); [by left|lia|lia]. }
  assert (Hrd : forall q k, q ∈ pt_pages t -> 0 <= k < 512 -> rd64 (k_mem s1) (q + 8 * k) = rd64 (k_mem s) (q + 8 * k)).
  { intros q k Hq Hk; apply (same_except_rd64 [pa]); auto; [by eapply vi_ok|].
    rewrite list_elem_of_singleton; by intros ->. }
  assert (Hvi1 : vm_inv s1 (pa :: free) t).
  { destruct (vi_rep _ _ _ Hvi) as [R1 R2 R3]; split; auto; [| |apply Hvi].
    - split; auto; [intros i Hi; rewrite Hrd by (auto using pages_root); auto|].
      intros i q Hq j Hj; rewrite Hrd by (eauto using pages_l1); by apply R2.
    - rewrite <- Permutation_middle; constructor; [rewrite elem_of_app; tauto|apply Hvi]. }
  destruct (pte_write s1 (pa :: free) t (v * 4096) p 0) as [Hext Hpte]; auto; [lia|].
  assert (Hpte1 : forall va, pte_of (k_mem s1) t va = pte_of (k_mem s) t va).
  { intros va; unfold pte_of; destruct (leaf_page t va) as [q|] eqn:E; [|done].
    apply Hrd; [by eapply pages_l0|apply PX_range]. }
  assert (Hhigh : forall va, ulimit * 4096 <= va < MAXVA ->
    pte_of (k_mem (set_mem (wr64 (k_mem s1) (p + 8 * PX 0 (v * 4096)) 0) s1)) t va = pte_of (k_mem s) t va).
  { intros va Hva'; rewrite ulimit_eq in Hva', Hvr; rewrite Hpte, Hpte1, Hvd by lia; rewrite decide_False; [done|].
    intros E; pose proof (Z.div_mod va 4096 ltac:(lia)); pose proof (Z.mod_pos_bound va 4096 ltac:(lia)); lia. }
  split_and!; [split| |exact Hhigh].
  - apply Hext.
  - intros w Hw; destruct (vpn_va w Hw) as [Hwa Hwd]; rewrite Hpte, Hpte1, Hvd, Hwd by done.
    case_decide as E; [subst; by rewrite lookup_delete_eq|].
    rewrite lookup_delete_ne by done; by apply Hu.
  - intros va Hva'; rewrite Hhigh by done; by apply Hu.
  - intros w q pm; rewrite lookup_delete_Some; intros [_ H]; by eapply us_dom.
  - rewrite (upages_delete _ _ _ _ Hv) in Hn; cbn [app] in Hn.
    by rewrite <- (Permutation_middle (upages (delete v U))).
  - apply (same_except_trans _ _ (k_mem s1)); [|eapply same_except_mono; [|apply Hext]; by right].
    eapply same_except_mono; [|exact Hs1]; intros q ->%list_elem_of_singleton; by left.
Qed.

(** [U] without the pages [v], ..., [v + n - 1]. *)
Definition unmap_range (U : umap) (v n : Z) : umap :=
  filter (fun kv => ~ (v <= kv.1 < v + n)) U.

Lemma lookup_unmap_range U v n w :
  unmap_range U v n !! w = if decide (v <= w < v + n) then None else U !! w.
Proof.
  unfold unmap_range; rewrite map_lookup_filter; case_decide as E; destruct (U !! w) as [x|]; simpl; auto.
  - rewrite option_guard_False; [done|]; simpl; tauto.
  - by rewrite option_guard_True.
Qed.

Lemma unmap_range_step U v n : 0 <= n -> unmap_range U v (n + 1) = unmap_range (delete v U) (v + 1) n.
Proof.
  intros Hn; apply map_eq; intros w; rewrite !lookup_unmap_range; repeat case_decide; try lia; auto.
  - assert (w = v) as -> by lia; by rewrite lookup_delete_eq.
  - rewrite lookup_delete_ne by lia; done.
Qed.

Lemma unmap_range_nil U v : unmap_range U v 0 = U.
Proof. apply map_eq; intros w; rewrite lookup_unmap_range; case_decide; [lia|done]. Qed.

Lemma delete_absent U v n : U !! v = None -> 0 <= n -> unmap_range U v (n + 1) = unmap_range U (v + 1) n.
Proof. intros H Hn; rewrite unmap_range_step by done; by rewrite delete_id. Qed.

(** What unmapping with [do_free] leaves: the pages of the removed entries are
    on the free list, in the order [freed]. *)
Record unmapped_by (s s' : kmem) (free : list Z) (t : ptree) (U U' : umap) (freed : list Z) : Prop := {
  ub_space : uspace s' (freed ++ free) t U';
  ub_pages : upages U ≡ₚ freed ++ upages U';
  ub_mem : same_except (freed ++ pt_pages t) (k_mem s) (k_mem s');
  ub_high : forall va, ulimit * 4096 <= va < MAXVA -> pte_of (k_mem s') t va = pte_of (k_mem s) t va
}.

Lemma unmapped_by_refl s free t U : uspace s free t U -> unmapped_by s s free t U U [].
Proof. by split. Qed.

Lemma uvmunmap_loop_spec n s free t U v c :
  uspace s free t U -> KMEM ∉ c_held c -> 0 <= v -> v + Z.of_nat n <= ulimit ->
  wp (uvmunmap_loop n (pt_root t) (v * 4096) (v * 4096 + Z.of_nat n * 4096) true) c s (fun _ c' s' =>
    c' = c /\ exists freed, unmapped_by s s' free t U (unmap_range U v (Z.of_nat n)) freed).
Proof.
  revert s free U v; induction n as [|n IH]; intros s free U v Hu Hk Hv Hhi; cbn [uvmunmap_loop].
  { destruct (Z.ltb_spec (v * 4096) (v * 4096 + Z.of_nat 0 * 4096)); [lia|]; cbn [negb]; wp_steps.
    split; [done|]; exists []; rewrite unmap_range_nil; by apply unmapped_by_refl. }
  destruct (Z.ltb_spec (v * 4096) (v * 4096 + Z.of_nat (S n) * 4096)); [|lia]; cbn [negb].
  assert (Hvr : 0 <= v < ulimit) by lia; destruct (vpn_va v Hvr) as [Hva Hvd].
  pose proof (us_inv _ _ _ _ Hu) as Hvi; pose proof (us_pte _ _ _ _ Hu v Hvr) as Hpte.
  assert (Hnext : u64 (v * 4096 + PGSIZE) = (v + 1) * 4096).
  { change PGSIZE with 4096; rewrite u64_small; rewrite ulimit_eq in Hvr; lia. }
  rewrite Hnext; replace (v * 4096 + Z.of_nat (S n) * 4096) with ((v + 1) * 4096 + Z.of_nat n * 4096) by lia.
  replace (Z.of_nat (S n)) with (Z.of_nat n + 1) by lia.
  wp_step; eapply wp_mono; [by apply (walk_spec s free t)|]; intros a c' s' (-> & -> & ->).
  unfold pte_of in Hpte; destruct (leaf_page t (v * 4096)) as [p|] eqn:Ep.
  2:{ assert (U !! v = None) as E.
      { destruct (U !! v) as [[pa perm]|]; [|done]; pose proof (pte_for_valid pa perm) as E; rewrite <- Hpte in E; done. }
      wp_steps; rewrite (delete_absent _ _ _ E) by lia; apply IH; auto; lia. }
  destruct (Z.eqb_spec (p + 8 * PX 0 (v * 4096)) 0) as [E|_]; [by eapply walk_leaf_nonzero in E|].
  unfold read_pte, write_pte, mod_mem; wp_steps; rewrite Hpte.
  destruct (U !! v) as [[pa perm]|] eqn:E.
  2:{ wp_steps; rewrite (delete_absent _ _ _ E) by lia; apply IH; auto; lia. }
  rewrite pte_for_valid; cbn [negb pte_for]; wp_steps.
  destruct (us_dom _ _ _ _ Hu _ _ _ E) as (_ & Hpa & Hperm); pose proof (page_ok_bounds _ Hpa).
  rewrite leaf_pte_pa by (try apply Hpa; lia).
  destruct (upage_apart _ _ _ _ _ _ _ Hu E) as (Npt & Nf & Nu).
  eapply wp_mono; [apply (kfree_spec pa free); auto; apply Hvi|].
  intros _ c' s1 (-> & Hk1 & Ho); wp_steps; rewrite unmap_range_step by lia.
  destruct (unmap_one s s1 free t U v pa perm p) as (Hu2 & Hs2 & Hh2); auto.
  eapply wp_mono; [apply (IH _ (pa :: free) (delete v U)); auto; lia|].
  intros _ c' s3 (-> & freed & [Hsp Hpg Hsm Hh3]); split; [done|]; exists (freed ++ [pa]); split.
  - by rewrite <- app_assoc.
  - rewrite (upages_delete _ _ _ _ E), Hpg, <- app_assoc; apply Permutation_middle.
  - eapply same_except_trans; [eapply same_except_mono; [|exact Hs2]|eapply same_except_mono; [|exact Hsm]].
    all: intros q; rewrite !elem_of_app, ?elem_of_cons, ?list_elem_of_singleton; tauto.
  - intros va Hva'; rewrite Hh3 by done; by apply Hh2.
Qed.

Lemma uvmunmap_spec n s free t U v c :
  uspace s free t U -> KMEM ∉ c_held c -> 0 <= v -> 0 <= n -> v + n <= ulimit ->
  wp (uvmunmap (pt_root t) (v * 4096) n true) c s (fun _ c' s' =>
    c' = c /\ exists freed, unmapped_by s s' free t U (unmap_range U v n) freed).
Proof.
  intros Hu Hk Hv Hn Hhi; unfold uvmunmap; change PGSIZE with 4096; rewrite Z_mod_mult, Z.eqb_refl; cbn [negb].
  rewrite ulimit_eq in Hhi; rewrite u64_small by lia.
  pose proof (uvmunmap_loop_spec (Z.to_nat n) s free t U v c) as H; rewrite Z2Nat.id in H by lia.
  apply H; auto; rewrite ulimit_eq; lia.
Qed.

(** ** Pages on their way in or out *)

(** A page that is in use by nobody the state knows: just allocated, not yet
    mapped. *)
Definition fresh_page (pa : Z) (free : list Z) (t : ptree) (U : umap) : Prop :=
  page_ok pa /\ (pa ∉ pt_pages t) /\ (pa ∉ upages U) /\ (pa ∉ free).

(** The entries above user memory: the trap frame and the trampoline. *)
Definition same_high (m m' : mem) (t t' : ptree) : Prop :=
  forall va, ulimit * 4096 <= va < MAXVA -> pte_of m' t' va = pte_of m t va.

Lemma same_high_trans m1 m2 m3 t1 t2 t3 : same_high m1 m2 t1 t2 -> same_high m2 m3 t2 t3 -> same_high m1 m3 t1 t3.
Proof. intros H1 H2 va Hva; by rewrite H2, H1. Qed.

(** Writes outside the pages of a table keep its entries. *)
Lemma pte_of_frame s free t F m' va :
  vm_inv s free t -> same_except F (k_mem s) m' -> Forall page_ok F -> (forall p, p ∈ F -> p ∉ pt_pages t) ->
  pte_of m' t va = pte_of (k_mem s) t va.
Proof.
  intros Hv Hs HF Hd; unfold pte_of; destruct (leaf_page t va) as [q|] eqn:E; [|done].
  assert (q ∈ pt_pages t) as Hq by (by eapply pages_l0).
  apply (same_except_rd64 F); auto; [by eapply vi_ok|by intros Hin; apply (Hd q)|apply PX_range].
Qed.

Lemma same_high_page s free t pa m' :
  vm_inv s free t -> page_ok pa -> pa ∉ pt_pages t -> only_page pa (k_mem s) m' -> same_high (k_mem s) m' t t.
Proof.
  intros Hv Hpa Hn Ho va _; apply (pte_of_frame s free t [pa]); auto; [intros x Hx; apply Ho; destruct (Hx pa); [by left|lia|lia]|].
  by intros q ->%list_elem_of_singleton.
Qed.

Lemma pt_rep_frame s free t F m' :
  vm_inv s free t -> same_except F (k_mem s) m' -> Forall page_ok F -> (forall p, p ∈ F -> p ∉ pt_pages t) -> pt_rep m' t.
Proof.
  intros Hv Hs HF Hd; destruct (vi_rep _ _ _ Hv) as [R1 R2 R3 R4 R5].
  assert (Hrd : forall q k, q ∈ pt_pages t -> 0 <= k < 512 -> rd64 m' (q + 8 * k) = rd64 (k_mem s) (q + 8 * k)).
  { intros q k Hq Hk'; apply (same_except_rd64 F); auto; [by eapply vi_ok|]; intros Hin; by apply (Hd q). }
  split; auto; [intros i Hi; rewrite Hrd by (auto using pages_root); auto|].
  intros i q Hq j Hj; rewrite Hrd by (eauto using pages_l1); by apply R2.
Qed.

(** Steps that stay outside an address space's pages keep it. *)
Lemma uspace_frame s s' free free' t U F :
  uspace s free t U -> same_except F (k_mem s) (k_mem s') -> Forall page_ok F ->
  (forall p, p ∈ F -> p ∉ pt_pages t) -> kalloc_inv s' free' ->
  NoDup (pt_pages t ++ upages U ++ free') -> uspace s' free' t U.
Proof.
  intros Hu Hs HF Hd Hk Hn; pose proof (us_inv _ _ _ _ Hu) as Hvi.
  assert (Hpte : forall va, pte_of (k_mem s') t va = pte_of (k_mem s) t va) by (intros va; by apply (pte_of_frame s free t F)).
  split; [|intros v Hv; rewrite Hpte; by apply Hu|intros va Hva; rewrite Hpte; by apply Hu|apply Hu|done].
  split; auto; [by apply (pt_rep_frame s free t F)| |apply Hvi].
  - apply NoDup_app in Hn as (H1 & H2 & H3); apply NoDup_app in H3 as (_ & _ & H3).
    apply NoDup_app; split_and!; auto; intros q Hq Hf; apply (H2 q Hq), elem_of_app; auto.
Qed.

(** Changes inside a page that belongs to no table, and of the free list. *)
Lemma uspace_move s s' free free' t U pa :
  uspace s free t U -> page_ok pa -> pa ∉ pt_pages t ->
  kalloc_inv s' free' -> only_page pa (k_mem s) (k_mem s') ->
  NoDup (pt_pages t ++ upages U ++ free') -> uspace s' free' t U.
Proof.
  intros Hu Hpa Npt Hk Ho Hn; apply (uspace_frame s s' free free' t U [pa]); auto.
  - intros x Hx; apply Ho; destruct (Hx pa); [by left|lia|lia].
  - by intros q ->%list_elem_of_singleton.
Qed.

(** Filling a fresh page. *)
Lemma uspace_fill s free t U pa m' :
  uspace s free t U -> fresh_page pa free t U -> mem_ok m' -> only_page pa (k_mem s) m' ->
  uspace (set_mem m' s) free t U.
Proof.
  intros Hu (Hpa & Npt & Nu & Nf) Hm Ho; apply (uspace_move s _ free free t U pa); auto; [|apply Hu].
  destruct (vi_kalloc _ _ _ (us_inv _ _ _ _ Hu)) as [H1 H2 H3 H4]; split; auto.
  apply (free_rep_only_page (k_mem s) _ pa); auto; apply Hpa.
Qed.

Lemma uspace_kalloc_spec s free t U c :
  uspace s free t U -> KMEM ∉ c_held c ->
  wp kalloc c s (fun r c' s' => c' = c /\
    match free with
    | [] => r = 0 /\ s' = s
    | pa :: free' => r = pa /\ uspace s' free' t U /\ fresh_page pa free' t U /\
        only_page pa (k_mem s) (k_mem s')
    end).
Proof.
  intros Hu Hk; eapply wp_mono; [apply (kalloc_spec free); auto; apply Hu|].
  intros r c' s' [-> Hr]; split; [done|]; destruct free as [|pa free]; [done|].
  destruct Hr as (-> & Hk' & Ho & _); pose proof (us_nodup _ _ _ _ Hu) as Hn.
  rewrite !app_assoc, <- Permutation_middle, <- app_assoc in Hn; apply NoDup_cons in Hn as [Nf Hn].
  rewrite !elem_of_app in Nf; pose proof (ki_pages _ _ (vi_kalloc _ _ _ (us_inv _ _ _ _ Hu))) as Hpg.
  apply Forall_cons in Hpg as [Hpa _]; split_and!; auto; [|split_and!; tauto].
  apply (uspace_move s s' (pa :: free) free t U pa); auto; tauto.
Qed.

Lemma uspace_kfree_spec s free t U pa c :
  uspace s free t U -> fresh_page pa free t U -> KMEM ∉ c_held c ->
  wp (kfree pa) c s (fun _ c' s' => c' = c /\ uspace s' (pa :: free) t U /\ only_page pa (k_mem s) (k_mem s')).
Proof.
  intros Hu (Hpa & Npt & Nu & Nf) Hk; eapply wp_mono; [apply (kfree_spec pa free); auto; apply Hu|].
  intros _ c' s' (-> & Hk' & Ho); split_and!; auto.
  apply (uspace_move s s' free (pa :: free) t U pa); auto; rewrite !app_assoc, <- Permutation_middle, <- app_assoc.
  constructor; [rewrite !elem_of_app; tauto|apply Hu].
Qed.

(** ** Mapping a page *)

Lemma uspace_ext s s' free free' t t' U U' :
  uspace s free t U -> tbl_ext s s' free free' t t' ->
  (forall v, 0 <= v < ulimit -> pte_of (k_mem s') t' (v * 4096) = pte_for (U' !! v)) ->
  (forall va, ulimit * 4096 <= va < MAXVA -> pte_of (k_mem s') t' va = pte_of (k_mem s) t va) ->
  (forall v pa perm, U' !! v = Some (pa, perm) -> 0 <= v < ulimit /\ page_ok pa /\ 0 <= perm < 1024) ->
  NoDup (pt_pages t ++ upages U' ++ free) ->
  uspace s' free' t' U'.
Proof.
  intros Hu He Hp Hh Hd Hn; split; auto; [apply He|intros va Hva; rewrite Hh by done; by apply Hu|].
  rewrite (Permutation_app_comm (upages U')), app_assoc, (te_pages _ _ _ _ _ _ He), <- app_assoc.
  by rewrite (Permutation_app_comm free).
Qed.

Lemma map_one_spec s free t U v pa perm c :
  uspace s free t U -> fresh_page pa free t U -> KMEM ∉ c_held c -> U !! v = None -> 0 <= v < ulimit ->
  0 <= perm < 1024 ->
  wp (mappages (pt_root t) (v * 4096) PGSIZE pa perm) c s (fun r c' s' =>
    c' = c /\ exists free' t', tbl_ext s s' free free' t t' /\ same_high (k_mem s) (k_mem s') t t' /\
    ((r = 0 /\ uspace s' free' t' (<[v := (pa, perm)]> U)) \/
     (r = -1 /\ free' = [] /\ uspace s' free' t' U /\ fresh_page pa free' t' U))).
Proof.
  intros Hu (Hpa & Npt & Nu & Nf) Hk Hv Hvr Hperm; destruct (vpn_va v Hvr) as [Hva Hvd].
  pose proof (page_ok_bounds _ Hpa); change PGSIZE with (1 * 4096).
  eapply wp_mono; [apply (mappages_spec s free t); auto; try lia|].
  - apply Hu.
  - apply Z_mod_mult.
  - rewrite ulimit_eq in Hvr; change MAXVA with (2 ^ 38); lia.
  - intros va Hva'; rewrite (us_pte_va _ _ _ U) by (done || (pose proof (same_page (v * 4096) va (Z_mod_mult _ _)); lia)).
    replace (va / 4096) with v; [by rewrite Hv|].
    pose proof (same_page (v * 4096) va (Z_mod_mult _ _)); lia.
  - intros r c' s' (-> & free' & t' & k & He & Hm & Hr); split; [done|]; exists free', t'; split; [done|].
    assert (Hpte : forall w, 0 <= w < ulimit -> pte_of (k_mem s') t' (w * 4096) =
      if decide (w = v /\ k = 1) then leaf_pte pa perm else pte_for (U !! w)).
    { intros w Hw; destruct (vpn_va w Hw) as [Hwa _]; rewrite Hm by done.
      rewrite (us_pte _ _ _ _ Hu) by done; destruct (decide (w = v /\ k = 1)) as [[-> ->]|Hn].
      - rewrite decide_True, Z.sub_diag by lia; f_equal; change (0 / 4096) with 0; lia.
      - rewrite decide_False; [done|]; intros ?; apply Hn; lia. }
    assert (Hhigh : same_high (k_mem s) (k_mem s') t t').
    { intros va Hva'; rewrite Hm by (rewrite ulimit_eq in Hva'; lia); rewrite decide_False by lia; done. }
    split; [done|]; destruct Hr as [[-> ->]|(-> & Hk' & ->)]; [left|right]; split; auto.
    + apply (uspace_ext s s' free free' t t' U); auto.
      * intros w Hw; rewrite Hpte by done; destruct (decide (w = v /\ 1 = 1)) as [[-> _]|E]; [by rewrite lookup_insert_eq|].
        rewrite lookup_insert_ne; [done|]; intros ->; by apply E.
      * intros w q pm; rewrite lookup_insert_Some; intros [[<- [= <- <-]]|[_ Hw]]; [auto|by eapply us_dom].
      * rewrite upages_insert by done; cbn [app]; rewrite <- Permutation_middle; constructor; [|apply Hu].
        rewrite !elem_of_app; tauto.
    + split; [done|]; split; [apply (uspace_ext s s' free [] t t' U); auto; try apply Hu|].
      * intros w Hw; rewrite Hpte by done; rewrite decide_False by lia; done.
      * split_and!; auto; [|apply not_elem_of_nil]; intros Hin; apply (tbl_ext_page _ _ _ _ _ _ _ He) in Hin.
        rewrite elem_of_app in Hin; tauto.
Qed.

(** ** Lazily allocated memory *)

(** What user code sees at [va]: memory that is not there yet reads as zero. *)
Definition uview (m : mem) (U : umap) (va : Z) : Z :=
  match U !! (va / 4096) with
  | Some (pa, _) => rd m (pa + va mod 4096)
  | None => 0
  end.

Definition FAULT_PERM : Z := Z.lor (Z.lor PTE_W PTE_U) PTE_R.

(** Growth of an address space by page faults: new pages below [sz], all zero;
    nobody's view changes, and only table pages and free pages are written. *)
Record lazy_ext (s s' : kmem) (free free' : list Z) (t t' : ptree) (U U' : umap) (sz : Z) : Prop := {
  lz_space : uspace s' free' t' U';
  lz_root : pt_root t' = pt_root t;
  lz_pages : pt_pages t' ++ upages U' ++ free' ≡ₚ pt_pages t ++ upages U ++ free;
  lz_sub : forall p, p ∈ pt_pages t' ++ free' -> p ∈ pt_pages t ++ free;
  lz_old : forall v x, U !! v = Some x -> U' !! v = Some x;
  lz_new : forall v, U !! v = None -> U' !! v = None \/ (v * 4096 < sz /\ exists pa, U' !! v = Some (pa, FAULT_PERM));
  lz_view : forall va, uview (k_mem s') U' va = uview (k_mem s) U va;
  lz_mem : same_except (pt_pages t ++ free) (k_mem s) (k_mem s');
  lz_high : same_high (k_mem s) (k_mem s') t t'
}.

Lemma lazy_ext_refl s free t U sz : uspace s free t U -> lazy_ext s s free free t t U U sz.
Proof. intros H; split; auto; [apply same_except_refl|by intros va]. Qed.

Lemma lazy_ext_trans s1 s2 s3 f1 f2 f3 t1 t2 t3 U1 U2 U3 sz :
  lazy_ext s1 s2 f1 f2 t1 t2 U1 U2 sz -> lazy_ext s2 s3 f2 f3 t2 t3 U2 U3 sz ->
  lazy_ext s1 s3 f1 f3 t1 t3 U1 U3 sz.
Proof.
  intros [A1 A2 A3 A3' A4 A5 A6 A7 A8] [B1 B2 B3 B3' B4 B5 B6 B7 B8]; split; auto.
  - congruence.
  - by rewrite B3.
  - intros v Hv; destruct (A5 v Hv) as [E|(Hsz & pa & E)]; [auto|right]; split; [done|]; exists pa; auto.
  - intros va; by rewrite B6.
  - apply (same_except_trans _ _ (k_mem s2)); [done|]; by eapply same_except_mono.
  - by eapply same_high_trans.
Qed.

Lemma set_leaf_V pa perm : set (leaf_pte pa perm) PTE_V = true.
Proof. apply set_lor_V. Qed.

Lemma set_leaf_U pa perm :
  0 <= pa < 2 ^ 56 -> 0 <= perm < 1024 -> set (leaf_pte pa perm) PTE_U = set perm PTE_U.
Proof.
  intros; unfold set; rewrite land_flags, leaf_pte_flags by (done || (change PTE_U with 16; lia)).
  rewrite Z.land_lor_distr_l; change (Z.land PTE_V PTE_U) with 0; by rewrite Z.lor_0_r.
Qed.

Lemma set_leaf_W pa perm :
  0 <= pa < 2 ^ 56 -> 0 <= perm < 1024 -> set (leaf_pte pa perm) PTE_W = set perm PTE_W.
Proof.
  intros; unfold set; rewrite land_flags, leaf_pte_flags by (done || (change PTE_W with 4; lia)).
  rewrite Z.land_lor_distr_l; change (Z.land PTE_V PTE_W) with 0; by rewrite Z.lor_0_r.
Qed.

(** The physical page user code may use at page [v]. *)
Definition upage (U : umap) (v : Z) : Z :=
  match U !! v with
  | Some (pa, perm) => if set perm PTE_U then pa else 0
  | None => 0
  end.

Lemma no_upage_high s free t U v : uspace s free t U -> ulimit <= v -> U !! v = None.
Proof.
  intros Hu Hv; destruct (U !! v) as [[pa perm]|] eqn:E; [|done].
  apply (us_dom _ _ _ _ Hu) in E; lia.
Qed.

Lemma walkaddr_spec s free t U va c :
  uspace s free t U -> KMEM ∉ c_held c -> 0 <= va ->
  wp (walkaddr (pt_root t) va) c s (fun r c' s' => c' = c /\ s' = s /\ r = upage U (va / 4096)).
Proof.
  intros Hu Hk Hva; unfold walkaddr, upage.
  assert (Hdm := Z.div_mod va 4096 ltac:(lia)); pose proof (Z.mod_pos_bound va 4096 ltac:(lia)).
  assert (Hdp : 0 <= va / 4096) by (apply Z.div_pos; lia).
  destruct (Z.leb_spec MAXVA va) as [Hhi|Hlo].
  { wp_steps; rewrite (no_upage_high s free t U) by (done || rewrite ulimit_eq; change MAXVA with (2 ^ 38) in Hhi; lia); auto. }
  wp_step; eapply wp_mono; [apply (walk_spec s free t); auto; apply Hu|].
  intros a c' s' (-> & -> & ->).
  assert (Hpte : match leaf_page t va with Some p => rd64 (k_mem s) (p + 8 * PX 0 va) | None => 0 end = pte_of (k_mem s) t va) by done.
  destruct (leaf_page t va) as [p|] eqn:Ep.
  - destruct (Z.eqb_spec (p + 8 * PX 0 va) 0) as [E|_]; [eapply walk_leaf_nonzero in E; [done|apply Hu|done]|].
    unfold read_pte; wp_steps; rewrite Hpte; destruct (decide (va / 4096 < ulimit)) as [Hlt|Hge].
    + rewrite (us_pte_va s free t U) by (done || lia).
      destruct (U !! (va / 4096)) as [[pa perm]|] eqn:EU; cbn [pte_for]; [|by wp_steps].
      destruct (us_dom _ _ _ _ Hu _ _ _ EU) as (_ & Hpa & Hperm); pose proof (page_ok_bounds _ Hpa).
      rewrite set_leaf_V, set_leaf_U by lia; cbn [negb]; destruct (set perm PTE_U); cbn [negb]; wp_steps; auto.
      by rewrite leaf_pte_pa by (try apply Hpa; lia).
    + rewrite (us_high _ _ _ _ Hu va) by lia; rewrite (no_upage_high s free t U) by (done || lia).
      cbn [negb]; by destruct (set _ PTE_V); wp_steps.
  - wp_steps; split_and!; auto; destruct (decide (va / 4096 < ulimit)) as [Hlt|Hge].
    + rewrite (us_pte_va s free t U) in Hpte by (done || lia).
      destruct (U !! (va / 4096)) as [[pa perm]|] eqn:EU; [|done].
      pose proof (pte_for_valid pa perm) as E; rewrite <- Hpte in E; done.
    + by rewrite (no_upage_high s free t U) by (done || lia).
Qed.

Lemma ismapped_spec s free t U v c :
  uspace s free t U -> KMEM ∉ c_held c -> 0 <= v < ulimit ->
  wp (ismapped (pt_root t) (v * 4096)) c s (fun r c' s' =>
    c' = c /\ s' = s /\ r = bool_decide (is_Some (U !! v))).
Proof.
  intros Hu Hk Hv; destruct (vpn_va v Hv) as [Hva _]; unfold ismapped; wp_step.
  eapply wp_mono; [apply (walk_spec s free t); auto; apply Hu|]; intros a c' s' (-> & -> & ->).
  pose proof (us_pte _ _ _ _ Hu v Hv) as Hpte; unfold pte_of in Hpte.
  destruct (leaf_page t (v * 4096)) as [p|] eqn:Ep.
  - destruct (Z.eqb_spec (p + 8 * PX 0 (v * 4096)) 0) as [E|_]; [eapply walk_leaf_nonzero in E; [done|apply Hu|done]|].
    unfold read_pte; wp_steps; rewrite Hpte; split_and!; auto.
    destruct (U !! v) as [[pa perm]|]; [by rewrite pte_for_valid|done].
  - wp_steps; split_and!; auto; destruct (U !! v) as [[pa perm]|]; [|done].
    pose proof (pte_for_valid pa perm) as E; rewrite <- Hpte in E; done.
Qed.

(** Changes outside the user's pages do not change what the user sees. *)
Lemma view_frame s free t U F m m' :
  uspace s free t U -> same_except F m m' -> Forall page_ok F -> (forall p, p ∈ F -> p ∉ upages U) ->
  forall va, uview m' U va = uview m U va.
Proof.
  intros Hu Hs HF Hn va; unfold uview; destruct (U !! (va / 4096)) as [[pa perm]|] eqn:E; [|done].
  pose proof (Z.mod_pos_bound va 4096 ltac:(lia)); destruct (us_dom _ _ _ _ Hu _ _ _ E) as (_ & Hpa & _).
  eapply (same_except_page F); eauto; [|lia]; intros Hin; apply (Hn _ Hin); by eapply upages_in.
Qed.

Lemma uspace_pages s free t U p : uspace s free t U -> p ∈ pt_pages t ++ free -> page_ok p /\ (p ∉ upages U).
Proof.
  intros Hu Hp; pose proof (us_inv _ _ _ _ Hu) as Hvi; split.
  - apply elem_of_app in Hp as [Hp|Hp]; [by eapply vi_ok|].
    pose proof (ki_pages _ _ (vi_kalloc _ _ _ Hvi)) as H; rewrite Forall_forall in H; auto.
  - pose proof (us_nodup _ _ _ _ Hu) as Hn; rewrite (Permutation_app_comm (upages U)), app_assoc in Hn.
    apply NoDup_app in Hn as (_ & H & _); auto.
Qed.

(** An address space that took or gave back pages without changing what the user
    sees. *)
Record grow_ext (s s' : kmem) (free free' : list Z) (t t' : ptree) (U U' : umap) : Prop := {
  ge_space : uspace s' free' t' U';
  ge_root : pt_root t' = pt_root t;
  ge_pages : pt_pages t' ++ upages U' ++ free' ≡ₚ pt_pages t ++ upages U ++ free;
  ge_sub : forall p, p ∈ pt_pages t' ++ free' -> p ∈ pt_pages t ++ free;
  ge_view : forall va, uview (k_mem s') U' va = uview (k_mem s) U va;
  ge_mem : same_except (pt_pages t ++ free) (k_mem s) (k_mem s');
  ge_high : same_high (k_mem s) (k_mem s') t t'
}.

Lemma grow_refl s free t U : uspace s free t U -> grow_ext s s free free t t U U.
Proof. intros H; split; auto; [apply same_except_refl|by intros va]. Qed.

Lemma grow_trans s1 s2 s3 f1 f2 f3 t1 t2 t3 U1 U2 U3 :
  grow_ext s1 s2 f1 f2 t1 t2 U1 U2 -> grow_ext s2 s3 f2 f3 t2 t3 U2 U3 ->
  grow_ext s1 s3 f1 f3 t1 t3 U1 U3.
Proof.
  intros [A1 A2 A3 A4 A6 A7 A8] [B1 B2 B3 B4 B6 B7 B8]; split; auto.
  - congruence.
  - by rewrite B3.
  - intros va; by rewrite B6.
  - apply (same_except_trans _ _ (k_mem s2)); [done|]; by eapply same_except_mono.
  - by eapply same_high_trans.
Qed.

(** A page from the free list, zeroed, mapped at [v]. *)
Lemma grow_one s s3 pa perm f1 f3 t t3 U v :
  uspace s (pa :: f1) t U -> uspace s3 f3 t3 (<[v := (pa, perm)]> U) ->
  U !! v = None -> pt_root t3 = pt_root t ->
  pt_pages t3 ++ f3 ≡ₚ pt_pages t ++ f1 ->
  same_except (pt_pages t ++ pa :: f1) (k_mem s) (k_mem s3) ->
  (forall x, pa <= x < pa + 4096 -> rd (k_mem s3) x = 0) -> same_high (k_mem s) (k_mem s3) t t3 ->
  grow_ext s s3 (pa :: f1) f3 t t3 U (<[v := (pa, perm)]> U).
Proof.
  intros Hu Hu3 HU Hroot Hperm Hmem Hz Hh; split; auto.
  - rewrite upages_insert by done; cbn [app]; rewrite <- Permutation_middle.
    rewrite (Permutation_app_comm (upages U) f3), app_assoc, Hperm, <- app_assoc.
    rewrite (Permutation_app_comm (upages U)); cbn [app]; by rewrite <- Permutation_middle.
  - intros p; rewrite Hperm, !elem_of_app, elem_of_cons; tauto.
  - assert (Hv : forall va, uview (k_mem s3) U va = uview (k_mem s) U va).
    { intros va; eapply (view_frame s (pa :: f1) t U (pt_pages t ++ pa :: f1)); eauto.
      - apply Forall_forall; intros p Hp; apply (uspace_pages _ _ _ _ _ Hu Hp).
      - intros p Hp; apply (uspace_pages _ _ _ _ _ Hu Hp). }
    intros va; rewrite <- Hv; unfold uview; destruct (decide (va / 4096 = v)) as [->|].
    + rewrite lookup_insert_eq, HU; apply Hz; pose proof (Z.mod_pos_bound va 4096 ltac:(lia)); lia.
    + by rewrite lookup_insert_ne.
Qed.

(** The same when the table grew but the page went back. *)
Lemma grow_none s s3 free f3 t t3 U :
  uspace s free t U -> uspace s3 f3 t3 U -> pt_root t3 = pt_root t ->
  pt_pages t3 ++ f3 ≡ₚ pt_pages t ++ free ->
  same_except (pt_pages t ++ free) (k_mem s) (k_mem s3) -> same_high (k_mem s) (k_mem s3) t t3 ->
  grow_ext s s3 free f3 t t3 U U.
Proof.
  intros Hu Hu3 Hroot Hperm Hmem Hh; split; auto.
  - rewrite (Permutation_app_comm (upages U) f3), app_assoc, Hperm, <- app_assoc.
    by rewrite (Permutation_app_comm (upages U)).
  - intros p; by rewrite Hperm.
  - eapply (view_frame s free t U (pt_pages t ++ free)); eauto.
    + apply Forall_forall; intros p Hp; apply (uspace_pages _ _ _ _ _ Hu Hp).
    + intros p Hp; apply (uspace_pages _ _ _ _ _ Hu Hp).
Qed.

Lemma grow_lazy s s' free free' t t' U U' sz :
  grow_ext s s' free free' t t' U U' ->
  (forall v x, U !! v = Some x -> U' !! v = Some x) ->
  (forall v, U !! v = None -> U' !! v = None \/ (v * 4096 < sz /\ exists pa, U' !! v = Some (pa, FAULT_PERM))) ->
  lazy_ext s s' free free' t t' U U' sz.
Proof. intros [A1 A2 A3 A4 A6 A7 A8] Ho Hn; by split. Qed.

Lemma fault_ext s s3 pa f1 f3 t t3 U v sz :
  grow_ext s s3 (pa :: f1) f3 t t3 U (<[v := (pa, FAULT_PERM)]> U) -> U !! v = None -> v * 4096 < sz ->
  lazy_ext s s3 (pa :: f1) f3 t t3 U (<[v := (pa, FAULT_PERM)]> U) sz.
Proof.
  intros Hg HU Hsz; apply grow_lazy; auto.
  - intros w x Hw; rewrite lookup_insert_ne; [done|congruence].
  - intros w Hw; destruct (decide (w = v)) as [->|]; [right; split; [done|]; exists pa; by rewrite lookup_insert_eq|].
    left; by rewrite lookup_insert_ne.
Qed.

Lemma PGROUNDDOWN_vpn va : 0 <= va < 2 ^ 64 -> PGROUNDDOWN va = va / 4096 * 4096.
Proof. intros; rewrite PGROUNDDOWN_eq by done; pose proof (Z.div_mod va 4096 ltac:(lia)); lia. Qed.

Lemma only_page_same pa F m m' : pa ∈ F -> only_page pa m m' -> same_except F m m'.
Proof. intros Hin Ho x Hx; apply Ho; destruct (Hx pa Hin); lia. Qed.

(** Zeroing a fresh page. *)
Lemma zero_fresh s free t U pa :
  uspace s free t U -> fresh_page pa free t U ->
  let s' := set_mem (memset pa 0 PGSIZE (k_mem s)) s in
  uspace s' free t U /\ only_page pa (k_mem s) (k_mem s') /\
  (forall x, pa <= x < pa + 4096 -> rd (k_mem s') x = 0).
Proof.
  intros Hu Hfr s'; change PGSIZE with 4096 in s'.
  assert (Ho : only_page pa (k_mem s) (k_mem s')).
  { intros x Hx; simpl; rewrite rd_memset by lia; case_decide; [lia|done]. }
  split_and!; auto.
  - apply (uspace_fill s free t U pa); auto; apply mem_ok_memset, Hu.
  - intros x Hx; simpl; rewrite rd_memset by lia; case_decide; [done|lia].
Qed.

(** From a page just taken off the free list to its mapping at [v], once it has
    been filled by [f]. *)
Lemma map_filled_spec (f : mem -> mem) s s1 pa f1 t U v perm c :
  uspace s (pa :: f1) t U -> uspace s1 f1 t U -> fresh_page pa f1 t U -> only_page pa (k_mem s) (k_mem s1) ->
  mem_ok (f (k_mem s1)) -> only_page pa (k_mem s1) (f (k_mem s1)) ->
  KMEM ∉ c_held c -> U !! v = None -> 0 <= v < ulimit -> 0 <= perm < 1024 ->
  wp (do! mod_mem f; mappages (pt_root t) (v * 4096) PGSIZE pa perm) c s1 (fun r c' s3 =>
    c' = c /\ exists f3 t3, pt_root t3 = pt_root t /\ pt_pages t3 ++ f3 ≡ₚ pt_pages t ++ f1 /\
    same_except (pt_pages t ++ pa :: f1) (k_mem s) (k_mem s3) /\ same_high (k_mem s) (k_mem s3) t t3 /\
    ((r = 0 /\ uspace s3 f3 t3 (<[v := (pa, perm)]> U) /\
      (forall x, pa <= x < pa + 4096 -> rd (k_mem s3) x = rd (f (k_mem s1)) x)) \/
     (r = -1 /\ f3 = [] /\ uspace s3 f3 t3 U /\ fresh_page pa f3 t3 U))).
Proof.
  intros Hu Hu1 Hfr Ho1 Hf Ho2 Hk HU Hv Hp.
  pose proof (uspace_fill s1 f1 t U pa (f (k_mem s1)) Hu1 Hfr Hf Ho2) as Hu2.
  unfold mod_mem; wp_steps; set (s2 := set_mem _ s1) in *.
  eapply wp_mono; [by apply (map_one_spec s2 f1 t U v pa perm)|].
  intros r c' s3 (-> & f3 & t3 & He & Hhi & Hr); split; [done|]; exists f3, t3.
  split_and!; [apply He|apply He| | |].
  - apply (same_except_trans _ _ (k_mem s1)); [apply (only_page_same pa); [elt|done]|].
    apply (same_except_trans _ _ (k_mem s2)); [apply (only_page_same pa); [elt|done]|].
    eapply same_except_mono; [|apply He]; intros q Hq; apply (tbl_ext_page _ _ _ _ _ _ _ He) in Hq.
    rewrite elem_of_app in *; rewrite elem_of_cons; tauto.
  - destruct Hfr as (Hpa & Npt & _); eapply same_high_trans; [|exact Hhi].
    eapply same_high_trans; [apply (same_high_page s (pa :: f1) t pa (k_mem s1)); auto; apply Hu|].
    apply (same_high_page s1 f1 t pa); auto; apply Hu1.
  - destruct Hr as [[-> Hu3]|Hr]; [left|by right]; split_and!; auto; intros x Hx.
    apply (same_except_page (pt_pages t3) (k_mem s2) _ pa); [apply He|apply Hu3|apply Hfr| |done].
    intros Hin; apply (tbl_ext_page _ _ _ _ _ _ _ He) in Hin; destruct Hfr as (_ & N1 & _ & N3).
    rewrite elem_of_app in Hin; tauto.
Qed.

Lemma map_zeroed_spec s s1 pa f1 t U v perm c :
  uspace s (pa :: f1) t U -> uspace s1 f1 t U -> fresh_page pa f1 t U -> only_page pa (k_mem s) (k_mem s1) ->
  KMEM ∉ c_held c -> U !! v = None -> 0 <= v < ulimit -> 0 <= perm < 1024 ->
  wp (do! mod_mem (memset pa 0 PGSIZE); mappages (pt_root t) (v * 4096) PGSIZE pa perm) c s1 (fun r c' s3 =>
    c' = c /\ exists f3 t3, pt_root t3 = pt_root t /\ pt_pages t3 ++ f3 ≡ₚ pt_pages t ++ f1 /\
    same_except (pt_pages t ++ pa :: f1) (k_mem s) (k_mem s3) /\ same_high (k_mem s) (k_mem s3) t t3 /\
    ((r = 0 /\ uspace s3 f3 t3 (<[v := (pa, perm)]> U) /\ (forall x, pa <= x < pa + 4096 -> rd (k_mem s3) x = 0)) \/
     (r = -1 /\ f3 = [] /\ uspace s3 f3 t3 U /\ fresh_page pa f3 t3 U))).
Proof.
  intros Hu Hu1 Hfr Ho1 Hk HU Hv Hp; destruct (zero_fresh s1 f1 t U pa Hu1 Hfr) as (Hu2 & Ho2 & Hz).
  eapply wp_mono; [apply (map_filled_spec _ s s1 pa f1 t U v perm); auto; apply mem_ok_memset, Hu1|].
  intros r c' s3 (-> & f3 & t3 & H1 & H2 & H3 & H4 & Hr); split; [done|]; exists f3, t3; split_and!; auto.
  destruct Hr as [(-> & Hu3 & Hb)|Hr]; [left|by right]; split_and!; auto.
  intros x Hx; rewrite Hb by done; by apply Hz.
Qed.

Lemma vmfault_spec p s free t U v c :
  uspace s free t U -> KMEM ∉ c_held c -> 0 <= v < 2 ^ 52 ->
  up_pagetable p = pt_root t -> up_sz p <= ulimit * 4096 ->
  wp (vmfault p (pt_root t) (v * 4096)) c s (fun r c' s' =>
    c' = c /\ exists free' t' U', lazy_ext s s' free free' t t' U U' (up_sz p) /\
    ((r = 0 /\ U' = U /\ (up_sz p <= v * 4096 \/ is_Some (U !! v) \/ (U !! v = None /\ (length free' <= 1)%nat))) \/
     (r <> 0 /\ U !! v = None /\ v * 4096 < up_sz p /\ U' !! v = Some (r, FAULT_PERM)))).
Proof.
  intros Hu Hk Hv Hpt Hsz; unfold vmfault; rewrite Hpt.
  destruct (Z.leb_spec (up_sz p) (v * 4096)) as [Hle|Hlt].
  { wp_steps; split; [done|]; exists free, t, U; split; [by apply lazy_ext_refl|]; left; auto. }
  assert (Hvr : 0 <= v < ulimit) by lia; rewrite PGROUNDDOWN_vpn, Z.div_mul by lia.
  wp_step; eapply wp_mono; [by apply (ismapped_spec s free t U)|]; intros b c' s' (-> & -> & ->).
  case_bool_decide as Hm.
  { wp_steps; split; [done|]; exists free, t, U; split; [by apply lazy_ext_refl|]; left; auto. }
  assert (HU : U !! v = None) by (by apply eq_None_not_Some).
  wp_step; eapply wp_mono; [by apply (uspace_kalloc_spec s free t U)|]; intros r c' s1 [-> Hr].
  destruct free as [|pa f1].
  { destruct Hr as [-> ->]; wp_steps; split; [done|]; exists [], t, U; split; [by apply lazy_ext_refl|].
    left; split_and!; auto 6. }
  destruct Hr as (-> & Hu1 & Hfr & Ho1); pose proof (page_ok_bounds _ (proj1 Hfr)).
  destruct (Z.eqb_spec pa 0); [lia|]; apply bind_assoc_wp; wp_step.
  eapply wp_mono; [by apply (map_zeroed_spec s s1 pa f1 t U v FAULT_PERM)|].
  intros r c' s3 (-> & f3 & t3 & Hroot & Hperm & Hm3 & Hhi & [(-> & Hu3 & Hz)|(-> & -> & Hu3 & Hfr3)]).
  - wp_steps; split; [done|]; exists f3, t3, (<[v := (pa, FAULT_PERM)]> U).
    split; [apply fault_ext; auto; by apply grow_one|right; split_and!; auto; by rewrite lookup_insert_eq].
  - change (negb (-1 =? 0)) with true; cbn iota; wp_step.
    eapply wp_mono; [by apply (uspace_kfree_spec s3 [] t3 U pa)|].
    intros _ c' s4 (-> & Hu4 & Ho4); wp_steps; split; [done|]; exists [pa], t3, U; split; [|left; auto 8].
    apply grow_lazy; auto; apply grow_none; auto.
    + rewrite app_nil_r in Hperm; rewrite Hperm, <- app_assoc; by rewrite (Permutation_app_comm f1).
    + apply (same_except_trans _ _ (k_mem s3)); [done|]; apply (only_page_same pa); [elt|done].
    + eapply same_high_trans; [exact Hhi|]; apply (same_high_page s3 [] t3 pa); auto; [apply Hu3|apply Hfr3..].
Qed.

(** ** Moving bytes between user and kernel *)

(** The user may read, or write, page [v]; pages below [sz] appear on demand. *)
Definition readable (U : umap) (sz v : Z) : Prop :=
  match U !! v with Some (_, perm) => set perm PTE_U = true | None => v * 4096 < sz end.
Definition writable (U : umap) (sz v : Z) : Prop :=
  match U !! v with
  | Some (_, perm) => set perm PTE_U = true /\ set perm PTE_W = true
  | None => v * 4096 < sz
  end.

Lemma readable_ext s s' free free' t t' U U' sz v :
  lazy_ext s s' free free' t t' U U' sz -> readable U' sz v <-> readable U sz v.
Proof.
  intros He; unfold readable; destruct (U !! v) as [[pa perm]|] eqn:E.
  - by rewrite (lz_old _ _ _ _ _ _ _ _ _ He v _ E).
  - destruct (lz_new _ _ _ _ _ _ _ _ _ He v E) as [->|(Hsz & pa & ->)]; [done|].
    split; [done|]; intros _; reflexivity.
Qed.

Lemma writable_ext s s' free free' t t' U U' sz v :
  lazy_ext s s' free free' t t' U U' sz -> writable U' sz v <-> writable U sz v.
Proof.
  intros He; unfold writable; destruct (U !! v) as [[pa perm]|] eqn:E.
  - by rewrite (lz_old _ _ _ _ _ _ _ _ _ He v _ E).
  - destruct (lz_new _ _ _ _ _ _ _ _ _ He v E) as [->|(Hsz & pa & ->)]; [done|].
    split; [done|]; intros _; split; reflexivity.
Qed.

Lemma lazy_none s s' free free' t t' U U' sz v :
  lazy_ext s s' free free' t t' U U' sz -> U' !! v = None -> U !! v = None.
Proof.
  intros He HU'; destruct (U !! v) eqn:E; [|done].
  rewrite (lz_old _ _ _ _ _ _ _ _ _ He v _ E) in HU'; done.
Qed.

(** [walkaddr], and [vmfault] when there is no page yet. *)
Lemma translate_spec p s free t U v c :
  uspace s free t U -> KMEM ∉ c_held c -> 0 <= v < 2 ^ 52 ->
  up_pagetable p = pt_root t -> up_sz p <= ulimit * 4096 ->
  wp (let! pa := walkaddr (pt_root t) (v * 4096) in
      (if pa =? 0 then vmfault p (pt_root t) (v * 4096) else ret pa)) c s (fun pa0 c' s' =>
    c' = c /\ exists free' t' U', lazy_ext s s' free free' t t' U U' (up_sz p) /\
    ((pa0 = 0 /\ (~ readable U (up_sz p) v \/ (U !! v = None /\ (length free' <= 1)%nat))) \/
     (pa0 <> 0 /\ readable U (up_sz p) v /\ exists perm, U' !! v = Some (pa0, perm) /\ set perm PTE_U = true))).
Proof.
  intros Hu Hk Hv Hpt Hsz; wp_step; eapply wp_mono; [apply (walkaddr_spec s free t U); auto; lia|].
  intros pa c' s' (-> & -> & ->); rewrite Z.div_mul by lia; unfold upage, readable.
  destruct (U !! v) as [[pa perm]|] eqn:E; [destruct (set perm PTE_U) eqn:Ep|].
  - destruct (us_dom _ _ _ _ Hu _ _ _ E) as (_ & Hpa & _); pose proof (page_ok_bounds _ Hpa).
    destruct (Z.eqb_spec pa 0); [lia|]; wp_steps; split; [done|]; exists free, t, U.
    split; [by apply lazy_ext_refl|]; right; split_and!; auto; by exists perm.
  - cbn iota; change (0 =? 0) with true; cbn iota.
    eapply wp_mono; [by apply (vmfault_spec p s free t U)|].
    intros r c' s' (-> & f' & t' & U' & He & Hr); split; [done|]; exists f', t', U'; split; [done|].
    left; destruct Hr as [(-> & _)|(_ & HU & _)]; [auto|congruence].
  - change (0 =? 0) with true; cbn iota.
    eapply wp_mono; [by apply (vmfault_spec p s free t U)|].
    intros r c' s' (-> & f' & t' & U' & He & Hr); split; [done|]; exists f', t', U'; split; [done|].
    destruct Hr as [(-> & -> & [H|[[? H]|H]])|(Hr & HU & Hlt & HU')]; [left; split; auto; left; lia|congruence|left; split; [done|right; split; [done|apply H]]|].
    right; split_and!; auto; by exists FAULT_PERM.
Qed.

(** Bytes of one page, read through its physical address. *)
Lemma rdn_uview m U srcva n pa perm :
  U !! (srcva / 4096) = Some (pa, perm) -> srcva mod 4096 + Z.of_nat n <= 4096 ->
  rdn m (pa + srcva mod 4096) n = map (uview m U) (zrange srcva n).
Proof.
  intros HU Hn; pose proof (Z.div_mod srcva 4096 ltac:(lia)); pose proof (Z.mod_pos_bound srcva 4096 ltac:(lia)).
  apply list_eq; intros i; destruct (decide (i < n)%nat).
  - rewrite rdn_lookup, list_lookup_fmap, lookup_zrange by done; simpl; f_equal; unfold uview.
    assert (E : (srcva + Z.of_nat i) / 4096 = srcva / 4096).
    { symmetry; apply Z.div_unique with (srcva mod 4096 + Z.of_nat i); lia. }
    rewrite E, HU; f_equal; pose proof (Z.div_mod (srcva + Z.of_nat i) 4096 ltac:(lia)); lia.
  - rewrite !lookup_ge_None_2; [done|rewrite length_fmap, length_zrange; lia|rewrite length_rdn; lia].
Qed.

Lemma copyin_loop_spec fuel p s free t U srcva len c :
  uspace s free t U -> KMEM ∉ c_held c -> 0 <= srcva < 2 ^ 64 -> 0 <= len ->
  up_pagetable p = pt_root t -> up_sz p <= ulimit * 4096 ->
  srcva mod 4096 + len <= Z.of_nat fuel * 4096 ->
  wp (copyin_loop fuel p (pt_root t) srcva len) c s (fun r c' s' =>
    c' = c /\ exists free' t' U', lazy_ext s s' free free' t t' U U' (up_sz p) /\
    ((r = (0, map (uview (k_mem s) U) (zrange srcva (Z.to_nat len))) /\
      forall va, srcva <= va < srcva + len -> readable U (up_sz p) (va / 4096)) \/
     (r.1 = -1 /\ exists va, srcva <= va < srcva + len /\
        (~ readable U (up_sz p) (va / 4096) \/ (U !! (va / 4096) = None /\ (length free' <= 1)%nat))))).
Proof.
  revert s free t U srcva len; induction fuel as [|fuel IH];
    intros s free t U srcva len Hu Hk Hva Hlen Hpt Hsz Hfuel; cbn [copyin_loop];
    pose proof (Z.mod_pos_bound srcva 4096 ltac:(lia)) as Hmod;
    (destruct (Z.eqb_spec len 0) as [->|Hl0];
      [wp_steps; split; [done|]; exists free, t, U; split; [by apply lazy_ext_refl|]; left; split; [done|lia]|]).
  { lia. }
  assert (Hdm := Z.div_mod srcva 4096 ltac:(lia)); set (v := srcva / 4096) in *.
  assert (Hv : 0 <= v < 2 ^ 52) by lia.
  rewrite PGROUNDDOWN_vpn by lia; fold v; apply bind_assoc_wp; wp_step.
  eapply wp_mono; [by apply (translate_spec p s free t U v)|].
  intros pa0 c' s1 (-> & f1 & t1 & U1 & He & [(-> & Hbad)|(Hpa & Hrd & perm & HU1 & Hp)]).
  { wp_steps; split; [done|]; exists f1, t1, U1; split; [done|]; right; split; [done|].
    exists srcva; split; [lia|done]. }
  destruct (Z.eqb_spec pa0 0) as [|_]; [lia|]; wp_steps; change PGSIZE with 4096.
  pose proof (lz_space _ _ _ _ _ _ _ _ _ He) as Hu1; destruct (us_dom _ _ _ _ Hu1 _ _ _ HU1) as (Hvu & _).
  replace (srcva - v * 4096) with (srcva mod 4096) by lia.
  set (n := Z.min (4096 - srcva mod 4096) len).
  assert (Hbs : rdn (k_mem s1) (pa0 + srcva mod 4096) (Z.to_nat n) = map (uview (k_mem s) U) (zrange srcva (Z.to_nat n))).
  { rewrite (rdn_uview _ U1 srcva _ pa0 perm) by (done || lia); apply map_ext; apply He. }
  rewrite Hbs, ulimit_eq in *; rewrite (u64_small (v * 4096 + 4096)) by lia.
  replace (v * 4096 + 4096) with ((v + 1) * 4096) by lia; rewrite <- (lz_root _ _ _ _ _ _ _ _ _ He).
  eapply wp_mono; [apply (IH s1 f1 t1 U1 ((v + 1) * 4096) (len - n)); auto; rewrite ?ulimit_eq, ?Z_mod_mult; try lia|].
  { by rewrite (lz_root _ _ _ _ _ _ _ _ _ He). }
  intros r c' s2 (-> & f2 & t2 & U2 & He2 & Hr); wp_steps; split; [done|].
  exists f2, t2, U2; split; [by eapply lazy_ext_trans|]; destruct Hr as [[-> Hall]|[Hr Hbad]].
  - left; split.
    + cbn [fst snd]; f_equal; rewrite (map_ext (uview (k_mem s1) U1) (uview (k_mem s) U)) by apply He.
      rewrite <- map_app; f_equal; destruct (decide (len <= 4096 - srcva mod 4096)).
      * assert (len - n = 0) as -> by lia; rewrite app_nil_r; f_equal; lia.
      * replace ((v + 1) * 4096) with (srcva + Z.of_nat (Z.to_nat n)) by lia.
        rewrite <- zrange_app; f_equal; lia.
    + intros va Hva'; destruct (decide (va < (v + 1) * 4096)).
      * replace (va / 4096) with v; [done|]; apply Z.div_unique with (va - v * 4096); lia.
      * rewrite <- (readable_ext _ _ _ _ _ _ _ _ _ _ He); apply Hall; lia.
  - right; split; [done|]; destruct Hbad as (va & Hva' & Hn); exists va; split; [lia|].
    rewrite <- (readable_ext _ _ _ _ _ _ _ _ _ _ He); destruct Hn as [|[Hn ?]]; [by left|right].
    split; [by eapply lazy_none|done].
Qed.

Lemma upages_inj s free t U v w pa perm perm' :
  uspace s free t U -> U !! v = Some (pa, perm) -> U !! w = Some (pa, perm') -> v = w.
Proof.
  intros Hu Hv Hw; destruct (decide (v = w)) as [|Hne]; [done|exfalso].
  destruct (upage_apart _ _ _ _ _ _ _ Hu Hv) as (_ & _ & H); apply H.
  apply (upages_in _ w pa perm'); by rewrite lookup_delete_ne.
Qed.

(** Storing bytes in one page of the user. *)
Lemma user_write s free t U pa perm va bs :
  uspace s free t U -> U !! (va / 4096) = Some (pa, perm) -> Forall byte_ok bs ->
  va mod 4096 + Z.of_nat (length bs) <= 4096 ->
  let s' := set_mem (wrn (k_mem s) (pa + va mod 4096) bs) s in
  uspace s' free t U /\ only_page pa (k_mem s) (k_mem s') /\
  forall x, uview (k_mem s') U x =
    if decide (va <= x < va + Z.of_nat (length bs)) then aget 0 bs (x - va) else uview (k_mem s) U x.
Proof.
  intros Hu HU Hbs Hlen s'; pose proof (Z.mod_pos_bound va 4096 ltac:(lia)) as Hmod.
  destruct (us_dom _ _ _ _ Hu _ _ _ HU) as (_ & Hpa & _).
  destruct (upage_apart _ _ _ _ _ _ _ Hu HU) as (Npt & Nf & _).
  assert (Ho : only_page pa (k_mem s) (k_mem s')).
  { intros x Hx; simpl; apply rd_wrn_out; lia. }
  split_and!; auto.
  - apply (uspace_move s s' free free t U pa); auto; [|apply Hu].
    destruct (vi_kalloc _ _ _ (us_inv _ _ _ _ Hu)) as [H1 H2 H3 H4]; split; auto; [simpl; auto|].
    apply (free_rep_only_page (k_mem s) _ pa); auto; apply Hpa.
  - intros x; pose proof (Z.div_mod va 4096 ltac:(lia)); pose proof (Z.div_mod x 4096 ltac:(lia)).
    pose proof (Z.mod_pos_bound x 4096 ltac:(lia)); unfold uview; case_decide as Hx.
    + assert (x / 4096 = va / 4096) as -> by (symmetry; apply Z.div_unique with (va mod 4096 + (x - va)); lia).
      rewrite HU; destruct (lookup_lt_is_Some_2 bs (Z.to_nat (x - va))) as [y Hy]; [lia|].
      rewrite (aget_lookup _ _ _ y) by (done || lia); simpl.
      replace (pa + x mod 4096) with (pa + va mod 4096 + Z.of_nat (Z.to_nat (x - va))) by lia.
      rewrite (rd_wrn_in _ _ _ _ _ Hy); apply u8_small, (Forall_lookup_1 _ _ _ _ Hbs Hy).
    + destruct (U !! (x / 4096)) as [[q pm]|] eqn:E; [|done].
      destruct (us_dom _ _ _ _ Hu _ _ _ E) as (_ & Hq & _); destruct (decide (q = pa)) as [->|Hne].
      * pose proof (upages_inj _ _ _ _ _ _ _ _ _ Hu E HU); simpl; apply rd_wrn_out; lia.
      * destruct Hq as [Hq1 _], Hpa as [Hp1 _]; destruct (pages_disjoint q pa Hq1 Hp1 Hne); apply Ho; lia.
Qed.

Record copied (s s' : kmem) (free free' : list Z) (t t' : ptree) (U U' : umap) (sz dstva : Z) (bs : list Z) : Prop := {
  co_space : uspace s' free' t' U';
  co_root : pt_root t' = pt_root t;
  co_pages : pt_pages t' ++ upages U' ++ free' ≡ₚ pt_pages t ++ upages U ++ free;
  co_old : forall v x, U !! v = Some x -> U' !! v = Some x;
  co_new : forall v, U !! v = None -> U' !! v = None \/ (v * 4096 < sz /\ exists pa, U' !! v = Some (pa, FAULT_PERM));
  co_view : forall va, uview (k_mem s') U' va =
    if decide (dstva <= va < dstva + Z.of_nat (length bs)) then aget 0 bs (va - dstva)
    else uview (k_mem s) U va;
  co_mem : same_except (pt_pages t ++ upages U ++ free) (k_mem s) (k_mem s');
  co_high : same_high (k_mem s) (k_mem s') t t'
}.

Lemma lazy_copied s s' free free' t t' U U' sz dstva :
  lazy_ext s s' free free' t t' U U' sz -> copied s s' free free' t t' U U' sz dstva [].
Proof.
  intros [A1 A2 A3 A4 A5 A6 A7 A8 A9]; split; auto; [intros va; rewrite decide_False by (simpl; lia); auto|].
  eapply same_except_mono; [|exact A8]; intros p; rewrite !elem_of_app; tauto.
Qed.

(** Page by page: [n] bytes into page [v], then the rest. *)
Lemma copied_step s s1 s3 free f1 f3 t t1 t3 U U1 U3 sz dstva v pa perm bs1 bs2 :
  lazy_ext s s1 free f1 t t1 U U1 sz ->
  dstva / 4096 = v -> U1 !! v = Some (pa, perm) -> Forall byte_ok bs1 ->
  dstva mod 4096 + Z.of_nat (length bs1) <= 4096 ->
  copied (set_mem (wrn (k_mem s1) (pa + dstva mod 4096) bs1) s1) s3 f1 f3 t1 t3 U1 U3 sz
    (dstva + Z.of_nat (length bs1)) bs2 ->
  copied s s3 free f3 t t3 U U3 sz dstva (bs1 ++ bs2).
Proof.
  intros He <- HU1 Hb Hlen Hc; pose proof (lz_space _ _ _ _ _ _ _ _ _ He) as Hu1.
  destruct (user_write s1 f1 t1 U1 pa perm dstva bs1) as (Hu2 & Ho & Hv2); auto.
  destruct He as [A1 A2 A3 A4 A5 A6 A7 A8 A9]; destruct Hc as [B1 B2 B3 B4 B5 B6 B7 B8].
  split; auto; [congruence|by rewrite B3| | | |].
  - intros v Hv; destruct (A6 v Hv) as [E|(Hsz & q & E)]; [auto|right]; split; [done|]; exists q; auto.
  - intros va; rewrite B6, Hv2, A7, length_app; repeat case_decide; try lia; auto.
    + unfold aget; rewrite app_nth2 by lia; f_equal; lia.
    + unfold aget; rewrite app_nth1 by lia; f_equal; lia.
  - apply (same_except_trans _ _ (k_mem s1)).
    { eapply same_except_mono; [|exact A8]; intros p; rewrite !elem_of_app; tauto. }
    eapply same_except_trans; [apply (only_page_same pa); [|exact Ho]|eapply same_except_mono; [|exact B7]].
    + rewrite <- A3, !elem_of_app; right; left; by eapply upages_in.
    + intros p; by rewrite A3.
  - eapply same_high_trans; [exact A9|]; eapply same_high_trans; [|exact B8].
    apply (same_high_page s1 f1 t1 pa); [apply Hu1|by apply (us_dom _ _ _ _ Hu1) in HU1 as (_ & ? & _)| |done].
    by apply (upage_apart _ _ _ _ _ _ _ Hu1) in HU1 as [? _].
Qed.

(** The permission test of [copyout]. *)
Lemma wtest_spec s free t U v pa perm c :
  uspace s free t U -> KMEM ∉ c_held c -> U !! v = Some (pa, perm) ->
  wp (let! pte := walk (pt_root t) (v * 4096) false in if pte =? 0 then panic "kerneltrap" else read_pte pte) c s (fun x c' s' =>
    c' = c /\ s' = s /\ (Z.land x PTE_W =? 0) = negb (set perm PTE_W)).
Proof.
  intros Hu Hk HU; destruct (us_dom _ _ _ _ Hu _ _ _ HU) as (Hv & Hpa & Hperm).
  destruct (vpn_va v Hv) as [Hva _]; pose proof (page_ok_bounds _ Hpa).
  pose proof (us_pte _ _ _ _ Hu v Hv) as Hpte; rewrite HU in Hpte; unfold pte_of in Hpte; cbn [pte_for] in Hpte.
  wp_step; eapply wp_mono; [apply (walk_spec s free t); auto; apply Hu|]; intros a c' s' (-> & -> & ->).
  destruct (leaf_page t (v * 4096)) as [q|] eqn:Eq; [|pose proof (set_leaf_V pa perm) as E; by rewrite <- Hpte in E].
  rewrite (proj2 (Z.eqb_neq _ _)) by (eapply walk_leaf_nonzero; [apply Hu|done]).
  unfold read_pte; wp_steps; split_and!; auto; rewrite Hpte, <- (set_leaf_W pa) by lia; unfold set; by rewrite negb_involutive.
Qed.

(** The turn of [copyout] up to the copy, for page [v]. *)
Lemma copyout_page_spec p s free t U v c (K : Z -> M kmem Z) Φ :
  uspace s free t U -> KMEM ∉ c_held c -> 0 <= v < 2 ^ 52 ->
  up_pagetable p = pt_root t -> up_sz p <= ulimit * 4096 ->
  (forall s' f' t' U', lazy_ext s s' free f' t t' U U' (up_sz p) ->
     ~ writable U (up_sz p) v \/ (U !! v = None /\ (length f' <= 1)%nat) -> Φ (-1) c s') ->
  (forall s' f' t' U' pa perm, lazy_ext s s' free f' t t' U U' (up_sz p) ->
     U' !! v = Some (pa, perm) -> wp (K pa) c s' Φ) ->
  wp (if MAXVA <=? v * 4096 then ret (-1) else
      let! pa := walkaddr (pt_root t) (v * 4096) in
      let! pa0 := (if pa =? 0 then vmfault p (pt_root t) (v * 4096) else ret pa) in
      if pa0 =? 0 then ret (-1) else
      let! pte := walk (pt_root t) (v * 4096) false in
      let! x := (if pte =? 0 then panic "kerneltrap" else read_pte pte) in
      if Z.land x PTE_W =? 0 then ret (-1) else K pa0) c s Φ.
Proof.
  intros Hu Hk Hv Hpt Hsz Hbad Hgood; destruct (Z.leb_spec MAXVA (v * 4096)) as [Hhi|Hlo].
  { wp_steps; eapply Hbad; [by apply lazy_ext_refl|]; left; unfold writable.
    change MAXVA with (2 ^ 38) in Hhi; rewrite ulimit_eq in Hsz.
    rewrite (no_upage_high s free t U) by (done || rewrite ulimit_eq; lia); lia. }
  apply bind_assoc_wp; wp_step; eapply wp_mono; [by apply (translate_spec p s free t U v)|].
  intros pa0 c' s1 (-> & f1 & t1 & U1 & He & [(-> & Hb)|(Hpa & Hrd & perm & HU1 & Hp)]).
  { wp_steps; eapply Hbad; [exact He|]; destruct Hb as [Hb|]; [left|by right].
    intros Hw; apply Hb; unfold writable, readable in *; destruct (U !! v) as [[? ?]|]; tauto. }
  destruct (Z.eqb_spec pa0 0) as [|_]; [lia|]; pose proof (lz_space _ _ _ _ _ _ _ _ _ He) as Hu1.
  apply bind_assoc_wp; wp_step; rewrite <- (lz_root _ _ _ _ _ _ _ _ _ He).
  eapply wp_mono; [by apply (wtest_spec s1 f1 t1 U1 v pa0 perm)|]; intros x c' s' (-> & -> & ->).
  assert (Hwr : writable U (up_sz p) v <-> set perm PTE_W = true).
  { rewrite <- (writable_ext _ _ _ _ _ _ _ _ _ _ He); unfold writable; rewrite HU1; tauto. }
  destruct (set perm PTE_W) eqn:Ew; cbn [negb]; wp_steps; [by eapply Hgood|].
  eapply Hbad; [exact He|]; left; by rewrite Hwr.
Qed.

Lemma copied_nil s s' free free' t t' U U' sz d d' :
  copied s s' free free' t t' U U' sz d [] -> copied s s' free free' t t' U U' sz d' [].
Proof.
  intros [B1 B2 B3 B4 B5 B6 B7 B8]; split; auto; intros va; rewrite B6, !decide_False by (simpl; lia); done.
Qed.

Definition copyout_post (p : uproc) (s : kmem) (free : list Z) (t : ptree) (U : umap) (dstva : Z) (src : list Z)
    (r : Z) (s' : kmem) : Prop :=
  exists free' t' U' sent, copied s s' free free' t t' U U' (up_sz p) dstva sent /\
  ((r = 0 /\ sent = src) \/
   (r = -1 /\ sent = take (length sent) src /\
    exists va, dstva <= va < dstva + Z.of_nat (length src) /\
      (~ writable U (up_sz p) (va / 4096) \/ (U !! (va / 4096) = None /\ (length free' <= 1)%nat)))).

Lemma copyout_loop_spec fuel p s free t U dstva src c :
  uspace s free t U -> KMEM ∉ c_held c -> 0 <= dstva < 2 ^ 64 -> Forall byte_ok src ->
  up_pagetable p = pt_root t -> up_sz p <= ulimit * 4096 ->
  dstva mod 4096 + Z.of_nat (length src) <= Z.of_nat fuel * 4096 ->
  wp (copyout_loop fuel p (pt_root t) dstva src) c s (fun r c' s' =>
    c' = c /\ copyout_post p s free t U dstva src r s').
Proof.
  revert s free t U dstva src; induction fuel as [|fuel IH];
    intros s free t U dstva src Hu Hk Hva Hb Hpt Hsz Hfuel; cbn [copyout_loop];
    pose proof (Z.mod_pos_bound dstva 4096 ltac:(lia)) as Hmod;
    (destruct src as [|x0 src0] eqn:Es;
      [wp_steps; split; [done|]; exists free, t, U, []; split; [by apply lazy_copied, lazy_ext_refl|by left]|]).
  { simpl in Hfuel; lia. }
  rewrite <- Es in *; assert (Hl0 : (0 < length src)%nat) by (subst; simpl; lia); clear Es x0 src0.
  assert (Hdm := Z.div_mod dstva 4096 ltac:(lia)); set (v := dstva / 4096) in *.
  rewrite PGROUNDDOWN_vpn by lia; fold v; apply (copyout_page_spec p s free t U v); auto; [lia| |].
  { intros s1 f1 t1 U1 He Hbad; split; [done|]; exists f1, t1, U1, []; split; [by apply lazy_copied|].
    right; split_and!; auto; exists dstva; split; [lia|done]. }
  intros s1 f1 t1 U1 pa0 perm He HU1; pose proof (lz_space _ _ _ _ _ _ _ _ _ He) as Hu1.
  replace (dstva - v * 4096) with (dstva mod 4096) by lia; change PGSIZE with 4096.
  set (n := Z.min (4096 - dstva mod 4096) (Z.of_nat (length src))).
  assert (Hln : length (take (Z.to_nat n) src) = Z.to_nat n) by (apply length_take_le; lia).
  destruct (us_dom _ _ _ _ Hu1 _ _ _ HU1) as (Hvu & _); rewrite ulimit_eq in *.
  rewrite (u64_small (v * 4096 + 4096)) by lia; unfold mod_mem; wp_steps.
  assert (Hbt : Forall byte_ok (take (Z.to_nat n) src)) by (by apply Forall_take).
  destruct (user_write s1 f1 t1 U1 pa0 perm dstva (take (Z.to_nat n) src)) as (Hu2 & _ & _); [done|done|done|lia|].
  replace (v * 4096 + 4096) with ((v + 1) * 4096) by lia; rewrite <- (lz_root _ _ _ _ _ _ _ _ _ He).
  eapply wp_mono; [apply (IH _ f1 t1 U1 ((v + 1) * 4096) (drop (Z.to_nat n) src)); auto|].
  all: rewrite ?ulimit_eq, ?Z_mod_mult, ?length_drop; try lia.
  { by apply Forall_drop. }
  { by rewrite (lz_root _ _ _ _ _ _ _ _ _ He). }
  intros r c' s3 (-> & f3 & t3 & U3 & sent & Hc & Hr); split; [done|].
  assert (Hc' : copied (set_mem (wrn (k_mem s1) (pa0 + dstva mod 4096) (take (Z.to_nat n) src)) s1) s3 f1 f3 t1 t3
                  U1 U3 (up_sz p) (dstva + Z.of_nat (length (take (Z.to_nat n) src))) sent).
  { destruct (decide (Z.of_nat (length src) <= 4096 - dstva mod 4096)).
    - assert (drop (Z.to_nat n) src = []) as En by (apply drop_ge; lia); rewrite En in Hr.
      assert (sent = []) as -> by (destruct Hr as [[_ ->]|(_ & -> & _)]; [done|apply take_nil]).
      by eapply copied_nil.
    - by replace (dstva + Z.of_nat (length (take (Z.to_nat n) src))) with ((v + 1) * 4096) by lia. }
  exists f3, t3, U3, (take (Z.to_nat n) src ++ sent); split; [eapply copied_step; eauto; lia|].
  destruct Hr as [[-> ->]|(-> & Es & Hbad)]; [left; split; [done|apply take_drop]|right; split; [done|]; split].
  - by rewrite length_app, Hln, <- take_take_drop, <- Es.
  - destruct Hbad as (va & Hva' & Hn); exists va; rewrite length_drop in Hva'; split; [lia|].
    rewrite <- (writable_ext _ _ _ _ _ _ _ _ _ _ He); destruct Hn as [|[Hn ?]]; [by left|right].
    split; [by eapply lazy_none|done].
Qed.
End uspace.
