(* ===== verification/UserMem.v ===== *)
(** * Growing, copying and accessing user memory

    [uvmalloc], [uvmdealloc] and [uvmcopy] on address spaces, and the theorems
    about user memory. *)

From S2P Require Import Prelude KMonad Memory Riscv Kalloc Vm VmProofs UserVm.

(** The number of pages that hold [sz] bytes. *)
Definition pgup (sz : Z) : Z := (sz + 4095) / 4096.

Lemma PGROUNDUP_pgup sz : 0 <= sz <= 2 ^ 64 - 4096 -> PGROUNDUP sz = pgup sz * 4096.
Proof.
  intros; rewrite PGROUNDUP_eq by done; unfold pgup; pose proof (Z.div_mod (sz + 4095) 4096 ltac:(lia)); lia.
Qed.

Lemma pgup_bounds sz : 0 <= sz -> sz <= pgup sz * 4096 < sz + 4096.
Proof.
  intros; unfold pgup; pose proof (Z.div_mod (sz + 4095) 4096 ltac:(lia)).
  pose proof (Z.mod_pos_bound (sz + 4095) 4096 ltac:(lia)); lia.
Qed.

Lemma pgup_page v : pgup (v * 4096) = v.
Proof. unfold pgup; symmetry; apply Z.div_unique with 4095; lia. Qed.

Lemma perm_cancel {A} (a f u g b h : list A) :
  a ++ (f ++ u) ++ g ≡ₚ b ++ u ++ h -> a ++ f ++ g ≡ₚ b ++ h.
Proof.
  intros H; apply (Permutation_app_inv_l u).
  rewrite (Permutation_app_swap_app u b h), <- H, !app_assoc, <- (app_assoc (a ++ f)).
  rewrite <- !app_assoc, (Permutation_app_swap_app u a), (Permutation_app_swap_app u f); done.
Qed.

Section usermem.
Context {L : KernelLayout}.

Lemma unmap_range_neg U v n : n <= 0 -> unmap_range U v n = U.
Proof. intros; apply map_eq; intros w; rewrite lookup_unmap_range; case_decide; [lia|done]. Qed.

Lemma uvmdealloc_spec s free t U oldsz newsz c :
  uspace s free t U -> KMEM ∉ c_held c -> 0 <= newsz -> 0 <= oldsz <= ulimit * 4096 ->
  wp (uvmdealloc (pt_root t) oldsz newsz) c s (fun r c' s' =>
    c' = c /\ r = (if oldsz <=? newsz then oldsz else newsz) /\
    exists freed, unmapped_by s s' free t U (unmap_range U (pgup newsz) (pgup oldsz - pgup newsz)) freed).
Proof.
  intros Hu Hk Hn Ho; unfold uvmdealloc.
  assert (Hmono : oldsz <= newsz -> pgup oldsz <= pgup newsz) by (intros; apply Z.div_le_mono; lia).
  destruct (Z.leb_spec oldsz newsz) as [Hle|Hlt].
  { wp_steps; split_and!; auto; exists []; rewrite unmap_range_neg by lia; by apply unmapped_by_refl. }
  assert (Ho' := Ho); rewrite ulimit_eq in Ho'; pose proof (pgup_bounds oldsz ltac:(lia)); pose proof (pgup_bounds newsz Hn).
  rewrite !PGROUNDUP_pgup by lia; destruct (Z.ltb_spec (pgup newsz * 4096) (pgup oldsz * 4096)) as [Hl|Hl].
  - replace (pgup oldsz * 4096 - pgup newsz * 4096) with ((pgup oldsz - pgup newsz) * 4096) by lia.
    change PGSIZE with 4096; rewrite Z.div_mul, s32_small, u64_small by lia; wp_step.
    eapply wp_mono; [apply (uvmunmap_spec _ s free t U); auto; rewrite ?ulimit_eq; lia|].
    intros _ c' s' (-> & freed & Hub); wp_steps; eauto.
  - wp_steps; split_and!; auto; exists []; rewrite unmap_range_neg by lia; by apply unmapped_by_refl.
Qed.

(** Taking back what was added since [U]. *)
Lemma rollback_grow s s1 s2 free f1 t t1 U U1 freed :
  uspace s free t U -> grow_ext s s1 free f1 t t1 U U1 -> unmapped_by s1 s2 f1 t1 U1 U freed ->
  grow_ext s s2 free (freed ++ f1) t t1 U U.
Proof.
  intros Hu [A1 A2 A3 A4 A5 A6 A7] [B1 B2 B3 B4].
  assert (Hp : pt_pages t1 ++ freed ++ f1 ≡ₚ pt_pages t ++ free).
  { rewrite B2 in A3; by apply perm_cancel in A3. }
  apply grow_none; auto; [|by eapply same_high_trans]; apply (same_except_trans _ _ (k_mem s1)); [done|].
  eapply same_except_mono; [|exact B3]; intros p; rewrite <- Hp, !elem_of_app; tauto.
Qed.

(** ** [uvmalloc] *)

(** [U'] is [U] with pages [v0], ..., [v - 1] added. *)
Definition grown (U U' : umap) (v0 v perm : Z) : Prop :=
  forall w, if decide (v0 <= w < v) then exists pa, U' !! w = Some (pa, perm) else U' !! w = U !! w.

Lemma grown_unmap U U' v0 v perm :
  grown U U' v0 v perm -> (forall w, v0 <= w < v -> U !! w = None) -> unmap_range U' v0 (v - v0) = U.
Proof.
  intros Hg Hn; apply map_eq; intros w; rewrite lookup_unmap_range; specialize (Hg w).
  replace (v0 + (v - v0)) with v by lia; case_decide as E; [by rewrite Hn|done].
Qed.

Lemma grown_step U U' v0 v perm pa :
  v0 <= v -> grown U U' v0 v perm -> grown U (<[v := (pa, perm)]> U') v0 (v + 1) perm.
Proof.
  intros Hv Hg w; specialize (Hg w); destruct (decide (w = v)) as [->|Hne].
  - rewrite decide_True by lia; exists pa; by rewrite lookup_insert_eq.
  - rewrite lookup_insert_ne by done; case_decide as E1; case_decide as E2; auto; lia.
Qed.

(** Giving up: the pages added so far are taken back. *)
Lemma uvmalloc_undo s0 s free0 free t0 t U0 U v0 v perm c :
  uspace s0 free0 t0 U0 -> grow_ext s0 s free0 free t0 t U0 U -> KMEM ∉ c_held c ->
  grown U0 U v0 v perm -> (forall w, v0 <= w < v -> U0 !! w = None) -> 0 <= v0 <= v -> v <= ulimit ->
  wp (let! _ := uvmdealloc (pt_root t) (v * 4096) (v0 * 4096) in ret 0) c s (fun r c' s' =>
    c' = c /\ r = 0 /\ exists free' t', grow_ext s0 s' free0 free' t0 t' U0 U0).
Proof.
  intros Hu0 Hg Hk Hgr Hn Hv Hvl; wp_step.
  eapply wp_mono; [apply (uvmdealloc_spec s free t U); auto; try lia; apply Hg|].
  intros r c' s' (-> & _ & freed & Hub); rewrite !pgup_page, (grown_unmap U0 U v0 v perm) in Hub by done.
  wp_steps; split_and!; auto; exists (freed ++ free), t; by eapply rollback_grow.
Qed.

Lemma uvmalloc_loop_spec fuel s0 s free0 free t0 t U0 U v0 v newsz xperm c :
  let perm := Z.lor (Z.lor PTE_R PTE_U) xperm in
  uspace s0 free0 t0 U0 -> grow_ext s0 s free0 free t0 t U0 U -> KMEM ∉ c_held c ->
  grown U0 U v0 v perm -> (forall w, v0 <= w < pgup newsz -> U0 !! w = None) ->
  0 <= v0 <= v -> v0 <= pgup newsz -> v <= pgup newsz <= ulimit -> 0 <= newsz -> 0 <= perm < 1024 ->
  newsz <= (v + Z.of_nat fuel) * 4096 ->
  wp (uvmalloc_loop fuel (pt_root t) (v * 4096) (v0 * 4096) newsz xperm) c s (fun r c' s' =>
    c' = c /\ exists free' t' U', grow_ext s0 s' free0 free' t0 t' U0 U' /\
    ((r = newsz /\ grown U0 U' v0 (pgup newsz) perm) \/ (r = 0 /\ U' = U0))).
Proof.
  intros perm Hu0; revert s free t U v; induction fuel as [|fuel IH];
    intros s free t U v Hg Hk Hgr Hn Hv Hv0 Hvn Hnz Hperm Hfuel; cbn [uvmalloc_loop];
    pose proof (pgup_bounds newsz Hnz) as Hpg;
    (destruct (Z.ltb_spec (v * 4096) newsz) as [Hlt|Hge]; cbn [negb];
      [|wp_steps; split; [done|]; exists free, t, U; split; [done|]; left; split; [done|];
        by replace (pgup newsz) with v by lia]).
  { lia. }
  assert (Hun : U !! v = None).
  { specialize (Hgr v); rewrite decide_False in Hgr by lia; rewrite Hgr; apply Hn; lia. }
  assert (Hn' : forall w, v0 <= w < v -> U0 !! w = None) by (intros; apply Hn; lia).
  pose proof (ge_space _ _ _ _ _ _ _ _ Hg) as Hu.
  wp_step; eapply wp_mono; [by apply (uspace_kalloc_spec s free t U)|]; intros r c' s1 [-> Hr].
  destruct free as [|pa f1].
  { destruct Hr as [-> ->]; change (0 =? 0) with true; cbn iota.
    eapply wp_mono; [by apply (uvmalloc_undo s0 s free0 [] t0 t U0 U v0 v perm); auto; lia|].
    intros r c' s' (-> & -> & f' & t' & Hg'); split; [done|]; exists f', t', U0; auto. }
  destruct Hr as (-> & Hu1 & Hfr & Ho1); pose proof (page_ok_bounds _ (proj1 Hfr)).
  destruct (Z.eqb_spec pa 0) as [|_]; [lia|]; apply bind_assoc_wp; wp_step; fold perm.
  eapply wp_mono; [apply (map_zeroed_spec s s1 pa f1 t U v perm); auto; lia|].
  intros r c' s3 (-> & f3 & t3 & Hroot & Hperm3 & Hm3 & Hhi3 & [(-> & Hu3 & Hz)|(-> & -> & Hu3 & Hfr3)]).
  - change (negb (0 =? 0)) with false; cbn iota; change PGSIZE with 4096; rewrite ulimit_eq in Hvn.
    rewrite u64_small by lia; replace (v * 4096 + 4096) with ((v + 1) * 4096) by lia; rewrite <- Hroot.
    eapply wp_mono; [apply (IH s3 f3 t3 (<[v := (pa, perm)]> U) (v + 1)); auto; rewrite ?ulimit_eq; try lia|auto].
    + eapply grow_trans; [exact Hg|by apply grow_one].
    + by apply grown_step; [lia|].
  - change (negb (-1 =? 0)) with true; cbn iota; wp_step.
    eapply wp_mono; [by apply (uspace_kfree_spec s3 [] t3 U pa)|]; intros _ c' s4 (-> & Hu4 & Ho4).
    rewrite <- Hroot; eapply wp_mono; [apply (uvmalloc_undo s0 s4 free0 [pa] t0 t3 U0 U v0 v perm); auto; try lia|].
    { eapply grow_trans; [exact Hg|]; apply grow_none; auto.
      - rewrite app_nil_r in Hperm3; rewrite Hperm3, <- app_assoc; by rewrite (Permutation_app_comm f1).
      - apply (same_except_trans _ _ (k_mem s3)); [done|]; apply (only_page_same pa); [elt|done].
      - eapply same_high_trans; [exact Hhi3|]; apply (same_high_page s3 [] t3 pa); auto; [apply Hu3|apply Hfr3..]. }
    intros r c' s' (-> & -> & f' & t' & Hg'); split; [done|]; exists f', t', U0; auto.
Qed.

Lemma uvmalloc_spec s free t U oldsz newsz xperm c :
  let perm := Z.lor (Z.lor PTE_R PTE_U) xperm in
  uspace s free t U -> KMEM ∉ c_held c -> 0 <= oldsz <= newsz -> newsz <= ulimit * 4096 ->
  0 <= perm < 1024 -> (forall w, pgup oldsz <= w < pgup newsz -> U !! w = None) ->
  wp (uvmalloc (pt_root t) oldsz newsz xperm) c s (fun r c' s' =>
    c' = c /\ exists free' t' U', grow_ext s s' free free' t t' U U' /\
    ((r = newsz /\ grown U U' (pgup oldsz) (pgup newsz) perm) \/ (r = 0 /\ U' = U))).
Proof.
  intros perm Hu Hk Ho Hn Hp Hun; unfold uvmalloc; destruct (Z.ltb_spec newsz oldsz); [lia|].
  rewrite ulimit_eq in Hn; pose proof (pgup_bounds oldsz ltac:(lia)); pose proof (pgup_bounds newsz ltac:(lia)).
  assert (pgup oldsz <= pgup newsz) by (apply Z.div_le_mono; lia).
  rewrite PGROUNDUP_pgup by lia; change PGSIZE with 4096.
  apply (uvmalloc_loop_spec _ s s free free t t U U); rewrite ?ulimit_eq; auto; try lia.
  - by apply grow_refl.
  - intros w; rewrite decide_False by lia; done.
  - pose proof (Z.div_mod (newsz - pgup oldsz * 4096) 4096 ltac:(lia)).
    pose proof (Z.mod_pos_bound (newsz - pgup oldsz * 4096) 4096 ltac:(lia)).
    destruct (decide (newsz - pgup oldsz * 4096 < 0)); lia.
Qed.

(** C15. [uvmalloc] maps all of the pages or none.  Asked to shrink, it returns
    [oldsz] and changes nothing.  Otherwise it returns [newsz] with every page
    between [oldsz] and [newsz] mapped with the requested permissions and the
    other mappings as they were; or it returns 0 with the mappings exactly as they
    were, and then every page it took is free again but for the pages it added to
    the page table itself, which stay there.  In all cases what the user sees of
    its memory is unchanged (new memory reads as zero), no page is lost, and only
    the table's own pages and free pages are written.  The sizes are within user
    memory and the pages to add are not mapped yet. *)
Theorem uvmalloc_all_or_nothing s free t U oldsz newsz xperm c :
  let perm := Z.lor (Z.lor PTE_R PTE_U) xperm in
  uspace s free t U -> KMEM ∉ c_held c -> 0 <= oldsz -> newsz <= ulimit * 4096 ->
  0 <= perm < 1024 -> (forall w, pgup oldsz <= w < pgup newsz -> U !! w = None) ->
  wp (uvmalloc (pt_root t) oldsz newsz xperm) c s (fun r c' s' => c' = c /\
    if newsz <? oldsz then r = oldsz /\ s' = s else
    exists free' t' U', grow_ext s s' free free' t t' U U' /\
    ((r = newsz /\ grown U U' (pgup oldsz) (pgup newsz) perm) \/
     (r = 0 /\ U' = U /\ pt_pages t' ++ free' ≡ₚ pt_pages t ++ free))).
Proof.
  intros perm Hu Hk Ho Hn Hp Hun; destruct (Z.ltb_spec newsz oldsz) as [Hlt|Hle].
  { unfold uvmalloc; rewrite (proj2 (Z.ltb_lt _ _) Hlt); by wp_steps. }
  eapply wp_mono; [apply (uvmalloc_spec s free t U oldsz newsz xperm c); auto; lia|].
  intros r c' s' (-> & free' & t' & U' & Hg & Hr); split; [done|]; exists free', t', U'; split; [done|].
  destruct Hr as [[-> Hgr]|[-> ->]]; [left; auto|right; split_and!; [done|done|]].
  apply (perm_cancel _ [] (upages U)), (ge_pages _ _ _ _ _ _ _ _ Hg).
Qed.

(** ** Two address spaces *)

Record two_spaces (s : kmem) (free : list Z) (to : ptree) (Uo : umap) (tn : ptree) (Un : umap) : Prop := {
  ts_old : uspace s free to Uo;
  ts_new : uspace s free tn Un;
  ts_nodup : NoDup ((pt_pages to ++ upages Uo) ++ pt_pages tn ++ upages Un ++ free)
}.

(** A step of the new space that keeps its pages and the free pages together. *)
Lemma two_spaces_step s s' free free' to Uo tn tn' Un Un' :
  two_spaces s free to Uo tn Un -> uspace s' free' tn' Un' ->
  pt_pages tn' ++ upages Un' ++ free' ≡ₚ pt_pages tn ++ upages Un ++ free ->
  same_except (pt_pages tn ++ upages Un ++ free) (k_mem s) (k_mem s') ->
  two_spaces s' free' to Uo tn' Un' /\ (forall va, uview (k_mem s') Uo va = uview (k_mem s) Uo va).
Proof.
  intros [Ho Hn Hnd] Hn' Hp Hs.
  assert (Hnd' : NoDup ((pt_pages to ++ upages Uo) ++ pt_pages tn' ++ upages Un' ++ free')) by (by rewrite Hp).
  assert (HF : Forall page_ok (pt_pages tn ++ upages Un ++ free)).
  { apply Forall_app; split; [apply Hn|]; apply Forall_app; split; [|apply Hn].
    apply Forall_forall; intros p; unfold upages; rewrite list_elem_of_fmap; intros ([pa pm] & -> & Hin).
    apply list_elem_of_fmap in Hin as ([v [pa' pm']] & [= -> ->] & Hin); apply elem_of_map_to_list in Hin.
    by apply (us_dom _ _ _ _ Hn) in Hin as (_ & ? & _). }
  apply NoDup_app in Hnd as (_ & Hd & _).
  split; [split; auto|].
  - apply (uspace_frame s s' free free' to Uo (pt_pages tn ++ upages Un ++ free)); auto; [|apply Hn'|].
    + intros p Hp' Hin; apply (Hd p); [|done]; rewrite elem_of_app; auto.
    + apply NoDup_app in Hnd' as (H1 & H2 & H3); rewrite app_assoc; apply NoDup_app; split_and!; auto.
      * intros p Hp' Hf; apply (H2 p Hp'); rewrite !elem_of_app; auto.
      * rewrite app_assoc in H3; by apply NoDup_app in H3 as (_ & _ & ?).
  - eapply (view_frame s free to Uo); eauto; intros p Hp' Hin; apply (Hd p); [|done].
    rewrite elem_of_app; auto.
Qed.

(** ** [uvmcopy] *)

(** Pages [0], ..., [v - 1] of [Un] are copies of those of [Uo]; [g] is the
    parent's view when the copy began. *)
Definition copied_upto (g : Z -> Z) (m : mem) (Uo Un : umap) (v : Z) : Prop :=
  forall w, if decide (0 <= w < v) then
      match Uo !! w with
      | Some (_, perm) => exists pa, Un !! w = Some (pa, Z.lor perm PTE_V) /\
          forall off, 0 <= off < 4096 -> rd m (pa + off) = g (w * 4096 + off)
      | None => Un !! w = None
      end
    else Un !! w = None.

Lemma copied_upto_none g m Uo Un v : Uo !! v = None -> 0 <= v ->
  copied_upto g m Uo Un v -> copied_upto g m Uo Un (v + 1).
Proof.
  intros Hv Hv0 H w; specialize (H w); destruct (decide (w = v)) as [->|Hne].
  - rewrite decide_False in H by lia; rewrite decide_True by lia; by rewrite Hv.
  - case_decide as E1; case_decide as E2; auto; lia.
Qed.

Lemma copied_upto_some g m m' Uo Un v pa perm mem' free t s :
  uspace s free t Un -> copied_upto g m Uo Un v -> Uo !! v = Some (pa, perm) -> 0 <= v ->
  (forall w q pm, Un !! w = Some (q, pm) -> forall off, 0 <= off < 4096 -> rd m' (q + off) = rd m (q + off)) ->
  (forall off, 0 <= off < 4096 -> rd m' (mem' + off) = g (v * 4096 + off)) ->
  copied_upto g m' Uo (<[v := (mem', Z.lor perm PTE_V)]> Un) (v + 1).
Proof.
  intros Hu H Hv Hv0 Hold Hnew w; specialize (H w); destruct (decide (w = v)) as [->|Hne].
  - rewrite decide_True by lia; rewrite Hv; exists mem'; rewrite lookup_insert_eq; auto.
  - rewrite lookup_insert_ne by done; case_decide as E1; case_decide as E2; try lia; auto.
    destruct (Uo !! w) as [[q pm]|]; [|done]; destruct H as (q' & Hq' & Hb); exists q'; split; [done|].
    intros off Hoff; rewrite (Hold w q' _ Hq') by done; auto.
Qed.

Lemma copied_upto_unmap g m Uo Un v : copied_upto g m Uo Un v -> unmap_range Un 0 v = ∅.
Proof.
  intros H; apply map_eq; intros w; rewrite lookup_unmap_range, lookup_empty; specialize (H w).
  destruct (decide (0 <= w < 0 + v)) as [|E]; [done|]; by rewrite decide_False in H by lia.
Qed.

(** The state in which [uvmcopy] gives up: nothing of the child is left. *)
(** What holds while and after [uvmcopy] runs, relative to its start. *)
Record copying (s0 s : kmem) (free0 free : list Z) (to : ptree) (Uo : umap) (tn0 tn : ptree) (Un : umap) : Prop := {
  cp_spaces : two_spaces s free to Uo tn Un;
  cp_root : pt_root tn = pt_root tn0;
  cp_pages : pt_pages tn ++ upages Un ++ free ≡ₚ pt_pages tn0 ++ free0;
  cp_view : forall va, uview (k_mem s) Uo va = uview (k_mem s0) Uo va;
  cp_high : same_high (k_mem s0) (k_mem s) tn0 tn;
  cp_mem : same_except (pt_pages tn0 ++ free0) (k_mem s0) (k_mem s)
}.

Lemma copying_step s0 s s' free0 free free' to Uo tn0 tn tn' Un Un' :
  copying s0 s free0 free to Uo tn0 tn Un -> uspace s' free' tn' Un' -> pt_root tn' = pt_root tn ->
  pt_pages tn' ++ upages Un' ++ free' ≡ₚ pt_pages tn ++ upages Un ++ free ->
  same_except (pt_pages tn ++ upages Un ++ free) (k_mem s) (k_mem s') -> same_high (k_mem s) (k_mem s') tn tn' ->
  copying s0 s' free0 free' to Uo tn0 tn' Un'.
Proof.
  intros [A1 A2 A3 A4 A5 A6] Hu Hr Hp Hm Hh.
  destruct (two_spaces_step s s' free free' to Uo tn tn' Un Un') as [Hts Hv]; auto.
  split; auto; [congruence|by rewrite Hp|intros va; by rewrite Hv|by eapply same_high_trans|].
  eapply same_except_trans; [done|]; eapply same_except_mono; [|exact Hm]; intros p; by rewrite A3.
Qed.

(** Giving up: the child's pages are taken back. *)
Lemma uvmcopy_fail s0 s free0 free to Uo tn0 tn Un g v c :
  copying s0 s free0 free to Uo tn0 tn Un -> KMEM ∉ c_held c -> copied_upto g (k_mem s) Uo Un v -> 0 <= v <= ulimit ->
  wp (do! uvmunmap (pt_root tn) 0 (v * 4096 / PGSIZE) true; ret (-1)) c s (fun r c' s' =>
    c' = c /\ r = -1 /\ exists free', copying s0 s' free0 free' to Uo tn0 tn ∅).
Proof.
  intros Hcp Hk Hc Hv; change PGSIZE with 4096; rewrite Z.div_mul by lia; wp_step.
  eapply wp_mono; [apply (uvmunmap_spec v s free tn Un 0); auto; try lia; apply Hcp|].
  intros _ c' s' (-> & freed & [B1 B2 B3 B4]); rewrite (copied_upto_unmap _ _ _ _ _ Hc) in *; wp_steps.
  rewrite app_nil_r in B2; split_and!; auto; exists (freed ++ free).
  eapply (copying_step s0 s s' free0 free (freed ++ free) to Uo tn0 tn tn Un ∅); auto; [by rewrite B2|].
  eapply same_except_mono; [|exact B3]; intros p; rewrite B2, !elem_of_app; tauto.
Qed.

Lemma memmove_page mem pa m :
  mem_ok m -> only_page mem m (memmove mem pa PGSIZE m) /\
  (forall off, 0 <= off < 4096 -> rd (memmove mem pa PGSIZE m) (mem + off) = rd m (pa + off)).
Proof.
  intros Hm; change PGSIZE with 4096; split.
  - intros x Hx; rewrite rd_memmove by (done || lia); case_decide; [lia|done].
  - intros off Hoff; rewrite rd_memmove by (done || lia); rewrite decide_True by lia; f_equal; lia.
Qed.

Lemma perm_insert U v pa perm (P P3 f1 f3 : list Z) :
  U !! v = None -> P3 ++ f3 ≡ₚ P ++ f1 ->
  P3 ++ upages (<[v := (pa, perm)]> U) ++ f3 ≡ₚ P ++ upages U ++ pa :: f1.
Proof.
  intros HU Hp; rewrite upages_insert by done; cbn [app]; rewrite <- Permutation_middle.
  rewrite (Permutation_app_comm (upages U) f3), app_assoc, Hp, <- app_assoc.
  by rewrite (Permutation_app_comm (upages U)); cbn [app]; rewrite <- Permutation_middle.
Qed.

(** Pages already copied are not touched. *)
Lemma copied_frame s free t Uo Un g m' v :
  uspace s free t Un -> same_except (pt_pages t ++ free) (k_mem s) m' ->
  copied_upto g (k_mem s) Uo Un v ->
  copied_upto g m' Uo Un v /\
  (forall w q pm, Un !! w = Some (q, pm) -> forall off, 0 <= off < 4096 -> rd m' (q + off) = rd (k_mem s) (q + off)).
Proof.
  intros Hu Hs Hc.
  assert (Hb : forall w q pm, Un !! w = Some (q, pm) -> forall off, 0 <= off < 4096 -> rd m' (q + off) = rd (k_mem s) (q + off)).
  { intros w q pm Hq off Hoff; destruct (us_dom _ _ _ _ Hu _ _ _ Hq) as (_ & Hqp & _).
    destruct (upage_apart _ _ _ _ _ _ _ Hu Hq) as (N1 & N2 & _).
    apply (same_except_page (pt_pages t ++ free) _ _ q); auto; [|rewrite elem_of_app; tauto|lia].
    apply Forall_forall; intros p Hp; apply (uspace_pages _ _ _ _ _ Hu Hp). }
  split; [|done]; intros w; specialize (Hc w); case_decide; [|done].
  destruct (Uo !! w) as [[q pm]|]; [|done]; destruct Hc as (q' & Hq' & Hc); exists q'; split; [done|].
  intros off Hoff; rewrite (Hb w q' _ Hq') by done; auto.
Qed.

(** Copying one page of the parent. *)
Lemma uvmcopy_page s0 s free0 free to Uo tn0 tn Un v pa perm c (K err : M kmem Z) Φ :
  let flags := Z.lor perm PTE_V in
  copying s0 s free0 free to Uo tn0 tn Un -> KMEM ∉ c_held c ->
  copied_upto (uview (k_mem s0) Uo) (k_mem s) Uo Un v -> 0 <= v < ulimit -> Uo !! v = Some (pa, perm) ->
  (forall s' free' tn', copying s0 s' free0 free' to Uo tn0 tn' Un ->
     copied_upto (uview (k_mem s0) Uo) (k_mem s') Uo Un v -> pt_root tn' = pt_root tn -> wp err c s' Φ) ->
  (forall s' free' tn' Un', copying s0 s' free0 free' to Uo tn0 tn' Un' ->
     copied_upto (uview (k_mem s0) Uo) (k_mem s') Uo Un' (v + 1) -> pt_root tn' = pt_root tn -> wp K c s' Φ) ->
  wp (let! mem := kalloc in
      if mem =? 0 then err else
      do! mod_mem (memmove mem pa PGSIZE);
      let! r := mappages (pt_root tn) (v * 4096) PGSIZE mem flags in
      if negb (r =? 0) then do! kfree mem; err else K) c s Φ.
Proof.
  intros flags Hcp Hk Hc Hv HUo Herr HK; pose proof (ts_new _ _ _ _ _ _ (cp_spaces _ _ _ _ _ _ _ _ _ Hcp)) as Hu.
  pose proof (ts_old _ _ _ _ _ _ (cp_spaces _ _ _ _ _ _ _ _ _ Hcp)) as Huo.
  destruct (us_dom _ _ _ _ Huo _ _ _ HUo) as (_ & Hpa & Hperm).
  assert (Hfl : 0 <= flags < 1024) by (change 1024 with (2 ^ 10) in *; apply lor_range; [lia|done|change PTE_V with 1; lia]).
  assert (HUn : Un !! v = None) by (specialize (Hc v); by rewrite decide_False in Hc by lia).
  assert (Hbytes : forall off, 0 <= off < 4096 -> rd (k_mem s) (pa + off) = uview (k_mem s0) Uo (v * 4096 + off)).
  { intros off Hoff; rewrite <- (cp_view _ _ _ _ _ _ _ _ _ Hcp); unfold uview.
    replace ((v * 4096 + off) / 4096) with v by (apply Z.div_unique with off; lia); rewrite HUo.
    by replace ((v * 4096 + off) mod 4096) with off by (apply Z.mod_unique with v; lia). }
  wp_step; eapply wp_mono; [by apply (uspace_kalloc_spec s free tn Un)|]; intros r c' s1 [-> Hr].
  destruct free as [|mem f1]; [destruct Hr as [-> ->]; change (0 =? 0) with true; by eapply Herr|].
  destruct Hr as (-> & Hu1 & Hfr & Ho1); pose proof (page_ok_bounds _ (proj1 Hfr)).
  destruct (Z.eqb_spec mem 0) as [|_]; [lia|]; apply bind_assoc_wp; wp_step.
  assert (Hm1 : mem_ok (k_mem s1)) by apply Hu1; destruct (memmove_page mem pa _ Hm1) as [Hom Hbm].
  eapply wp_mono; [apply (map_filled_spec _ s s1 mem f1 tn Un v flags); auto; apply mem_ok_memmove; [done|change PGSIZE with 4096; lia]|].
  intros r c' s3 (-> & f3 & t3 & Hroot & Hp3 & Hm3 & Hhi & Hr).
  destruct (copied_frame s (mem :: f1) tn Uo Un (uview (k_mem s0) Uo) (k_mem s3) v) as [Hc3 Hb3]; auto.
  assert (Hm3' : same_except (pt_pages tn ++ upages Un ++ mem :: f1) (k_mem s) (k_mem s3)).
  { eapply same_except_mono; [|exact Hm3]; intros q; rewrite !elem_of_app; tauto. }
  destruct Hr as [(-> & Hu3 & Hb)|(-> & -> & Hu3 & Hfr3)].
  - change (negb (0 =? 0)) with false; cbn iota; eapply HK; [| |exact Hroot].
    + eapply copying_step; [exact Hcp|exact Hu3|done|by apply perm_insert|done|done].
    + eapply copied_upto_some; eauto; [lia|]; intros off Hoff; rewrite Hb, Hbm by lia; rewrite <- Hbytes by done.
      destruct (upage_apart _ _ _ _ _ _ _ Huo HUo) as (_ & Nf & _); apply Ho1.
      destruct (pages_disjoint pa mem); [apply Hpa|apply Hfr|intros ->; apply Nf; by left|lia|lia].
  - change (negb (-1 =? 0)) with true; cbn iota; wp_step.
    eapply wp_mono; [by apply (uspace_kfree_spec s3 [] t3 Un mem)|]; intros _ c' s4 (-> & Hu4 & Ho4).
    assert (Hm4 : same_except (pt_pages tn ++ mem :: f1) (k_mem s) (k_mem s4)).
    { apply (same_except_trans _ _ (k_mem s3)); [done|]; apply (only_page_same mem); [elt|done]. }
    eapply (Herr s4 [mem] t3); [|by apply (copied_frame s (mem :: f1) tn Uo Un (uview (k_mem s0) Uo) (k_mem s4) v)|done].
    eapply copying_step; [exact Hcp|exact Hu4|done| | |].
    + rewrite app_nil_r in Hp3; rewrite Hp3, <- !app_assoc, (Permutation_app_comm f1).
      by rewrite <- app_assoc.
    + eapply same_except_mono; [|exact Hm4]; intros q; rewrite !elem_of_app; tauto.
    + eapply same_high_trans; [exact Hhi|]; apply (same_high_page s3 [] t3 mem); auto; [apply Hu3|apply Hfr3..].
Qed.

Lemma uvmcopy_loop_spec fuel s0 s free0 free to Uo tn0 tn Un v sz c :
  copying s0 s free0 free to Uo tn0 tn Un -> KMEM ∉ c_held c ->
  copied_upto (uview (k_mem s0) Uo) (k_mem s) Uo Un v -> 0 <= v <= pgup sz -> pgup sz <= ulimit -> 0 <= sz ->
  sz <= (v + Z.of_nat fuel) * 4096 ->
  wp (uvmcopy_loop fuel (pt_root to) (pt_root tn) (v * 4096) sz) c s (fun r c' s' =>
    c' = c /\ exists free' tn' Un', copying s0 s' free0 free' to Uo tn0 tn' Un' /\
    ((r = 0 /\ copied_upto (uview (k_mem s0) Uo) (k_mem s') Uo Un' (pgup sz)) \/ (r = -1 /\ Un' = ∅))).
Proof.
  revert s free tn Un v; induction fuel as [|fuel IH]; intros s free tn Un v Hcp Hk Hc Hv Hpl Hsz Hfuel;
    cbn [uvmcopy_loop]; pose proof (pgup_bounds sz Hsz) as Hpg;
    (destruct (Z.ltb_spec (v * 4096) sz) as [Hlt|Hge]; cbn [negb];
      [|wp_steps; split; [done|]; exists free, tn, Un; split; [done|]; left; split; [done|];
        by replace (pgup sz) with v by lia]).
  { lia. }
  pose proof (ts_old _ _ _ _ _ _ (cp_spaces _ _ _ _ _ _ _ _ _ Hcp)) as Huo.
  assert (Hvu : 0 <= v < ulimit) by lia; destruct (vpn_va v Hvu) as [Hva _].
  assert (Hnext : u64 (v * 4096 + PGSIZE) = (v + 1) * 4096).
  { change PGSIZE with 4096; rewrite u64_small; rewrite ulimit_eq in Hvu; lia. }
  assert (Hskip : Uo !! v = None -> wp (uvmcopy_loop fuel (pt_root to) (pt_root tn) (u64 (v * 4096 + PGSIZE)) sz) c s (fun r c' s' =>
    c' = c /\ exists free' tn' Un', copying s0 s' free0 free' to Uo tn0 tn' Un' /\
    ((r = 0 /\ copied_upto (uview (k_mem s0) Uo) (k_mem s') Uo Un' (pgup sz)) \/ (r = -1 /\ Un' = ∅)))).
  { intros HUo; rewrite Hnext; eapply IH; eauto; try lia; apply copied_upto_none; auto; lia. }
  pose proof (us_pte _ _ _ _ Huo v Hvu) as Hpte; unfold pte_of in Hpte.
  wp_step; eapply wp_mono; [apply (walk_spec s free to); auto; apply Huo|]; intros a c' s' (-> & -> & ->).
  destruct (leaf_page to (v * 4096)) as [p|] eqn:Ep.
  2:{ change (0 =? 0) with true; cbn iota; apply Hskip; destruct (Uo !! v) as [[pa perm]|]; [|done].
      pose proof (pte_for_valid pa perm) as E; rewrite <- Hpte in E; done. }
  destruct (Z.eqb_spec (p + 8 * PX 0 (v * 4096)) 0) as [E|_]; [eapply walk_leaf_nonzero in E; [done|apply Huo|done]|].
  unfold read_pte; wp_steps; rewrite Hpte; destruct (Uo !! v) as [[pa perm]|] eqn:EU; [|by apply Hskip].
  destruct (us_dom _ _ _ _ Huo _ _ _ EU) as (_ & Hpa & Hperm); pose proof (page_ok_bounds _ Hpa).
  rewrite pte_for_valid; cbn [negb pte_for]; rewrite leaf_pte_pa, leaf_pte_flags by (try apply Hpa; lia).
  eapply (uvmcopy_page s0 s free0 free to Uo tn0 tn Un v pa perm); eauto.
  - intros s' f' tn' Hcp' Hc' Hr; rewrite <- Hr; eapply wp_mono; [by eapply uvmcopy_fail; eauto; lia|].
    intros r c' s'' (-> & -> & f'' & Hcp''); split; [done|]; exists f'', tn', ∅; auto.
  - intros s' f' tn' Un' Hcp' Hc' Hr; rewrite Hnext, <- Hr; eapply IH; eauto; lia.
Qed.

Lemma uvmcopy_spec s free to Uo tn sz c :
  two_spaces s free to Uo tn ∅ -> KMEM ∉ c_held c -> 0 <= sz <= ulimit * 4096 ->
  wp (uvmcopy (pt_root to) (pt_root tn) sz) c s (fun r c' s' =>
    c' = c /\ exists free' tn' Un', copying s s' free free' to Uo tn tn' Un' /\
    ((r = 0 /\ copied_upto (uview (k_mem s) Uo) (k_mem s') Uo Un' (pgup sz)) \/ (r = -1 /\ Un' = ∅))).
Proof.
  intros Hts Hk Hsz; unfold uvmcopy; change PGSIZE with 4096; rewrite ulimit_eq in Hsz.
  pose proof (pgup_bounds sz ltac:(lia)).
  apply (uvmcopy_loop_spec _ s s free free to Uo tn tn ∅ 0 sz); auto; rewrite ?ulimit_eq; try lia.
  - split; auto; [by intros va|apply same_except_refl].
  - intros w; by rewrite decide_False by lia.
  - pose proof (Z.div_mod sz 4096 ltac:(lia)); pose proof (Z.mod_pos_bound sz 4096 ltac:(lia)).
    pose proof (Z.div_pos sz 4096); lia.
Qed.

(** C14. [fork] copies memory.  [uvmcopy] of a parent's address space into an
    empty one either returns 0, and then the child has exactly the parent's
    pages below [sz], with the same flags and the same bytes, in physical pages
    of its own; or it returns -1, and then the child's address space is empty
    again and every page it had taken is back on the free list.  The parent's
    memory and tables are unchanged in both cases, and parent's pages, child's
    pages, both page tables and the free list stay pairwise disjoint. *)
Theorem uvmcopy_copies s free to Uo tn sz c :
  two_spaces s free to Uo tn ∅ -> KMEM ∉ c_held c -> 0 <= sz <= ulimit * 4096 ->
  wp (uvmcopy (pt_root to) (pt_root tn) sz) c s (fun r c' s' =>
    c' = c /\ exists free' tn' Un',
    two_spaces s' free' to Uo tn' Un' /\ pt_root tn' = pt_root tn /\
    pt_pages tn' ++ upages Un' ++ free' ≡ₚ pt_pages tn ++ free /\
    (forall va, uview (k_mem s') Uo va = uview (k_mem s) Uo va) /\
    ((r = 0 /\ forall w, if decide (0 <= w < pgup sz) then
        match Uo !! w with
        | Some (pa, perm) => exists pa', Un' !! w = Some (pa', Z.lor perm PTE_V) /\
            forall off, 0 <= off < 4096 -> rd (k_mem s') (pa' + off) = uview (k_mem s) Uo (w * 4096 + off)
        | None => Un' !! w = None
        end else Un' !! w = None) \/
     (r = -1 /\ Un' = ∅))).
Proof.
  intros Hts Hk Hsz; eapply wp_mono; [by apply (uvmcopy_spec s free to Uo tn sz)|].
  intros r c' s' (-> & f' & tn' & Un' & [A1 A2 A3 A4 A5 A6] & Hr); split; [done|].
  exists f', tn', Un'; split_and!; auto.
Qed.
End usermem.
