(* ===== verification/UserLife.v ===== *)
(** * The life of a user address space

    From [uvmcreate] to [uvmfree], and what copies between the kernel and user
    memory promise in between. *)

From S2P Require Import Prelude KMonad Memory Riscv Kalloc Vm VmProofs UserVm UserMem.

Section userlife.
Context {L : KernelLayout}.

(** ** Creation *)

Lemma empty_space s free root :
  kalloc_inv s free -> page_ok root -> root ∉ free ->
  (forall x, root <= x < root + 4096 -> rd (k_mem s) x = 0) ->
  uspace s free (PTree root ∅ ∅) ∅.
Proof.
  intros Hk Hr Hf Hz; split.
  - split; auto; [|by apply NoDup_cons; split; [|apply Hk]|by apply Forall_singleton].
    split; cbn [pt_l1 pt_l0 pt_root].
    + intros i Hi; rewrite lookup_empty; apply rd64_zero; intros x Hx; apply Hz; lia.
    + intros i p; by rewrite lookup_empty.
    + intros i j p; by rewrite lookup_empty.
    + intros i p; by rewrite lookup_empty.
    + intros i j p; by rewrite lookup_empty.
  - intros v Hv; by rewrite lookup_empty.
  - done.
  - intros v pa perm; by rewrite lookup_empty.
  - apply NoDup_cons; split; [done|apply Hk].
Qed.

Lemma uvmcreate_spec s free c :
  kalloc_inv s free -> KMEM ∉ c_held c ->
  wp uvmcreate c s (fun r c' s' => c' = c /\
    match free with
    | [] => r = 0 /\ s' = s
    | root :: free' => r = root /\ uspace s' free' (PTree root ∅ ∅) ∅ /\ only_page root (k_mem s) (k_mem s')
    end).
Proof.
  intros Hk Hl; unfold uvmcreate, mod_mem; wp_step.
  eapply wp_mono; [by apply (kalloc_spec free)|]; intros r c' s' [-> Hr].
  destruct free as [|pa free]; [destruct Hr as [-> ->]; by wp_steps|].
  destruct Hr as (-> & Hk' & Ho & _); pose proof (ki_pages _ _ Hk) as Hpg; apply Forall_cons in Hpg as [Hpa _].
  pose proof (ki_nodup _ _ Hk) as Hn; apply NoDup_cons in Hn as [Hn _].
  pose proof (page_ok_bounds _ Hpa); change PGSIZE with 4096.
  destruct (Z.eqb_spec pa 0); [lia|]; wp_steps; split_and!; auto.
  - apply empty_space; auto.
    + destruct Hk' as [K1 K2 K3 K4]; split; auto; [by apply mem_ok_memset|].
      apply (free_rep_only_page (k_mem s') _ pa); auto; [|apply Hpa].
      intros x Hx; simpl; rewrite rd_memset by lia; case_decide; [lia|done].
    + intros x Hx; simpl; rewrite rd_memset by lia; case_decide; [done|lia].
  - intros x Hx; simpl; rewrite rd_memset by lia; case_decide; [lia|by apply Ho].
Qed.

(** ** [freewalk] *)

(** A table of [n] levels at [p] without leaf mappings; [F] lists its pages in
    the order of their entries. *)
Fixpoint bare (n : nat) (m : mem) (p : Z) (F : list Z) : Prop :=
  match n with
  | O => False
  | S n => exists (D : Z -> option Z) (G : Z -> list Z),
      dir_rep m p D /\ F = p :: (zrange 0 512 ≫= G) /\
      (forall i q, 0 <= i < 512 -> D i = Some q -> page_ok q /\ bare n m q (G i)) /\
      (forall i, 0 <= i < 512 -> D i = None -> G i = [])
  end.

Lemma bare_frame n m m' p F X :
  bare n m p F -> same_except X m m' -> Forall page_ok X -> page_ok p ->
  (forall q, q ∈ F -> q ∉ X) -> bare n m' p F.
Proof.
  intros Hb Hs HX; revert p F Hb; induction n as [|n IH]; [done|].
  intros p F (D & G & HD & -> & Hsome & Hnone) Hp Hd; exists D, G; split_and!; auto.
  - intros i Hi; rewrite (same_except_rd64 X m m'); auto; apply Hd; by left.
  - intros i q Hi Hq; destruct (Hsome i q Hi Hq) as [Hqo Hb]; split; [done|].
    apply IH; auto; intros x Hx; apply Hd; right; apply list_elem_of_bind.
    exists i; split; [done|]; apply elem_of_zrange; lia.
Qed.

Lemma dir_pte_next q : page_ok q ->
  set (dir_pte (Some q)) PTE_V = true /\
  Z.land (dir_pte (Some q)) (Z.lor (Z.lor PTE_R PTE_W) PTE_X) = 0 /\ PTE2PA (dir_pte (Some q)) = q.
Proof.
  intros Hq; pose proof (page_ok_bounds _ Hq); split_and!.
  - apply set_lor_V.
  - rewrite land_flags by done.
    replace (dir_pte (Some q)) with (leaf_pte q 0) by (unfold leaf_pte; by rewrite Z.lor_0_r).
    rewrite leaf_pte_flags by lia; done.
  - apply page_ok_pte; done.
Qed.

Lemma kalloc_fill s l pa m' :
  kalloc_inv s l -> page_ok pa -> pa ∉ l -> mem_ok m' -> only_page pa (k_mem s) m' -> kalloc_inv (set_mem m' s) l.
Proof.
  intros [K1 K2 K3 K4] Hp Hn Hm Ho; split; auto; apply (free_rep_only_page (k_mem s) _ pa); auto; apply Hp.
Qed.

Lemma freewalk_spec n s free p F c :
  bare n (k_mem s) p F -> kalloc_inv s free -> NoDup (F ++ free) -> Forall page_ok F -> KMEM ∉ c_held c ->
  wp (freewalk n p) c s (fun _ c' s' => c' = c /\ exists free',
    kalloc_inv s' free' /\ free' ≡ₚ F ++ free /\ same_except F (k_mem s) (k_mem s')).
Proof.
  revert s free p F; induction n as [|n IH]; [done|].
  intros s free p F (D & G & HD & -> & Hsome & Hnone) Hk Hnd Hpg Hl; cbn [freewalk].
  set (Gs k := zrange 0 (Z.to_nat k) ≫= G).
  assert (HG : forall k, 0 <= k < 512 -> Gs (k + 1) = Gs k ++ G k /\ exists rest, zrange 0 512 ≫= G = Gs k ++ G k ++ rest).
  { intros k Hk'; unfold Gs; replace (Z.to_nat (k + 1)) with (Z.to_nat k + 1)%nat by lia.
    split; [rewrite zrange_app, bind_app; simpl; by rewrite app_nil_r, Z2Nat.id by lia|].
    eexists; rewrite (zrange_split 0 512 (Z.to_nat k)), bind_app by lia.
    rewrite bind_cons, Z2Nat.id by lia; done. }
  apply Forall_cons in Hpg as [Hp Hpg]; rewrite <- app_comm_cons in Hnd; apply NoDup_cons in Hnd as [Hpn Hnd].
  wp_step; change 512%nat with (Z.to_nat 512).
  apply (wp_for_range 512 _ (fun k c' s' => c' = c /\ exists fr, kalloc_inv s' fr /\ fr ≡ₚ Gs k ++ free /\
    same_except (p :: Gs k) (k_mem s) (k_mem s') /\
    forall i, k <= i < 512 -> rd64 (k_mem s') (p + 8 * i) = dir_pte (D i))); [lia| | |].
  - split; [done|]; exists free; split_and!; auto using same_except_refl.
  - intros k c' s' Hk' (-> & fr & Hfr & Hperm & Hs & Hrest).
    destruct (HG k Hk') as [-> [rest Hall]]; rewrite Hall in *.
    apply NoDup_app in Hnd as (Hnd & N3 & Nf); apply NoDup_app in Hnd as (Nk & N1 & Hnd).
    apply NoDup_app in Hnd as (Ni & _ & _); apply Forall_app in Hpg as [Hpk Hpg]; apply Forall_app in Hpg as [Hpi _].
    unfold read_pte, write_pte, mod_mem; wp_steps; rewrite Hrest by lia.
    destruct (D k) as [q|] eqn:Eq.
    2:{ rewrite (Hnone k Hk' Eq), app_nil_r; cbn; wp_steps; split; [done|].
        exists fr; split_and!; auto; intros; apply Hrest; lia. }
    destruct (Hsome k q Hk' Eq) as [Hq Hb]; destruct (dir_pte_next q Hq) as (-> & -> & ->); cbn [andb].
    rewrite Z.eqb_refl; wp_step; eapply wp_mono.
    { apply (IH s' fr q (G k)); auto.
      - apply (bare_frame n (k_mem s) _ q _ (p :: Gs k)); auto.
        intros x Hx; rewrite elem_of_cons; intros [->|Hx']; [apply Hpn; elt|apply (N1 x Hx'); elt].
      - rewrite Hperm; apply NoDup_app; split_and!; [done| |rewrite <- Hperm; apply Hfr].
        intros x Hx; rewrite elem_of_app; intros [Hx'|Hx']; [apply (N1 x Hx'); elt|apply (N3 x); [elt|done]]. }
    intros _ c' s2 (-> & f2 & Hf2 & Hperm2 & Hs2); wp_steps; split; [done|]; exists f2.
    assert (Hpf : p ∉ f2) by (rewrite Hperm2, Hperm; rewrite !not_elem_of_app; rewrite !not_elem_of_app in Hpn; tauto).
    assert (Hw : only_page p (k_mem s2) (wr64 (k_mem s2) (p + 8 * k) 0)).
    { intros x Hx; apply rd_wr64_out; lia. }
    split_and!.
    + apply (kalloc_fill s2 f2 p); auto; apply mem_ok_wr64, Hf2.
    + rewrite Hperm2, Hperm, !app_assoc; by rewrite (Permutation_app_comm (G k)).
    + apply (same_except_trans _ _ (k_mem s')); [by eapply same_except_mono; [|exact Hs]; intros x; elt|].
      apply (same_except_trans _ _ (k_mem s2)); [by eapply same_except_mono; [|exact Hs2]; intros x; elt|].
      intros x Hx; apply Hw; destruct (Hx p); [by left|lia|lia].
    + intros i Hi; cbn; rewrite rd64_wr64_ne by lia; rewrite <- Hrest by lia.
      apply (same_except_rd64 (G k)); auto; [|lia]; intros Hx; apply Hpn; elt.
  - intros c' s' (-> & fr & Hfr & Hperm & Hs & _); change (Gs 512) with (zrange 0 512 ≫= G) in *.
    assert (Hpf : p ∉ fr) by (by rewrite Hperm).
    eapply wp_mono; [by apply (kfree_spec p fr)|]; intros _ c' s2 (-> & K & Ho); split; [done|].
    exists (p :: fr); split_and!; [done|by rewrite Hperm|].
    apply (same_except_trans _ _ (k_mem s')); [done|]; intros x Hx; apply Ho; destruct (Hx p); [by left|lia|lia].
Qed.

(** The pages of a table in the order [freewalk] meets them. *)
Definition l0_list (t : ptree) (i j : Z) : list Z := match pt_l0 t !! (i, j) with Some q => [q] | None => [] end.
Definition l1_list (t : ptree) (i : Z) : list Z :=
  match pt_l1 t !! i with Some q => q :: (zrange 0 512 ≫= l0_list t i) | None => [] end.
Definition tbl_list (t : ptree) : list Z := pt_root t :: (zrange 0 512 ≫= l1_list t).

Lemma elem_of_l0_list t i j q : q ∈ l0_list t i j <-> pt_l0 t !! (i, j) = Some q.
Proof.
  unfold l0_list; destruct (pt_l0 t !! (i, j)); rewrite ?list_elem_of_singleton, ?elem_of_nil;
    split; intros; by simplify_eq.
Qed.

Lemma elem_of_l1_list m t i q : pt_rep m t ->
  q ∈ l1_list t i <-> pt_l1 t !! i = Some q \/ exists j, pt_l0 t !! (i, j) = Some q.
Proof.
  intros [_ _ H0 _ Hd0]; unfold l1_list; destruct (pt_l1 t !! i) as [p|] eqn:E.
  - rewrite elem_of_cons, list_elem_of_bind; split.
    + intros [->|(j & Hj & _)]; [by left|right; exists j; by apply elem_of_l0_list].
    + intros [[= ->]|(j & Hj)]; [by left|right; exists j; split; [by apply elem_of_l0_list|]].
      apply elem_of_zrange; pose proof (Hd0 _ _ _ Hj); lia.
  - rewrite elem_of_nil; split; [done|]; intros [?|(j & Hj)]; [done|].
    apply H0 in Hj as [? ?]; congruence.
Qed.

Lemma elem_of_tbl_list m t q : pt_rep m t -> q ∈ tbl_list t <-> q ∈ pt_pages t.
Proof.
  intros Hr; unfold tbl_list, pt_pages.
  rewrite !elem_of_cons, elem_of_app, list_elem_of_bind, !list_elem_of_fmap.
  setoid_rewrite (elem_of_l1_list m t _ _ Hr); split.
  - intros [->|(i & [Hi|[j Hj]] & _)]; [by left|right; left; exists (i, q)|right; right; exists (i, j, q)];
      by rewrite elem_of_map_to_list.
  - intros [->|[([i q'] & -> & Hi)|([[i j] q'] & -> & Hj)]]; [by left|right|right]; exists i;
      rewrite elem_of_map_to_list in *; split; eauto; apply elem_of_zrange.
    + pose proof (pr_dom1 _ _ Hr _ _ Hi); lia.
    + destruct (pr_l0 _ _ Hr _ _ _ Hj) as [p Hp]; pose proof (pr_dom1 _ _ Hr _ _ Hp); lia.
Qed.

Lemma NoDup_tbl_list m t : pt_rep m t -> NoDup (pt_pages t) -> NoDup (tbl_list t).
Proof.
  intros Hr Hn; destruct (pages_distinct t Hn) as (D1 & D0 & D10); destruct (pages_inj t Hn) as [I1 I0].
  apply NoDup_cons; split.
  - rewrite list_elem_of_bind; intros (i & Hi & _); apply (elem_of_l1_list m) in Hi as [Hi|[j Hj]]; auto.
    + by eapply D1.
    + by eapply D0.
  - apply NoDup_bind; [| |apply NoDup_zrange].
    + intros i i' q _ _ Hi Hi'; apply (elem_of_l1_list m) in Hi; apply (elem_of_l1_list m) in Hi'; auto.
      destruct Hi as [Hi|[j Hj]], Hi' as [Hi'|[j' Hj']]; [by eapply I1|by edestruct D10|by edestruct D10|].
      by injection (I0 _ _ _ Hj Hj').
    + intros i _; unfold l1_list; destruct (pt_l1 t !! i) as [p|] eqn:E; [|by apply NoDup_nil_2].
      apply NoDup_cons; split.
      * rewrite list_elem_of_bind; intros (j & Hj & _); apply elem_of_l0_list in Hj; by edestruct D10.
      * apply NoDup_bind; [| |apply NoDup_zrange].
        -- intros j j' q _ _ Hj Hj'; apply elem_of_l0_list in Hj, Hj'; by injection (I0 _ _ _ Hj Hj').
        -- intros j _; unfold l0_list; destruct (pt_l0 t !! _); [apply NoDup_singleton|apply NoDup_nil_2].
Qed.

Lemma bind_empty {A} (l : list A) : (l ≫= fun _ => @nil Z) = [].
Proof. by induction l. Qed.

Lemma bare_table m t :
  pt_rep m t -> Forall page_ok (pt_pages t) -> (forall va, 0 <= va < MAXVA -> pte_of m t va = 0) ->
  bare 3 m (pt_root t) (tbl_list t).
Proof.
  intros Hr Hpg Hz; rewrite Forall_forall in Hpg.
  exists (fun i => pt_l1 t !! i), (l1_list t); split_and!; [apply Hr|done| |].
  2:{ intros i _ E; unfold l1_list; by rewrite E. }
  intros i p Hi Hp; split; [by eapply Hpg, pages_l1|].
  exists (fun j => pt_l0 t !! (i, j)), (l0_list t i); split_and!; [by apply Hr|unfold l1_list; by rewrite Hp| |].
  2:{ intros j _ E; unfold l0_list; by rewrite E. }
  intros j q Hj Hq; split; [by eapply Hpg, pages_l0|].
  exists (fun _ => None), (fun _ => []); split_and!; try done; unfold l0_list; rewrite ?Hq; [|by rewrite bind_empty].
  intros k Hk; destruct (PX_surj i j k) as (Hva & E2 & E1 & E0); auto; [by eapply pr_dom1|].
  specialize (Hz _ Hva); unfold pte_of, leaf_page in Hz; by rewrite E2, E1, E0, Hq in Hz.
Qed.

Lemma uvmfree_spec s free t U sz c :
  uspace s free t U -> KMEM ∉ c_held c -> 0 <= sz <= ulimit * 4096 ->
  (forall v, pgup sz <= v -> U !! v = None) ->
  (forall va, ulimit * 4096 <= va < MAXVA -> pte_of (k_mem s) t va = 0) ->
  wp (uvmfree (pt_root t) sz) c s (fun _ c' s' => c' = c /\ exists free',
    kalloc_inv s' free' /\ free' ≡ₚ pt_pages t ++ upages U ++ free /\
    same_except (pt_pages t ++ upages U) (k_mem s) (k_mem s')).
Proof.
  intros Hu Hk Hsz Htop Hhigh; unfold uvmfree; change PGSIZE with 4096; rewrite ulimit_eq in Hsz.
  pose proof (pgup_bounds sz ltac:(lia)) as Hpg; assert (HU : unmap_range U 0 (pgup sz) = ∅).
  { apply map_eq; intros v; rewrite lookup_unmap_range, lookup_empty; case_decide; [done|].
    destruct (decide (pgup sz <= v)); [by apply Htop|]; destruct (U !! v) as [[pa pm]|] eqn:E; [|done].
    apply (us_dom _ _ _ _ Hu) in E as [? _]; lia. }
  wp_step; apply (wp_mono _ _ _ (fun _ c' s' => c' = c /\ exists freed, unmapped_by s s' free t U ∅ freed)).
  { rewrite <- HU; destruct (Z.ltb_spec 0 sz).
    - rewrite PGROUNDUP_pgup, Z.div_mul by lia; apply (uvmunmap_spec (pgup sz) s free t U 0); auto;
        rewrite ?ulimit_eq; lia.
    - wp_steps; split; [done|]; exists []; replace (pgup sz) with 0 by lia.
      rewrite unmap_range_nil; by apply unmapped_by_refl. }
  intros _ c' s1 (-> & freed & [Hu1 Hp1 Hm1 Hh1]); pose proof (us_inv _ _ _ _ Hu1) as Hv1.
  pose proof (vi_rep _ _ _ Hv1) as Hr1; rewrite app_nil_r in Hp1.
  assert (Hperm : tbl_list t ≡ₚ pt_pages t).
  { apply NoDup_Permutation; [| |intros q; by eapply elem_of_tbl_list].
    - eapply NoDup_tbl_list; [exact Hr1|]; pose proof (vi_nodup _ _ _ Hv1) as Hn; by apply NoDup_app in Hn as [? _].
    - pose proof (vi_nodup _ _ _ Hv1) as Hn; by apply NoDup_app in Hn as [? _]. }
  eapply wp_mono; [apply (freewalk_spec 3 s1 (freed ++ free) (pt_root t) (tbl_list t)); auto|].
  - apply bare_table; [done|apply Hv1|]; intros va Hva.
    destruct (decide (ulimit * 4096 <= va)); [rewrite Hh1 by lia; apply Hhigh; lia|].
    rewrite (us_pte_va _ _ _ _ _ Hu1), lookup_empty; [done|].
    split; [apply Z.div_pos; lia|apply Z.div_lt_upper_bound; lia].
  - apply Hv1.
  - rewrite Hperm; apply Hv1.
  - rewrite Hperm; apply Hv1.
  - intros _ c' s2 (-> & f2 & Hk2 & Hp2 & Hm2); split; [done|]; exists f2; split_and!; [done|by rewrite Hp2, Hperm, Hp1|].
    apply (same_except_trans _ _ (k_mem s1)).
    + eapply same_except_mono; [|exact Hm1]; intros q; rewrite Hp1; elt.
    + eapply same_except_mono; [|exact Hm2]; intros q; rewrite Hperm; elt.
Qed.

(** C16. No page is leaked.  When the trampoline and the trap frame have been
    unmapped and no page is mapped at or above [sz], [uvmfree] gives back every
    page of the address space, the data pages as well as the pages of the table
    itself, without a panic; it writes only pages it frees. *)
Theorem uvmfree_frees_all s free t U sz c :
  uspace s free t U -> KMEM ∉ c_held c -> 0 <= sz <= ulimit * 4096 ->
  (forall v, pgup sz <= v -> U !! v = None) ->
  (forall va, ulimit * 4096 <= va < MAXVA -> pte_of (k_mem s) t va = 0) ->
  wp (uvmfree (pt_root t) sz) c s (fun _ c' s' => c' = c /\ exists free',
    kalloc_inv s' free' /\ free' ≡ₚ pt_pages t ++ upages U ++ free /\
    same_except (pt_pages t ++ upages U) (k_mem s) (k_mem s')).
Proof. apply uvmfree_spec. Qed.

(** ** Copies between the kernel and user memory *)

Lemma copyout_spec p s free t U dstva src c :
  uspace s free t U -> KMEM ∉ c_held c -> 0 <= dstva < 2 ^ 64 -> Forall byte_ok src ->
  up_pagetable p = pt_root t -> up_sz p <= ulimit * 4096 ->
  wp (copyout p (pt_root t) dstva src) c s (fun r c' s' => c' = c /\ copyout_post p s free t U dstva src r s').
Proof.
  intros; apply copyout_loop_spec; auto; pose proof (Z.mod_pos_bound dstva 4096 ltac:(lia)).
  pose proof (Nat.div_mod (length src) 4096 ltac:(lia)); pose proof (Nat.mod_upper_bound (length src) 4096 ltac:(lia)); lia.
Qed.

Lemma copyin_spec p s free t U srcva len c :
  uspace s free t U -> KMEM ∉ c_held c -> 0 <= srcva < 2 ^ 64 -> 0 <= len ->
  up_pagetable p = pt_root t -> up_sz p <= ulimit * 4096 ->
  wp (copyin p (pt_root t) srcva len) c s (fun r c' s' =>
    c' = c /\ exists free' t' U', lazy_ext s s' free free' t t' U U' (up_sz p) /\
    ((r = (0, map (uview (k_mem s) U) (zrange srcva (Z.to_nat len))) /\
      forall va, srcva <= va < srcva + len -> readable U (up_sz p) (va / 4096)) \/
     (r.1 = -1 /\ exists va, srcva <= va < srcva + len /\
        (~ readable U (up_sz p) (va / 4096) \/ (U !! (va / 4096) = None /\ (length free' <= 1)%nat))))).
Proof.
  intros; apply copyin_loop_spec; auto; change PGSIZE with 4096.
  pose proof (Z.mod_pos_bound srcva 4096 ltac:(lia)); pose proof (Z.div_mod len 4096 ltac:(lia)).
  pose proof (Z.mod_pos_bound len 4096 ltac:(lia)); pose proof (Z.div_pos len 4096); lia.
Qed.

(** C17. [copyout] with any user pointer is safe.  It writes user memory only at
    [dstva, dstva + len), only the bytes of [src], and only pages of this
    address space; the rest of what the user sees is unchanged, pages faulted in
    on the way start as zeros, no page is lost, and every other page of memory
    is untouched.  When it returns -1, some address in the range was not
    writable by the user or memory ran out. *)
Theorem copyout_safe p s free t U dstva src c :
  uspace s free t U -> KMEM ∉ c_held c -> 0 <= dstva < 2 ^ 64 -> Forall byte_ok src ->
  up_pagetable p = pt_root t -> up_sz p <= ulimit * 4096 ->
  wp (copyout p (pt_root t) dstva src) c s (fun r c' s' =>
    c' = c /\ exists free' t' U' sent,
    uspace s' free' t' U' /\ pt_pages t' ++ upages U' ++ free' ≡ₚ pt_pages t ++ upages U ++ free /\
    (forall va, uview (k_mem s') U' va =
       if decide (dstva <= va < dstva + Z.of_nat (length sent)) then aget 0 sent (va - dstva)
       else uview (k_mem s) U va) /\
    same_except (pt_pages t ++ upages U ++ free) (k_mem s) (k_mem s') /\
    ((r = 0 /\ sent = src) \/
     (r = -1 /\ sent = take (length sent) src /\
      exists va, dstva <= va < dstva + Z.of_nat (length src) /\
        (~ writable U (up_sz p) (va / 4096) \/ (U !! (va / 4096) = None /\ (length free' <= 1)%nat))))).
Proof.
  intros; eapply wp_mono; [by apply copyout_spec|].
  intros r c' s' (-> & f' & t' & U' & sent & [C1 C2 C3 C4 C5 C6 C7] & Hr); split; [done|].
  by exists f', t', U', sent.
Qed.

(** C18. Round trip.  What [copyout] stores in mapped, user-writable memory,
    [copyin] reads back; neither fails, and both leave the kernel's page
    accounting as it was. *)
Theorem copyout_copyin_roundtrip p s free t U va src c :
  uspace s free t U -> KMEM ∉ c_held c -> 0 <= va < 2 ^ 64 -> Forall byte_ok src ->
  up_pagetable p = pt_root t -> up_sz p <= ulimit * 4096 ->
  (forall a, va <= a < va + Z.of_nat (length src) -> exists pa perm,
     U !! (a / 4096) = Some (pa, perm) /\ set perm PTE_U = true /\ set perm PTE_W = true) ->
  wp (let! r1 := copyout p (pt_root t) va src in
      let! r2 := copyin p (pt_root t) va (Z.of_nat (length src)) in ret (r1, r2)) c s
    (fun r c' s' => c' = c /\ r = (0, (0, src)) /\ exists free' t' U', uspace s' free' t' U' /\
      pt_pages t' ++ upages U' ++ free' ≡ₚ pt_pages t ++ upages U ++ free).
Proof.
  intros Hu Hk Hva Hb Hpt Hsz Hmap; wp_step; eapply wp_mono; [by apply (copyout_spec p s free t U)|].
  intros r1 c' s1 (-> & f1 & t1 & U1 & sent & Hc & [[-> ->]|(_ & _ & a & Ha & Hbad)]); cbv beta.
  2:{ destruct (Hmap a Ha) as (pa & perm & E & Eu & Ew); exfalso; unfold writable in Hbad; rewrite E in Hbad.
      destruct Hbad as [Hn|[? _]]; [by apply Hn|done]. }
  rewrite <- (co_root _ _ _ _ _ _ _ _ _ _ _ Hc); wp_step; eapply wp_mono.
  { apply (copyin_spec p s1 f1 t1 U1); auto; [apply Hc|lia|by rewrite Hpt, (co_root _ _ _ _ _ _ _ _ _ _ _ Hc)]. }
  intros r2 c' s2 (-> & f2 & t2 & U2 & Hl & [[-> _]|(_ & a & Ha & Hbad)]).
  2:{ destruct (Hmap a Ha) as (pa & perm & E & Eu & Ew); exfalso; apply (co_old _ _ _ _ _ _ _ _ _ _ _ Hc) in E.
      unfold readable in Hbad; rewrite E in Hbad; destruct Hbad as [Hn|[? _]]; [by apply Hn|done]. }
  wp_steps; split_and!; [done| |].
  - do 2 f_equal; rewrite Nat2Z.id; apply list_eq; intros i; rewrite list_lookup_fmap.
    destruct (decide (i < length src)%nat) as [Hi|Hi].
    + rewrite lookup_zrange by done; cbn; rewrite (co_view _ _ _ _ _ _ _ _ _ _ _ Hc), decide_True by lia.
      unfold aget; replace (va + Z.of_nat i - va) with (Z.of_nat i) by lia; rewrite Nat2Z.id.
      rewrite nth_lookup; by destruct (lookup_lt_is_Some_2 src i Hi) as [x ->].
    + rewrite !lookup_ge_None_2; rewrite ?length_zrange; auto with lia.
  - exists f2, t2, U2; split; [apply Hl|]; rewrite (lz_pages _ _ _ _ _ _ _ _ _ Hl); apply Hc.
Qed.

(** An address space of one page at address 0. *)
Definition one_page (r a b : Z) : ptree := PTree r {[0 := a]} {[(0, 0) := b]}.

Lemma one_page_space s free r a b pa perm :
  kalloc_inv s free -> Forall page_ok [r; a; b; pa] -> NoDup ([r; a; b; pa] ++ free) -> 0 <= perm < 1024 ->
  (forall i, 0 <= i < 512 -> rd64 (k_mem s) (r + 8 * i) = (if i =? 0 then dir_pte (Some a) else 0) /\
     rd64 (k_mem s) (a + 8 * i) = (if i =? 0 then dir_pte (Some b) else 0) /\
     rd64 (k_mem s) (b + 8 * i) = (if i =? 0 then leaf_pte pa perm else 0)) ->
  uspace s free (one_page r a b) {[0 := (pa, perm)]}.
Proof.
  intros Hk Hpg Hn Hperm Hm.
  assert (Hpages : pt_pages (one_page r a b) = [r; a; b]).
  { unfold pt_pages, one_page; cbn [pt_root pt_l1 pt_l0]; by rewrite !map_to_list_singleton. }
  assert (Hup : upages {[0 := (pa, perm)]} = [pa]) by (unfold upages; by rewrite map_to_list_singleton).
  assert (Hpte : forall va, 0 <= va < MAXVA ->
    pte_of (k_mem s) (one_page r a b) va = if va / 4096 =? 0 then leaf_pte pa perm else 0).
  { intros va Hva; unfold pte_of, leaf_page, one_page; cbn [pt_l0].
    destruct (Z.eqb_spec (va / 4096) 0) as [E|Hne].
    - rewrite !(PX_page _ va 0) by (try done; lia); change ((PX 2 0, PX 1 0)) with (0, 0); rewrite lookup_singleton_eq.
      rewrite (proj2 (proj2 (Hm (PX 0 0) (PX_range 0 0)))); done.
    - destruct (decide ((0, 0) = (PX 2 va, PX 1 va))) as [E|]; [|by rewrite lookup_singleton_ne].
      rewrite <- E, lookup_singleton_eq; rewrite (proj2 (proj2 (Hm (PX 0 va) (PX_range 0 va)))).
      destruct (Z.eqb_spec (PX 0 va) 0) as [E0|]; [|done].
      destruct Hne; injection E as E2 E1; apply (PX_inj va 0); auto; change MAXVA with (2 ^ 38); lia. }
  split.
  - split; auto; rewrite ?Hpages; [split; cbn [one_page pt_root pt_l1 pt_l0]|..].
    + intros i Hi; rewrite (proj1 (Hm i Hi)); destruct (Z.eqb_spec i 0) as [->|];
        [by rewrite lookup_singleton_eq|by rewrite lookup_singleton_ne].
    + intros i p; rewrite lookup_singleton_Some; intros [<- <-] j Hj; rewrite (proj1 (proj2 (Hm j Hj))).
      destruct (Z.eqb_spec j 0) as [->|]; [by rewrite lookup_singleton_eq|by rewrite lookup_singleton_ne by congruence].
    + intros i j p; rewrite lookup_singleton_Some; intros [[= <- <-] _]; by rewrite lookup_singleton_eq.
    + intros i p; rewrite lookup_singleton_Some; intros [<- _]; lia.
    + intros i j p; rewrite lookup_singleton_Some; intros [[= <- <-] _]; lia.
    + apply (sublist_NoDup _ ([r; a; b; pa] ++ free)); auto; simpl; by repeat constructor.
    + by apply (Forall_app _ [r; a; b] [pa]) in Hpg as [? _].
  - intros v Hv; destruct (vpn_va v Hv) as [Hva Hvd]; rewrite Hpte, Hvd by done.
    destruct (Z.eqb_spec v 0) as [->|]; [by rewrite lookup_singleton_eq|by rewrite lookup_singleton_ne].
  - intros va Hva; rewrite Hpte by (rewrite ulimit_eq in Hva; lia).
    destruct (Z.eqb_spec (va / 4096) 0) as [E|]; [|done].
    rewrite ulimit_eq in Hva; pose proof (Z.div_mod va 4096 ltac:(lia)); pose proof (Z.mod_pos_bound va 4096 ltac:(lia)); lia.
  - intros v p pm; rewrite lookup_singleton_Some; intros [<- [= <- <-]].
    rewrite !Forall_cons in Hpg; rewrite ulimit_eq; split_and!; lia || apply Hpg.
  - by rewrite Hpages, Hup.
Qed.
End userlife.

(** ** A machine with ten pages: one process of one page, and room to grow *)

Definition small_layout : KernelLayout.
Proof.
  refine {| kend := PHYSTOP - 10 * 4096 - 100; etext := KERNBASE + 4096 * 2; trampoline := KERNBASE + 4096 |};
    unfold PHYSTOP, KERNBASE, PGSIZE; first [lia | reflexivity].
Defined.

Definition page (i : Z) : Z := PHYSTOP - 4096 * i.
Definition chain (l : list Z) : mem := foldr (fun i m => wr64 m (page i) (page (i + 1))) ∅ l.
Definition parent : ptree := one_page (page 9) (page 8) (page 7).
Definition parent_map : umap := {[0 := (page 6, FAULT_PERM)]}.
Definition machine : kmem :=
  Kmem (wr64 (wr64 (wr64 (chain [1; 2; 3]) (page 9) (dir_pte (Some (page 8)))) (page 8) (dir_pte (Some (page 7))))
         (page 7) (leaf_pte (page 6) FAULT_PERM)) (page 1).
Definition machine_free : list Z := map page [1; 2; 3; 4].

Lemma machine_kalloc : kalloc_inv (L := small_layout) machine machine_free.
Proof.
  split.
  - repeat apply mem_ok_wr64; apply mem_ok_empty.
  - vm_compute; auto 10.
  - by apply (bool_decide_unpack _); vm_compute.
  - repeat constructor; by vm_compute.
Qed.

Lemma machine_space : uspace (L := small_layout) machine machine_free parent parent_map.
Proof.
  apply one_page_space.
  - apply machine_kalloc.
  - repeat constructor; by vm_compute.
  - by apply (bool_decide_unpack _); vm_compute.
  - by vm_compute.
  - assert (H : forallb (fun i =>
       (rd64 (k_mem machine) (page 9 + 8 * i) =? (if i =? 0 then dir_pte (Some (page 8)) else 0)) &&
       ((rd64 (k_mem machine) (page 8 + 8 * i) =? (if i =? 0 then dir_pte (Some (page 7)) else 0)) &&
        (rd64 (k_mem machine) (page 7 + 8 * i) =? (if i =? 0 then leaf_pte (page 6) FAULT_PERM else 0))))
       (zrange 0 512) = true) by (by vm_compute).
    rewrite forallb_forall in H; intros i Hi.
    assert (Hin : i ∈ zrange 0 512) by (apply elem_of_zrange; lia).
    apply list_elem_of_In, H in Hin; rewrite !andb_true_iff, !Z.eqb_eq in Hin; tauto.
Qed.

(** The same machine with an empty address space at page 5. *)
Definition child : ptree := PTree (page 5) ∅ ∅.

Lemma machine_fork : two_spaces (L := small_layout) machine machine_free parent parent_map child ∅.
Proof.
  split; [apply machine_space|apply empty_space; [apply machine_kalloc|by vm_compute|..]|].
  - by apply (bool_decide_unpack _); vm_compute.
  - intros x Hx; unfold machine, chain; cbn [k_mem foldr]; rewrite !rd_wr64_out; [done|..]; unfold page in *; lia.
  - by apply (bool_decide_unpack _); vm_compute.
Qed.

Lemma idle_kmem : KMEM ∉ c_held idle.
Proof. apply not_elem_of_nil. Qed.

Lemma uvmalloc_all_or_nothing_witness :
  wp (uvmalloc (L := small_layout) (pt_root parent) 4096 8192 PTE_W) idle machine (fun r c' s' => c' = idle /\
    exists free' t' U',
    grow_ext (L := small_layout) machine s' machine_free free' parent t' parent_map U' /\
    ((r = 8192 /\ grown parent_map U' (pgup 4096) (pgup 8192) (Z.lor (Z.lor PTE_R PTE_U) PTE_W)) \/
     (r = 0 /\ U' = parent_map /\ pt_pages t' ++ free' ≡ₚ pt_pages parent ++ machine_free))).
Proof.
  apply (uvmalloc_all_or_nothing (L := small_layout) machine machine_free parent parent_map 4096 8192 PTE_W).
  - apply machine_space.
  - apply idle_kmem.
  - lia.
  - rewrite ulimit_eq; lia.
  - by vm_compute.
  - intros w Hw; change (1 <= w < 2) in Hw; apply lookup_singleton_ne; lia.
Defined.

Lemma uvmcopy_copies_witness :
  wp (uvmcopy (L := small_layout) (pt_root parent) (pt_root child) 4096) idle machine (fun r c' s' =>
    c' = idle /\ exists free' tn' Un', two_spaces (L := small_layout) s' free' parent parent_map tn' Un').
Proof.
  eapply wp_mono; [apply (uvmcopy_copies (L := small_layout) machine machine_free parent parent_map child 4096)|].
  - apply machine_fork.
  - apply idle_kmem.
  - rewrite ulimit_eq; lia.
  - intros r c' s' (-> & f' & tn' & Un' & H & _); split; [done|]; by exists f', tn', Un'.
Defined.

Lemma uvmfree_frees_all_witness :
  wp (uvmfree (L := small_layout) (pt_root parent) 4096) idle machine (fun _ c' s' =>
    c' = idle /\ exists free', kalloc_inv (L := small_layout) s' free' /\
    free' ≡ₚ pt_pages parent ++ upages parent_map ++ machine_free).
Proof.
  eapply wp_mono; [apply (uvmfree_frees_all (L := small_layout) machine machine_free parent parent_map 4096)|].
  - apply machine_space.
  - apply idle_kmem.
  - rewrite ulimit_eq; lia.
  - intros v Hv; change (1 <= v) in Hv; apply lookup_singleton_ne; lia.
  - intros va Hva; rewrite ulimit_eq in Hva; unfold pte_of, leaf_page, parent, one_page; cbn [pt_l0].
    rewrite lookup_singleton_ne; [done|]; intros [= E _]; change MAXVA with (2 ^ 38) in Hva.
    rewrite PX_eq in E by lia; change (2 ^ (12 + 9 * 2)) with (2 ^ 30) in E.
    pose proof (Z.div_le_lower_bound va (2 ^ 30) 255 ltac:(lia) ltac:(lia)).
    pose proof (Z.div_lt_upper_bound va (2 ^ 30) 256 ltac:(lia) ltac:(lia)); rewrite Z.mod_small in E; lia.
  - intros _ c' s' (-> & f' & Hk & Hp & _); split; [done|]; by exists f'.
Defined.

Definition user_proc : uproc := {| up_sz := 4096; up_pagetable := pt_root parent |}.

Lemma copyout_safe_witness :
  wp (copyout (L := small_layout) user_proc (pt_root parent) 4090 [1; 2; 3; 4; 5; 6; 7; 8]) idle machine
    (fun r c' s' => c' = idle /\ (r = 0 \/ r = -1)).
Proof.
  eapply wp_mono; [apply (copyout_safe (L := small_layout) user_proc machine machine_free parent parent_map)|].
  - apply machine_space.
  - apply idle_kmem.
  - lia.
  - repeat constructor; lia.
  - done.
  - rewrite ulimit_eq; cbn; lia.
  - intros r c' s' (-> & f' & t' & U' & sent & _ & _ & _ & _ & [[-> _]|[-> _]]); auto.
Defined.

Lemma copyout_copyin_roundtrip_witness :
  wp (let! r1 := copyout (L := small_layout) user_proc (pt_root parent) 10 [104; 105; 0] in
      let! r2 := copyin (L := small_layout) user_proc (pt_root parent) 10 3 in ret (r1, r2)) idle machine
    (fun r c' s' => r = (0, (0, [104; 105; 0]))).
Proof.
  eapply wp_mono; [apply (copyout_copyin_roundtrip (L := small_layout) user_proc machine machine_free parent parent_map 10 [104; 105; 0])|].
  - apply machine_space.
  - apply idle_kmem.
  - lia.
  - repeat constructor; lia.
  - done.
  - rewrite ulimit_eq; cbn; lia.
  - intros a Ha; change (10 <= a < 13) in Ha; rewrite Z.div_small by lia.
    exists (page 6), FAULT_PERM; split_and!; [apply lookup_singleton_eq|done|done].
  - by intros r c' s' (_ & -> & _).
Defined.
