(* ===== verification/CString.v ===== *)
(** * C strings, [kernel/string.c]

    A list of bytes stands for what a [char *] points to: the bytes up to the end
    of the object, followed by a null byte.  [*p] is [hd0 p] and [p + 1] is [tl
    p].  A routine that stops at a null byte or after [n] bytes reads nothing
    beyond it. *)

From S2P Require Import Prelude.

Definition hd0 (p : list Z) : Z := hd 0 p.

(** The characters of a string: the bytes before the first null byte. *)
Fixpoint cstr (p : list Z) : list Z :=
  match p with
  | [] => []
  | c :: p => if c =? 0 then [] else c :: cstr p
  end.

Fixpoint memcmp (s1 s2 : list Z) (n : nat) : Z :=
  match n with
  | O => 0
  | S n => if negb (hd0 s1 =? hd0 s2) then hd0 s1 - hd0 s2 else memcmp (tl s1) (tl s2) n
  end.

Fixpoint strncmp (p q : list Z) (n : nat) : Z :=
  match n with
  | O => 0
  | S n =>
      if negb (hd0 p =? 0) && (hd0 p =? hd0 q) then strncmp (tl p) (tl q) n
      else u8 (hd0 p) - u8 (hd0 q)
  end.

(** The bytes [strncpy] stores at [s]. *)
Fixpoint strncpy (t : list Z) (n : nat) : list Z :=
  match n with
  | O => []
  | S n => if hd0 t =? 0 then replicate (S n) 0 else hd0 t :: strncpy (tl t) n
  end.

(** The bytes [safestrcpy] stores at [s]; the loop runs at most [n - 1] times. *)
Fixpoint safestrcpy_loop (t : list Z) (n : nat) : list Z :=
  match n with
  | O => [0]
  | S n => if hd0 t =? 0 then [0; 0] else hd0 t :: safestrcpy_loop (tl t) n
  end.

Definition safestrcpy (t : list Z) (n : Z) : list Z :=
  if n <=? 0 then [] else safestrcpy_loop t (Z.to_nat (n - 1)).

Fixpoint strlen (s : list Z) : Z :=
  match s with
  | [] => 0
  | c :: s => if c =? 0 then 0 else 1 + strlen s
  end.

(** ** Lemmas *)

Lemma hd_tl (p : list Z) : hd0 p <> 0 -> p = hd0 p :: tl p.
Proof. by destruct p. Qed.

Lemma cstr_step p : cstr p = if hd0 p =? 0 then [] else hd0 p :: cstr (tl p).
Proof. by destruct p as [|c p]. Qed.

Lemma byte_hd p : Forall byte_ok p -> byte_ok (hd0 p).
Proof. destruct p as [|c p]; [intros _; unfold byte_ok; simpl; lia|]; by inversion 1. Qed.

Lemma byte_tl p : Forall byte_ok p -> Forall byte_ok (tl p).
Proof. destruct p as [|c p]; [done|]; by inversion 1. Qed.

Lemma cstr_nonzero p : Forall (fun c => c <> 0) (cstr p).
Proof. induction p as [|c p IH]; simpl; [done|]; destruct (Z.eqb_spec c 0); auto. Qed.

Lemma cstr_id p : Forall (fun c => c <> 0) p -> cstr p = p.
Proof.
  induction p as [|c p IH]; simpl; [done|]; intros [Hc Hp]%Forall_cons.
  destruct (Z.eqb_spec c 0); [done|]; by rewrite IH.
Qed.

Lemma strlen_cstr s : strlen s = Z.of_nat (length (cstr s)).
Proof. induction s as [|c s IH]; simpl; [done|]; destruct (c =? 0); simpl; [done|lia]. Qed.

Lemma length_strncpy t n : length (strncpy t n) = n.
Proof.
  revert t; induction n as [|n IH]; intros t; simpl; [done|].
  destruct (hd0 t =? 0); simpl; [by rewrite length_replicate|by rewrite IH].
Qed.

Lemma strncpy_ok t n : Forall byte_ok t -> Forall byte_ok (strncpy t n).
Proof.
  revert t; induction n as [|n IH]; intros t Ht; cbn [strncpy]; [done|].
  destruct (hd0 t =? 0).
  - apply Forall_replicate; unfold byte_ok; lia.
  - apply Forall_cons; auto using byte_hd, byte_tl.
Qed.

Lemma cstr_replicate_0 n : cstr (replicate n 0) = [].
Proof. by destruct n. Qed.

Lemma cstr_strncpy t n : cstr (strncpy t n) = take n (cstr t).
Proof.
  revert t; induction n as [|n IH]; intros t; [done|]; cbn [strncpy]; rewrite (cstr_step t).
  destruct (hd0 t =? 0) eqn:E; [by rewrite cstr_replicate_0|]; cbn [cstr take]; by rewrite E, IH.
Qed.

Lemma strncmp_zero p q n :
  Forall byte_ok p -> Forall byte_ok q -> strncmp p q n = 0 <-> take n (cstr p) = take n (cstr q).
Proof.
  revert p q; induction n as [|n IH]; intros p q Hp Hq; [done|]; cbn [strncmp]; rewrite (cstr_step p), (cstr_step q).
  pose proof (byte_hd p Hp) as Hb; pose proof (byte_hd q Hq) as Hc; unfold byte_ok in *.
  destruct (Z.eqb_spec (hd0 p) 0) as [E|Hne]; cbn [negb andb].
  - rewrite !u8_small, E by lia; destruct (Z.eqb_spec (hd0 q) 0); cbn [take]; split; intros; auto; lia || done.
  - destruct (Z.eqb_spec (hd0 p) (hd0 q)) as [E|Hd].
    + rewrite <- E; destruct (Z.eqb_spec (hd0 p) 0); [done|]; cbn [take].
      rewrite IH by auto using byte_tl; split; [by intros ->|by intros [= ->]].
    + rewrite !u8_small by lia; destruct (Z.eqb_spec (hd0 q) 0); cbn [take]; split; intros; simplify_eq; lia.
Qed.

(** [strncmp] returns 0 exactly on strings that agree on their first [n]
    characters. *)
Theorem strncmp_zero_iff p q n :
  Forall byte_ok p -> Forall byte_ok q -> strncmp p q n = 0 <-> take n (cstr p) = take n (cstr q).
Proof. apply strncmp_zero. Qed.

(** [safestrcpy] into a buffer of [n] bytes writes at most [n] of them and
    leaves a null-terminated copy of the first [n - 1] characters. *)
Theorem safestrcpy_terminates t n :
  0 < n -> Z.of_nat (length (safestrcpy t n)) <= n /\ 0 ∈ safestrcpy t n /\
  cstr (safestrcpy t n) = take (Z.to_nat (n - 1)) (cstr t).
Proof.
  intros Hn; unfold safestrcpy; destruct (Z.leb_spec n 0); [lia|].
  assert (H1 : forall k u, (length (safestrcpy_loop u k) <= k + 1)%nat /\ 0 ∈ safestrcpy_loop u k /\
    cstr (safestrcpy_loop u k) = take k (cstr u)); [|specialize (H1 (Z.to_nat (n - 1)) t) as (?&?&?); split_and!; auto; lia].
  induction k as [|k IH]; intros u; cbn [safestrcpy_loop]; [split_and!; [done|by left|done]|].
  rewrite (cstr_step u); destruct (hd0 u =? 0) eqn:E; cbn [length cstr take].
  - split_and!; [lia|by left|done].
  - rewrite E; destruct (IH (tl u)) as (A & B & ->); split_and!; [lia|by right|done].
Qed.

Lemma strncmp_zero_iff_witness :
  strncmp [46; 46; 0; 7] [46; 46] 14 = 0 <-> take 14 (cstr [46; 46; 0; 7]) = take 14 (cstr [46; 46]).
Proof. apply (strncmp_zero_iff [46; 46; 0; 7] [46; 46] 14); repeat constructor; unfold byte_ok; lia. Defined.

Lemma safestrcpy_terminates_witness :
  Z.of_nat (length (safestrcpy [105; 110; 105; 116] 3)) <= 3 /\ 0 ∈ safestrcpy [105; 110; 105; 116] 3 /\
  cstr (safestrcpy [105; 110; 105; 116] 3) = take (Z.to_nat (3 - 1)) (cstr [105; 110; 105; 116]).
Proof. apply (safestrcpy_terminates [105; 110; 105; 116] 3); lia. Defined.
