(* ===== verification/Sleeplock.v ===== *)
(** * Sleep locks, [kernel/sleeplock.c]

    A sleep lock lives inside a larger object (a buffer, an inode).  The section
    takes the accessors of the lock inside the state it belongs to and the
    identity [lk] of the lock's own spinlock, which is also its wait channel. *)

From S2P Require Import Prelude KMonad.

Record sleeplock := SleepLock { sl_locked : bool; sl_pid : Z }.

(** [initsleeplock]. *)
Definition sl_init : sleeplock := SleepLock false 0.

Section sleeplock.
Context {S : Type} (sget : S -> sleeplock) (sput : sleeplock -> S -> S) (lk : lockid).

(** The loop re-tests [locked] after every [sleep]; a test that fails leaves the
    thread asleep on the lock. *)
Definition acquiresleep : M S unit :=
  do! acquire lk;
  let! l := gets sget in
  if sl_locked l then sleep (ChSleepLock lk) lk
  else
    let! pid := mypid in
    do! modify (sput (SleepLock true pid));
    release lk.

Definition releasesleep : M S unit :=
  do! acquire lk;
  do! modify (sput (SleepLock false 0));
  do! wakeup (ChSleepLock lk);
  release lk.

Definition holdingsleep : M S bool :=
  do! acquire lk;
  let! l := gets sget in
  let! pid := mypid in
  do! release lk;
  ret (sl_locked l && (sl_pid l =? pid)).

Lemma acquiresleep_spec c s :
  lk ∉ c_held c -> sl_locked (sget s) = false ->
  wp acquiresleep c s (fun _ c' s' => c' = c /\ s' = sput (SleepLock true (c_pid c)) s).
Proof.
  intros Hk Hl; unfold acquiresleep; wp_steps; rewrite Hl; wp_steps; by destruct c.
Qed.

Lemma releasesleep_spec c s :
  lk ∉ c_held c ->
  wp releasesleep c s (fun _ c' s' => c' = c /\ s' = sput (SleepLock false 0) s).
Proof. clear sget; intros Hk; unfold releasesleep; wp_steps; by destruct c. Qed.

Lemma holdingsleep_spec c s :
  lk ∉ c_held c ->
  wp holdingsleep c s (fun b c' s' =>
    c' = c /\ s' = s /\ b = sl_locked (sget s) && (sl_pid (sget s) =? c_pid c)).
Proof. intros Hk; unfold holdingsleep; wp_steps; by destruct c. Qed.

(** A thread that finds the lock taken goes to sleep on the lock's channel when
    it holds no spinlock, and panics in [sched] when it does. *)
Lemma acquiresleep_taken c s :
  lk ∉ c_held c -> sl_locked (sget s) = true ->
  acquiresleep c s =
  if bool_decide (c_held c = []) then Block (ChSleepLock lk) (Ctx (c_pid c) [lk]) s
  else Panic "sched locks".
Proof.
  intros Hk Hl; unfold acquiresleep, bind, acquire, gets, sleep, holding.
  rewrite bool_decide_eq_false_2 by done; rewrite Hl; simpl.
  rewrite (bool_decide_eq_true_2 (lk ∈ lk :: c_held c)) by (by left).
  destruct (c_held c) as [|x h] eqn:E; simpl.
  - by rewrite !bool_decide_eq_true_2.
  - by rewrite !bool_decide_eq_false_2 by congruence.
Qed.
End sleeplock.
