(* ===== verification/Bio.v ===== *)
(** * The disk and the buffer cache, [kernel/bio.c]

    [disk] is the block device as the driver presents it: a map from block number
    to contents.  [d_trace] records every image the disk has had since power-on,
    newest first, so that the states a crash can leave behind are the members of
    the trace and the current image.

    The cache is the array of [NBUF] buffers with the doubly linked LRU list
    through [prev] and [next]; node [NBUF] stands for [bcache.head].  A pointer to
    a buffer is its index. *)

From S2P Require Import Prelude KMonad Riscv Sleeplock.

Definition BSIZE : Z := 1024.

Abbreviation block := (list Z).
Abbreviation image := (gmap Z (list Z)).

Definition zero_block : block := replicate (Z.to_nat BSIZE) 0.

Record disk := Disk { d_blk : image; d_trace : list image }.

Definition img_read (i : image) (b : Z) : block := default zero_block (i !! b).
Definition dread (d : disk) (b : Z) : block := img_read (d_blk d) b.
Definition dwrite (d : disk) (b : Z) (v : block) : disk :=
  Disk (<[b := v]> (d_blk d)) (d_blk d :: d_trace d).

(** [struct buf] of [buf.h]. *)
Record buf := Buf {
  b_valid : bool;
  b_disk : bool;
  b_dev : Z;
  b_blockno : Z;
  b_lock : sleeplock;
  b_refcnt : Z;
  b_prev : Z;
  b_next : Z;
  b_data : block
}.

Definition buf0 : buf := Buf false false 0 0 sl_init 0 0 0 zero_block.

Record bio := Bio {
  bc_disk : disk;
  bc_buf : list buf;
  bc_head_prev : Z;
  bc_head_next : Z
}.

(** Field updates. *)
Definition set_valid (v : bool) (b : buf) : buf :=
  Buf v (b_disk b) (b_dev b) (b_blockno b) (b_lock b) (b_refcnt b) (b_prev b) (b_next b) (b_data b).
Definition set_bdisk (v : bool) (b : buf) : buf :=
  Buf (b_valid b) v (b_dev b) (b_blockno b) (b_lock b) (b_refcnt b) (b_prev b) (b_next b) (b_data b).
Definition set_ident (dev bno : Z) (b : buf) : buf :=
  Buf (b_valid b) (b_disk b) dev bno (b_lock b) (b_refcnt b) (b_prev b) (b_next b) (b_data b).
Definition set_lock (l : sleeplock) (b : buf) : buf :=
  Buf (b_valid b) (b_disk b) (b_dev b) (b_blockno b) l (b_refcnt b) (b_prev b) (b_next b) (b_data b).
Definition set_refcnt (r : Z) (b : buf) : buf :=
  Buf (b_valid b) (b_disk b) (b_dev b) (b_blockno b) (b_lock b) r (b_prev b) (b_next b) (b_data b).
Definition set_prev (p : Z) (b : buf) : buf :=
  Buf (b_valid b) (b_disk b) (b_dev b) (b_blockno b) (b_lock b) (b_refcnt b) p (b_next b) (b_data b).
Definition set_next (n : Z) (b : buf) : buf :=
  Buf (b_valid b) (b_disk b) (b_dev b) (b_blockno b) (b_lock b) (b_refcnt b) (b_prev b) n (b_data b).
Definition set_data (d : block) (b : buf) : buf :=
  Buf (b_valid b) (b_disk b) (b_dev b) (b_blockno b) (b_lock b) (b_refcnt b) (b_prev b) (b_next b) d.

Definition bufi (s : bio) (i : Z) : buf := aget buf0 (bc_buf s) i.
Definition upd (i : Z) (f : buf -> buf) (s : bio) : bio :=
  Bio (bc_disk s) (aset (bc_buf s) i (f (bufi s i))) (bc_head_prev s) (bc_head_next s).
Definition set_disk (d : disk) (s : bio) : bio :=
  Bio d (bc_buf s) (bc_head_prev s) (bc_head_next s).

(** The links of a node, [bcache.head] included. *)
Definition nxt (s : bio) (i : Z) : Z := if i =? NBUF then bc_head_next s else b_next (bufi s i).
Definition prv (s : bio) (i : Z) : Z := if i =? NBUF then bc_head_prev s else b_prev (bufi s i).
Definition put_next (i n : Z) (s : bio) : bio :=
  if i =? NBUF then Bio (bc_disk s) (bc_buf s) (bc_head_prev s) n else upd i (set_next n) s.
Definition put_prev (i p : Z) (s : bio) : bio :=
  if i =? NBUF then Bio (bc_disk s) (bc_buf s) p (bc_head_next s) else upd i (set_prev p) s.

Definition HEAD : Z := NBUF.

(** Put node [b] right behind the head. *)
Definition link_front (b : Z) (s : bio) : bio :=
  let s := put_next b (nxt s HEAD) s in
  let s := put_prev b HEAD s in
  let s := put_prev (nxt s HEAD) b s in
  put_next HEAD b s.

Definition binit_body (b : Z) (s : bio) : bio :=
  let s := put_next b (nxt s HEAD) s in
  let s := put_prev b HEAD s in
  let s := upd b (set_lock sl_init) s in
  let s := put_prev (nxt s HEAD) b s in
  put_next HEAD b s.

Definition binit : M bio unit :=
  do! modify (put_prev HEAD HEAD);
  do! modify (put_next HEAD HEAD);
  for_each (zrange 0 (Z.to_nat NBUF)) (fun b => modify (binit_body b)).

(** The cache before [binit]: zeroed memory. *)
Definition bss_bio (d : disk) : bio := Bio d (replicate (Z.to_nat NBUF) buf0) 0 0.

(** [for(b = head.next; b != &head; b = b->next) if(p(b)) ...]: the first node
    that satisfies [p].  Out of fuel is [None]; not found is [Some HEAD]. *)
Fixpoint scan_next (fuel : nat) (p : buf -> bool) (s : bio) (b : Z) : option Z :=
  match fuel with
  | O => None
  | S fuel =>
      if b =? HEAD then Some HEAD
      else if p (bufi s b) then Some b
      else scan_next fuel p s (nxt s b)
  end.

Fixpoint scan_prev (fuel : nat) (p : buf -> bool) (s : bio) (b : Z) : option Z :=
  match fuel with
  | O => None
  | S fuel =>
      if b =? HEAD then Some HEAD
      else if p (bufi s b) then Some b
      else scan_prev fuel p s (prv s b)
  end.

(** [NBUF] nodes and the head bound both walks. *)
Definition scan_fuel : nat := S (Z.to_nat NBUF).
Arguments scan_fuel : simpl never.

Definition buf_acquiresleep (i : Z) : M bio unit :=
  acquiresleep (fun s => b_lock (bufi s i)) (fun l => upd i (set_lock l)) (BUFLK i).
Definition buf_releasesleep (i : Z) : M bio unit :=
  releasesleep (fun l => upd i (set_lock l)) (BUFLK i).
Definition buf_holdingsleep (i : Z) : M bio bool :=
  holdingsleep (fun s => b_lock (bufi s i)) (BUFLK i).

Definition bget (dev blockno : Z) : M bio Z :=
  do! acquire BCACHE;
  let! s := get in
  match scan_next scan_fuel (fun b => (b_dev b =? dev) && (b_blockno b =? blockno)) s (nxt s HEAD) with
  | None => diverge
  | Some b =>
      if negb (b =? HEAD) then
        do! modify (fun s => upd b (set_refcnt (u32 (b_refcnt (bufi s b) + 1))) s);
        do! release BCACHE;
        do! buf_acquiresleep b;
        ret b
      else
        match scan_prev scan_fuel (fun b => b_refcnt b =? 0) s (prv s HEAD) with
        | None => diverge
        | Some b =>
            if negb (b =? HEAD) then
              do! modify (upd b (fun x => set_refcnt 1 (set_valid false (set_ident dev blockno x))));
              do! release BCACHE;
              do! buf_acquiresleep b;
              ret b
            else panic "bget: no buffers"
        end
  end.

(** What a completed [virtio_disk_rw] has done: the request of buffer [i] is on
    the disk, or the block is in the buffer. *)
Definition virtio_disk_rw (i : Z) (write : bool) : M bio unit :=
  modify (fun s =>
    let b := bufi s i in
    if write then upd i (set_bdisk false) (set_disk (dwrite (bc_disk s) (b_blockno b) (b_data b)) s)
    else upd i (fun b => set_bdisk false (set_data (dread (bc_disk s) (b_blockno b)) b)) s).

Definition bread (dev blockno : Z) : M bio Z :=
  let! b := bget dev blockno in
  let! s := get in
  do! (if negb (b_valid (bufi s b)) then
         do! virtio_disk_rw b false;
         modify (upd b (set_valid true))
       else ret tt);
  ret b.

Definition bwrite (b : Z) : M bio unit :=
  let! h := buf_holdingsleep b in
  if negb h then panic "bwrite" else virtio_disk_rw b true.

(** Unlink [b], then put it at the front. *)
Definition move_to_front (b : Z) (s : bio) : bio :=
  let s := put_prev (nxt s b) (prv s b) s in
  let s := put_next (prv s b) (nxt s b) s in
  link_front b s.

Definition brelse (b : Z) : M bio unit :=
  let! h := buf_holdingsleep b in
  if negb h then panic "brelse" else
  do! buf_releasesleep b;
  do! acquire BCACHE;
  do! modify (fun s => upd b (set_refcnt (u32 (b_refcnt (bufi s b) - 1))) s);
  let! s := get in
  do! (if b_refcnt (bufi s b) =? 0 then modify (move_to_front b) else ret tt);
  release BCACHE.

Definition bpin (b : Z) : M bio unit :=
  do! acquire BCACHE;
  do! modify (fun s => upd b (set_refcnt (u32 (b_refcnt (bufi s b) + 1))) s);
  release BCACHE.

Definition bunpin (b : Z) : M bio unit :=
  do! acquire BCACHE;
  do! modify (fun s => upd b (set_refcnt (u32 (b_refcnt (bufi s b) - 1))) s);
  release BCACHE.

(** Access to the data of a buffer the caller holds: [b->data] read, and
    replaced by a function of itself. *)
Definition bdata (b : Z) : M bio block := gets (fun s => b_data (bufi s b)).
Definition bmodify (b : Z) (f : block -> block) : M bio unit :=
  modify (upd b (fun x => set_data (f (b_data x)) x)).

(** ** Access lemmas *)

Definition in_cache (i : Z) : Prop := 0 <= i < 30.

Lemma bufi_upd_eq i f s :
  length (bc_buf s) = 30%nat -> in_cache i -> bufi (upd i f s) i = f (bufi s i).
Proof. intros Hl Hi; unfold bufi, upd, in_cache in *; simpl; apply aget_aset_eq; lia. Qed.

Lemma bufi_upd_ne i j f s :
  in_cache i -> in_cache j -> i <> j -> bufi (upd i f s) j = bufi s j.
Proof. intros; unfold bufi, upd, in_cache in *; simpl; apply aget_aset_ne; lia. Qed.

Lemma length_upd i f s : length (bc_buf (upd i f s)) = length (bc_buf s).
Proof. apply length_aset. Qed.

(** A buffer without its links: what the link operations leave alone. *)
Definition payload (b : buf) : buf := set_prev 0 (set_next 0 b).

(** [s'] differs from [s] in links only. *)
Record same_payload (s s' : bio) : Prop := {
  sp_disk : bc_disk s' = bc_disk s;
  sp_len : length (bc_buf s') = length (bc_buf s);
  sp_buf : forall i, in_cache i -> payload (bufi s' i) = payload (bufi s i)
}.

#[global] Instance same_payload_preorder : PreOrder same_payload.
Proof.
  split; [by split|]; intros s1 s2 s3 [] []; split; [congruence|congruence|].
  intros i Hi; rewrite sp_buf1, sp_buf0 by done; done.
Qed.

Lemma payload_fields b b' :
  payload b = payload b' ->
  b_valid b = b_valid b' /\ b_dev b = b_dev b' /\ b_blockno b = b_blockno b' /\
  b_lock b = b_lock b' /\ b_refcnt b = b_refcnt b' /\ b_data b = b_data b'.
Proof. destruct b, b'; unfold payload; simpl; intros [= -> -> -> -> -> -> ->]; auto 10. Qed.

(** [put_next] and [put_prev] are updates of the link functions. *)
Definition node (i : Z) : Prop := 0 <= i <= 30.

Lemma put_next_spec i n s :
  length (bc_buf s) = 30%nat -> node i ->
  same_payload s (put_next i n s) /\
  (forall j, node j -> nxt (put_next i n s) j = if decide (j = i) then n else nxt s j) /\
  (forall j, node j -> prv (put_next i n s) j = prv s j).
Proof.
  intros Hl Hi; unfold put_next, nxt, prv, node in *; change NBUF with 30 in *.
  destruct (Z.eqb_spec i 30) as [->|Hne].
  - split; [by split|]; split; intros j Hj; destruct (Z.eqb_spec j 30); subst; try case_decide; try lia; done.
  - assert (in_cache i) by (unfold in_cache; lia).
    split; [split; [done|apply length_upd|]|split].
    + intros j Hj; destruct (decide (j = i)) as [->|].
      * by rewrite bufi_upd_eq.
      * by rewrite bufi_upd_ne by auto.
    + intros j Hj; destruct (Z.eqb_spec j 30); case_decide; subst; try lia; try done.
      * by rewrite bufi_upd_eq.
      * rewrite bufi_upd_ne; auto; unfold in_cache; lia.
    + intros j Hj; destruct (Z.eqb_spec j 30); subst; [done|].
      destruct (decide (j = i)) as [->|]; [by rewrite bufi_upd_eq|].
      rewrite bufi_upd_ne; auto; unfold in_cache; lia.
Qed.

Lemma put_prev_spec i p s :
  length (bc_buf s) = 30%nat -> node i ->
  same_payload s (put_prev i p s) /\
  (forall j, node j -> prv (put_prev i p s) j = if decide (j = i) then p else prv s j) /\
  (forall j, node j -> nxt (put_prev i p s) j = nxt s j).
Proof.
  intros Hl Hi; unfold put_prev, nxt, prv, node in *; change NBUF with 30 in *.
  destruct (Z.eqb_spec i 30) as [->|Hne].
  - split; [by split|]; split; intros j Hj; destruct (Z.eqb_spec j 30); subst; try case_decide; try lia; done.
  - assert (in_cache i) by (unfold in_cache; lia).
    split; [split; [done|apply length_upd|]|split].
    + intros j Hj; destruct (decide (j = i)) as [->|].
      * by rewrite bufi_upd_eq.
      * by rewrite bufi_upd_ne by auto.
    + intros j Hj; destruct (Z.eqb_spec j 30); case_decide; subst; try lia; try done.
      * by rewrite bufi_upd_eq.
      * rewrite bufi_upd_ne; auto; unfold in_cache; lia.
    + intros j Hj; destruct (Z.eqb_spec j 30); subst; [done|].
      destruct (decide (j = i)) as [->|]; [by rewrite bufi_upd_eq|].
      rewrite bufi_upd_ne; auto; unfold in_cache; lia.
Qed.

(** ** The LRU list *)

(** Following [next] from [x] visits [l] and then [y], and [prev] undoes it. *)
Fixpoint path (s : bio) (x : Z) (l : list Z) (y : Z) : Prop :=
  match l with
  | [] => nxt s x = y /\ prv s y = x
  | z :: l => nxt s x = z /\ prv s z = x /\ path s z l y
  end.

(** The cyclic list through the head holds each buffer once, most recently used
    first. *)
Definition lru (s : bio) (l : list Z) : Prop :=
  path s HEAD l HEAD /\ l ≡ₚ zrange 0 30.

Lemma path_frame s s' x l y :
  path s x l y ->
  (forall j, j ∈ x :: l -> nxt s' j = nxt s j) ->
  (forall j, j ∈ l ++ [y] -> prv s' j = prv s j) ->
  path s' x l y.
Proof.
  revert x; induction l as [|z l IH]; intros x; simpl.
  - intros [H1 H2] Hn Hp; rewrite Hn, Hp by elt; done.
  - intros (H1 & H2 & H3) Hn Hp; rewrite Hn, Hp by elt.
    split_and!; auto; apply IH; auto; intros; [apply Hn|apply Hp]; by right.
Qed.

Lemma path_app s x l1 z l2 y :
  path s x (l1 ++ z :: l2) y <-> path s x l1 z /\ path s z l2 y.
Proof.
  revert x; induction l1 as [|a l1 IH]; intros x; simpl; [tauto|].
  rewrite IH; tauto.
Qed.

Lemma path_first s x l y : path s x l y -> nxt s x = List.hd y l.
Proof. destruct l; simpl; tauto. Qed.

(** The last node of [x :: l]. *)
Fixpoint lastz (x : Z) (l : list Z) : Z :=
  match l with
  | [] => x
  | z :: l => lastz z l
  end.

Lemma lastz_in x l : lastz x l ∈ x :: l.
Proof. revert x; induction l as [|z l IH]; intros x; simpl; [by left|right; apply IH]. Qed.

Lemma path_last s x l y : path s x l y -> prv s y = lastz x l.
Proof.
  revert x; induction l as [|z l IH]; intros x; simpl; [tauto|].
  intros (_ & _ & H); by apply IH.
Qed.

(** Gluing two paths around a removed node. *)
Lemma path_glue s s' x l1 b l2 y :
  path s x l1 b -> path s b l2 y ->
  NoDup (x :: l1 ++ l2) -> NoDup (l1 ++ l2 ++ [y]) ->
  (forall j, j ∈ x :: l1 ++ l2 -> nxt s' j = if decide (j = lastz x l1) then List.hd y l2 else nxt s j) ->
  (forall j, j ∈ l1 ++ l2 ++ [y] -> prv s' j = if decide (j = List.hd y l2) then lastz x l1 else prv s j) ->
  path s' x (l1 ++ l2) y.
Proof.
  revert x; induction l1 as [|z l1 IH]; intros x H1 H2 Hx Hy Hn Hp; simpl in *.
  - destruct l2 as [|n l2]; simpl in *.
    + split; [rewrite Hn by elt|rewrite Hp by elt]; by case_decide.
    + apply NoDup_cons in Hx as [Hx _]; apply NoDup_cons in Hy as [Hy _].
      split; [rewrite Hn by elt; by case_decide|].
      split; [rewrite Hp by elt; by case_decide|].
      eapply path_frame; [apply H2| |].
      * intros j Hj; rewrite Hn by (by right); case_decide; [congruence|done].
      * intros j Hj; rewrite Hp by (by right); case_decide; [congruence|done].
  - destruct H1 as (Hxz & Hzx & H1); pose proof (lastz_in z l1) as Hin.
    apply NoDup_cons in Hx as [Hxn Hx]; apply NoDup_cons in Hy as [Hzn Hy].
    assert (Hhd : List.hd y l2 ∈ l2 ++ [y]) by (destruct l2; simpl; elt).
    split; [|split].
    + rewrite Hn by elt; case_decide as Hd; [|done].
      destruct Hxn; rewrite Hd; apply elem_of_cons in Hin; elt.
    + rewrite Hp by elt; case_decide as Hd; [|done].
      destruct Hzn; rewrite Hd; apply elem_of_app; by right.
    + apply IH; auto; intros j Hj; [apply Hn|apply Hp]; by right.
Qed.

Lemma same_payload_len s s' :
  same_payload s s' -> length (bc_buf s) = 30%nat -> length (bc_buf s') = 30%nat.
Proof. intros [] ?; congruence. Qed.

(** The links after [link_front]. *)
Lemma link_front_links b s :
  length (bc_buf s) = 30%nat -> in_cache b -> node (nxt s HEAD) ->
  same_payload s (link_front b s) /\
  (forall j, node j -> nxt (link_front b s) j =
     if decide (j = HEAD) then b else if decide (j = b) then nxt s HEAD else nxt s j) /\
  (forall j, node j -> prv (link_front b s) j =
     if decide (j = nxt s HEAD) then b else if decide (j = b) then HEAD else prv s j).
Proof.
  intros Hl Hb Hf; unfold link_front, in_cache, node in *.
  assert (Hh : HEAD = 30) by done.
  destruct (put_next_spec b (nxt s HEAD) s Hl) as (P1 & N1 & R1); [unfold node; lia|].
  set (s1 := put_next b (nxt s HEAD) s) in *.
  assert (Hl1 := same_payload_len _ _ P1 Hl).
  destruct (put_prev_spec b HEAD s1 Hl1) as (P2 & R2 & N2); [unfold node; lia|].
  set (s2 := put_prev b HEAD s1) in *.
  assert (Hl2 := same_payload_len _ _ P2 Hl1).
  assert (E : nxt s2 HEAD = nxt s HEAD).
  { rewrite N2, N1 by (unfold node; lia); case_decide; [lia|done]. }
  destruct (put_prev_spec (nxt s2 HEAD) b s2 Hl2) as (P3 & R3 & N3); [rewrite E; done|].
  set (s3 := put_prev (nxt s2 HEAD) b s2) in *.
  assert (Hl3 := same_payload_len _ _ P3 Hl2).
  destruct (put_next_spec HEAD b s3 Hl3) as (P4 & N4 & R4); [unfold node; lia|].
  split; [by etrans; [apply P1|etrans; [apply P2|etrans; [apply P3|apply P4]]]|].
  split; intros j Hj.
  - rewrite N4, N3, N2, N1 by done; done.
  - rewrite R4, R3, R2, R1, E by done; done.
Qed.

Lemma link_front_path b s l :
  length (bc_buf s) = 30%nat -> in_cache b -> path s HEAD l HEAD ->
  NoDup (b :: l) -> (forall j, j ∈ l -> in_cache j) ->
  path (link_front b s) HEAD (b :: l) HEAD.
Proof.
  intros Hl Hb Hp Hnd Hc; assert (Hh : HEAD = 30) by done.
  apply NoDup_cons in Hnd as [Hbl Hnd].
  assert (Hnode : node (nxt s HEAD)).
  { rewrite (path_first _ _ _ _ Hp); destruct l as [|z l]; simpl; [unfold node; lia|].
    assert (in_cache z) by (apply Hc; by left); unfold node, in_cache in *; lia. }
  destruct (link_front_links b s Hl Hb Hnode) as (_ & N & R).
  assert (Hcn : forall j, j ∈ l -> node j /\ j <> HEAD)
    by (intros j Hj; apply Hc in Hj; unfold node, in_cache in *; lia).
  unfold in_cache in Hb; unfold node in N, R.
  simpl; rewrite N by lia; destruct (decide (HEAD = HEAD)); [|done]; split; [done|].
  rewrite (path_first _ _ _ _ Hp) in *.
  assert (Hf : b <> List.hd HEAD l).
  { destruct l as [|z l]; simpl; [lia|]; intros ->; apply Hbl; by left. }
  rewrite R by lia; destruct (decide (b = List.hd HEAD l)); [done|].
  destruct (decide (b = b)); [|done]; split; [done|].
  destruct l as [|z l]; simpl in *.
  - rewrite N, R by lia; repeat case_decide; try done; lia.
  - apply NoDup_cons in Hnd as [Hz Hnd].
    assert (Hzn : node z /\ z <> HEAD) by (apply Hcn; by left); unfold node in *.
    rewrite N by lia; destruct (decide (b = HEAD)); [lia|]; destruct (decide (b = b)); [|done].
    rewrite R by lia; destruct (decide (z = z)); [|done].
    split; [done|]; split; [done|]; destruct Hp as (_ & _ & Hp).
    eapply path_frame; [exact Hp| |].
    + intros j Hj; destruct (Hcn j Hj); rewrite N by done.
      repeat case_decide; subst; done.
    + intros j Hj; apply elem_of_app in Hj; rewrite elem_of_cons, elem_of_nil in Hj.
      assert (Hj' : node j /\ j <> z /\ j <> b).
      { destruct Hj as [Hj|[->|[]]]; [|unfold node; lia].
        destruct (Hcn j) as [? ?]; [by right|]; split; [done|].
        split; intros ->; [done|]; apply Hbl; by right. }
      destruct Hj' as (? & ? & ?); unfold node in *; rewrite R by lia.
      repeat case_decide; done.
Qed.

(** Removing [b] from the middle and putting it in front. *)
Lemma move_to_front_lru b s l1 l2 :
  length (bc_buf s) = 30%nat -> lru s (l1 ++ b :: l2) ->
  lru (move_to_front b s) (b :: l1 ++ l2) /\ same_payload s (move_to_front b s).
Proof.
  intros Hl [Hp Hperm]; assert (Hh : HEAD = 30) by done.
  assert (Hc : forall j, j ∈ l1 ++ b :: l2 -> in_cache j).
  { intros j Hj; rewrite Hperm, elem_of_zrange in Hj; unfold in_cache; lia. }
  assert (Hnd : NoDup (l1 ++ b :: l2)) by (rewrite Hperm; apply NoDup_zrange).
  rewrite <- Permutation_middle in Hnd; apply NoDup_cons in Hnd as Hnd'.
  destruct Hnd' as [Hb12 Hnd12].
  assert (Hb : in_cache b) by (apply Hc; elt).
  assert (Hc12 : forall j, j ∈ l1 ++ l2 -> in_cache j)
    by (intros j Hj; apply Hc; rewrite elem_of_app, elem_of_cons; apply elem_of_app in Hj; tauto).
  apply path_app in Hp as [Hp1 Hp2].
  pose proof (path_last _ _ _ _ Hp1) as Epb; pose proof (path_first _ _ _ _ Hp2) as Enb.
  assert (Hnp : node (lastz HEAD l1)).
  { pose proof (lastz_in HEAD l1) as Hi; apply elem_of_cons in Hi as [->|Hi]; [unfold node; lia|].
    assert (in_cache (lastz HEAD l1)) by (apply Hc12; elt); unfold node, in_cache in *; lia. }
  assert (Hnn : node (List.hd HEAD l2)).
  { destruct l2 as [|z l2]; simpl; [unfold node; lia|].
    assert (in_cache z) by (apply Hc12; elt); unfold node, in_cache in *; lia. }
  unfold move_to_front; rewrite Enb, Epb.
  destruct (put_prev_spec (List.hd HEAD l2) (lastz HEAD l1) s Hl Hnn) as (P1 & R1 & N1).
  set (s1 := put_prev _ _ s) in *; assert (Hl1 := same_payload_len _ _ P1 Hl).
  assert (Hbn : node b) by (unfold node, in_cache in *; lia).
  assert (E1 : prv s1 b = lastz HEAD l1).
  { rewrite R1 by done; case_decide as Hd; [done|congruence]. }
  rewrite E1, N1, Enb by done.
  destruct (put_next_spec (lastz HEAD l1) (List.hd HEAD l2) s1 Hl1 Hnp) as (P2 & N2 & R2).
  set (s2 := put_next _ _ s1) in *; assert (Hl2 := same_payload_len _ _ P2 Hl1).
  assert (Hpath : path s2 HEAD (l1 ++ l2) HEAD).
  { assert (HH : HEAD ∉ l1 ++ l2) by (intros Hi; apply Hc12 in Hi; unfold in_cache in Hi; lia).
    assert (Hall : forall j, j ∈ HEAD :: l1 ++ l2 -> node j).
    { intros j [->|Hj]%elem_of_cons; [unfold node; lia|].
      apply Hc12 in Hj; unfold node, in_cache in *; lia. }
    apply (path_glue s s2 HEAD l1 b l2 HEAD); auto.
    - by constructor.
    - rewrite app_assoc, Permutation_app_comm; simpl; by constructor.
    - intros j Hj; apply Hall in Hj; rewrite N2, N1 by done; done.
    - intros j Hj; assert (node j).
      { apply Hall; rewrite app_assoc in Hj; apply elem_of_app in Hj as [?|Hj]; [by right|].
        apply elem_of_cons in Hj as [->|Hj]; [by left|by apply not_elem_of_nil in Hj]. }
      rewrite R2, R1 by done; done. }
  destruct (link_front_links b s2 Hl2 Hb) as (P3 & _ & _).
  { rewrite (path_first _ _ _ _ Hpath); destruct (l1 ++ l2) as [|z l]; simpl; [unfold node; lia|].
    assert (in_cache z) by (apply Hc12; by left); unfold node, in_cache in *; lia. }
  split; [split|by etrans; [apply P1|etrans; [apply P2|apply P3]]].
  - apply link_front_path; auto; by constructor.
  - by rewrite Permutation_middle, <- Hperm.
Qed.

(** The two walks of [bget] visit the LRU list in opposite directions. *)
Lemma scan_next_spec fuel p s x l :
  path s x l HEAD -> HEAD ∉ l -> (length l < fuel)%nat ->
  scan_next fuel p s (nxt s x) = Some (default HEAD (List.find (fun i => p (bufi s i)) l)).
Proof.
  revert x fuel; induction l as [|z l IH]; intros x fuel Hp HH Hf;
    (destruct fuel as [|fuel]; [simpl in Hf; lia|]); simpl in *.
  - by destruct Hp as [-> _].
  - destruct Hp as (-> & _ & Hp); apply not_elem_of_cons in HH as [Hz HH].
    destruct (Z.eqb_spec z HEAD); [congruence|].
    destruct (p (bufi s z)); [done|]; apply IH; auto; lia.
Qed.

Lemma scan_prev_spec fuel p s l y :
  path s HEAD l y -> HEAD ∉ l -> (length l < fuel)%nat ->
  scan_prev fuel p s (prv s y) =
  Some (default HEAD (List.find (fun i => p (bufi s i)) (reverse l))).
Proof.
  revert y fuel; induction l as [|z l IH] using rev_ind; intros y fuel Hp HH Hf;
    (destruct fuel as [|fuel]; [simpl in Hf; lia|]).
  - simpl in *; by destruct Hp as [_ ->].
  - rewrite length_app in Hf; simpl in Hf.
    apply path_app in Hp as [Hp [_ Hy]]; rewrite Hy; elt_in HH; destruct HH as (HH & Hz & _).
    rewrite reverse_snoc; cbn [scan_prev List.find].
    destruct (Z.eqb_spec z HEAD); [congruence|].
    destruct (p (bufi s z)); [done|]; apply IH; auto; lia.
Qed.

(** ** Invariant *)

(** The cache serves one device, [D]; a buffer that never held a block has device
    number 0. *)
Section inv.
Context (D : Z) (HD : D <> 0).

Record bio_inv (s : bio) : Prop := {
  bi_len : length (bc_buf s) = 30%nat;
  bi_lru : exists l, lru s l;
  bi_ref : forall i, in_cache i -> 0 <= b_refcnt (bufi s i) < 2 ^ 32;
  bi_dev : forall i, in_cache i ->
    (b_dev (bufi s i) = 0 /\ b_refcnt (bufi s i) = 0) \/ b_dev (bufi s i) = D;
  bi_uniq : forall i j, in_cache i -> in_cache j ->
    b_dev (bufi s i) = D -> b_dev (bufi s j) = D ->
    b_blockno (bufi s i) = b_blockno (bufi s j) -> i = j;
  bi_lock : forall i, in_cache i -> sl_locked (b_lock (bufi s i)) = true ->
    0 < b_refcnt (bufi s i);
  bi_data : forall i, in_cache i -> length (b_data (bufi s i)) = 1024%nat;
  bi_clean : forall i, in_cache i -> b_dev (bufi s i) = D -> b_refcnt (bufi s i) = 0 ->
    b_valid (bufi s i) = true -> b_data (bufi s i) = dread (bc_disk s) (b_blockno (bufi s i));
  bi_disk : forall b, length (dread (bc_disk s) b) = 1024%nat
}.

(** The buffer that caches block [b]. *)
Definition find_buf (s : bio) (b : Z) : option Z :=
  List.find (fun i => (b_dev (bufi s i) =? D) && (b_blockno (bufi s i) =? b)) (zrange 0 30).

(** The contents of block [b] as a reader of the cache sees them, the number of
    references to it, and the state of its lock. *)
Definition bview (s : bio) (b : Z) : block :=
  match find_buf s b with
  | Some i => if b_valid (bufi s i) then b_data (bufi s i) else dread (bc_disk s) b
  | None => dread (bc_disk s) b
  end.
Definition bref (s : bio) (b : Z) : Z :=
  match find_buf s b with Some i => b_refcnt (bufi s i) | None => 0 end.
Definition blocked (s : bio) (b : Z) : bool :=
  match find_buf s b with Some i => sl_locked (b_lock (bufi s i)) | None => false end.

(** Thread [pid] holds buffer [i], which caches block [b]. *)
Record holds (pid : Z) (s : bio) (i b : Z) : Prop := {
  h_in : in_cache i;
  h_dev : b_dev (bufi s i) = D;
  h_bno : b_blockno (bufi s i) = b;
  h_valid : b_valid (bufi s i) = true;
  h_lock : b_lock (bufi s i) = SleepLock true pid;
  h_ref : 0 < b_refcnt (bufi s i)
}.

Lemma find_buf_Some s b i :
  find_buf s b = Some i -> in_cache i /\ b_dev (bufi s i) = D /\ b_blockno (bufi s i) = b.
Proof.
  intros H; apply List.find_some in H as [Hin H]; apply list_elem_of_In, elem_of_zrange in Hin.
  apply andb_prop in H as [H1%Z.eqb_eq H2%Z.eqb_eq]; unfold in_cache; split; [lia|done].
Qed.

Lemma find_buf_eq s b i :
  bio_inv s -> in_cache i -> b_dev (bufi s i) = D -> b_blockno (bufi s i) = b ->
  find_buf s b = Some i.
Proof.
  intros Hi Hin Hd Hb; destruct (find_buf s b) as [j|] eqn:E.
  - apply find_buf_Some in E as (Hj & Hdj & Hbj); f_equal.
    apply (bi_uniq s Hi); auto; congruence.
  - unfold find_buf in E; eapply List.find_none in E as E'.
    + rewrite Hd, Hb, !Z.eqb_refl in E'; done.
    + apply list_elem_of_In, elem_of_zrange; unfold in_cache in Hin; lia.
Qed.

Lemma find_buf_None s b i :
  find_buf s b = None -> in_cache i -> b_dev (bufi s i) = D -> b_blockno (bufi s i) <> b.
Proof.
  intros E Hi Hd Hb; unfold find_buf in E; eapply List.find_none in E.
  - by rewrite Hd, Hb, !Z.eqb_refl in E.
  - apply list_elem_of_In, elem_of_zrange; unfold in_cache in Hi; lia.
Qed.

(** [find_buf] only looks at the identities of the buffers. *)
Lemma find_buf_ext s s' b :
  (forall i, in_cache i -> b_dev (bufi s' i) = b_dev (bufi s i) /\
                           b_blockno (bufi s' i) = b_blockno (bufi s i)) ->
  find_buf s' b = find_buf s b.
Proof.
  intros H; unfold find_buf.
  assert (Hl : forall i, i ∈ zrange 0 30 -> in_cache i).
  { intros i Hi%elem_of_zrange; unfold in_cache; lia. }
  revert Hl; generalize (zrange 0 30); intros l Hl; induction l as [|x l IH]; [done|]; simpl.
  destruct (H x) as [-> ->]; [apply Hl; by left|].
  rewrite IH; [done|]; intros; apply Hl; by right.
Qed.

(** ** Steps on one buffer *)

(** [s'] is [s] with buffer [i] changed as far as its owner may see, links
    aside. *)
Record differ_at (i : Z) (s s' : bio) : Prop := {
  da_len : length (bc_buf s') = 30%nat;
  da_buf : forall j, in_cache j -> j <> i -> payload (bufi s' j) = payload (bufi s j)
}.

Lemma holds_frame pid s s' i j b :
  differ_at i s s' -> i <> j -> holds pid s j b -> holds pid s' j b.
Proof.
  intros Hd Hne [Hin Hdev Hb Hv Hl Hr].
  destruct (payload_fields _ _ (da_buf _ _ _ Hd j Hin ltac:(auto))) as (E1 & E2 & E3 & E4 & E5 & E6).
  by split; rewrite ?E1, ?E2, ?E3, ?E4, ?E5.
Qed.

Lemma upd_differ i f s : length (bc_buf s) = 30%nat -> in_cache i -> differ_at i s (upd i f s).
Proof.
  intros Hl Hi; split; [by rewrite length_upd|].
  intros j Hj Hne; by rewrite bufi_upd_ne by auto.
Qed.

(** An update that leaves the links of every node alone keeps the LRU list. *)
Lemma upd_links i f s :
  length (bc_buf s) = 30%nat -> in_cache i ->
  (forall b, b_next (f b) = b_next b /\ b_prev (f b) = b_prev b) ->
  (forall j, node j -> nxt (upd i f s) j = nxt s j) /\
  (forall j, node j -> prv (upd i f s) j = prv s j).
Proof.
  intros Hl Hi Hf; assert (forall j, in_cache j -> b_next (bufi (upd i f s) j) = b_next (bufi s j) /\
    b_prev (bufi (upd i f s) j) = b_prev (bufi s j)) as H.
  { intros j Hj; destruct (decide (i = j)) as [<-|].
    - rewrite bufi_upd_eq by done; apply Hf.
    - by rewrite bufi_upd_ne. }
  unfold nxt, prv, node; change NBUF with 30.
  split; intros j Hj; destruct (Z.eqb_spec j 30); try done; apply H; unfold in_cache; lia.
Qed.

Lemma lru_nodes s l : lru s l -> forall j, j ∈ l -> in_cache j.
Proof. intros [_ Hp] j Hj; rewrite Hp, elem_of_zrange in Hj; unfold in_cache; lia. Qed.

Lemma lru_ext s s' l :
  lru s l ->
  (forall j, node j -> nxt s' j = nxt s j) -> (forall j, node j -> prv s' j = prv s j) ->
  lru s' l.
Proof.
  intros Hl Hn Hp; split; [|apply Hl].
  assert (Hc := lru_nodes _ _ Hl).
  assert (HH : node HEAD) by (unfold node; change HEAD with 30; lia).
  assert (Hc' : forall j, j ∈ l -> node j) by (intros j Hj; apply Hc in Hj; unfold node, in_cache in *; lia).
  eapply path_frame; [apply Hl| |].
  - intros j [->|Hj]%elem_of_cons; auto.
  - intros j [Hj|Hj]%elem_of_app; [auto|].
    apply elem_of_cons in Hj as [->|Hj]; [auto|by apply not_elem_of_nil in Hj].
Qed.

Lemma lru_upd i f s l :
  length (bc_buf s) = 30%nat -> in_cache i ->
  (forall b, b_next (f b) = b_next b /\ b_prev (f b) = b_prev b) ->
  lru s l -> lru (upd i f s) l.
Proof. intros Hl Hi Hf Hlru; destruct (upd_links i f s Hl Hi Hf); by eapply lru_ext. Qed.

Lemma lru_set_disk d s l : lru s l -> lru (set_disk d s) l.
Proof. intros H; by eapply lru_ext. Qed.

Lemma bio_inv_upd i f s :
  bio_inv s -> in_cache i ->
  (forall b, b_next (f b) = b_next b /\ b_prev (f b) = b_prev b) ->
  0 <= b_refcnt (f (bufi s i)) < 2 ^ 32 ->
  (b_dev (f (bufi s i)) = 0 /\ b_refcnt (f (bufi s i)) = 0) \/ b_dev (f (bufi s i)) = D ->
  (b_dev (f (bufi s i)) = D -> forall j, in_cache j -> j <> i -> b_dev (bufi s j) = D ->
     b_blockno (bufi s j) <> b_blockno (f (bufi s i))) ->
  (sl_locked (b_lock (f (bufi s i))) = true -> 0 < b_refcnt (f (bufi s i))) ->
  length (b_data (f (bufi s i))) = 1024%nat ->
  (b_dev (f (bufi s i)) = D -> b_refcnt (f (bufi s i)) = 0 -> b_valid (f (bufi s i)) = true ->
     b_data (f (bufi s i)) = dread (bc_disk s) (b_blockno (f (bufi s i)))) ->
  bio_inv (upd i f s).
Proof.
  intros [Hl [l Hlru] Href Hdev Huniq Hlock Hdata Hclean Hdisk] Hi Hf Hr Hd Hu Hk Hlen Hcl.
  assert (Hne : forall j, in_cache j -> j <> i -> bufi (upd i f s) j = bufi s j)
    by (intros; by rewrite bufi_upd_ne by auto).
  assert (He : bufi (upd i f s) i = f (bufi s i)) by (by apply bufi_upd_eq).
  split; auto.
  - by rewrite length_upd.
  - exists l; by apply lru_upd.
  - intros j Hj; destruct (decide (j = i)) as [->|]; [by rewrite He|by rewrite Hne; auto].
  - intros j Hj; destruct (decide (j = i)) as [->|]; [by rewrite He|by rewrite Hne; auto].
  - intros j k Hj Hk'; destruct (decide (j = i)) as [->|Hji], (decide (k = i)) as [->|Hki];
      rewrite ?He, ?Hne by done; intros D1 D2 B; auto.
    + exfalso; by eapply (Hu D1 k).
    + exfalso; by eapply (Hu D2 j).
  - intros j Hj; destruct (decide (j = i)) as [->|]; [by rewrite He|by rewrite Hne; auto].
  - intros j Hj; destruct (decide (j = i)) as [->|]; [by rewrite He|by rewrite Hne; auto].
  - intros j Hj; destruct (decide (j = i)) as [->|]; [by rewrite He|by rewrite Hne; auto].
Qed.

Definition no_buf_locks (c : ctx) : Prop :=
  (BCACHE ∉ c_held c) /\ (forall i, BUFLK i ∉ c_held c).

(** Some buffer is unreferenced. *)
Definition spare (s : bio) : Prop := exists i, in_cache i /\ b_refcnt (bufi s i) = 0.

(** How [bget] picked buffer [i] for block [b]: a hit, or the least recently used
    of the unreferenced buffers. *)
Definition hit (s : bio) (b i : Z) : Prop := find_buf s b = Some i.
Definition recycled (s : bio) (b i : Z) : Prop :=
  find_buf s b = None /\ exists l1 l2, lru s (l1 ++ i :: l2) /\ b_refcnt (bufi s i) = 0 /\
    forall j, j ∈ l2 -> b_refcnt (bufi s j) <> 0.

Record got (pid : Z) (s s' : bio) (b i : Z) : Prop := {
  g_inv : bio_inv s';
  g_differ : differ_at i s s';
  g_disk : bc_disk s' = bc_disk s;
  g_in : in_cache i;
  g_how : hit s b i \/ recycled s b i;
  g_dev : b_dev (bufi s' i) = D;
  g_bno : b_blockno (bufi s' i) = b;
  g_lock : b_lock (bufi s' i) = SleepLock true pid;
  g_ref : b_refcnt (bufi s' i) = bref s b + 1;
  g_lru : forall l, lru s l -> lru s' l;
  g_valid : hit s b i -> b_valid (bufi s' i) = b_valid (bufi s i)
}.

Lemma find_first (p : Z -> bool) l i :
  List.find p l = Some i -> exists l1 l2, l = l1 ++ i :: l2 /\ p i = true /\ forall j, j ∈ l1 -> p j = false.
Proof.
  induction l as [|x l IH]; simpl; [done|].
  destruct (p x) eqn:E; [intros [= ->]; exists [], l; split; [done|split; [done|]];
    by intros j ?%not_elem_of_nil|].
  intros H; destruct (IH H) as (l1 & l2 & -> & Hp & Hn); exists (x :: l1), l2; split; [done|].
  split; [done|]; intros j [->|Hj]%elem_of_cons; auto.
Qed.

Lemma lru_head s l : lru s l -> HEAD ∉ l.
Proof. intros Hl Hi; apply (lru_nodes _ _ Hl) in Hi; unfold in_cache in Hi; change HEAD with 30 in Hi; lia. Qed.

Lemma lru_length s l : lru s l -> (length l < scan_fuel)%nat.
Proof. intros [_ Hp]; rewrite Hp, length_zrange; unfold scan_fuel; change NBUF with 30; lia. Qed.

(** The forward walk finds the caching buffer. *)
Lemma scan_hit s l b :
  bio_inv s -> lru s l ->
  scan_next scan_fuel (fun x => (b_dev x =? D) && (b_blockno x =? b)) s (nxt s HEAD) =
  Some (default HEAD (find_buf s b)).
Proof.
  intros Hi Hl; rewrite (scan_next_spec _ _ _ _ l); [|apply Hl|by eapply lru_head|by eapply lru_length].
  destruct (find_buf s b) as [i|] eqn:E; simpl; do 2 f_equal.
  - destruct (List.find _ l) as [j|] eqn:F; simpl.
    + apply List.find_some in F as [Hj F]; apply list_elem_of_In in Hj.
      apply andb_prop in F as [F1%Z.eqb_eq F2%Z.eqb_eq].
      assert (find_buf s b = Some j) by (apply find_buf_eq; auto; by eapply lru_nodes).
      congruence.
    + apply find_buf_Some in E as (Hin & Hd & Hb); eapply List.find_none in F.
      * by rewrite Hd, Hb, !Z.eqb_refl in F.
      * apply list_elem_of_In; destruct Hl as [_ ->]; apply elem_of_zrange; unfold in_cache in Hin; lia.
  - destruct (List.find _ l) as [j|] eqn:F; [|done]; simpl.
    apply List.find_some in F as [Hj F]; apply list_elem_of_In in Hj.
    apply andb_prop in F as [F1%Z.eqb_eq F2%Z.eqb_eq].
    exfalso; eapply (find_buf_None s b j); [done| |done|done]; by eapply lru_nodes.
Qed.

(** The backward walk finds the least recently used unreferenced buffer. *)
Lemma scan_victim s l :
  bio_inv s -> lru s l -> spare s ->
  exists i l1 l2, l = l1 ++ i :: l2 /\ b_refcnt (bufi s i) = 0 /\
    (forall j, j ∈ l2 -> b_refcnt (bufi s j) <> 0) /\
    scan_prev scan_fuel (fun x => b_refcnt x =? 0) s (prv s HEAD) = Some i.
Proof.
  intros Hi Hl (k & Hk & Hrk).
  rewrite (scan_prev_spec _ _ _ l); [|apply Hl|by eapply lru_head|by eapply lru_length].
  destruct (List.find _ (reverse l)) as [i|] eqn:F.
  - destruct (find_first _ _ _ F) as (r1 & r2 & E & Hp & Hn).
    exists i, (reverse r2), (reverse r1); split; [|split; [by apply Z.eqb_eq|split; [|done]]].
    + rewrite <- (reverse_involutive l), E, reverse_app, reverse_cons, <- app_assoc; done.
    + intros j Hj; rewrite elem_of_reverse in Hj; apply Hn, Z.eqb_neq in Hj; done.
  - exfalso; eapply List.find_none in F.
    + rewrite Hrk in F; done.
    + apply list_elem_of_In; rewrite elem_of_reverse; destruct Hl as [_ ->].
      apply elem_of_zrange; unfold in_cache in Hk; lia.
Qed.

Opaque scan_fuel.

Lemma bget_spec b c s :
  bio_inv s -> no_buf_locks c -> blocked s b = false -> bref s b + 1 < 2 ^ 32 ->
  (find_buf s b = None -> spare s) ->
  wp (bget D b) c s (fun i c' s' =>
    c' = c /\ got (c_pid c) s s' b i /\
    (b_valid (bufi s' i) = true -> b_data (bufi s' i) = bview s b)).
Proof.
  intros Hinv [Hbc Hbl] Hlk Href Hsp; destruct (bi_lru s Hinv) as [l Hl].
  pose proof (bi_len s Hinv) as Hlen.
  unfold bget; wp_steps; rewrite (scan_hit s l b) by done.
  destruct (find_buf s b) as [i|] eqn:E; simpl.
  - pose proof (find_buf_Some _ _ _ E) as (Hin & Hd & Hb).
    assert (i <> HEAD) by (unfold in_cache in Hin; change HEAD with 30; lia).
    destruct (Z.eqb_spec i HEAD); [done|]; simpl; wp_steps; unfold buf_acquiresleep.
    pose proof (bi_ref s Hinv i Hin) as Hri.
    assert (Er : bref s b = b_refcnt (bufi s i)) by (unfold bref; by rewrite E).
    assert (El : sl_locked (b_lock (bufi s i)) = false) by (unfold blocked in Hlk; by rewrite E in Hlk).
    set (s1 := upd i _ s).
    assert (E1 : bufi s1 i = set_refcnt (b_refcnt (bufi s i) + 1) (bufi s i)).
    { unfold s1; rewrite bufi_upd_eq, u32_small by (done || lia); done. }
    assert (Hinv1 : bio_inv s1).
    { unfold s1; apply bio_inv_upd; auto; rewrite ?u32_small by lia; simpl; try lia;
        try apply Hinv; auto.
      intros _ j Hj Hji Hdj Hbj; apply Hji; apply (bi_uniq s Hinv); auto; congruence. }
    eapply wp_mono; [apply acquiresleep_spec; [apply Hbl|rewrite E1; done]|].
    intros _ c' s2 [-> ->]; wp_steps; split; [by destruct c|]; simpl.
    assert (Hl1 := bi_len s1 Hinv1).
    assert (E2 : bufi (upd i (set_lock (SleepLock true (c_pid c))) s1) i =
                 set_lock (SleepLock true (c_pid c)) (bufi s1 i)) by (by apply bufi_upd_eq).
    split.
    + split; rewrite ?E2, ?E1; simpl; auto.
      * apply bio_inv_upd; auto; rewrite ?E1; simpl; try lia; try apply Hinv; auto.
        -- intros _ j Hj Hji; unfold s1; rewrite bufi_upd_ne by auto; intros Hdj Hbj.
           apply Hji; apply (bi_uniq s Hinv); auto; congruence.
      * split; [by rewrite length_upd|]; intros j Hj Hji.
        unfold s1; by rewrite !bufi_upd_ne by auto.
      * by rewrite Er.
      * intros l' Hl'; apply lru_upd; auto; unfold s1; by apply lru_upd.
    + rewrite E2, E1; simpl; intros Hv; unfold bview; by rewrite E, Hv.
  - destruct (scan_victim s l Hinv Hl (Hsp eq_refl)) as (i & l1 & l2 & El & Hri & Hl2 & ->).
    assert (Hin : in_cache i) by (apply (lru_nodes _ _ Hl); rewrite El; elt).
    assert (i <> HEAD) by (unfold in_cache in Hin; change HEAD with 30; lia).
    destruct (Z.eqb_spec i HEAD); [done|]; simpl; wp_steps; unfold buf_acquiresleep.
    assert (Elk : sl_locked (b_lock (bufi s i)) = false).
    { destruct (sl_locked (b_lock (bufi s i))) eqn:K; [|done].
      apply (bi_lock s Hinv i Hin) in K; lia. }
    set (s1 := upd i _ s).
    assert (E1 : bufi s1 i = set_refcnt 1 (set_valid false (set_ident D b (bufi s i))))
      by (unfold s1; by rewrite bufi_upd_eq).
    assert (Hinv1 : bio_inv s1).
    { unfold s1; apply bio_inv_upd; auto; simpl; try lia; auto; try (by apply Hinv).
      intros _ j Hj Hji Hdj; by apply find_buf_None. }
    assert (Hl1 := bi_len s1 Hinv1).
    eapply wp_mono; [apply acquiresleep_spec; [apply Hbl|rewrite E1; done]|].
    intros _ c' s2 [-> ->]; wp_steps; split; [by destruct c|]; simpl.
    assert (E2 : bufi (upd i (set_lock (SleepLock true (c_pid c))) s1) i =
                 set_lock (SleepLock true (c_pid c)) (bufi s1 i)) by (by apply bufi_upd_eq).
    split; [|by rewrite E2, E1].
    split; rewrite ?E2, ?E1; simpl; auto.
    + apply bio_inv_upd; auto; rewrite ?E1; simpl; try lia; auto; try (by apply Hinv).
      intros _ j Hj Hji; unfold s1; rewrite bufi_upd_ne by auto; intros Hdj; by apply find_buf_None.
    + split; [by rewrite length_upd|]; intros j Hj Hji; unfold s1; by rewrite !bufi_upd_ne by auto.
    + right; split; [done|]; exists l1, l2; by rewrite <- El.
    + unfold bref; by rewrite E.
    + intros l' Hl'; apply lru_upd; auto; unfold s1; by apply lru_upd.
    + unfold hit; by rewrite E.
Qed.

(** Buffer by buffer: what makes [find_buf], [bview], [bref] and [blocked] of a
    block other than the one in buffer [i] agree between two states. *)
Lemma find_buf_other s s' i b' :
  bio_inv s -> bio_inv s' -> differ_at i s s' -> in_cache i ->
  b_dev (bufi s' i) = D -> b_blockno (bufi s' i) <> b' ->
  find_buf s' b' = match find_buf s b' with Some j => if decide (j = i) then None else Some j | None => None end.
Proof.
  intros Hi Hi' Hd Hin Hdev Hb.
  destruct (find_buf s b') as [j|] eqn:E.
  - apply find_buf_Some in E as (Hj & Hdj & Hbj).
    case_decide as Hji; [subst j|].
    + destruct (find_buf s' b') as [k|] eqn:F; [|done].
      apply find_buf_Some in F as (Hk & Hdk & Hbk).
      destruct (decide (k = i)) as [->|Hki]; [done|].
      destruct (payload_fields _ _ (da_buf _ _ _ Hd k Hk Hki)) as (_ & E2 & E3 & _).
      exfalso; apply Hki, (bi_uniq s Hi); auto; congruence.
    + destruct (payload_fields _ _ (da_buf _ _ _ Hd j Hj Hji)) as (_ & E2 & E3 & _).
      apply find_buf_eq; auto; congruence.
  - destruct (find_buf s' b') as [k|] eqn:F; [|done].
    apply find_buf_Some in F as (Hk & Hdk & Hbk).
    destruct (decide (k = i)) as [->|Hki]; [done|].
    destruct (payload_fields _ _ (da_buf _ _ _ Hd k Hk Hki)) as (_ & E2 & E3 & _).
    exfalso; eapply (find_buf_None s b' k); eauto; congruence.
Qed.

(** What the caller of [bread] gets. *)
Record bread_post (pid : Z) (s s' : bio) (b i : Z) : Prop := {
  br_inv : bio_inv s';
  br_differ : differ_at i s s';
  br_disk : bc_disk s' = bc_disk s;
  br_how : hit s b i \/ recycled s b i;
  br_holds : holds pid s' i b;
  br_data : b_data (bufi s' i) = bview s b;
  br_view : forall b', bview s' b' = bview s b';
  br_ref : forall b', bref s' b' = bref s b' + (if decide (b' = b) then 1 else 0);
  br_blocked : forall b', blocked s' b' = (if decide (b' = b) then true else blocked s b');
  br_lru : forall l, lru s l -> lru s' l
}.

(** A buffer [bget] recycles was unreferenced, so its old block was clean. *)
Lemma got_unref s b i j b' :
  bio_inv s -> hit s b i \/ recycled s b i -> b <> b' ->
  find_buf s b' = Some j -> j = i ->
  b_refcnt (bufi s i) = 0 /\ b_dev (bufi s i) = D /\ b_blockno (bufi s i) = b' /\ in_cache i.
Proof.
  intros Hi How Hne E ->; apply find_buf_Some in E as (Hin & Hd & Hb).
  destruct How as [Hh|(_ & l1 & l2 & _ & Hr & _)]; [|auto].
  apply find_buf_Some in Hh as (_ & _ & Hb'); congruence.
Qed.

(** Filling in a freshly acquired buffer gives the postcondition of [bread]. *)
Lemma got_bread pid s s1 s' b i :
  bio_inv s -> got pid s s1 b i -> bio_inv s' -> differ_at i s s' -> bc_disk s' = bc_disk s ->
  b_dev (bufi s' i) = D -> b_blockno (bufi s' i) = b -> b_lock (bufi s' i) = SleepLock true pid ->
  b_refcnt (bufi s' i) = bref s b + 1 -> b_valid (bufi s' i) = true ->
  b_data (bufi s' i) = bview s b -> (forall l, lru s l -> lru s' l) ->
  bread_post pid s s' b i.
Proof.
  intros Hi [_ _ _ Hin How _ _ _ _ _ _] Hi' Hd Hdisk Hdev Hb Hlk Hr Hv Hdata Hlru.
  assert (Ef : find_buf s' b = Some i) by (by apply find_buf_eq).
  assert (Hr0 : 0 <= bref s b).
  { unfold bref; destruct (find_buf s b) as [j|] eqn:E; [|lia].
    apply find_buf_Some in E as (Hj & _); by apply (bi_ref s Hi). }
  assert (Ho : forall b', b' <> b -> find_buf s' b' =
    match find_buf s b' with Some j => if decide (j = i) then None else Some j | None => None end).
  { intros b' Hne; apply find_buf_other; auto; congruence. }
  split; auto.
  - split; auto; lia.
  - intros b'; unfold bview; destruct (decide (b' = b)) as [->|Hne].
    { rewrite Ef, Hv; fold (bview s b); done. }
    rewrite Ho by done; destruct (find_buf s b') as [j|] eqn:E; [|by rewrite Hdisk].
    case_decide as Hji.
    + destruct (got_unref s b i j b' Hi How) as (Hr' & Hd' & Hb' & _); auto.
      subst j; destruct (b_valid (bufi s i)) eqn:V; [|by rewrite Hdisk].
      rewrite (bi_clean s Hi i) by auto; by rewrite Hdisk, Hb'.
    + apply find_buf_Some in E as (Hj & _).
      destruct (payload_fields _ _ (da_buf _ _ _ Hd j Hj Hji)) as (E1 & _ & _ & _ & _ & E6).
      by rewrite E1, E6, Hdisk.
  - intros b'; unfold bref; case_decide as Hne; [subst b'; rewrite Ef, Hr; done|].
    rewrite Ho by done; destruct (find_buf s b') as [j|] eqn:E; [|lia].
    case_decide as Hji.
    + destruct (got_unref s b i j b' Hi How) as (Hr' & _); auto; subst j; lia.
    + apply find_buf_Some in E as (Hj & _).
      destruct (payload_fields _ _ (da_buf _ _ _ Hd j Hj Hji)) as (_ & _ & _ & _ & -> & _); lia.
  - intros b'; unfold blocked; case_decide as Hne; [subst b'; by rewrite Ef, Hlk|].
    rewrite Ho by done; destruct (find_buf s b') as [j|] eqn:E; [|done].
    case_decide as Hji.
    + destruct (got_unref s b i j b' Hi How) as (Hr' & _ & _ & Hin'); auto; subst j.
      destruct (sl_locked (b_lock (bufi s i))) eqn:K; [|done].
      apply (bi_lock s Hi) in K; [lia|done].
    + apply find_buf_Some in E as (Hj & _).
      by destruct (payload_fields _ _ (da_buf _ _ _ Hd j Hj Hji)) as (_ & _ & _ & -> & _).
Qed.

Lemma bread_spec b c s :
  bio_inv s -> no_buf_locks c -> blocked s b = false -> bref s b + 1 < 2 ^ 32 ->
  (find_buf s b = None -> spare s) ->
  wp (bread D b) c s (fun i c' s' => c' = c /\ bread_post (c_pid c) s s' b i).
Proof.
  intros Hi Hno Hlk Hr Hsp; unfold bread; wp_step.
  eapply wp_mono; [by apply bget_spec|]; intros i c' s1 (-> & Hg & Hdata).
  wp_steps; pose proof Hg as [Hi1 Hd Hdisk Hin How Hdev Hb Hl Hr1 Hlru Hval].
  pose proof (bi_len _ Hi1) as Hl1.
  destruct (b_valid (bufi s1 i)) eqn:V; cbn [negb].
  - wp_steps; split; [done|]; eapply (got_bread _ s s1 s1); auto.
  - unfold virtio_disk_rw; wp_steps; split; [done|].
    set (f := fun b0 => set_bdisk false (set_data (dread (bc_disk s1) (b_blockno b0)) b0)).
    set (s2 := upd i f s1).
    assert (Hl2 : length (bc_buf s2) = 30%nat) by (unfold s2; by rewrite length_upd).
    assert (E2 : bufi s2 i = f (bufi s1 i)) by (unfold s2; by rewrite bufi_upd_eq).
    assert (E3 : bufi (upd i (set_valid true) s2) i = set_valid true (f (bufi s1 i)))
      by (by rewrite bufi_upd_eq, E2).
    assert (Hr0 : 0 <= bref s b).
    { unfold bref; destruct (find_buf s b) as [j|] eqn:E; [|lia].
      apply find_buf_Some in E as (Hj & _); by apply (bi_ref s Hi). }
    assert (Hi2 : bio_inv s2).
    { unfold s2; apply bio_inv_upd; auto; simpl; rewrite ?Hr1; try lia; try (by apply Hi1); auto.
      intros _ j Hj Hji Hdj Hbj; apply Hji, (bi_uniq s1 Hi1); auto; congruence. }
    eapply (got_bread _ s s1); [exact Hi|exact Hg|..]; rewrite ?E3; simpl; auto.
    + apply bio_inv_upd; auto; rewrite E2; simpl; rewrite ?Hr1; try lia; try (by apply Hi1); auto.
      intros _ j Hj Hji; unfold s2; rewrite bufi_upd_ne by auto; intros Hdj Hbj.
      apply Hji, (bi_uniq s1 Hi1); auto; congruence.
    + split; [by rewrite length_upd|]; intros j Hj Hji; unfold s2; rewrite !bufi_upd_ne by auto.
      by apply Hd.
    + rewrite Hb, Hdisk; unfold bview.
      destruct How as [Hh|[Hnone _]]; [|by rewrite Hnone].
      unfold hit in Hh; rewrite Hh.
      destruct (b_valid (bufi s i)) eqn:V'; [|done].
      discriminate (Hval Hh).
    + intros l Hl'; apply lru_upd; auto; unfold s2; apply lru_upd; auto.
Qed.

Lemma holds_find pid s i b : bio_inv s -> holds pid s i b -> find_buf s b = Some i.
Proof. intros Hi []; by apply find_buf_eq. Qed.

Lemma holds_view pid s i b : bio_inv s -> holds pid s i b -> bview s b = b_data (bufi s i).
Proof.
  intros Hi Hh; unfold bview; rewrite (holds_find _ _ _ _ Hi Hh); by rewrite (h_valid _ _ _ _ Hh).
Qed.

Lemma holds_bref pid s i b : bio_inv s -> holds pid s i b -> bref s b = b_refcnt (bufi s i).
Proof. intros Hi Hh; unfold bref; by rewrite (holds_find _ _ _ _ Hi Hh). Qed.

Lemma holds_blocked pid s i b : bio_inv s -> holds pid s i b -> blocked s b = true.
Proof.
  intros Hi Hh; unfold blocked; rewrite (holds_find _ _ _ _ Hi Hh); by rewrite (h_lock _ _ _ _ Hh).
Qed.

Lemma view_len s b : bio_inv s -> length (bview s b) = 1024%nat.
Proof.
  intros Hi; unfold bview; destruct (find_buf s b) as [i|] eqn:E; [|by apply Hi].
  apply find_buf_Some in E as [Hin _]; destruct (b_valid _); by apply Hi.
Qed.

(** Two states whose buffers have the same identities, and that agree outside
    buffer [i], which caches block [b]. *)
Lemma views_at i b s s' :
  bio_inv s -> in_cache i -> b_dev (bufi s i) = D -> b_blockno (bufi s i) = b ->
  differ_at i s s' -> b_dev (bufi s' i) = D -> b_blockno (bufi s' i) = b ->
  (forall b', b' <> b -> dread (bc_disk s') b' = dread (bc_disk s) b') ->
  (forall b', find_buf s' b' = find_buf s b') /\
  (forall b', b' <> b -> bview s' b' = bview s b') /\
  (forall b', b' <> b -> bref s' b' = bref s b') /\
  (forall b', b' <> b -> blocked s' b' = blocked s b').
Proof.
  intros Hi Hin Hdev Hb Hd Hdev' Hb' Hdisk.
  assert (Hf : forall b', find_buf s' b' = find_buf s b').
  { intros b'; apply find_buf_ext; intros j Hj; destruct (decide (j = i)) as [->|Hji].
    - split; congruence.
    - by destruct (payload_fields _ _ (da_buf _ _ _ Hd j Hj Hji)) as (_ & ? & ? & _). }
  split; [done|]; unfold bview, bref, blocked.
  split_and!; intros b' Hne; rewrite Hf;
    (destruct (find_buf s b') as [j|] eqn:E; [|auto]);
    apply find_buf_Some in E as (Hj & _ & Hbj);
    (assert (Hji : j <> i) by (intros ->; congruence));
    destruct (payload_fields _ _ (da_buf _ _ _ Hd j Hj Hji)) as (E1 & _ & _ & E2 & E3 & E4);
    rewrite ?E1, ?E2, ?E3, ?E4, ?Hdisk; auto.
Qed.

Lemma held_views pid i b s s' :
  bio_inv s -> bio_inv s' -> holds pid s i b -> holds pid s' i b -> differ_at i s s' ->
  (forall b', b' <> b -> dread (bc_disk s') b' = dread (bc_disk s) b') ->
  (forall b', bview s' b' = if decide (b' = b) then b_data (bufi s' i) else bview s b') /\
  (forall b', bref s' b' = if decide (b' = b) then b_refcnt (bufi s' i) else bref s b') /\
  (forall b', blocked s' b' = blocked s b').
Proof.
  intros Hi Hi' Hh Hh' Hd Hdisk; pose proof Hh as [Hin Hdv Hb _ _ _].
  destruct (views_at i b s s') as (_ & Hview & Hrf & Hbk); auto; [apply Hh' | apply Hh' |].
  split_and!; intros b'; try case_decide; subst; auto.
  - by apply (holds_view pid).
  - by apply (holds_bref pid).
  - destruct (decide (b' = b_blockno (bufi s i))) as [->|]; [|auto].
    rewrite (holds_blocked pid s i), (holds_blocked pid s' i); auto.
Qed.

Lemma if_same {A} {P : Prop} `{Decision P} (x y : A) : (P -> x = y) -> (if decide P then x else y) = y.
Proof. case_decide; auto. Qed.

Lemma dread_dwrite d b v b' :
  dread (dwrite d b v) b' = if decide (b' = b) then v else dread d b'.
Proof.
  unfold dread, dwrite, img_read; simpl; case_decide; subst.
  - by rewrite lookup_insert_eq.
  - by rewrite lookup_insert_ne.
Qed.

Lemma bio_inv_dwrite i b v s :
  bio_inv s -> in_cache i -> b_dev (bufi s i) = D -> b_blockno (bufi s i) = b ->
  0 < b_refcnt (bufi s i) -> length v = 1024%nat ->
  bio_inv (set_disk (dwrite (bc_disk s) b v) s).
Proof.
  intros [Hl [l Hlru] Href Hdev Huniq Hlock Hdata Hclean Hdisk] Hin Hd Hb Hr Hv.
  split; auto; simpl.
  - exists l; by apply lru_set_disk.
  - intros j Hj Hdj Hrj Hvj; change (bufi (set_disk _ s) j) with (bufi s j) in *.
    rewrite dread_dwrite; case_decide as E; [|by apply Hclean].
    assert (j = i) by (apply Huniq; auto; congruence); subst; lia.
  - intros b'; rewrite dread_dwrite; by case_decide.
Qed.

Lemma bwrite_spec i b c s :
  bio_inv s -> no_buf_locks c -> holds (c_pid c) s i b ->
  wp (bwrite i) c s (fun _ c' s' =>
    c' = c /\ bio_inv s' /\ bc_disk s' = dwrite (bc_disk s) b (b_data (bufi s i)) /\
    differ_at i s s' /\ holds (c_pid c) s' i b /\ b_data (bufi s' i) = b_data (bufi s i) /\
    (forall b', bview s' b' = bview s b') /\ (forall b', bref s' b' = bref s b') /\
    (forall b', blocked s' b' = blocked s b')).
Proof.
  intros Hi [Hbc Hbl] Hh; pose proof Hh as [Hin Hd Hb Hv Hlk Hr].
  unfold bwrite, buf_holdingsleep; wp_step.
  eapply wp_mono; [by apply holdingsleep_spec|]; intros r c' s1 (-> & -> & ->).
  rewrite Hlk; cbn [sl_locked sl_pid]; rewrite Z.eqb_refl; cbn [andb negb].
  unfold virtio_disk_rw; wp_steps; rewrite Hb.
  set (d := dwrite (bc_disk s) b (b_data (bufi s i))).
  assert (Hi1 : bio_inv (set_disk d s)).
  { apply (bio_inv_dwrite i); auto; by apply Hi. }
  set (s1 := set_disk d s) in *.
  assert (Hl := bi_len _ Hi); assert (Hl1 := bi_len _ Hi1).
  assert (E1 : bufi (upd i (set_bdisk false) s1) i = set_bdisk false (bufi s i))
    by exact (bufi_upd_eq _ _ s1 Hl1 Hin).
  set (s2 := upd i (set_bdisk false) s1) in *.
  assert (Hi2 : bio_inv s2).
  { apply bio_inv_upd; auto; try (by apply Hi1).
    intros _ j Hj Hji Hdj Hbj; apply Hji, (bi_uniq s Hi); auto. }
  assert (Hd2 : differ_at i s s2).
  { split; [by apply Hi2|]; intros j Hj Hji; unfold s2; by rewrite bufi_upd_ne by auto. }
  assert (Hh2 : holds (c_pid c) s2 i b) by (by split; rewrite ?E1).
  destruct (held_views (c_pid c) i b s s2) as (Hview & Hrf & Hbk); auto.
  { intros b' Hne; simpl; unfold d; rewrite dread_dwrite; by case_decide. }
  rewrite E1 in *; split_and!; auto.
  - intros b'; rewrite Hview; apply if_same; intros ->; by rewrite (holds_view (c_pid c) s i).
  - intros b'; rewrite Hrf; apply if_same; intros ->; by rewrite (holds_bref (c_pid c) s i).
Qed.

Lemma bmodify_spec i b f c s :
  bio_inv s -> holds (c_pid c) s i b -> length (f (b_data (bufi s i))) = 1024%nat ->
  wp (bmodify i f) c s (fun _ c' s' =>
    c' = c /\ bio_inv s' /\ bc_disk s' = bc_disk s /\
    differ_at i s s' /\ holds (c_pid c) s' i b /\ b_data (bufi s' i) = f (b_data (bufi s i)) /\
    (forall b', bview s' b' = if decide (b' = b) then f (bview s b) else bview s b') /\
    (forall b', bref s' b' = bref s b') /\ (forall b', blocked s' b' = blocked s b')).
Proof.
  intros Hi Hh Hlen; pose proof Hh as [Hin Hd Hb Hv Hlk Hr]; unfold bmodify; wp_step.
  assert (Hl := bi_len _ Hi).
  set (g := fun x => set_data (f (b_data x)) x).
  assert (E1 : bufi (upd i g s) i = g (bufi s i)) by (by apply bufi_upd_eq).
  set (s2 := upd i g s) in *.
  assert (Hi2 : bio_inv s2).
  { apply bio_inv_upd; auto; simpl; try (by apply Hi); try lia.
    intros _ j Hj Hji Hdj Hbj; apply Hji, (bi_uniq s Hi); auto. }
  assert (Hd2 : differ_at i s s2) by (by apply upd_differ).
  assert (Hh2 : holds (c_pid c) s2 i b) by (by split; rewrite ?E1).
  destruct (held_views (c_pid c) i b s s2) as (Hview & Hrf & Hbk); auto.
  rewrite E1 in *; split_and!; auto.
  - intros b'; rewrite Hview; case_decide; [|done]; by rewrite (holds_view (c_pid c) s i b).
  - intros b'; rewrite Hrf; apply if_same; intros ->; by rewrite (holds_bref (c_pid c) s i).
Qed.

(** [bpin] and [bunpin]: change the reference count of a held buffer. *)
Lemma refcnt_upd_spec i b r c s :
  bio_inv s -> holds (c_pid c) s i b -> 0 < r < 2 ^ 32 ->
  let s' := upd i (set_refcnt r) s in
  bio_inv s' /\ bc_disk s' = bc_disk s /\ differ_at i s s' /\ holds (c_pid c) s' i b /\
  b_data (bufi s' i) = b_data (bufi s i) /\
  (forall b', bview s' b' = bview s b') /\
  (forall b', bref s' b' = if decide (b' = b) then r else bref s b') /\
  (forall b', blocked s' b' = blocked s b').
Proof.
  intros Hi Hh Hr' s2; pose proof Hh as [Hin Hd Hb Hv Hlk Hr]; assert (Hl := bi_len _ Hi).
  assert (E1 : bufi s2 i = set_refcnt r (bufi s i)) by (by apply bufi_upd_eq).
  assert (Hi2 : bio_inv s2).
  { apply bio_inv_upd; auto; simpl; try (by apply Hi); try lia.
    intros _ j Hj Hji Hdj Hbj; apply Hji, (bi_uniq s Hi); auto. }
  assert (Hd2 : differ_at i s s2) by (by apply upd_differ).
  assert (Hh2 : holds (c_pid c) s2 i b) by (by split; rewrite ?E1; simpl; try lia).
  destruct (held_views (c_pid c) i b s s2) as (Hview & Hrf & Hbk); auto.
  rewrite E1 in *; split_and!; auto.
  intros b'; rewrite Hview; apply if_same; intros ->; by rewrite (holds_view (c_pid c) s i).
Qed.

Lemma bpin_spec i b c s :
  bio_inv s -> no_buf_locks c -> holds (c_pid c) s i b -> bref s b + 1 < 2 ^ 32 ->
  wp (bpin i) c s (fun _ c' s' =>
    c' = c /\ bio_inv s' /\ bc_disk s' = bc_disk s /\ differ_at i s s' /\
    holds (c_pid c) s' i b /\ b_data (bufi s' i) = b_data (bufi s i) /\
    (forall b', bview s' b' = bview s b') /\
    (forall b', bref s' b' = if decide (b' = b) then bref s b + 1 else bref s b') /\
    (forall b', blocked s' b' = blocked s b')).
Proof.
  intros Hi [Hbc _] Hh Hr; unfold bpin; wp_steps; split; [by destruct c|].
  rewrite (holds_bref _ _ _ _ Hi Hh) in *; pose proof (h_ref _ _ _ _ Hh).
  rewrite u32_small by lia; apply refcnt_upd_spec; auto; lia.
Qed.

Lemma bunpin_spec i b c s :
  bio_inv s -> no_buf_locks c -> holds (c_pid c) s i b -> 1 < bref s b ->
  wp (bunpin i) c s (fun _ c' s' =>
    c' = c /\ bio_inv s' /\ bc_disk s' = bc_disk s /\ differ_at i s s' /\
    holds (c_pid c) s' i b /\ b_data (bufi s' i) = b_data (bufi s i) /\
    (forall b', bview s' b' = bview s b') /\
    (forall b', bref s' b' = if decide (b' = b) then bref s b - 1 else bref s b') /\
    (forall b', blocked s' b' = blocked s b')).
Proof.
  intros Hi [Hbc _] Hh Hr; unfold bunpin; wp_steps; split; [by destruct c|].
  rewrite (holds_bref _ _ _ _ Hi Hh) in *; pose proof (bi_ref _ Hi _ (h_in _ _ _ _ Hh)).
  rewrite u32_small by lia; apply refcnt_upd_spec; auto; lia.
Qed.

(** Changing links keeps the invariant and every view. *)
Lemma same_payload_fields s s' i :
  same_payload s s' -> in_cache i ->
  b_valid (bufi s' i) = b_valid (bufi s i) /\ b_dev (bufi s' i) = b_dev (bufi s i) /\
  b_blockno (bufi s' i) = b_blockno (bufi s i) /\ b_lock (bufi s' i) = b_lock (bufi s i) /\
  b_refcnt (bufi s' i) = b_refcnt (bufi s i) /\ b_data (bufi s' i) = b_data (bufi s i).
Proof. intros Hs Hi; apply payload_fields, (sp_buf _ _ Hs i Hi). Qed.

Lemma same_payload_inv s s' l : same_payload s s' -> lru s' l -> bio_inv s -> bio_inv s'.
Proof.
  intros Hs Hl [H1 _ H3 H4 H5 H6 H7 H8 H9].
  split; [by rewrite (sp_len _ _ Hs)|by exists l|..]; rewrite ?(sp_disk _ _ Hs); auto.
  - intros i Hi; destruct (same_payload_fields _ _ i Hs Hi) as (_ & _ & _ & _ & -> & _); auto.
  - intros i Hi; destruct (same_payload_fields _ _ i Hs Hi) as (_ & -> & _ & _ & -> & _); auto.
  - intros i j Hi Hj; destruct (same_payload_fields _ _ i Hs Hi) as (_ & -> & -> & _).
    destruct (same_payload_fields _ _ j Hs Hj) as (_ & -> & -> & _); auto.
  - intros i Hi; destruct (same_payload_fields _ _ i Hs Hi) as (_ & _ & _ & -> & -> & _); auto.
  - intros i Hi; destruct (same_payload_fields _ _ i Hs Hi) as (_ & _ & _ & _ & _ & ->); auto.
  - intros i Hi; destruct (same_payload_fields _ _ i Hs Hi) as (-> & -> & -> & _ & -> & ->); auto.
Qed.

Lemma same_payload_views s s' b :
  same_payload s s' ->
  find_buf s' b = find_buf s b /\ bview s' b = bview s b /\ bref s' b = bref s b /\
  blocked s' b = blocked s b.
Proof.
  intros Hs.
  assert (Hf : find_buf s' b = find_buf s b).
  { apply find_buf_ext; intros j Hj.
    by destruct (same_payload_fields _ _ j Hs Hj) as (_ & ? & ? & _). }
  split; [done|]; unfold bview, bref, blocked; rewrite Hf, (sp_disk _ _ Hs).
  destruct (find_buf s b) as [j|] eqn:E; [|auto]; apply find_buf_Some in E as [Hj _].
  destruct (same_payload_fields _ _ j Hs Hj) as (-> & _ & _ & -> & -> & ->); auto.
Qed.

(** The state of [brelse] before the LRU list is touched. *)
Definition unlocked (i : Z) (s : bio) : bio :=
  upd i (fun b => set_refcnt (b_refcnt b - 1) (set_lock sl_init b)) s.

Record brelse_post (s s' : bio) (b i : Z) : Prop := {
  rl_inv : bio_inv s';
  rl_differ : differ_at i s s';
  rl_disk : bc_disk s' = bc_disk s;
  rl_view : forall b', bview s' b' = bview s b';
  rl_ref : forall b', bref s' b' = bref s b' - (if decide (b' = b) then 1 else 0);
  rl_blocked : forall b', blocked s' b' = (if decide (b' = b) then false else blocked s b');
  rl_lru : forall l1 l2, lru s (l1 ++ i :: l2) ->
    lru s' (if decide (bref s b = 1) then i :: l1 ++ l2 else l1 ++ i :: l2)
}.

Lemma unlocked_spec i b pid s :
  bio_inv s -> holds pid s i b ->
  (bref s b = 1 -> b_data (bufi s i) = dread (bc_disk s) b) ->
  let s' := unlocked i s in
  bio_inv s' /\ differ_at i s s' /\
  (forall b', bview s' b' = bview s b') /\
  (forall b', bref s' b' = bref s b' - (if decide (b' = b) then 1 else 0)) /\
  (forall b', blocked s' b' = (if decide (b' = b) then false else blocked s b')).
Proof.
  intros Hi Hh Hcl s2; pose proof Hh as [Hin Hd Hb Hv Hlk Hr]; assert (Hl := bi_len _ Hi).
  pose proof (holds_bref _ _ _ _ Hi Hh) as Hbr.
  assert (E1 : bufi s2 i = set_refcnt (b_refcnt (bufi s i) - 1) (set_lock sl_init (bufi s i)))
    by (by apply (bufi_upd_eq i)).
  pose proof (bi_ref _ Hi _ Hin).
  assert (Hi2 : bio_inv s2).
  { apply bio_inv_upd; auto; simpl; try (by apply Hi); try lia; try done.
    - intros _ j Hj Hji Hdj Hbj; apply Hji, (bi_uniq s Hi); auto.
    - intros; rewrite Hb; apply Hcl; lia. }
  assert (Hd2 : differ_at i s s2) by (by apply upd_differ).
  destruct (views_at i b s s2) as (Hf & Hview & Hrf & Hbk); auto; rewrite ?E1; auto.
  assert (Hfb : find_buf s b = Some i) by (by eapply holds_find).
  split_and!; auto; intros b'; destruct (decide (b' = b)) as [->|].
  - rewrite (holds_view _ _ _ _ Hi Hh); unfold bview; rewrite Hf, Hfb, E1; simpl; by rewrite Hv.
  - auto.
  - unfold bref at 1; rewrite Hf, Hfb, E1; simpl; lia.
  - rewrite Hrf by done; lia.
  - unfold blocked at 1; by rewrite Hf, Hfb, E1.
  - auto.
Qed.

Lemma upd_upd i f g s :
  length (bc_buf s) = 30%nat -> in_cache i -> upd i g (upd i f s) = upd i (fun b => g (f b)) s.
Proof.
  intros Hl Hi; unfold upd at 1; rewrite bufi_upd_eq by done.
  unfold upd, aset, in_cache in *; simpl; f_equal; by rewrite list_insert_insert_eq.
Qed.

Lemma brelse_spec i b c s :
  bio_inv s -> no_buf_locks c -> holds (c_pid c) s i b ->
  (bref s b = 1 -> b_data (bufi s i) = dread (bc_disk s) b) ->
  wp (brelse i) c s (fun _ c' s' => c' = c /\ brelse_post s s' b i).
Proof.
  intros Hi [Hbc Hbl] Hh Hcl; pose proof Hh as [Hin Hd Hb Hv Hlk Hr]; assert (Hl := bi_len _ Hi).
  pose proof (holds_bref _ _ _ _ Hi Hh) as Hbr; pose proof (bi_ref _ Hi _ Hin).
  unfold brelse, buf_holdingsleep, buf_releasesleep; wp_step.
  eapply wp_mono; [by apply holdingsleep_spec|]; intros r c' s1 (-> & -> & ->).
  rewrite Hlk; cbn [sl_locked sl_pid]; rewrite Z.eqb_refl; cbn [andb negb]; wp_step.
  eapply wp_mono; [by apply releasesleep_spec|]; intros r c' s1 (-> & ->).
  wp_steps; rewrite (bufi_upd_eq i (set_lock _) s Hl Hin), upd_upd by done; cbn [b_refcnt set_lock].
  rewrite u32_small by lia.
  change (upd i _ s) with (unlocked i s).
  destruct (unlocked_spec i b (c_pid c) s) as (Hi2 & Hd2 & Hv2 & Hr2 & Hk2); auto.
  assert (Hlu : forall l, lru s l -> lru (unlocked i s) l).
  { intros l Hls; apply lru_upd; auto. }
  assert (E1 : b_refcnt (bufi (unlocked i s) i) = b_refcnt (bufi s i) - 1)
    by (unfold unlocked; by rewrite bufi_upd_eq).
  rewrite E1; destruct (Z.eqb_spec (b_refcnt (bufi s i) - 1) 0) as [Hz|Hz]; wp_steps;
    (split; [by destruct c|]).
  2:{ split; auto; intros l1 l2 Hls; rewrite decide_False by lia; auto. }
  destruct (bi_lru _ Hi2) as [l Hlr].
  assert (Hil : i ∈ l).
  { destruct Hlr as [_ ->]; apply elem_of_zrange; unfold in_cache in *; lia. }
  apply list_elem_of_split in Hil as (k1 & k2 & ->).
  destruct (move_to_front_lru i (unlocked i s) k1 k2) as [Hlr' Hsp]; [by apply Hi2|done|].
  split.
  - by eapply same_payload_inv.
  - destruct Hd2 as [Hd2l Hd2b]; split; [by rewrite (sp_len _ _ Hsp)|].
    intros j Hj Hji; rewrite (sp_buf _ _ Hsp j Hj); auto.
  - by rewrite (sp_disk _ _ Hsp).
  - intros b'; destruct (same_payload_views _ _ b' Hsp) as (_ & -> & _); auto.
  - intros b'; destruct (same_payload_views _ _ b' Hsp) as (_ & _ & -> & _); auto.
  - intros b'; destruct (same_payload_views _ _ b' Hsp) as (_ & _ & _ & ->); auto.
  - intros l1 l2 Hls; rewrite decide_True by lia.
    by apply move_to_front_lru; [apply Hi2 | apply Hlu].
Qed.

(** Fewer than [NBUF] blocks in use leave a buffer to recycle. *)
Lemma spare_intro s (act : list Z) :
  bio_inv s -> (forall b, 0 < bref s b -> b ∈ act) -> (length act < 30)%nat -> spare s.
Proof.
  intros Hi Hact Hlen.
  destruct (decide (Exists (fun i => b_refcnt (bufi s i) = 0) (zrange 0 30))) as [E|E].
  { apply Exists_exists in E as (i & Hin & Hz); exists i; split; [|done].
    apply elem_of_zrange in Hin; unfold in_cache; lia. }
  exfalso.
  assert (Hpos : forall i, in_cache i -> 0 < b_refcnt (bufi s i)).
  { intros i Hin; pose proof (bi_ref s Hi i Hin).
    destruct (decide (b_refcnt (bufi s i) = 0)); [|lia]; exfalso; apply E, Exists_exists.
    exists i; split; [apply elem_of_zrange; unfold in_cache in *; lia|done]. }
  assert (Hdev : forall i, in_cache i -> b_dev (bufi s i) = D).
  { intros i Hin; destruct (bi_dev s Hi i Hin) as [[_ Hz]|]; [|done]; specialize (Hpos i Hin); lia. }
  assert (Hsub : map (fun i => b_blockno (bufi s i)) (zrange 0 30) ⊆+ act).
  { apply NoDup_submseteq.
    - apply NoDup_fmap_2_strong; [|apply NoDup_zrange].
      intros i j; rewrite !elem_of_zrange; intros Hx Hy Hb.
      assert (in_cache i) by (unfold in_cache; lia); assert (in_cache j) by (unfold in_cache; lia).
      apply (bi_uniq s Hi); auto.
    - intros b; rewrite list_elem_of_fmap; intros (i & -> & Hx); apply elem_of_zrange in Hx.
      assert (Hin : in_cache i) by (unfold in_cache; lia).
      apply Hact; unfold bref; rewrite (find_buf_eq s _ i) by auto; auto. }
  apply submseteq_length in Hsub; rewrite length_map, length_zrange in Hsub; lia.
Qed.

(** With [NBUF] blocks in use every buffer holds one of them. *)
Lemma all_used s (act : list Z) :
  bio_inv s -> NoDup act -> length act = 30%nat -> (forall b, b ∈ act -> 0 < bref s b) ->
  forall i, in_cache i -> b_dev (bufi s i) = D /\ b_blockno (bufi s i) ∈ act /\ 0 < b_refcnt (bufi s i).
Proof.
  intros Hi Hnd Hlen Hact i Hin.
  set (f := fun b => default 0 (find_buf s b)).
  assert (Hf : forall b, b ∈ act -> find_buf s b = Some (f b) /\ 0 < b_refcnt (bufi s (f b))).
  { intros b Hb; specialize (Hact b Hb); unfold bref, f in *.
    destruct (find_buf s b); simpl; [auto|lia]. }
  assert (Hsub : f <$> act ⊆+ zrange 0 30).
  { apply NoDup_submseteq.
    - apply NoDup_fmap_2_strong; [|done]; intros x y Hx Hy E.
      destruct (Hf x Hx) as [Ex _], (Hf y Hy) as [Ey _]; rewrite E in Ex.
      apply find_buf_Some in Ex as (_ & _ & Ex); apply find_buf_Some in Ey as (_ & _ & Ey).
      etrans; [symmetry; exact Ex|exact Ey].
    - intros k; rewrite list_elem_of_fmap; intros (b & -> & Hb); destruct (Hf b Hb) as [E _].
      apply find_buf_Some in E as [Hk _]; apply elem_of_zrange; unfold in_cache in Hk; lia. }
  apply submseteq_length_Permutation in Hsub; [|rewrite length_fmap, length_zrange; lia].
  assert (Hk : i ∈ f <$> act) by (rewrite Hsub; apply elem_of_zrange; unfold in_cache in Hin; lia).
  apply list_elem_of_fmap in Hk as (b & -> & Hb); destruct (Hf b Hb) as [E Hr].
  apply find_buf_Some in E as (_ & Hd & Hb'); by rewrite Hb'.
Qed.

(** [bget] of a block that is not cached, with every buffer referenced. *)
Lemma bread_exhausted b c s :
  bio_inv s -> BCACHE ∉ c_held c -> find_buf s b = None -> ~ spare s ->
  bread D b c s = Panic "bget: no buffers".
Proof.
  intros Hi Hc Hf Hsp; destruct (bi_lru s Hi) as [l Hl].
  assert (E1 := scan_hit s l b Hi Hl); rewrite Hf in E1; simpl in E1.
  assert (E2 : scan_prev scan_fuel (fun x => b_refcnt x =? 0) s (prv s HEAD) = Some HEAD).
  { rewrite (scan_prev_spec _ _ _ l); [|apply Hl|by eapply lru_head|by eapply lru_length].
    destruct (List.find _ (reverse l)) as [i|] eqn:F; [|done].
    apply List.find_some in F as [Hin F%Z.eqb_eq]; apply list_elem_of_In in Hin.
    rewrite elem_of_reverse in Hin; exfalso; apply Hsp; exists i; split; [|done].
    by apply (lru_nodes _ _ Hl). }
  unfold bread; apply bind_panic; unfold bget.
  eapply bind_ret_panic; [by apply acquire_ret|]; eapply bind_ret_panic; [reflexivity|]; cbv beta.
  rewrite E1, Z.eqb_refl; cbn [negb]; rewrite E2, Z.eqb_refl; reflexivity.
Qed.

(** ** Initialisation *)

(** The state [binit] leaves: every buffer empty, the last one linked in front. *)
Definition booted (d : disk) : bio :=
  Bio d (map (fun i => Buf false false 0 0 sl_init 0 (if i =? 29 then 30 else i + 1)
                         (if i =? 0 then 30 else i - 1) zero_block) (zrange 0 30)) 0 29.

Lemma binit_run d c : binit c (bss_bio d) = Ret tt c (booted d) [].
Proof. destruct c; vm_compute; reflexivity. Qed.

Lemma booted_lru d : lru (booted d) (rev (zrange 0 30)).
Proof.
  split; [vm_compute; repeat split|]; symmetry; apply Permutation_rev.
Qed.

Lemma booted_buf d i : in_cache i ->
  payload (bufi (booted d) i) = buf0.
Proof.
  intros [Hi0 Hi]; unfold bufi, booted; cbn [bc_buf].
  erewrite aget_lookup; [|done|rewrite list_lookup_fmap, lookup_zrange by lia; reflexivity]; done.
Qed.

Lemma booted_inv d :
  (forall b, length (dread d b) = 1024%nat) -> bio_inv (booted d).
Proof.
  intros Hd; pose proof (booted_buf d) as Hb.
  assert (Hf : forall i, in_cache i -> b_valid (bufi (booted d) i) = false /\
    b_dev (bufi (booted d) i) = 0 /\ b_lock (bufi (booted d) i) = sl_init /\
    b_refcnt (bufi (booted d) i) = 0 /\ b_data (bufi (booted d) i) = zero_block).
  { intros i Hi; specialize (Hb i Hi); destruct (bufi (booted d) i); unfold payload in Hb.
    simpl in *; by injection Hb as -> -> -> -> -> -> ->. }
  split; auto; try (intros i Hi; destruct (Hf i Hi) as (E1 & E2 & E3 & E4 & E5); rewrite ?E1, ?E2, ?E3, ?E4, ?E5; auto; done).
  - eexists; apply booted_lru.
  - intros i j Hi _; destruct (Hf i Hi) as (_ & -> & _); congruence.
Qed.

Lemma booted_views d b :
  find_buf (booted d) b = None /\ bview (booted d) b = dread d b /\ bref (booted d) b = 0 /\
  blocked (booted d) b = false.
Proof.
  assert (E : find_buf (booted d) b = None).
  { destruct (find_buf (booted d) b) as [i|] eqn:E; [|done].
    apply find_buf_Some in E as (Hi & Hdev & _); pose proof (booted_buf d i Hi) as Hb.
    destruct (bufi (booted d) i); unfold payload in Hb; cbn in Hdev, Hb; injection Hb; congruence. }
  by unfold bview, bref, blocked; rewrite E.
Qed.

(** ** The cache against a plain block store *)

(** What [readsb], [write_head] and their like do: read a block and let it go,
    or overwrite one and write it through. *)
Definition read_block (b : Z) : M bio block :=
  let! i := bread D b in
  let! v := bdata i in
  do! brelse i;
  ret v.

Definition write_block (b : Z) (v : block) : M bio unit :=
  let! i := bread D b in
  do! bmodify i (fun _ => v);
  do! bwrite i;
  brelse i.

(** Nobody holds a reference. *)
Record quiet (s : bio) : Prop := {
  q_inv : bio_inv s;
  q_ref : forall b, bref s b = 0
}.

Lemma quiet_free s b : quiet s -> blocked s b = false /\ spare s.
Proof.
  intros [Hi Hr]; split.
  - unfold blocked; destruct (find_buf s b) as [i|] eqn:E; [|done].
    specialize (Hr b); unfold bref in Hr; rewrite E in Hr.
    destruct (sl_locked _) eqn:K; [|done]; apply find_buf_Some in E as [Hin _].
    apply (bi_lock s Hi) in K; [lia|done].
  - apply (spare_intro s []); [done| |simpl; lia]; intros b'; rewrite Hr; lia.
Qed.

Lemma quiet_view s b : quiet s -> bview s b = dread (bc_disk s) b.
Proof.
  intros [Hi Hr]; unfold bview; destruct (find_buf s b) as [i|] eqn:E; [|done].
  specialize (Hr b); unfold bref in Hr; rewrite E in Hr.
  apply find_buf_Some in E as (Hin & Hd & Hb); destruct (b_valid _) eqn:V; [|done].
  rewrite (bi_clean s Hi i) by done; by rewrite Hb.
Qed.

(** The buffer a quiet cache uses for block [b], and the order it leaves. *)
Definition victim (s : bio) (l : list Z) (b : Z) : Z :=
  match find_buf s b with Some i => i | None => List.last l 0 end.

Lemma path_det s x l l' y y' :
  path s x l y -> path s x l' y' -> length l = length l' -> l = l'.
Proof.
  revert x l'; induction l as [|z l IH]; intros x [|z' l'] Hp Hp' Hlen; try done; simpl in *.
  destruct Hp as (E1 & _ & Hp), Hp' as (E2 & _ & Hp'); f_equal; [congruence|].
  eapply IH; [exact Hp| |lia]; by rewrite <- E1, E2.
Qed.

Lemma lru_unique s l l' : lru s l -> lru s l' -> l = l'.
Proof.
  intros [Hp E] [Hp' E']; eapply path_det; eauto.
  apply Permutation_length in E, E'; congruence.
Qed.

Lemma quiet_refcnt s i : quiet s -> in_cache i -> b_refcnt (bufi s i) = 0.
Proof.
  intros [Hi Hr] Hin; destruct (bi_dev s Hi i Hin) as [[_ ?]|Hd]; [done|].
  specialize (Hr (b_blockno (bufi s i))); unfold bref in Hr.
  by rewrite (find_buf_eq s _ i) in Hr.
Qed.

Lemma victim_eq s l b i :
  quiet s -> lru s l -> hit s b i \/ recycled s b i ->
  i = victim s l b /\ exists l1 l2, l = l1 ++ i :: l2.
Proof.
  intros Hq Hl How; unfold victim, hit in *.
  destruct How as [E|(-> & l1 & l2 & Hl' & Hz & Hnz)].
  - rewrite E; split; [done|]; apply list_elem_of_split.
    apply find_buf_Some in E as [Hin _]; destruct Hl as [_ ->].
    apply elem_of_zrange; unfold in_cache in *; lia.
  - rewrite (lru_unique _ _ _ Hl Hl'); split; [|by exists l1, l2].
    destruct l2 as [|j l2]; [by rewrite List.last_last|].
    exfalso; apply (Hnz j); [by left|]; apply quiet_refcnt; [done|].
    apply (lru_nodes s _ Hl'); elt.
Qed.

Lemma filter_absent (i : Z) (l : list Z) : i ∉ l -> filter (fun j => j <> i) l = l.
Proof.
  induction l as [|x l IH]; intros Hi; [done|]; apply not_elem_of_cons in Hi as [Hx Hi].
  rewrite filter_cons_True by auto; by rewrite IH.
Qed.

Lemma filter_out (i : Z) (l1 l2 : list Z) :
  NoDup (l1 ++ i :: l2) -> filter (fun j => j <> i) (l1 ++ i :: l2) = l1 ++ l2.
Proof.
  intros Hnd; apply NoDup_app in Hnd as (_ & H1 & H2); apply NoDup_cons in H2 as [H2 _].
  rewrite filter_app, filter_cons_False, !filter_absent; auto.
  intros Hi; apply (H1 i Hi); by left.
Qed.

Lemma read_block_spec b c s l :
  quiet s -> no_buf_locks c -> lru s l ->
  wp (read_block b) c s (fun v c' s' =>
    c' = c /\ quiet s' /\ bc_disk s' = bc_disk s /\ v = dread (bc_disk s) b /\
    lru s' (victim s l b :: filter (fun j => j <> victim s l b) l)).
Proof.
  intros Hq Hno Hl; destruct (quiet_free s b Hq) as [Hb Hsp]; pose proof Hq as [Hi Hr].
  unfold read_block, bdata; wp_step.
  eapply wp_mono; [apply bread_spec; auto; rewrite Hr; lia|]; intros i c' s1 (-> & Hp).
  pose proof Hp as [Hi1 Hd1 Hdk1 How Hh1 Hdat Hv1 Hr1 Hbk1 Hl1].
  destruct (victim_eq s l b i Hq Hl How) as (<- & l1 & l2 & ->).
  wp_steps; eapply wp_mono; [apply (brelse_spec i b); auto|].
  { intros _; by rewrite Hdat, Hdk1, quiet_view. }
  intros _ c' s2 (-> & [Hi2 Hd2 Hdk2 Hv2 Hr2 Hbk2 Hl2]); wp_steps.
  split_and!; auto; try congruence.
  - split; [done|]; intros b'; rewrite Hr2, Hr1, Hr; case_decide; lia.
  - by rewrite Hdat, quiet_view.
  - rewrite filter_out by (destruct Hl as [_ ->]; apply NoDup_zrange).
    specialize (Hl2 l1 l2 (Hl1 _ Hl)); rewrite decide_True in Hl2; [done|].
    rewrite Hr1, Hr, decide_True; done.
Qed.

Lemma write_block_spec b v c s :
  quiet s -> no_buf_locks c -> length v = 1024%nat ->
  wp (write_block b v) c s (fun _ c' s' =>
    c' = c /\ quiet s' /\ bc_disk s' = dwrite (bc_disk s) b v).
Proof.
  intros Hq Hno Hlen; destruct (quiet_free s b Hq) as [Hb Hsp]; pose proof Hq as [Hi Hr].
  unfold write_block; wp_step.
  eapply wp_mono; [apply bread_spec; auto; rewrite Hr; lia|]; intros i c' s1 (-> & Hp).
  pose proof Hp as [Hi1 Hd1 Hdk1 How Hh1 Hdat Hv1 Hr1 Hbk1 Hl1]; wp_step.
  eapply wp_mono; [by apply (bmodify_spec i b)|].
  intros _ c' s2 (-> & Hi2 & Hdk2 & Hd2 & Hh2 & Hdat2 & Hv2 & Hr2 & Hbk2); wp_step.
  eapply wp_mono; [by apply (bwrite_spec i b)|].
  intros _ c' s3 (-> & Hi3 & Hdk3 & Hd3 & Hh3 & Hdat3 & Hv3 & Hr3 & Hbk3).
  eapply wp_mono; [apply (brelse_spec i b); auto|].
  { intros _; rewrite Hdk3, dread_dwrite, decide_True; done. }
  intros _ c' s4 (-> & [Hi4 Hd4 Hdk4 Hv4 Hr4 Hbk4 Hl4]).
  split_and!; auto.
  - split; [done|]; intros b'; rewrite Hr4, Hr3, Hr2, Hr1, Hr; case_decide; lia.
  - by rewrite Hdk4, Hdk3, Hdat2, Hdk2, Hdk1.
Qed.

(** A client's calls, and what each answers with a plain array of blocks. *)
Inductive store_op := StRead (b : Z) | StWrite (b : Z) (v : block).

Fixpoint cache_run (ops : list store_op) : M bio (list block) :=
  match ops with
  | [] => ret []
  | StRead b :: ops =>
      let! v := read_block b in
      let! vs := cache_run ops in
      ret (v :: vs)
  | StWrite b v :: ops => do! write_block b v; cache_run ops
  end.

Fixpoint store_run (ops : list store_op) (m : Z -> block) : list block * (Z -> block) :=
  match ops with
  | [] => ([], m)
  | StRead b :: ops => let r := store_run ops m in (m b :: r.1, r.2)
  | StWrite b v :: ops => store_run ops (fun b' => if decide (b' = b) then v else m b')
  end.

Definition store_op_ok (o : store_op) : Prop :=
  match o with StRead _ => True | StWrite _ v => length v = 1024%nat end.

Lemma cache_run_spec ops c s m :
  quiet s -> no_buf_locks c -> Forall store_op_ok ops ->
  (forall b, dread (bc_disk s) b = m b) ->
  wp (cache_run ops) c s (fun vs c' s' =>
    c' = c /\ quiet s' /\ vs = (store_run ops m).1 /\
    forall b, dread (bc_disk s') b = (store_run ops m).2 b).
Proof.
  revert s m; induction ops as [|o ops IH]; intros s m Hq Hno Hok Hm.
  { simpl; apply wp_ret; auto. }
  apply Forall_cons in Hok as [Ho Hok]; destruct o as [b|b v]; cbn [cache_run store_run]; wp_step.
  - destruct (bi_lru s (q_inv s Hq)) as [l Hl].
    eapply wp_mono; [by apply (read_block_spec b c s l)|].
    intros v c' s1 (-> & Hq1 & Hdk & -> & _); wp_step.
    eapply wp_mono; [apply (IH s1 m); auto; intros; by rewrite Hdk|].
    intros vs c' s2 (-> & Hq2 & -> & Hd2); wp_steps; split_and!; auto.
    by rewrite Hm.
  - eapply wp_mono; [by apply write_block_spec|].
    intros _ c' s1 (-> & Hq1 & Hdk); apply IH; auto.
    intros b'; rewrite Hdk, dread_dwrite; case_decide; auto.
Qed.

(** C3. The buffer cache is transparent.  From the state [binit] sets up, any
    sequence of block reads ([bread], use of the data, [brelse]) and writes
    ([bread], new data, [bwrite], [brelse]) runs to the end without a panic or a
    sleep, returns what the same sequence returns on a plain array of blocks,
    however often buffers were recycled on the way, leaves the array's final
    contents on the disk, releases every lock and every reference. *)
Theorem cache_refines_store ops c d :
  no_buf_locks c -> Forall store_op_ok ops -> (forall b, length (dread d b) = 1024%nat) ->
  wp (do! binit; cache_run ops) c (bss_bio d) (fun vs c' s' =>
    c' = c /\ quiet s' /\ vs = (store_run ops (dread d)).1 /\
    forall b, dread (bc_disk s') b = (store_run ops (dread d)).2 b).
Proof.
  intros Hno Hok Hd; apply wp_bind; unfold wp at 1; rewrite binit_run.
  apply cache_run_spec; auto; split; [by apply booted_inv|]; intros b; apply booted_views.
Qed.

(** Least recently used replacement.  With no reference held, a block read
    uses the buffer that caches the block or, on a miss, the buffer at the tail
    of the LRU list; afterwards that buffer is at the front of the list and the
    others keep their order. *)
Theorem read_block_lru_order b c s l :
  quiet s -> no_buf_locks c -> lru s l ->
  wp (read_block b) c s (fun v c' s' =>
    v = dread (bc_disk s) b /\
    lru s' (victim s l b :: filter (fun j => j <> victim s l b) l)).
Proof.
  intros; eapply wp_mono; [by apply (read_block_spec b c s l)|].
  by intros v c' s' (_ & _ & _ & ? & ?).
Qed.
End inv.

Definition disk0 : disk := Disk ∅ [].
Definition idle_ctx : ctx := Ctx 1 [].

Lemma cache_refines_store_witness :
  wp (do! binit; cache_run 1 [StWrite 7 (replicate 1024 5); StRead 7; StRead 8]) idle_ctx (bss_bio disk0)
    (fun vs c' s' => c' = idle_ctx /\ quiet 1 s' /\ vs = [replicate 1024 5; zero_block] /\
       forall b, dread (bc_disk s') b = if decide (b = 7) then replicate 1024 5 else dread disk0 b).
Proof.
  apply (cache_refines_store 1 (ltac:(done)) [StWrite 7 (replicate 1024 5); StRead 7; StRead 8]).
  - split; [|intros i]; by apply not_elem_of_nil.
  - repeat constructor.
  - intros b; reflexivity.
Defined.

Lemma read_block_lru_order_witness :
  wp (read_block 1 9) idle_ctx (booted disk0) (fun v c' s' =>
    v = zero_block /\ lru s' (0 :: rev (zrange 1 29))).
Proof.
  apply (read_block_lru_order 1 9 idle_ctx (booted disk0) (rev (zrange 0 30))).
  - split; [by apply booted_inv|]; intros b; by apply booted_views.
  - split; [|intros i]; by apply not_elem_of_nil.
  - apply booted_lru.
Defined.
