(* ===== verification/Session.v ===== *)
(** * Using the buffer cache: pinned and held blocks

    The state of the buffer cache between two calls of one thread that works on
    several blocks at a time, as [log.c] and [fs.c] do: a list of pinned blocks
    (those of the running log transaction) and a list of the buffers the thread
    holds.  Each operation of [bio.c] is given a rule on that state in terms of
    two functions from block numbers to contents: [bview], what a reader of the
    cache sees, and [dread], what is on the disk. *)

From S2P Require Import Prelude KMonad Riscv Sleeplock Bio.

Section session.
Context (D : Z) (HD : D <> 0).

Record session (pid : Z) (s : bio) (pins : list Z) (held : list (Z * Z)) : Prop := {
  ss_inv : bio_inv D s;
  ss_ref : forall b, bref D s b = b2z (bool_decide (b ∈ pins)) + b2z (bool_decide (b ∈ held.*2));
  ss_blocked : forall b, blocked D s b = bool_decide (b ∈ held.*2);
  ss_holds : forall i b, (i, b) ∈ held -> holds D pid s i b;
  ss_nodup : NoDup held.*2;
  ss_clean : forall b, b ∉ pins -> b ∉ held.*2 -> bview D s b = dread (bc_disk s) b
}.

Lemma b2z_range b : 0 <= b2z b <= 1.
Proof. destruct b; simpl; lia. Qed.

Lemma session_in pid s pins held i b : session pid s pins held -> (i, b) ∈ held -> b ∈ held.*2.
Proof. intros _ Hin; apply list_elem_of_fmap; by exists (i, b). Qed.

(** Held buffers other than the one an operation works on are not disturbed. *)
Lemma holds_others pid s s' pins held i b :
  session pid s pins held -> (i, b) ∈ held -> differ_at i s s' ->
  forall j b', (j, b') ∈ held -> b' <> b -> holds D pid s' j b'.
Proof.
  intros Hs Hin Hd j b' Hj Hne; pose proof (ss_holds _ _ _ _ Hs) as Hh.
  apply (holds_frame D pid s s' i); auto; intros ->.
  pose proof (Hh _ _ Hj) as [_ _ E1 _ _ _]; pose proof (Hh _ _ Hin) as [_ _ E2 _ _ _]; congruence.
Qed.

Lemma held_unique pid s pins held i j b :
  session pid s pins held -> (i, b) ∈ held -> (j, b) ∈ held -> i = j.
Proof.
  intros Hs Hi Hj; pose proof (ss_holds _ _ _ _ Hs _ _ Hi) as [? ? ? _ _ _].
  pose proof (ss_holds _ _ _ _ Hs _ _ Hj) as [? ? ? _ _ _].
  apply (bi_uniq D s (ss_inv _ _ _ _ Hs)); auto; congruence.
Qed.

Lemma session_bread pid s pins held b c :
  session pid s pins held -> no_buf_locks c -> c_pid c = pid ->
  b ∉ held.*2 -> (b ∉ pins -> (length (pins ++ held.*2) < 30)%nat) ->
  wp (bread D b) c s (fun i c' s' =>
    c' = c /\ session pid s' pins ((i, b) :: held) /\ bc_disk s' = bc_disk s /\
    b_data (bufi s' i) = bview D s b /\ (forall b', bview D s' b' = bview D s b')).
Proof.
  intros Hs Hno Hpid Hb Hsp; pose proof Hs as [Hi Hr Hk Hh Hnd Hcl].
  eapply wp_mono; [apply bread_spec; auto|].
  - by rewrite Hk, bool_decide_eq_false_2.
  - rewrite Hr; pose proof (b2z_range (bool_decide (b ∈ pins))).
    pose proof (b2z_range (bool_decide (b ∈ held.*2))); lia.
  - intros Hf; assert (Hbp : b ∉ pins).
    { intros Hin; specialize (Hr b); unfold bref in Hr; rewrite Hf in Hr.
      rewrite bool_decide_eq_true_2 in Hr by done; simpl in Hr.
      pose proof (b2z_range (bool_decide (b ∈ held.*2))); lia. }
    apply (spare_intro D s (pins ++ held.*2)); auto.
    intros b' Hb'; rewrite Hr in Hb'; rewrite elem_of_app.
    destruct (decide (b' ∈ pins)), (decide (b' ∈ held.*2)); auto.
    rewrite !bool_decide_eq_false_2 in Hb' by done; simpl in Hb'; lia.
  - intros i c' s' (-> & [Hi' Hd' Hdk' How' Hh' Hdat' Hv' Hr' Hb' Hl']).
    split_and!; auto; split; auto.
    + intros b'; rewrite Hr', Hr; cbn [fmap list_fmap snd].
      destruct (decide (b' = b)) as [->|Hne].
      * rewrite (bool_decide_eq_false_2 (b ∈ held.*2)) by done.
        rewrite (bool_decide_eq_true_2 (b ∈ b :: _)) by (by left); simpl; lia.
      * rewrite (bool_decide_ext (b' ∈ b :: held.*2) (b' ∈ held.*2)); [lia|].
        rewrite elem_of_cons; tauto.
    + intros b'; rewrite Hb', Hk; cbn [fmap list_fmap snd]; case_decide; subst.
      * by rewrite bool_decide_eq_true_2 by (by left).
      * apply bool_decide_ext; rewrite elem_of_cons; tauto.
    + intros j b'; rewrite elem_of_cons; intros [[= -> ->]|Hj]; [by subst|].
      apply (holds_frame D pid s s' i); auto; intros ->.
      specialize (Hh _ _ Hj); destruct How' as [E|(_ & l1 & l2 & _ & Hz & _)].
      * assert (b' = b); [|subst; apply Hb, (session_in _ _ _ _ _ _ Hs Hj)].
        apply find_buf_Some in E as (_ & _ & E); destruct Hh; congruence.
      * destruct Hh; lia.
    + by apply NoDup_cons.
    + intros b'; cbn [fmap list_fmap snd]; rewrite not_elem_of_cons, Hv', Hdk'; intros ? [? ?]; auto.
Qed.

(** A step of the holder of block [b] on its buffer [i]. *)
Lemma session_step pid s s' pins pins' held i b :
  session pid s pins held -> (i, b) ∈ held ->
  bio_inv D s' -> differ_at i s s' -> holds D pid s' i b ->
  (forall b', bref D s' b' = b2z (bool_decide (b' ∈ pins')) + b2z (bool_decide (b' ∈ held.*2))) ->
  (forall b', blocked D s' b' = blocked D s b') ->
  (forall b', b' ∉ pins' -> b' ∉ held.*2 -> bview D s' b' = dread (bc_disk s') b') ->
  session pid s' pins' held.
Proof.
  intros Hs Hin Hi' Hd' Hh' Hr' Hb' Hc'; split; auto.
  - intros b'; by rewrite Hb', (ss_blocked _ _ _ _ Hs).
  - intros j b' Hj; destruct (decide (b' = b)) as [->|]; [|by apply (holds_others _ _ _ _ _ _ _ Hs Hin Hd')].
    by rewrite <- (held_unique _ _ _ _ _ _ _ Hs Hin Hj).
  - apply Hs.
Qed.

Lemma session_bmodify pid s pins held i b f c :
  session pid s pins held -> c_pid c = pid -> (i, b) ∈ held ->
  length (f (bview D s b)) = 1024%nat ->
  wp (bmodify i f) c s (fun _ c' s' =>
    c' = c /\ session pid s' pins held /\ bc_disk s' = bc_disk s /\
    b_data (bufi s' i) = f (bview D s b) /\
    (forall b', bview D s' b' = if decide (b' = b) then f (bview D s b) else bview D s b')).
Proof.
  intros Hs <- Hin Hlen; pose proof Hs as [Hi Hr Hk Hh Hnd Hcl]; pose proof (Hh _ _ Hin) as Hhi.
  rewrite (holds_view D _ _ _ _ Hi Hhi) in Hlen.
  eapply wp_mono; [by apply (bmodify_spec D i b)|].
  intros _ c' s' (-> & Hi' & Hdk' & Hd' & Hh' & Hdat' & Hv' & Hr' & Hb').
  split_and!; auto; [|by rewrite (holds_view D _ _ _ _ Hi Hhi)].
  eapply session_step; eauto; [intros; by rewrite Hr', Hr|].
  intros b' Hp Hb; rewrite Hv', Hdk', decide_False; auto.
  intros ->; by apply Hb, (session_in _ _ _ _ _ _ Hs Hin).
Qed.

Lemma session_bdata pid s pins held i b c :
  session pid s pins held -> (i, b) ∈ held ->
  wp (bdata i) c s (fun v c' s' => c' = c /\ s' = s /\ v = bview D s b).
Proof.
  intros Hs Hin; unfold bdata; wp_steps; split_and!; auto; symmetry.
  eapply holds_view; [apply Hs|by apply Hs].
Qed.

Lemma session_bwrite pid s pins held i b c :
  session pid s pins held -> no_buf_locks c -> c_pid c = pid -> (i, b) ∈ held ->
  wp (bwrite i) c s (fun _ c' s' =>
    c' = c /\ session pid s' pins held /\ bc_disk s' = dwrite (bc_disk s) b (bview D s b) /\
    (forall b', bview D s' b' = bview D s b')).
Proof.
  intros Hs Hno <- Hin; pose proof Hs as [Hi Hr Hk Hh Hnd Hcl]; pose proof (Hh _ _ Hin) as Hhi.
  eapply wp_mono; [by apply (bwrite_spec D HD i b)|].
  intros _ c' s' (-> & Hi' & Hdk' & Hd' & Hh' & Hdat' & Hv' & Hr' & Hb').
  rewrite <- (holds_view D _ _ _ _ Hi Hhi) in Hdk'; split_and!; auto.
  eapply session_step; eauto; [intros; by rewrite Hr', Hr|].
  intros b' Hp Hb; rewrite Hv', Hdk', dread_dwrite, decide_False; auto.
  intros ->; by apply Hb, (session_in _ _ _ _ _ _ Hs Hin).
Qed.

Lemma session_bpin pid s pins held i b c :
  session pid s pins held -> no_buf_locks c -> c_pid c = pid -> (i, b) ∈ held -> b ∉ pins ->
  wp (bpin i) c s (fun _ c' s' =>
    c' = c /\ session pid s' (pins ++ [b]) held /\ bc_disk s' = bc_disk s /\
    (forall b', bview D s' b' = bview D s b')).
Proof.
  intros Hs Hno <- Hin Hp; pose proof Hs as [Hi Hr Hk Hh Hnd Hcl]; pose proof (Hh _ _ Hin) as Hhi.
  pose proof (session_in _ _ _ _ _ _ Hs Hin) as Hb2.
  assert (Hrb : bref D s b = 1) by (rewrite Hr, bool_decide_eq_false_2, bool_decide_eq_true_2; done).
  eapply wp_mono; [apply (bpin_spec D i b); auto; lia|].
  intros _ c' s' (-> & Hi' & Hdk' & Hd' & Hh' & Hdat' & Hv' & Hr' & Hb').
  split_and!; auto; eapply session_step; eauto.
  - intros b'; rewrite Hr'; case_decide; subst.
    + rewrite Hrb, !bool_decide_eq_true_2; [done|done|]; elt.
    + rewrite Hr; do 2 f_equal; apply bool_decide_ext; rewrite elem_of_app, list_elem_of_singleton; tauto.
  - intros b'; rewrite elem_of_app, list_elem_of_singleton, Hv', Hdk'; auto.
Qed.

Lemma session_bunpin pid s b pins held i c :
  session pid s (b :: pins) held -> no_buf_locks c -> c_pid c = pid -> (i, b) ∈ held -> b ∉ pins ->
  wp (bunpin i) c s (fun _ c' s' =>
    c' = c /\ session pid s' pins held /\ bc_disk s' = bc_disk s /\
    (forall b', bview D s' b' = bview D s b')).
Proof.
  intros Hs Hno <- Hin Hp; pose proof Hs as [Hi Hr Hk Hh Hnd Hcl]; pose proof (Hh _ _ Hin) as Hhi.
  pose proof (session_in _ _ _ _ _ _ Hs Hin) as Hb2.
  assert (Hrb : bref D s b = 2) by (rewrite Hr, !bool_decide_eq_true_2; [done|done|by left]).
  eapply wp_mono; [apply (bunpin_spec D i b); auto; lia|].
  intros _ c' s' (-> & Hi' & Hdk' & Hd' & Hh' & Hdat' & Hv' & Hr' & Hb').
  split_and!; auto; eapply session_step; eauto.
  - intros b'; rewrite Hr'; case_decide; subst.
    + by rewrite Hrb, bool_decide_eq_false_2, bool_decide_eq_true_2.
    + rewrite Hr; do 2 f_equal; apply bool_decide_ext; rewrite elem_of_cons; tauto.
  - intros b' Hb1 Hb3; rewrite Hv', Hdk'; apply Hcl; [|done]; rewrite elem_of_cons; intros [->|]; auto.
Qed.

Lemma session_brelse pid s pins held1 held2 i b c :
  session pid s pins (held1 ++ (i, b) :: held2) -> no_buf_locks c -> c_pid c = pid ->
  (b ∉ pins -> bview D s b = dread (bc_disk s) b) ->
  wp (brelse i) c s (fun _ c' s' =>
    c' = c /\ session pid s' pins (held1 ++ held2) /\ bc_disk s' = bc_disk s /\
    (forall b', bview D s' b' = bview D s b')).
Proof.
  intros Hs Hno <- Hbc; pose proof Hs as [Hi Hr Hk Hh Hnd Hcl].
  assert (Hin : (i, b) ∈ held1 ++ (i, b) :: held2) by elt.
  pose proof (Hh _ _ Hin) as Hhi; pose proof (session_in _ _ _ _ _ _ Hs Hin) as Hb2.
  assert (Hmem : forall b', b' ∈ (held1 ++ (i, b) :: held2).*2 <-> b' = b \/ b' ∈ (held1 ++ held2).*2).
  { intros b'; rewrite !fmap_app, fmap_cons, !elem_of_app, elem_of_cons; simpl; tauto. }
  rewrite fmap_app, fmap_cons in Hnd; simpl in Hnd.
  rewrite <- Permutation_middle, <- fmap_app in Hnd; apply NoDup_cons in Hnd as [Hnb Hnd].
  eapply wp_mono; [apply (brelse_spec D i b); auto|].
  { intros Hr1; rewrite <- (holds_view D _ _ _ _ Hi Hhi); apply Hbc; intros Hp.
    rewrite Hr, !bool_decide_eq_true_2 in Hr1 by done; simpl in Hr1; lia. }
  intros _ c' s' (-> & [Hi' Hd' Hdk' Hv' Hr' Hb' Hl']); split_and!; auto; split; auto.
  - intros b'; rewrite Hr', Hr; destruct (decide (b' = b)) as [->|].
    + rewrite (bool_decide_eq_true_2 (b ∈ (held1 ++ (i, b) :: held2).*2)) by done.
      rewrite (bool_decide_eq_false_2 (b ∈ (held1 ++ held2).*2)) by done; simpl; lia.
    + rewrite (bool_decide_ext (b' ∈ (held1 ++ (i, b) :: held2).*2) (b' ∈ (held1 ++ held2).*2)); [lia|].
      rewrite Hmem; tauto.
  - intros b'; rewrite Hb', Hk; destruct (decide (b' = b)) as [->|].
    + by rewrite bool_decide_eq_false_2.
    + apply bool_decide_ext; rewrite Hmem; tauto.
  - intros j b' Hj; eapply (holds_others (c_pid c) s s' pins _ i b Hs Hin Hd' j b').
    + rewrite elem_of_app in *; rewrite elem_of_cons; tauto.
    + intros ->; apply Hnb, list_elem_of_fmap; by exists (j, b).
  - intros b' Hp Hb3; rewrite Hv', Hdk'; destruct (decide (b' = b)) as [->|]; auto.
    apply Hcl; [done|]; rewrite Hmem; tauto.
Qed.
End session.
