(* ===== verification/FsLayout.v ===== *)
(** * On-disk structures, [kernel/fs.h]

    Fields of 2 and 4 bytes at an offset of a block ([get16], [get32], [put16],
    [put32]), and the structures of the file system as they lie on the disk: the
    super block, the inode and the directory entry, with their encodings. *)

From S2P Require Import Prelude Bio.

(** ** Byte ranges of a block *)

Definition slice (l : list Z) (off n : Z) : list Z := take (Z.to_nat n) (drop (Z.to_nat off) l).
Definition blit (l : list Z) (off : Z) (bs : list Z) : list Z := list_inserts (Z.to_nat off) bs l.

Definition get16 (l : list Z) (off : Z) : Z := le_val (slice l off 2).
Definition get32 (l : list Z) (off : Z) : Z := le_val (slice l off 4).
Definition put16 (l : list Z) (off v : Z) : list Z := blit l off (le_bytes 2 v).
Definition put32 (l : list Z) (off v : Z) : list Z := blit l off (le_bytes 4 v).

Lemma length_blit l off bs : length (blit l off bs) = length l.
Proof. apply length_inserts. Qed.

Lemma aget_blit l off bs i : 0 <= off -> 0 <= i -> off + Z.of_nat (length bs) <= Z.of_nat (length l) ->
  aget 0 (blit l off bs) i = if decide (off <= i < off + Z.of_nat (length bs)) then aget 0 bs (i - off) else aget 0 l i.
Proof.
  intros Ho Hi Hl; unfold aget, blit; rewrite !nth_lookup; case_decide.
  - rewrite list_lookup_inserts by lia; by replace (Z.to_nat i - Z.to_nat off)%nat with (Z.to_nat (i - off)) by lia.
  - f_equal; destruct (decide (i < off)); [apply list_lookup_inserts_lt; lia|apply list_lookup_inserts_ge; lia].
Qed.

Lemma length_slice l off n :
  0 <= off -> 0 <= n -> off + n <= Z.of_nat (length l) -> length (slice l off n) = Z.to_nat n.
Proof. intros; unfold slice; rewrite length_take, length_drop; lia. Qed.

Lemma lookup_slice l off n k :
  (k < Z.to_nat n)%nat -> slice l off n !! k = l !! (Z.to_nat off + k)%nat.
Proof. intros; unfold slice; by rewrite lookup_take_lt, lookup_drop by lia. Qed.

Lemma lookup_slice_ge l off n k : (Z.to_nat n <= k)%nat -> slice l off n !! k = None.
Proof. intros; apply lookup_ge_None_2; unfold slice; rewrite length_take; lia. Qed.

Lemma slice_ext l l' off n :
  (forall k, (Z.to_nat off <= k < Z.to_nat off + Z.to_nat n)%nat -> l !! k = l' !! k) ->
  slice l off n = slice l' off n.
Proof.
  intros H; apply list_eq; intros k; destruct (decide (k < Z.to_nat n)%nat).
  - rewrite !lookup_slice by done; apply H; lia.
  - by rewrite !lookup_slice_ge by lia.
Qed.

Lemma slice_blit_eq l off bs :
  0 <= off -> off + Z.of_nat (length bs) <= Z.of_nat (length l) ->
  slice (blit l off bs) off (Z.of_nat (length bs)) = bs.
Proof.
  intros; apply list_eq; intros k; destruct (decide (k < length bs)%nat).
  - rewrite lookup_slice by lia; unfold blit; rewrite list_lookup_inserts by lia; f_equal; lia.
  - rewrite lookup_slice_ge by lia; symmetry; apply lookup_ge_None_2; lia.
Qed.

Lemma slice_blit_ne l off bs o n :
  0 <= off -> 0 <= o -> 0 <= n -> o + n <= off \/ off + Z.of_nat (length bs) <= o ->
  slice (blit l off bs) o n = slice l o n.
Proof.
  intros; apply slice_ext; intros k Hk; unfold blit; destruct (decide (k < Z.to_nat off)%nat).
  - by rewrite list_lookup_inserts_lt by lia.
  - by rewrite list_lookup_inserts_ge by lia.
Qed.

(** Writing back what is there, and a range written over a range. *)
Lemma blit_slice l off n :
  0 <= off -> 0 <= n -> off + n <= Z.of_nat (length l) -> blit l off (slice l off n) = l.
Proof.
  intros; apply list_eq; intros k; unfold blit.
  pose proof (length_slice l off n ltac:(lia) ltac:(lia) ltac:(lia)).
  destruct (decide (k < Z.to_nat off)%nat); [by rewrite list_lookup_inserts_lt by lia|].
  destruct (decide (k < Z.to_nat off + Z.to_nat n)%nat).
  - rewrite list_lookup_inserts by lia; rewrite lookup_slice by lia; f_equal; lia.
  - by rewrite list_lookup_inserts_ge by lia.
Qed.

Lemma Forall_blit P l off bs : Forall P l -> Forall P bs -> Forall P (blit l off bs).
Proof. apply Forall_inserts. Qed.

Lemma get32_put32_eq l off v :
  0 <= off -> off + 4 <= Z.of_nat (length l) -> get32 (put32 l off v) off = u32 v.
Proof.
  intros; unfold get32, put32; pose proof (length_le_bytes 4 v) as Hl.
  change 4 with (Z.of_nat 4); rewrite <- Hl at 2.
  rewrite slice_blit_eq by (rewrite ?Hl; lia).
  rewrite le_val_le_bytes; done.
Qed.

Lemma get32_put32_ne l off v o :
  0 <= off -> 0 <= o -> o + 4 <= off \/ off + 4 <= o -> get32 (put32 l off v) o = get32 l o.
Proof. intros; unfold get32, put32; by rewrite slice_blit_ne by (rewrite ?length_le_bytes; lia). Qed.

Lemma get16_put16_eq l off v :
  0 <= off -> off + 2 <= Z.of_nat (length l) -> get16 (put16 l off v) off = u16 v.
Proof.
  intros; unfold get16, put16; pose proof (length_le_bytes 2 v) as Hl.
  change 2 with (Z.of_nat 2); rewrite <- Hl at 2.
  rewrite slice_blit_eq by (rewrite ?Hl; lia).
  rewrite le_val_le_bytes; done.
Qed.

Lemma get16_put16_ne l off v o :
  0 <= off -> 0 <= o -> o + 2 <= off \/ off + 2 <= o -> get16 (put16 l off v) o = get16 l o.
Proof. intros; unfold get16, put16; by rewrite slice_blit_ne by (rewrite ?length_le_bytes; lia). Qed.

Lemma length_put32 l off v : length (put32 l off v) = length l.
Proof. apply length_blit. Qed.
Lemma length_put16 l off v : length (put16 l off v) = length l.
Proof. apply length_blit. Qed.
Create Rewrite HintDb fslen.
#[export] Hint Rewrite length_put32 length_put16 length_blit : fslen.

(** ** Constants and the super block *)

Definition ROOTINO : Z := 1.
Definition FSMAGIC : Z := 0x10203040.
Definition NDIRECT : Z := 12.
Definition NINDIRECT : Z := BSIZE / 4.
Definition MAXFILE : Z := NDIRECT + NINDIRECT.

Record superblock := Superblock {
  sb_magic : Z;
  sb_size : Z;
  sb_nblocks : Z;
  sb_ninodes : Z;
  sb_nlog : Z;
  sb_logstart : Z;
  sb_inodestart : Z;
  sb_bmapstart : Z
}.

Definition sb_decode (b : block) : superblock :=
  Superblock (get32 b 0) (get32 b 4) (get32 b 8) (get32 b 12) (get32 b 16) (get32 b 20)
    (get32 b 24) (get32 b 28).

(** ** Inodes and directory entries *)

Definition sizeof_dinode : Z := 64.
Definition IPB : Z := BSIZE / sizeof_dinode.
Definition BPB : Z := BSIZE * 8.
Definition DIRSIZ : Z := 14.
Definition IBLOCK (i : Z) (sb : superblock) : Z := u32 (i / IPB + sb_inodestart sb).
Definition BBLOCK (b : Z) (sb : superblock) : Z := u32 (b / BPB + sb_bmapstart sb).

Record dinode := Dinode {
  di_type : Z;
  di_major : Z;
  di_minor : Z;
  di_nlink : Z;
  di_size : Z;
  di_addrs : list Z
}.

(** [(struct dinode* )bp->data + inum%IPB]. *)
Definition dioff (inum : Z) : Z := sizeof_dinode * (inum mod IPB).

Definition get_addrs (b : block) (off : Z) : list Z :=
  map (fun k => get32 b (off + 4 * k)) (zrange 0 (Z.to_nat (NDIRECT + 1))).
Definition put_addrs (b : block) (off : Z) (l : list Z) : block := blit b off (l ≫= le_bytes 4).

Definition dinode_get (b : block) (inum : Z) : dinode :=
  let o := dioff inum in
  Dinode (s16 (get16 b o)) (s16 (get16 b (o + 2))) (s16 (get16 b (o + 4))) (s16 (get16 b (o + 6)))
    (get32 b (o + 8)) (get_addrs b (o + 12)).

Definition dinode_put (b : block) (inum : Z) (d : dinode) : block :=
  let o := dioff inum in
  let b := put16 b o (di_type d) in
  let b := put16 b (o + 2) (di_major d) in
  let b := put16 b (o + 4) (di_minor d) in
  let b := put16 b (o + 6) (di_nlink d) in
  let b := put32 b (o + 8) (di_size d) in
  put_addrs b (o + 12) (di_addrs d).

Record dirent := Dirent { de_inum : Z; de_name : list Z }.

Definition sizeof_dirent : Z := 16.
Definition dirent_decode (l : list Z) : dirent := Dirent (get16 l 0) (slice l 2 DIRSIZ).
Definition dirent_encode (d : dirent) : list Z := le_bytes 2 (de_inum d) ++ de_name d.

(** Values that fit their fields. *)
Record dinode_ok (d : dinode) : Prop := {
  dk_type : - 2 ^ 15 <= di_type d < 2 ^ 15;
  dk_major : - 2 ^ 15 <= di_major d < 2 ^ 15;
  dk_minor : - 2 ^ 15 <= di_minor d < 2 ^ 15;
  dk_nlink : - 2 ^ 15 <= di_nlink d < 2 ^ 15;
  dk_size : 0 <= di_size d < 2 ^ 32;
  dk_len : length (di_addrs d) = 13%nat;
  dk_addrs : Forall (fun a => 0 <= a < 2 ^ 32) (di_addrs d)
}.

Lemma s16_u16 x : - 2 ^ 15 <= x < 2 ^ 15 -> s16 (u16 x) = x.
Proof.
  intros; unfold s16, u16; rewrite Zplus_mod_idemp_l, Z.mod_small; lia.
Qed.

Lemma length_bind_le4 l : length (l ≫= le_bytes 4) = (4 * length l)%nat.
Proof. induction l as [|x l IH]; [done|]; rewrite bind_cons, length_app, IH, length_le_bytes; simpl; lia. Qed.

Lemma slice_blit_in l off bs o n :
  0 <= off -> 0 <= o -> 0 <= n -> o + n <= Z.of_nat (length bs) -> off + Z.of_nat (length bs) <= Z.of_nat (length l) ->
  slice (blit l off bs) (off + o) n = slice bs o n.
Proof.
  intros; apply list_eq; intros k; destruct (decide (k < Z.to_nat n)%nat); [|by rewrite !lookup_slice_ge by lia].
  rewrite !lookup_slice by done; unfold blit; rewrite list_lookup_inserts by lia; f_equal; lia.
Qed.

Lemma slice_addrs l k x : l !! k = Some x -> slice (l ≫= le_bytes 4) (4 * Z.of_nat k) 4 = le_bytes 4 x.
Proof.
  intros H; rewrite <- (take_drop_middle l k x H), bind_app, bind_cons; unfold slice.
  assert (length (take k l) = k) by (apply lookup_lt_Some in H; rewrite length_take; lia).
  rewrite drop_app_length', take_app_length'; rewrite ?length_le_bytes, ?length_bind_le4; lia || done.
Qed.

Lemma get_put_addrs b off l :
  0 <= off -> length l = 13%nat -> off + 52 <= Z.of_nat (length b) -> Forall (fun a => 0 <= a < 2 ^ 32) l ->
  get_addrs (put_addrs b off l) off = l.
Proof.
  intros Ho Hl Hb Hok; apply list_eq; intros k; unfold get_addrs, put_addrs; rewrite list_lookup_fmap.
  change (Z.to_nat (NDIRECT + 1)) with 13%nat; destruct (decide (k < 13)%nat) as [Hk|].
  - rewrite lookup_zrange by done; cbn [fmap option_fmap option_map].
    destruct (lookup_lt_is_Some_2 l k ltac:(lia)) as [x Hx]; rewrite Hx; f_equal; unfold get32.
    rewrite slice_blit_in by (rewrite ?length_bind_le4; lia); rewrite Z.add_0_l, (slice_addrs l k x Hx), le_val_le_bytes.
    rewrite Forall_forall in Hok; apply Z.mod_small; change (256 ^ Z.of_nat 4) with (2 ^ 32).
    apply Hok; by eapply list_elem_of_lookup_2.
  - rewrite !lookup_ge_None_2; rewrite ?length_zrange; auto with lia.
Qed.

Lemma dioff_range inum : 0 <= dioff inum /\ dioff inum + 64 <= 1024.
Proof.
  unfold dioff, IPB, sizeof_dinode; change (BSIZE / 64) with 16; pose proof (Z.mod_pos_bound inum 16 ltac:(lia)); lia.
Qed.

(** Skip the fields written after the one that is read. *)
Ltac skip_fields :=
  unfold get16, get32, put16, put32, put_addrs;
  repeat rewrite slice_blit_ne by (rewrite ?length_le_bytes, ?length_bind_le4; lia).

Lemma dinode_put_out b inum d o n :
  length (di_addrs d) = 13%nat -> 0 <= o -> 0 <= n -> o + n <= dioff inum \/ dioff inum + 64 <= o ->
  slice (dinode_put b inum d) o n = slice b o n.
Proof. intros Hl Ho Hn Hd; pose proof (dioff_range inum); unfold dinode_put; by skip_fields. Qed.

Lemma length_dinode_put b inum d : length (dinode_put b inum d) = length b.
Proof. unfold dinode_put, put_addrs; by autorewrite with fslen. Qed.

Lemma dinode_get_put_eq b inum d : dinode_ok d -> length b = 1024%nat -> dinode_get (dinode_put b inum d) inum = d.
Proof.
  intros [K1 K2 K3 K4 K5 K6 K7] Hb; pose proof (dioff_range inum); destruct d as [ty ma mi nl sz ad].
  unfold dinode_get, dinode_put; cbn [di_type di_major di_minor di_nlink di_size di_addrs] in *.
  assert (E16 : forall l o v, 0 <= o -> o + 2 <= Z.of_nat (length l) -> - 2 ^ 15 <= v < 2 ^ 15 ->
    s16 (le_val (slice (blit l o (le_bytes 2 v)) o 2)) = v).
  { intros l o v Ho Hl Hv; pose proof (get16_put16_eq l o v Ho Hl) as E; unfold get16, put16 in E.
    rewrite E; by apply s16_u16. }
  f_equal.
  1-4: skip_fields; apply E16; autorewrite with fslen; lia.
  - skip_fields; pose proof (get32_put32_eq (put16 (put16 (put16 (put16 b (dioff inum) ty) (dioff inum + 2) ma)
      (dioff inum + 4) mi) (dioff inum + 6) nl) (dioff inum + 8) sz ltac:(lia)) as E.
    unfold get32, put32, put16 in E; rewrite E by (autorewrite with fslen; lia); by apply u32_small.
  - apply get_put_addrs; autorewrite with fslen; lia || done.
Qed.

Lemma dinode_get_put_ne b inum j d :
  length (di_addrs d) = 13%nat -> inum mod IPB <> j mod IPB -> dinode_get (dinode_put b inum d) j = dinode_get b j.
Proof.
  intros Hl Hne; pose proof (dioff_range inum); pose proof (dioff_range j).
  assert (Ho : dioff j + 64 <= dioff inum \/ dioff inum + 64 <= dioff j) by (unfold dioff, sizeof_dinode in *; lia).
  unfold dinode_get, get_addrs, get16, get32; f_equal; rewrite ?dinode_put_out; auto; try lia.
  apply map_ext_in; intros k Hk%list_elem_of_In; apply elem_of_zrange in Hk.
  change (Z.of_nat (Z.to_nat (NDIRECT + 1))) with 13 in Hk; rewrite dinode_put_out; auto; lia.
Qed.

Lemma dirent_roundtrip d :
  0 <= de_inum d < 2 ^ 16 -> length (de_name d) = 14%nat -> dirent_decode (dirent_encode d) = d.
Proof.
  intros Hi Hn; destruct d as [i nm]; unfold dirent_decode, dirent_encode, get16, slice; cbn [de_inum de_name] in *.
  f_equal.
  - change (Z.to_nat 0) with 0%nat; rewrite drop_0, take_app_length' by (by rewrite length_le_bytes).
    rewrite le_val_le_bytes; by apply Z.mod_small.
  - rewrite drop_app_length' by (by rewrite length_le_bytes); apply take_ge; change DIRSIZ with 14; lia.
Qed.

Lemma length_dirent_encode d : length (de_name d) = 14%nat -> length (dirent_encode d) = 16%nat.
Proof. intros H; unfold dirent_encode; rewrite length_app, length_le_bytes; lia. Qed.
