(* ===== verification/Log.v ===== *)
(** * The log, [kernel/log.c]

    The redo log on top of the buffer cache: transactions of several file-system
    calls, group commit and recovery.  The state is [struct log] and the buffer
    cache below it.  The console output of recovery is not part of it. *)

From S2P Require Import Prelude KMonad Riscv Sleeplock Bio Session FsLayout.

(** [struct logheader] and [struct log]. *)
Record log := Log {
  l_start : Z;
  l_outstanding : Z;
  l_committing : bool;
  l_dev : Z;
  l_n : Z;
  l_block : list Z
}.

Record lstate := LState { ls_log : log; ls_bio : bio }.

#[global] Program Instance lstate_bio : Lens lstate bio := {|
  lget := ls_bio; lset := fun b s => LState (ls_log s) b |}.
Solve All Obligations with by intros; try destruct t.

#[global] Program Instance lstate_log : Lens lstate log := {|
  lget := ls_log; lset := fun l s => LState l (ls_bio s) |}.
Solve All Obligations with by intros; try destruct t.

(** The log before [initlog]: zeroed memory. *)
Definition bss_log : log := Log 0 0 false 0 0 (replicate (Z.to_nat LOGBLOCKS) 0).

Definition set_outstanding (n : Z) (l : log) : log :=
  Log (l_start l) n (l_committing l) (l_dev l) (l_n l) (l_block l).
Definition set_committing (v : bool) (l : log) : log :=
  Log (l_start l) (l_outstanding l) v (l_dev l) (l_n l) (l_block l).
Definition set_where (start dev : Z) (l : log) : log :=
  Log start (l_outstanding l) (l_committing l) dev (l_n l) (l_block l).
Definition set_n (n : Z) (l : log) : log :=
  Log (l_start l) (l_outstanding l) (l_committing l) (l_dev l) n (l_block l).
Definition set_block (i v : Z) (l : log) : log :=
  Log (l_start l) (l_outstanding l) (l_committing l) (l_dev l) (l_n l) (aset (l_block l) i v).

Definition getlog : M lstate log := gets ls_log.
Definition modlog (f : log -> log) : M lstate unit := zoom (S := log) (modify f).

(** Offset of [block[i]] in the header block; [n] is at offset 0. *)
Definition hb_off (i : Z) : Z := 4 + 4 * i.

Definition install_trans (recovering : bool) : M lstate unit :=
  let! lg := getlog in
  for_each (zrange 0 (Z.to_nat (l_n lg))) (fun tail =>
    let! lg := getlog in
    let! lbuf := zoom (bread (u32 (l_dev lg)) (u32 (l_start lg + tail + 1))) in
    let! dbuf := zoom (bread (u32 (l_dev lg)) (u32 (aget 0 (l_block lg) tail))) in
    let! v := zoom (bdata lbuf) in
    do! zoom (bmodify dbuf (fun _ => v));
    do! zoom (bwrite dbuf);
    do! (if recovering then ret tt else zoom (bunpin dbuf));
    do! zoom (brelse lbuf);
    zoom (brelse dbuf)).

Definition read_head : M lstate unit :=
  let! lg := getlog in
  let! b := zoom (bread (u32 (l_dev lg)) (u32 (l_start lg))) in
  let! lh := zoom (bdata b) in
  do! modlog (set_n (s32 (get32 lh 0)));
  do! for_each (zrange 0 (Z.to_nat (s32 (get32 lh 0)))) (fun i =>
        modlog (set_block i (s32 (get32 lh (hb_off i)))));
  zoom (brelse b).

Definition write_head : M lstate unit :=
  let! lg := getlog in
  let! b := zoom (bread (u32 (l_dev lg)) (u32 (l_start lg))) in
  do! zoom (bmodify b (fun hb => put32 hb 0 (l_n lg)));
  do! for_each (zrange 0 (Z.to_nat (l_n lg))) (fun i =>
        zoom (bmodify b (fun hb => put32 hb (hb_off i) (aget 0 (l_block lg) i))));
  do! zoom (bwrite b);
  zoom (brelse b).

Definition recover_from_log : M lstate unit :=
  do! read_head;
  do! install_trans true;
  do! modlog (set_n 0);
  write_head.

(** [sizeof(struct logheader)]. *)
Definition sizeof_logheader : Z := 4 + 4 * LOGBLOCKS.

Definition initlog (dev : Z) (sb : superblock) : M lstate unit :=
  if BSIZE <=? sizeof_logheader then panic "initlog: too big logheader" else
  do! modlog (set_where (s32 (sb_logstart sb)) dev);
  recover_from_log.

(** One turn of the [while(1)] loop: a caller that has to wait goes to sleep and
    tests again when woken. *)
Definition begin_op : M lstate unit :=
  do! acquire LOGLOCK;
  let! lg := getlog in
  if l_committing lg then sleep ChLog LOGLOCK
  else if LOGBLOCKS <? l_n lg + (l_outstanding lg + 1) * MAXOPBLOCKS then sleep ChLog LOGLOCK
  else
    do! modlog (fun l => set_outstanding (l_outstanding l + 1) l);
    release LOGLOCK.

Definition write_log : M lstate unit :=
  let! lg := getlog in
  for_each (zrange 0 (Z.to_nat (l_n lg))) (fun tail =>
    let! to := zoom (bread (u32 (l_dev lg)) (u32 (l_start lg + tail + 1))) in
    let! from := zoom (bread (u32 (l_dev lg)) (u32 (aget 0 (l_block lg) tail))) in
    let! v := zoom (bdata from) in
    do! zoom (bmodify to (fun _ => v));
    do! zoom (bwrite to);
    do! zoom (brelse from);
    zoom (brelse to)).

Definition commit : M lstate unit :=
  let! lg := getlog in
  if 0 <? l_n lg then
    do! write_log;
    do! write_head;
    do! install_trans false;
    do! modlog (set_n 0);
    write_head
  else ret tt.

Definition end_op : M lstate unit :=
  do! acquire LOGLOCK;
  do! modlog (fun l => set_outstanding (l_outstanding l - 1) l);
  let! lg := getlog in
  if l_committing lg then panic "log.committing" else
  let do_commit := l_outstanding lg =? 0 in
  do! (if do_commit then modlog (set_committing true) else wakeup ChLog);
  do! release LOGLOCK;
  if do_commit then
    do! commit;
    do! acquire LOGLOCK;
    do! modlog (set_committing false);
    do! wakeup ChLog;
    release LOGLOCK
  else ret tt.

(** The index the absorption loop of [log_write] stops at. *)
Definition log_index (lg : log) (blockno : Z) : Z :=
  match List.find (fun i => u32 (aget 0 (l_block lg) i) =? blockno) (zrange 0 (Z.to_nat (l_n lg))) with
  | Some i => i
  | None => Z.max 0 (l_n lg)
  end.

Definition log_write (b : Z) : M lstate unit :=
  do! acquire LOGLOCK;
  let! lg := getlog in
  if LOGBLOCKS <=? l_n lg then panic "too big a transaction" else
  if l_outstanding lg <? 1 then panic "log_write outside of trans" else
  let! blockno := zoom (gets (fun s => b_blockno (bufi s b))) in
  let i := log_index lg blockno in
  do! modlog (set_block i (s32 blockno));
  do! (if i =? l_n lg then
         do! zoom (bpin b);
         modlog (set_n (l_n lg + 1))
       else ret tt);
  release LOGLOCK.
