(* ===== verification/LogProofs.v ===== *)
(** * Crash safety of the log

    [recovered] is what recovery makes of a disk image, as a function of block
    numbers; [recoverable f h] says that the image [f] is one that recovery turns
    into the file-system contents [h].  Every image the disk has while a
    transaction commits is recoverable to the contents before or to the contents
    after the transaction, and every image it has during recovery is recoverable
    to what recovery started from. *)

From S2P Require Import Prelude KMonad Riscv Sleeplock Bio Session FsLayout Log.

(** ** Images since a point in time *)

Definition since (d0 d : disk) (P : image -> Prop) : Prop :=
  exists new, d_blk d :: d_trace d = new ++ d_blk d0 :: d_trace d0 /\ Forall P new.

Lemma since_refl d P : since d d P.
Proof. by exists []. Qed.

Lemma since_trans d0 d1 d2 P : since d0 d1 P -> since d1 d2 P -> since d0 d2 P.
Proof.
  intros (n1 & E1 & H1) (n2 & E2 & H2); exists (n2 ++ n1); split; [by rewrite <- app_assoc, <- E1|].
  by apply Forall_app.
Qed.

Lemma since_mono d0 d (P Q : image -> Prop) : (forall i, P i -> Q i) -> since d0 d P -> since d0 d Q.
Proof. intros H (n & E & Hn); exists n; split; [done|]; by eapply Forall_impl. Qed.

Lemma since_dwrite d0 d b v (P : image -> Prop) :
  since d0 d P -> P (<[b := v]> (d_blk d)) -> since d0 (dwrite d b v) P.
Proof. intros (n & E & Hn) H; exists (<[b := v]> (d_blk d) :: n); simpl; rewrite E; auto. Qed.

Lemma img_read_insert i b v x : img_read (<[b := v]> i) x = if decide (x = b) then v else img_read i x.
Proof.
  unfold img_read; case_decide; subst; [by rewrite lookup_insert_eq|by rewrite lookup_insert_ne].
Qed.

(** ** Replaying a log *)

(** The last position of [x] in the header's list: its copy wins. *)
Fixpoint last_idx (bl : list Z) (x : Z) : option nat :=
  match bl with
  | [] => None
  | b :: bl =>
      match last_idx bl x with
      | Some i => Some (S i)
      | None => if decide (x = b) then Some O else None
      end
  end.

Lemma last_idx_Some bl x i : last_idx bl x = Some i -> bl !! i = Some x.
Proof.
  revert i; induction bl as [|b bl IH]; intros i; simpl; [done|].
  destruct (last_idx bl x) as [j|]; [intros [= <-]; simpl; auto|].
  case_decide; [|done]; intros [= <-]; by subst.
Qed.

Lemma last_idx_None bl x : last_idx bl x = None <-> x ∉ bl.
Proof.
  induction bl as [|b bl IH]; simpl; [split; auto; intros _; apply not_elem_of_nil|].
  rewrite not_elem_of_cons; destruct (last_idx bl x) as [j|] eqn:E.
  - split; [done|]; intros [_ H]; apply IH in H; done.
  - case_decide; split; try done; [tauto|]; intros _; split; [done|by apply IH].
Qed.

Lemma last_idx_snoc bl b x :
  last_idx (bl ++ [b]) x = if decide (x = b) then Some (length bl) else last_idx bl x.
Proof.
  induction bl as [|a bl IH]; simpl; [done|].
  rewrite IH; case_decide; [done|]; by destruct (last_idx bl x).
Qed.

Lemma last_idx_NoDup bl x i : NoDup bl -> bl !! i = Some x -> last_idx bl x = Some i.
Proof.
  intros Hnd Hi; destruct (last_idx bl x) as [j|] eqn:E.
  - f_equal; eapply NoDup_lookup; eauto; by apply last_idx_Some.
  - apply last_idx_None in E; exfalso; apply E; by eapply list_elem_of_lookup_2.
Qed.

(** The header block: the count and the list of home locations. *)
Definition hdr_n (h : block) : Z := s32 (get32 h 0).
Definition hdr_list (h : block) : list Z :=
  map (fun i => u32 (s32 (get32 h (hb_off i)))) (zrange 0 (Z.to_nat (hdr_n h))).

Section log.
Context (D LS : Z) (HD : 0 < D < 2 ^ 31) (HLS : 0 <= LS /\ LS + 30 < 2 ^ 31).

Definition in_log (b : Z) : Prop := LS <= b <= LS + 30.
Definition home (b : Z) : Prop := 0 <= b < 2 ^ 31 /\ ~ in_log b.

(** Replay of a list of home locations over contents [f]. *)
Definition replay (bl : list Z) (f : Z -> block) (x : Z) : block :=
  match last_idx bl x with
  | Some i => f (LS + Z.of_nat i + 1)
  | None => f x
  end.

Definition recovered (f : Z -> block) : Z -> block := replay (hdr_list (f LS)) f.

Record recoverable (f h : Z -> block) : Prop := {
  rc_n : 0 <= hdr_n (f LS) <= 30;
  rc_home : Forall home (hdr_list (f LS));
  rc_len : forall b, length (f b) = 1024%nat;
  rc_eq : forall x, home x -> recovered f x = h x
}.

Lemma length_hdr_list h : length (hdr_list h) = Z.to_nat (hdr_n h).
Proof. unfold hdr_list; by rewrite length_map, length_zrange. Qed.

(** Recovery looks at the log area and at the home blocks the log does not
    list. *)
Lemma recoverable_frame f g h :
  recoverable f h -> (forall b, length (g b) = 1024%nat) ->
  (forall b, in_log b -> g b = f b) ->
  (forall x, x ∉ hdr_list (f LS) -> g x = f x) ->
  recoverable g h.
Proof.
  intros [Hn Hh Hl He] Hlg Hlog Hother.
  assert (E : g LS = f LS) by (apply Hlog; unfold in_log; lia).
  split; rewrite ?E; auto; intros x Hx; rewrite <- He by done.
  unfold recovered, replay; rewrite E.
  destruct (last_idx (hdr_list (f LS)) x) as [i|] eqn:Ei.
  - apply Hlog; apply last_idx_Some, lookup_lt_Some in Ei; rewrite length_hdr_list in Ei.
    unfold in_log; lia.
  - apply last_idx_None in Ei; auto.
Qed.

(** An image whose log is empty. *)
Lemma recoverable_empty f h :
  hdr_n (f LS) = 0 -> (forall b, length (f b) = 1024%nat) -> (forall x, home x -> f x = h x) ->
  recoverable f h.
Proof.
  intros Hn Hl He; split; auto; [lia| |]; unfold recovered, replay, hdr_list; rewrite Hn; simpl; auto.
Qed.

(** ** The in-memory header *)

Record lh_ok (lg : log) (bl : list Z) : Prop := {
  lo_dev : l_dev lg = D;
  lo_start : l_start lg = LS;
  lo_len : length (l_block lg) = 30%nat;
  lo_n : l_n lg = Z.of_nat (length bl);
  lo_max : (length bl <= 30)%nat;
  lo_blk : forall i x, bl !! i = Some x -> u32 (aget 0 (l_block lg) (Z.of_nat i)) = x
}.

Lemma u32_dev : u32 D = D.
Proof. apply u32_small; lia. Qed.
Lemma D_ne : D <> 0.
Proof. lia. Qed.
Lemma u32_log i : 0 <= i <= 30 -> u32 (LS + i) = LS + i.
Proof. intros; apply u32_small; lia. Qed.

(** One call of [bio.c] inside the log's state. *)
Ltac sess lem :=
  apply wp_zoom; cbn [lget lstate_bio ls_bio]; eapply wp_mono; [eapply lem|];
  cbn [lset lstate_bio ls_log ls_bio].

(** What the loop of [write_head] leaves in the header block. *)
Definition hdr_upto (lg : log) (k : Z) (h : block) : Prop :=
  length h = 1024%nat /\ get32 h 0 = u32 (l_n lg) /\
  forall i, 0 <= i < k -> get32 h (hb_off i) = u32 (aget 0 (l_block lg) i).

Lemma hdr_upto_step lg k h :
  0 <= k < 30 -> hdr_upto lg k h ->
  hdr_upto lg (k + 1) (put32 h (hb_off k) (aget 0 (l_block lg) k)).
Proof.
  unfold hdr_upto, hb_off; intros Hk (Hl & H0 & Hi); split_and!.
  - by rewrite length_put32.
  - rewrite get32_put32_ne by lia; done.
  - intros i Hi'; destruct (decide (i = k)) as [->|].
    + rewrite get32_put32_eq; [done|lia|rewrite Hl; simpl; lia].
    + rewrite get32_put32_ne by lia; apply Hi; lia.
Qed.

Lemma hdr_upto_list lg bl h :
  lh_ok lg bl -> hdr_upto lg (l_n lg) h -> hdr_n h = l_n lg /\ hdr_list h = bl.
Proof.
  intros Hlo (Hl & H0 & Hi).
  assert (En : hdr_n h = l_n lg).
  { unfold hdr_n; rewrite H0, s32_u32; apply s32_small; rewrite (lo_n _ _ Hlo).
    pose proof (lo_max _ _ Hlo); lia. }
  split; [done|]; apply list_eq; intros i; unfold hdr_list; rewrite En, (lo_n _ _ Hlo), Nat2Z.id.
  rewrite list_lookup_fmap; destruct (bl !! i) as [x|] eqn:E.
  - pose proof (lookup_lt_Some _ _ _ E); rewrite lookup_zrange by done; simpl; f_equal.
    rewrite u32_s32, Hi by (rewrite (lo_n _ _ Hlo); lia).
    rewrite u32_idem; by apply (lo_blk _ _ Hlo).
  - apply lookup_ge_None in E; rewrite lookup_ge_None_2; [done|]; by rewrite length_zrange.
Qed.

Lemma write_head_spec bl pins c lg b :
  lh_ok lg bl -> session D (c_pid c) b pins [] -> no_buf_locks c ->
  LS ∉ pins -> (length pins < 30)%nat ->
  wp write_head c (LState lg b) (fun _ c' s' =>
    exists h, c' = c /\ ls_log s' = lg /\ session D (c_pid c) (ls_bio s') pins [] /\
    hdr_n h = Z.of_nat (length bl) /\ hdr_list h = bl /\ length h = 1024%nat /\
    bc_disk (ls_bio s') = dwrite (bc_disk b) LS h /\
    (forall x, bview D (ls_bio s') x = if decide (x = LS) then h else bview D b x)).
Proof.
  intros Hlo Hs Hno Hp Hlen; pose proof D_ne as HD0; pose proof (lo_max _ _ Hlo) as Hmax.
  unfold write_head, getlog; wp_steps; cbn [ls_log].
  rewrite (lo_dev _ _ Hlo), (lo_start _ _ Hlo), u32_dev, u32_small by lia.
  sess session_bread; eauto; [apply not_elem_of_nil|rewrite app_nil_r; auto|].
  intros i c' b1 (-> & Hs1 & Hd1 & _ & Hv1); wp_step.
  sess session_bmodify; eauto; [by left| |].
  { rewrite length_put32, Hv1; apply view_len, Hs. }
  intros _ c' b2 (-> & Hs2 & Hd2 & _ & Hv2); wp_step.
  apply (wp_for_range (l_n lg) _ (fun k c' s' => c' = c /\ ls_log s' = lg /\
    session D (c_pid c) (ls_bio s') pins [(i, LS)] /\ bc_disk (ls_bio s') = bc_disk b /\
    hdr_upto lg k (bview D (ls_bio s') LS) /\
    (forall x, x <> LS -> bview D (ls_bio s') x = bview D b x))).
  - rewrite (lo_n _ _ Hlo); lia.
  - cbn [ls_log ls_bio]; split_and!; auto; [congruence| |].
    + rewrite Hv2, decide_True by done; unfold hdr_upto.
      rewrite length_put32, get32_put32_eq; [|lia|rewrite Hv1, view_len; [lia|apply Hs]].
      split_and!; [rewrite Hv1; apply view_len, Hs|done|lia].
    + intros x Hx; by rewrite Hv2, decide_False, Hv1.
  - intros k c' [lg' b3] Hk (-> & E & Hs3 & Hd3 & Hh & Hv3); cbn [ls_log ls_bio] in *; subst lg'.
    rewrite (lo_n _ _ Hlo) in Hk.
    sess session_bmodify; eauto; [by left|by rewrite length_put32; apply Hh|].
    intros _ c' b4 (-> & Hs4 & Hd4 & _ & Hv4); split_and!; auto; [congruence| |].
    + rewrite Hv4, decide_True by done; apply hdr_upto_step; [lia|done].
    + intros x Hx; rewrite Hv4, decide_False by done; auto.
  - intros c' [lg' b3] (-> & E & Hs3 & Hd3 & Hh & Hv3); cbn [ls_log ls_bio] in *; subst lg'.
    wp_step; sess session_bwrite; eauto; [by left|].
    intros _ c' b4 (-> & Hs4 & Hd4 & Hv4).
    sess (session_brelse D (c_pid c) b4 pins [] [] i LS); eauto.
    { intros _; by rewrite Hv4, Hd4, dread_dwrite, decide_True. }
    intros _ c' b5 (-> & Hs5 & Hd5 & Hv5); exists (bview D b3 LS).
    destruct (hdr_upto_list lg bl _ Hlo Hh) as [En El].
    split_and!; auto; [by rewrite En, (lo_n _ _ Hlo)|apply Hh|by rewrite Hd5, Hd4, Hd3|].
    intros x; rewrite Hv5, Hv4; case_decide; subst; auto.
Qed.

(** ** Copying to the log *)

Lemma take_snoc {A} (l : list A) k x : l !! k = Some x -> take (S k) l = take k l ++ [x].
Proof. apply take_S_r. Qed.

Lemma bl_nth lg bl k : lh_ok lg bl -> 0 <= k < l_n lg ->
  exists x, bl !! Z.to_nat k = Some x /\ u32 (aget 0 (l_block lg) k) = x.
Proof.
  intros Hlo Hk; rewrite (lo_n _ _ Hlo) in Hk.
  destruct (lookup_lt_is_Some_2 bl (Z.to_nat k)) as [x Hx]; [lia|]; exists x; split; [done|].
  rewrite <- (lo_blk _ _ Hlo _ _ Hx); do 2 f_equal; lia.
Qed.

Lemma home_not_log x k : home x -> 0 <= k <= 30 -> x <> LS + k.
Proof. unfold home, in_log; lia. Qed.

(** The state of [write_log] after [k] blocks: only log blocks have changed. *)
Definition off_log_area (x : Z) : Prop := ~ in_log x \/ x = LS.

Record wl_inv (pid : Z) (lg : log) (bl : list Z) (b : bio) (k : Z) (b' : bio) : Prop := {
  wl_sess : session D pid b' bl [];
  wl_view : forall x, off_log_area x -> bview D b' x = bview D b x;
  wl_disk : forall x, off_log_area x -> dread (bc_disk b') x = dread (bc_disk b) x;
  wl_copy : forall i x, Z.of_nat i < k -> bl !! i = Some x ->
    dread (bc_disk b') (LS + Z.of_nat i + 1) = bview D b x;
  wl_since : since (bc_disk b) (bc_disk b') (fun img =>
    (forall x, length (img_read img x) = 1024%nat) /\
    forall x, off_log_area x -> img_read img x = dread (bc_disk b) x)
}.

(** The block written: log block [k] gets what the cache shows for [x]. *)
Lemma wl_inv_step pid lg bl b k x b1 b7 :
  0 <= k < 30 -> bl !! Z.to_nat k = Some x -> length (bview D b x) = 1024%nat ->
  wl_inv pid lg bl b k b1 -> session D pid b7 bl [] ->
  bc_disk b7 = dwrite (bc_disk b1) (LS + (k + 1)) (bview D b x) ->
  (forall y, off_log_area y -> bview D b7 y = bview D b1 y) ->
  wl_inv pid lg bl b (k + 1) b7.
Proof.
  intros Hk Hx Hlen [Hs1 Hv1 Hd1 Hc1 Hi1] Hs7 Hdisk Hv7; set (L := LS + (k + 1)) in *.
  assert (HLne : forall y, off_log_area y -> y <> L) by (unfold off_log_area, in_log, L; lia).
  split; rewrite ?Hdisk; auto.
  - intros y Hy; rewrite Hv7; auto.
  - intros y Hy; rewrite dread_dwrite, decide_False by auto; auto.
  - intros i y Hi Hy; rewrite dread_dwrite; case_decide as E.
    + assert (Z.to_nat k = i) as <- by (unfold L in E; lia); congruence.
    + apply Hc1; [unfold L in E; lia|done].
  - apply since_dwrite; [done|].
    assert (Hl1 : forall y, length (img_read (d_blk (bc_disk b1)) y) = 1024%nat) by apply Hs1.
    split; intros y; rewrite img_read_insert; case_decide; auto; [|apply Hd1].
    intros Hy; exfalso; by apply (HLne y).
Qed.

Lemma write_log_spec bl c lg b :
  lh_ok lg bl -> session D (c_pid c) b bl [] -> no_buf_locks c ->
  Forall home bl -> (length bl < 30)%nat ->
  wp write_log c (LState lg b) (fun _ c' s' =>
    c' = c /\ ls_log s' = lg /\ wl_inv (c_pid c) lg bl b (l_n lg) (ls_bio s')).
Proof.
  intros Hlo Hs Hno Hhome Hlen; pose proof D_ne as HD0.
  unfold write_log, getlog; wp_steps; cbn [ls_log].
  apply (wp_for_range (l_n lg) _ (fun k c' s' =>
    c' = c /\ ls_log s' = lg /\ wl_inv (c_pid c) lg bl b k (ls_bio s'))); auto.
  { rewrite (lo_n _ _ Hlo); lia. }
  { split_and!; auto; split; auto; [lia|apply since_refl]. }
  intros k c' [lg' b1] Hk (-> & E & Hinv); cbn [ls_log ls_bio] in *; subst lg'.
  destruct (bl_nth lg bl k Hlo Hk) as (x & Hx & Ex).
  assert (Hxb : x ∈ bl) by (by eapply list_elem_of_lookup_2).
  rewrite Forall_forall in Hhome; assert (Hxh : home x) by auto.
  rewrite (lo_n _ _ Hlo) in Hk; rewrite (lo_dev _ _ Hlo), (lo_start _ _ Hlo), u32_dev, Ex.
  rewrite <- Z.add_assoc, u32_log by lia; set (L := LS + (k + 1)).
  assert (HLx : x <> L) by (apply home_not_log; [done|lia]).
  assert (HLb : L ∉ bl) by (intros HL; apply Hhome in HL; unfold home, in_log, L in HL; lia).
  pose proof (wl_sess _ _ _ _ _ _ Hinv) as Hs1.
  wp_step; sess session_bread; eauto; [apply not_elem_of_nil|by rewrite app_nil_r|].
  intros to c' b2 (-> & Hs2 & Hd2 & _ & Hv2).
  wp_step; sess session_bread; eauto; [by simpl; rewrite list_elem_of_singleton|done|].
  intros from c' b3 (-> & Hs3 & Hd3 & _ & Hv3).
  wp_step; sess session_bdata; eauto; [by left|].
  intros v c' ? (-> & -> & ->).
  wp_step; sess session_bmodify; eauto; [by right; left|apply view_len, Hs3|].
  intros _ c' b4 (-> & Hs4 & Hd4 & _ & Hv4).
  wp_step; sess session_bwrite; eauto; [by right; left|].
  intros _ c' b5 (-> & Hs5 & Hd5 & Hv5).
  wp_step; sess (session_brelse D (c_pid c) b5 bl [] [(to, L)] from x); eauto; [done|].
  intros _ c' b6 (-> & Hs6 & Hd6 & Hv6).
  sess (session_brelse D (c_pid c) b6 bl [] [] to L); eauto.
  { intros _; by rewrite Hv6, Hd6, Hd5, dread_dwrite, decide_True, Hv5. }
  intros _ c' b7 (-> & Hs7 & Hd7 & Hv7); split_and!; auto.
  assert (Hview : bview D b3 x = bview D b x).
  { rewrite Hv3, Hv2; apply (wl_view _ _ _ _ _ _ Hinv); left; apply Hxh. }
  eapply (wl_inv_step (c_pid c) lg bl b k x b1); eauto; [lia|apply view_len, Hs| |].
  - rewrite Hd7, Hd6, Hd5, Hd4, Hd3, Hd2; f_equal; by rewrite Hv4, decide_True.
  - intros y Hy; rewrite Hv7, Hv6, Hv5, Hv4, decide_False, Hv3, Hv2; [done|].
    unfold off_log_area, in_log, L in *; lia.
Qed.

(** ** Installing the log *)

Definition it_pins (recovering : bool) (bl : list Z) (k : Z) : list Z :=
  if recovering then [] else drop (Z.to_nat k) bl.

(** The state of [install_trans] after [k] blocks. *)
Record it_inv (pid : Z) (r : bool) (bl : list Z) (b : bio) (k : Z) (b' : bio) : Prop := {
  it_sess : session D pid b' (it_pins r bl k) [];
  it_view : forall x, bview D b' x =
    match last_idx (take (Z.to_nat k) bl) x with
    | Some i => dread (bc_disk b) (LS + Z.of_nat i + 1) | None => bview D b x end;
  it_disk : forall x, dread (bc_disk b') x = replay (take (Z.to_nat k) bl) (dread (bc_disk b)) x;
  it_since : since (bc_disk b) (bc_disk b') (fun img =>
    (forall x, length (img_read img x) = 1024%nat) /\
    (forall x, in_log x \/ x ∉ bl -> img_read img x = dread (bc_disk b) x))
}.

(** Log blocks are never home blocks. *)
Lemma last_idx_log bl x : Forall home bl -> in_log x -> last_idx bl x = None.
Proof.
  intros Hh Hx; apply last_idx_None; intros Hb; rewrite Forall_forall in Hh.
  by apply Hh in Hb as [_ Hb].
Qed.

Lemma it_inv_step pid r bl b k x b1 b9 :
  0 <= k < 30 -> bl !! Z.to_nat k = Some x -> Forall home bl -> bio_inv D b ->
  it_inv pid r bl b k b1 -> session D pid b9 (it_pins r bl (k + 1)) [] ->
  bc_disk b9 = dwrite (bc_disk b1) x (dread (bc_disk b) (LS + k + 1)) ->
  (forall y, bview D b9 y = if decide (y = x) then dread (bc_disk b) (LS + k + 1) else bview D b1 y) ->
  it_inv pid r bl b (k + 1) b9.
Proof.
  intros Hk Hx Hh Hb [Hs1 Hv1 Hd1 Hi1] Hs9 Hdisk Hv9.
  assert (Et : take (Z.to_nat (k + 1)) bl = take (Z.to_nat k) bl ++ [x]).
  { replace (Z.to_nat (k + 1)) with (S (Z.to_nat k)) by lia; by apply take_snoc. }
  assert (El : length (take (Z.to_nat k) bl) = Z.to_nat k).
  { apply length_take_le; apply lookup_lt_Some in Hx; lia. }
  assert (Hxb : x ∈ bl) by (by eapply list_elem_of_lookup_2).
  split; auto.
  - intros y; rewrite Hv9, Et, last_idx_snoc, El; case_decide; [|apply Hv1]; do 2 f_equal; lia.
  - intros y; rewrite Hdisk, dread_dwrite, Et; unfold replay; rewrite last_idx_snoc, El.
    case_decide; [do 2 f_equal; lia|apply Hd1].
  - rewrite Hdisk; apply since_dwrite; [done|].
    assert (Hl1 : forall y, length (img_read (d_blk (bc_disk b1)) y) = 1024%nat) by apply Hs1.
    split; intros y; rewrite img_read_insert; case_decide as E; auto; [apply Hb| |].
    + subst y; intros [Hy|Hy]; [|done]; rewrite Forall_forall in Hh; by apply Hh in Hxb as [_ ?].
    + intros Hy; change (img_read _ y) with (dread (bc_disk b1) y); rewrite Hd1; unfold replay.
      enough (last_idx (take (Z.to_nat k) bl) y = None) as -> by done.
      destruct Hy; [apply last_idx_log; [by apply Forall_take|done]|].
      apply last_idx_None; intros Hin; by apply elem_of_take in Hin as (? & Hin%list_elem_of_lookup_2 & _).
Qed.

Lemma it_pins_step bl k x :
  0 <= k -> bl !! Z.to_nat k = Some x -> it_pins false bl k = x :: it_pins false bl (k + 1).
Proof.
  intros Hk Hx; unfold it_pins; rewrite (drop_S _ x) by done; do 2 f_equal; lia.
Qed.

Lemma it_pins_not r bl k x : x ∉ bl -> x ∉ it_pins r bl k.
Proof.
  intros Hx; unfold it_pins; destruct r; [apply not_elem_of_nil|]; intros Hin; apply Hx.
  rewrite <- (take_drop (Z.to_nat k) bl), elem_of_app; auto.
Qed.

Lemma it_pins_length (r : bool) bl k :
  (r = false -> (length bl < 30)%nat) -> (length (it_pins r bl k) < 30)%nat.
Proof. unfold it_pins; destruct r; simpl; [lia|]; rewrite length_drop; intros H; specialize (H eq_refl); lia. Qed.

(** The conditional [bunpin] of the loop. *)
Lemma unpin_spec (r : bool) pid c lg bl k x dbuf held b :
  0 <= k -> bl !! Z.to_nat k = Some x -> (r = false -> NoDup bl) ->
  session D pid b (it_pins r bl k) held -> no_buf_locks c -> c_pid c = pid -> (dbuf, x) ∈ held ->
  wp (if r then ret tt else zoom (bunpin dbuf)) c (LState lg b) (fun _ c' s' =>
    c' = c /\ ls_log s' = lg /\ session D pid (ls_bio s') (it_pins r bl (k + 1)) held /\
    bc_disk (ls_bio s') = bc_disk b /\ (forall y, bview D (ls_bio s') y = bview D b y)).
Proof.
  intros Hk Hx Hnd Hs Hno Hpid Hin; destruct r; [by wp_steps|].
  rewrite (it_pins_step _ _ x) in Hs by done.
  assert (Hnx : x ∉ it_pins false bl (k + 1)).
  { assert (Hn : NoDup (it_pins false bl k)).
    { unfold it_pins; specialize (Hnd eq_refl); rewrite <- (take_drop (Z.to_nat k)) in Hnd.
      by apply NoDup_app in Hnd as (_ & _ & ?). }
    rewrite (it_pins_step _ _ x) in Hn by done; by apply NoDup_cons in Hn as [? _]. }
  sess session_bunpin; eauto.
  intros _ c' b' (-> & Hs' & Hd' & Hv'); auto.
Qed.

Lemma install_step r bl c lg b k b1 :
  lh_ok lg bl -> bio_inv D b -> no_buf_locks c -> Forall home bl ->
  (r = false -> NoDup bl /\ (length bl < 30)%nat) ->
  0 <= k < l_n lg -> it_inv (c_pid c) r bl b k b1 ->
  wp (let! lg := getlog in
      let! lbuf := zoom (bread (u32 (l_dev lg)) (u32 (l_start lg + k + 1))) in
      let! dbuf := zoom (bread (u32 (l_dev lg)) (u32 (aget 0 (l_block lg) k))) in
      let! v := zoom (bdata lbuf) in
      do! zoom (bmodify dbuf (fun _ => v));
      do! zoom (bwrite dbuf);
      do! (if r then ret tt else zoom (bunpin dbuf));
      do! zoom (brelse lbuf);
      zoom (brelse dbuf)) c (LState lg b1) (fun _ c' s' =>
    c' = c /\ ls_log s' = lg /\ it_inv (c_pid c) r bl b (k + 1) (ls_bio s')).
Proof.
  intros Hlo Hb Hno Hhome Hr Hk Hinv; pose proof D_ne as HD0; pose proof (lo_max _ _ Hlo) as Hmax.
  destruct (bl_nth lg bl k Hlo Hk) as (x & Hx & Ex).
  assert (Hxb : x ∈ bl) by (by eapply list_elem_of_lookup_2).
  pose proof Hhome as Hh'; rewrite Forall_forall in Hh'.
  rewrite (lo_n _ _ Hlo) in Hk; unfold getlog; wp_steps; cbn [ls_log].
  rewrite (lo_dev _ _ Hlo), (lo_start _ _ Hlo), u32_dev, Ex.
  rewrite <- Z.add_assoc, u32_log by lia; set (L := LS + (k + 1)).
  assert (HLx : x <> L) by (apply home_not_log; [auto|lia]).
  assert (HLin : in_log L) by (unfold in_log, L; lia).
  assert (HLb : L ∉ bl) by (intros HL; by apply Hh' in HL as [_ ?]).
  pose proof (it_sess _ _ _ _ _ _ Hinv) as Hs1.
  assert (HL1 : bview D b1 L = dread (bc_disk b1) L).
  { apply Hs1; [by apply it_pins_not|apply not_elem_of_nil]. }
  assert (HLd : dread (bc_disk b1) L = dread (bc_disk b) L).
  { rewrite (it_disk _ _ _ _ _ _ Hinv); unfold replay.
    by rewrite last_idx_log by (try apply Forall_take; done). }
  sess session_bread; eauto; [apply not_elem_of_nil|intros _; rewrite app_nil_r; apply it_pins_length; intros H; by apply Hr|].
  intros lbuf c' b2 (-> & Hs2 & Hd2 & _ & Hv2).
  wp_step; sess session_bread; eauto; [by simpl; rewrite list_elem_of_singleton| |].
  { destruct r; [simpl; lia|]; intros H; exfalso; apply H; rewrite (it_pins_step _ _ x) by (done || lia); by left. }
  intros dbuf c' b3 (-> & Hs3 & Hd3 & _ & Hv3).
  wp_step; sess session_bdata; eauto; [by right; left|].
  intros v c' ? (-> & -> & ->).
  wp_step; sess session_bmodify; eauto; [by left|apply view_len, Hs3|].
  intros _ c' b4 (-> & Hs4 & Hd4 & _ & Hv4).
  wp_step; sess session_bwrite; eauto; [by left|].
  intros _ c' b5 (-> & Hs5 & Hd5 & Hv5).
  wp_step; eapply wp_mono; [eapply unpin_spec; eauto; [lia|intros H; by apply Hr|by left]|].
  intros _ c' [lg' b6] (-> & E & Hs6 & Hd6 & Hv6); cbn [ls_log ls_bio] in *; subst lg'.
  assert (Hv : forall y, bview D b6 y = if decide (y = x) then dread (bc_disk b) L else bview D b1 y).
  { intros y; rewrite Hv6, Hv5, Hv4; case_decide; [|by rewrite Hv3, Hv2].
    by rewrite Hv3, Hv2, HL1, HLd. }
  assert (Hd : bc_disk b6 = dwrite (bc_disk b1) x (dread (bc_disk b) L)).
  { rewrite Hd6, Hd5, Hd4, Hd3, Hd2; f_equal; by rewrite Hv4, decide_True, Hv3, Hv2, HL1, HLd. }
  wp_step; sess (session_brelse D (c_pid c) b6 (it_pins r bl (k + 1)) [(dbuf, x)] [] lbuf L); eauto.
  { intros _; by rewrite Hv, Hd, dread_dwrite, !decide_False. }
  intros _ c' b7 (-> & Hs7 & Hd7 & Hv7).
  sess (session_brelse D (c_pid c) b7 (it_pins r bl (k + 1)) [] [] dbuf x); eauto.
  { intros _; by rewrite Hv7, Hd7, Hv, Hd, dread_dwrite, !decide_True. }
  intros _ c' b8 (-> & Hs8 & Hd8 & Hv8); split_and!; auto.
  eapply (it_inv_step (c_pid c) r bl b k x b1); eauto; [lia| |]; rewrite <- Z.add_assoc; fold L.
  - by rewrite Hd8, Hd7.
  - intros y; by rewrite Hv8, Hv7.
Qed.

Lemma install_trans_spec r bl c lg b :
  lh_ok lg bl -> session D (c_pid c) b (it_pins r bl 0) [] -> no_buf_locks c -> Forall home bl ->
  (r = false -> NoDup bl /\ (length bl < 30)%nat) ->
  wp (install_trans r) c (LState lg b) (fun _ c' s' =>
    c' = c /\ ls_log s' = lg /\ it_inv (c_pid c) r bl b (l_n lg) (ls_bio s')).
Proof.
  intros Hlo Hs Hno Hhome Hr; unfold install_trans, getlog at 1; wp_steps; cbn [ls_log].
  apply (wp_for_range (l_n lg) _ (fun k c' s' =>
    c' = c /\ ls_log s' = lg /\ it_inv (c_pid c) r bl b k (ls_bio s'))); auto.
  { rewrite (lo_n _ _ Hlo); lia. }
  { split_and!; auto; split; auto; apply since_refl. }
  intros k c' [lg' b1] Hk (-> & E & Hinv); cbn [ls_log ls_bio] in *; subst lg'.
  apply install_step; auto; apply Hs.
Qed.

(** ** Reading the header *)

Definition same_flags (lg lg' : log) : Prop :=
  l_outstanding lg' = l_outstanding lg /\ l_committing lg' = l_committing lg.

Lemma read_head_spec c lg b :
  l_dev lg = D -> l_start lg = LS -> length (l_block lg) = 30%nat ->
  session D (c_pid c) b [] [] -> no_buf_locks c ->
  0 <= hdr_n (dread (bc_disk b) LS) <= 30 ->
  wp read_head c (LState lg b) (fun _ c' s' =>
    c' = c /\ session D (c_pid c) (ls_bio s') [] [] /\ bc_disk (ls_bio s') = bc_disk b /\
    lh_ok (ls_log s') (hdr_list (dread (bc_disk b) LS)) /\ same_flags lg (ls_log s')).
Proof.
  intros Edev Est El Hs Hno Hn; pose proof D_ne as HD0.
  unfold read_head, getlog; wp_steps; cbn [ls_log]; rewrite Edev, Est, u32_dev, u32_small by lia.
  assert (Hcl : bview D b LS = dread (bc_disk b) LS) by (apply Hs; apply not_elem_of_nil).
  sess session_bread; eauto; [apply not_elem_of_nil|simpl; lia|].
  intros i c' b1 (-> & Hs1 & Hd1 & _ & Hv1); wp_step.
  sess session_bdata; eauto; [by left|]; intros lh c' ? (-> & -> & ->).
  rewrite Hv1, Hcl; set (h := dread (bc_disk b) LS) in *; change (s32 (get32 h 0)) with (hdr_n h).
  unfold modlog; wp_step; apply wp_zoom; wp_steps; cbn [lset lget lstate_log ls_bio ls_log].
  apply (wp_for_range (hdr_n h) _ (fun k c' s' => c' = c /\ ls_bio s' = b1 /\ same_flags lg (ls_log s') /\
    l_dev (ls_log s') = D /\ l_start (ls_log s') = LS /\ length (l_block (ls_log s')) = 30%nat /\
    l_n (ls_log s') = hdr_n h /\
    forall j, 0 <= j < k -> aget 0 (l_block (ls_log s')) j = s32 (get32 h (hb_off j)))).
  - lia.
  - cbn [ls_log ls_bio set_n l_dev l_start l_block l_n]; split_and!; auto; [done|lia].
  - intros k c' [lg' b2] Hk (-> & E & [Hf1 Hf2] & Hd' & Hst' & Hl' & Hn' & Hj); cbn [ls_log ls_bio] in *.
    subst b2; apply wp_zoom; wp_steps; cbn [lset lget lstate_log ls_bio ls_log].
    split_and!; auto; cbn [l_block set_block]; [by split|by rewrite length_aset|].
    intros j Hjk; destruct (decide (j = k)) as [->|].
    + rewrite aget_aset_eq by lia; done.
    + rewrite aget_aset_ne by lia; apply Hj; lia.
  - intros c' [lg' b2] (-> & E & Hf & Hd' & Hst' & Hl' & Hn' & Hj); cbn [ls_log ls_bio] in *; subst b2.
    sess (session_brelse D (c_pid c) b1 [] [] [] i LS); eauto.
    { intros _; by rewrite Hv1, Hd1, Hcl. }
    intros _ c' b3 (-> & Hs3 & Hd3 & Hv3); split_and!; auto; [congruence|]; split; auto.
    + by rewrite length_hdr_list, Z2Nat.id by lia.
    + rewrite length_hdr_list; lia.
    + intros j x Hx; pose proof (lookup_lt_Some _ _ _ Hx) as Hlt; rewrite length_hdr_list in Hlt.
      unfold hdr_list in Hx; rewrite list_lookup_fmap, lookup_zrange in Hx by lia.
      injection Hx as <-; rewrite Z.add_0_l, Hj by lia; done.
Qed.

(** ** Recovery *)

Lemma recover_from_log_spec c lg b h :
  l_dev lg = D -> l_start lg = LS -> length (l_block lg) = 30%nat ->
  session D (c_pid c) b [] [] -> no_buf_locks c -> recoverable (dread (bc_disk b)) h ->
  wp recover_from_log c (LState lg b) (fun _ c' s' =>
    c' = c /\ session D (c_pid c) (ls_bio s') [] [] /\ lh_ok (ls_log s') [] /\
    same_flags lg (ls_log s') /\ hdr_n (dread (bc_disk (ls_bio s')) LS) = 0 /\
    (forall x, home x -> dread (bc_disk (ls_bio s')) x = h x) /\
    since (bc_disk b) (bc_disk (ls_bio s')) (fun img => recoverable (img_read img) h)).
Proof.
  intros Edev Est El Hs Hno Hrec; pose proof Hrec as [Hn Hh Hlen Heq].
  unfold recover_from_log; wp_step; eapply wp_mono; [by apply read_head_spec|].
  intros _ c' [lg1 b1] (-> & Hs1 & Hd1 & Hlo1 & Hf1); cbn [ls_log ls_bio] in *.
  set (bl := hdr_list (dread (bc_disk b) LS)) in *.
  wp_step; eapply wp_mono; [by apply (install_trans_spec true bl)|].
  intros _ c' [lg2 b2] (-> & E & [Hs2 Hv2 Hd2 Hi2]); cbn [ls_log ls_bio] in *; subst lg2.
  rewrite (lo_n _ _ Hlo1), Nat2Z.id, firstn_all, Hd1 in *.
  wp_step; apply wp_zoom; wp_steps; cbn [lset lget lstate_log ls_bio ls_log].
  assert (Hlo2 : lh_ok (set_n 0 lg1) []).
  { destruct Hlo1; split; auto; simpl; [lia|done]. }
  eapply wp_mono; [apply (write_head_spec []); eauto; [apply not_elem_of_nil|simpl; lia]|].
  intros _ c' [lg3 b3] (hb & -> & E & Hs3 & Hn3 & Hl3 & Hlen3 & Hd3 & Hv3); cbn [ls_log ls_bio] in *.
  subst lg3; assert (Hhome : forall x, home x -> dread (bc_disk b3) x = h x).
  { intros x Hx; rewrite Hd3, dread_dwrite, decide_False by (intros ->; destruct Hx as [_ Hx]; apply Hx; unfold in_log; lia).
    rewrite Hd2; by apply Heq. }
  split_and!; auto.
  - rewrite Hd3, dread_dwrite, decide_True by done; done.
  - apply (since_trans _ (bc_disk b2)); rewrite ?Hd1.
    + eapply since_mono; [|exact Hi2]; intros img [Hil Hix].
      apply (recoverable_frame (dread (bc_disk b))); auto.
    + rewrite Hd3; apply since_dwrite; [apply since_refl|].
      change (img_read (<[LS:=hb]> (d_blk (bc_disk b2)))) with (dread (dwrite (bc_disk b2) LS hb)).
      rewrite <- Hd3; apply recoverable_empty; auto; [|apply Hs3].
      rewrite Hd3, dread_dwrite, decide_True by done; done.
Qed.

(** ** A running transaction *)

(** [bl] lists the blocks the transaction has logged, [held] the buffers the
    calling thread holds.  The log on disk is empty; the contents before the
    transaction are on the disk, those it has made are the cache's. *)
Record tx (pid : Z) (s : lstate) (bl : list Z) (held : list (Z * Z)) : Prop := {
  tx_lh : lh_ok (ls_log s) bl;
  tx_sess : session D pid (ls_bio s) bl held;
  tx_nodup : NoDup bl;
  tx_home : Forall home bl;
  tx_hdr : hdr_n (dread (bc_disk (ls_bio s)) LS) = 0
}.

Lemma LS_not_in bl : Forall home bl -> LS ∉ bl.
Proof.
  intros Hh Hin; rewrite Forall_forall in Hh; apply Hh in Hin as [_ Hin]; apply Hin; unfold in_log; lia.
Qed.

Lemma home_off x : home x -> off_log_area x /\ x <> LS.
Proof. unfold home, off_log_area, in_log; lia. Qed.

(** After [write_log] and the first [write_head] the log holds the transaction. *)
Lemma committed_image bl b (f : Z -> block) hb :
  NoDup bl -> Forall home bl -> (length bl <= 30)%nat ->
  (forall x, home x -> x ∉ bl -> bview D b x = dread (bc_disk b) x) ->
  (forall x, length (f x) = 1024%nat) -> f LS = hb -> hdr_n hb = Z.of_nat (length bl) -> hdr_list hb = bl ->
  (forall x, home x -> f x = dread (bc_disk b) x) ->
  (forall i x, bl !! i = Some x -> f (LS + Z.of_nat i + 1) = bview D b x) ->
  recoverable f (bview D b).
Proof.
  intros Hnd Hh Hlen Hcl Hl Ehb En El Hhome Hcp; split; rewrite ?Ehb, ?En, ?El; auto; [lia|].
  intros x Hx; unfold recovered, replay; rewrite Ehb, El.
  destruct (last_idx bl x) as [i|] eqn:E.
  - apply last_idx_Some in E; auto.
  - apply last_idx_None in E; rewrite Hhome, Hcl; auto.
Qed.

(** What [commit] does with a transaction: its contents are on the disk, and at
    no time was there anything on the disk that recovery would turn into
    something else than the contents before or after. *)
Record committed (pid : Z) (s s' : lstate) : Prop := {
  cm_tx : tx pid s' [] [];
  cm_flags : same_flags (ls_log s) (ls_log s');
  cm_disk : forall x, home x -> dread (bc_disk (ls_bio s')) x = bview D (ls_bio s) x;
  cm_since : since (bc_disk (ls_bio s)) (bc_disk (ls_bio s')) (fun img =>
    recoverable (img_read img) (dread (bc_disk (ls_bio s))) \/
    recoverable (img_read img) (bview D (ls_bio s)))
}.

(** Up to the commit point: the second write of the header. *)
Lemma log_transaction_spec bl c lg b :
  tx (c_pid c) (LState lg b) bl [] -> no_buf_locks c -> (length bl < 30)%nat ->
  wp (do! write_log; write_head) c (LState lg b) (fun _ c' s' =>
    c' = c /\ ls_log s' = lg /\ session D (c_pid c) (ls_bio s') bl [] /\
    recoverable (dread (bc_disk (ls_bio s'))) (bview D b) /\
    hdr_list (dread (bc_disk (ls_bio s')) LS) = bl /\
    since (bc_disk b) (bc_disk (ls_bio s')) (fun img =>
      recoverable (img_read img) (dread (bc_disk b)) \/ recoverable (img_read img) (bview D b))).
Proof.
  intros [Hlo Hs Hnd Hh Hhdr] Hno Hlen; cbn [ls_log ls_bio] in *; pose proof (LS_not_in bl Hh) as HLS'.
  wp_step; eapply wp_mono; [by apply write_log_spec|].
  intros _ c' [lg1 b1] (-> & E & [Hs1 Hv1 Hd1 Hc1 Hi1]); cbn [ls_log ls_bio] in *; subst lg1.
  eapply wp_mono; [apply (write_head_spec bl); eauto|].
  intros _ c' [lg2 b2] (hb & -> & E & Hs2 & Hn2 & Hl2 & Hlen2 & Hd2 & Hv2); cbn [ls_log ls_bio] in *.
  subst lg2; assert (Hf : recoverable (dread (bc_disk b2)) (bview D b)).
  { apply (committed_image bl b _ hb); auto; rewrite ?Hd2; intros; rewrite ?dread_dwrite.
    - lia.
    - apply Hs; [done|apply not_elem_of_nil].
    - case_decide; [done|]; apply Hs1.
    - by rewrite decide_True.
    - destruct (home_off x) as [? ?]; [done|]; rewrite decide_False by done; auto.
    - apply lookup_lt_Some in H as Hi; rewrite decide_False by lia; apply Hc1; [|done].
      rewrite (lo_n _ _ Hlo); lia. }
  split_and!; auto; [by rewrite Hd2, dread_dwrite, decide_True|].
  rewrite Hd2; apply since_dwrite.
  - eapply since_mono; [|exact Hi1]; intros img [Hl Hi]; left; apply recoverable_empty; auto.
    + by rewrite Hi by (by right).
    + intros x Hx; apply Hi; by apply home_off.
  - right; change (img_read _) with (dread (dwrite (bc_disk b1) LS hb)); by rewrite <- Hd2.
Qed.

(** From the commit point to the empty log. *)
Lemma install_transaction_spec bl c lg b h :
  lh_ok lg bl -> session D (c_pid c) b bl [] -> no_buf_locks c -> Forall home bl -> NoDup bl ->
  (length bl < 30)%nat -> recoverable (dread (bc_disk b)) h -> hdr_list (dread (bc_disk b) LS) = bl ->
  wp (do! install_trans false; do! modlog (set_n 0); write_head) c (LState lg b) (fun _ c' s' =>
    c' = c /\ tx (c_pid c) s' [] [] /\ same_flags lg (ls_log s') /\
    (forall x, home x -> dread (bc_disk (ls_bio s')) x = h x) /\
    since (bc_disk b) (bc_disk (ls_bio s')) (fun img => recoverable (img_read img) h)).
Proof.
  intros Hlo Hs Hno Hh Hnd Hlen Hf Hbl.
  wp_step; eapply wp_mono; [apply (install_trans_spec false bl); eauto|].
  intros _ c' [lg3 b3] (-> & E & [Hs3 Hv3 Hd3 Hi3]); cbn [ls_log ls_bio] in *; subst lg3.
  rewrite (lo_n _ _ Hlo), Nat2Z.id, firstn_all in *; unfold it_pins in Hs3.
  rewrite Nat2Z.id, drop_all in Hs3.
  wp_step; apply wp_zoom; wp_steps; cbn [lset lget lstate_log ls_bio ls_log].
  assert (Hlo3 : lh_ok (set_n 0 lg) []) by (destruct Hlo; split; auto; simpl; [lia|done]).
  eapply wp_mono; [apply (write_head_spec []); eauto; [apply not_elem_of_nil|simpl; lia]|].
  intros _ c' [lg4 b4] (h4 & -> & E & Hs4 & Hn4 & _ & Hlen4 & Hd4 & Hv4); cbn [ls_log ls_bio] in *.
  subst lg4; assert (Hhome : forall x, home x -> dread (bc_disk b4) x = h x).
  { intros x Hx; rewrite Hd4, dread_dwrite, decide_False by (by apply home_off).
    rewrite Hd3, <- (rc_eq _ _ Hf x Hx); unfold recovered; by rewrite Hbl. }
  assert (Hhdr4 : hdr_n (dread (bc_disk b4) LS) = 0) by (by rewrite Hd4, dread_dwrite, decide_True).
  split_and!; auto; [by split; try apply NoDup_nil_2|by split|].
  apply (since_trans _ (bc_disk b3)).
  - eapply since_mono; [|exact Hi3]; intros img [Hil Hix].
    apply (recoverable_frame (dread (bc_disk b))); auto; rewrite Hbl; auto.
  - rewrite Hd4; apply since_dwrite; [apply since_refl|].
    change (img_read (<[LS:=h4]> _)) with (dread (dwrite (bc_disk b3) LS h4)).
    rewrite <- Hd4; apply recoverable_empty; auto; apply Hs4.
Qed.

Lemma commit_spec bl c s :
  tx (c_pid c) s bl [] -> no_buf_locks c -> (length bl < 30)%nat ->
  wp commit c s (fun _ c' s' => c' = c /\ committed (c_pid c) s s').
Proof.
  destruct s as [lg b]; intros Htx Hno Hlen; pose proof Htx as [Hlo Hs Hnd Hh Hhdr].
  cbn [ls_log ls_bio] in *; unfold commit, getlog; wp_steps; cbn [ls_log]; rewrite (lo_n _ _ Hlo).
  destruct (Z.ltb_spec 0 (Z.of_nat (length bl))) as [Hpos|Hz].
  2:{ wp_steps; assert (bl = []) as -> by (apply nil_length_inv; lia).
      split; [done|]; split; [by split|by split| |apply since_refl].
      intros x _; symmetry; apply Hs; apply not_elem_of_nil. }
  apply bind_assoc_wp; wp_step; eapply wp_mono; [by apply log_transaction_spec|].
  intros _ c' [lg1 b1] (-> & E & Hs1 & Hf1 & Hbl1 & Hi1); cbn [ls_log ls_bio] in *; subst lg1.
  eapply wp_mono; [by apply (install_transaction_spec bl)|].
  intros _ c' s2 (-> & Htx2 & Hfl2 & Hd2 & Hi2); split; [done|]; split; auto.
  eapply since_trans; [exact Hi1|]; eapply since_mono; [|exact Hi2]; auto.
Qed.

(** ** Logging a block *)

(** The list of logged blocks after [log_write] of [b]: a block already listed
    is absorbed. *)
Definition add_block (bl : list Z) (b : Z) : list Z := if decide (b ∈ bl) then bl else bl ++ [b].

Lemma log_index_found lg bl b i :
  lh_ok lg bl -> bl !! i = Some b -> NoDup bl -> log_index lg b = Z.of_nat i.
Proof.
  intros Hlo Hi Hnd; unfold log_index; rewrite (lo_n _ _ Hlo), Nat2Z.id.
  assert (Hlt : (i < length bl)%nat) by (by eapply lookup_lt_Some).
  destruct (List.find _ _) as [j|] eqn:E.
  - apply List.find_some in E as [Hj E]; apply list_elem_of_In, elem_of_zrange in Hj.
    apply Z.eqb_eq in E; destruct (lookup_lt_is_Some_2 bl (Z.to_nat j)) as [y Hy]; [lia|].
    pose proof (lo_blk _ _ Hlo _ _ Hy) as Ey; rewrite Z2Nat.id in Ey by lia.
    assert (Z.to_nat j = i); [|lia]; eapply NoDup_lookup; eauto; congruence.
  - eapply List.find_none in E; [|apply list_elem_of_In, elem_of_zrange; split; [|apply Z2Nat.inj_lt]].
    all: try (instantiate (1 := Z.of_nat i)); try lia.
    rewrite (lo_blk _ _ Hlo _ _ Hi), Z.eqb_refl in E; done.
Qed.

Lemma log_index_absent lg bl b :
  lh_ok lg bl -> b ∉ bl -> log_index lg b = l_n lg.
Proof.
  intros Hlo Hb; unfold log_index; pose proof (lo_n _ _ Hlo) as En.
  destruct (List.find _ _) as [j|] eqn:E; [|lia].
  apply List.find_some in E as [Hj E]; apply list_elem_of_In, elem_of_zrange in Hj.
  apply Z.eqb_eq in E; destruct (lookup_lt_is_Some_2 bl (Z.to_nat j)) as [y Hy]; [lia|].
  pose proof (lo_blk _ _ Hlo _ _ Hy) as Ey; rewrite Z2Nat.id in Ey by lia.
  exfalso; apply Hb; apply list_elem_of_lookup; exists (Z.to_nat j); congruence.
Qed.

(** The header with [b] stored at index [i]. *)
Lemma lh_ok_set lg bl i b :
  lh_ok lg bl -> bl !! i = Some b -> 0 <= b < 2 ^ 32 -> lh_ok (set_block (Z.of_nat i) (s32 b) lg) bl.
Proof.
  intros Hlo Hi Hb; pose proof Hlo as [H1 H2 H3 H4 H5 H6].
  apply lookup_lt_Some in Hi as Hlt; split; auto; cbn [l_block set_block].
  - by rewrite length_aset.
  - intros j x Hj; destruct (decide (j = i)) as [->|].
    + rewrite aget_aset_eq, u32_s32, u32_small by lia; congruence.
    + rewrite aget_aset_ne by lia; auto.
Qed.

Lemma lh_ok_snoc lg bl b :
  lh_ok lg bl -> (length bl < 30)%nat -> 0 <= b < 2 ^ 32 ->
  lh_ok (set_n (l_n lg + 1) (set_block (l_n lg) (s32 b) lg)) (bl ++ [b]).
Proof.
  intros Hlo Hlen Hb; pose proof Hlo as [H1 H2 H3 H4 H5 H6].
  split; auto; cbn [l_block l_n set_block set_n]; rewrite ?length_app; simpl; try lia.
  - by rewrite length_aset.
  - intros j x Hj; destruct (decide (j = length bl)) as [->|].
    + rewrite H4, aget_aset_eq, u32_s32, u32_small by lia.
      rewrite list_lookup_middle in Hj by done; congruence.
    + apply lookup_lt_Some in Hj as Hlt; rewrite length_app in Hlt; simpl in Hlt.
      rewrite H4, aget_aset_ne by lia; apply H6; rewrite lookup_app_l in Hj by lia; done.
Qed.

Lemma log_write_spec pid c s bl held i b :
  tx pid s bl held -> c_pid c = pid -> LOGLOCK ∉ c_held c -> no_buf_locks c ->
  (i, b) ∈ held -> home b -> (length bl < 30)%nat -> 1 <= l_outstanding (ls_log s) ->
  wp (log_write i) c s (fun _ c' s' =>
    c' = c /\ tx pid s' (add_block bl b) held /\ same_flags (ls_log s) (ls_log s') /\
    bc_disk (ls_bio s') = bc_disk (ls_bio s) /\
    (forall x, bview D (ls_bio s') x = bview D (ls_bio s) x)).
Proof.
  destruct s as [lg bb]; intros [Hlo Hs Hnd Hh Hhdr] Hpid Hk Hno Hin Hb Hlen Hout.
  cbn [ls_log ls_bio] in *; pose proof (lo_n _ _ Hlo) as En; pose proof D_ne as HD0.
  assert (Hno' : no_buf_locks (Ctx (c_pid c) (LOGLOCK :: c_held c))).
  { destruct Hno as [Hn1 Hn2]; split; [|intros j]; simpl; apply not_elem_of_cons; auto. }
  unfold log_write, getlog, modlog; wp_steps; cbn [ls_log].
  change LOGBLOCKS with 30; destruct (Z.leb_spec 30 (l_n lg)); [lia|].
  destruct (Z.ltb_spec (l_outstanding lg) 1); [lia|].
  wp_step; apply wp_zoom; wp_steps; cbn [lget lset lstate_bio ls_bio ls_log].
  rewrite (h_bno _ _ _ _ _ (ss_holds _ _ _ _ _ Hs _ _ Hin)); apply wp_zoom; wp_steps.
  cbn [lget lset lstate_log ls_bio ls_log]; unfold add_block; case_decide as Hbl.
  - apply list_elem_of_lookup in Hbl as [j Hj]; rewrite (log_index_found lg bl b j) by done.
    apply lookup_lt_Some in Hj as Hlt; destruct (Z.eqb_spec (Z.of_nat j) (l_n lg)); [lia|].
    wp_steps; cbn [ls_log ls_bio]; split_and!; auto; [by destruct c| |done].
    split; auto; apply lh_ok_set; auto; unfold home in Hb; lia.
  - rewrite (log_index_absent lg bl b) by done; rewrite Z.eqb_refl; wp_step.
    sess session_bpin; eauto.
    intros _ c' b' (-> & Hs' & Hd' & Hv'); unfold modlog; apply wp_zoom; wp_steps.
    cbn [lget lset lstate_log ls_bio ls_log]; split_and!; auto; [by destruct c| |done].
    split; cbn [ls_log ls_bio]; auto; rewrite ?Hd'; auto.
    + apply lh_ok_snoc; auto; unfold home in Hb; lia.
    + apply NoDup_app; split_and!; auto; [intros x Hx; rewrite list_elem_of_singleton; congruence|].
      apply NoDup_singleton.
    + apply Forall_app; auto.
Qed.
End log.
