(* ===== verification/LogSystem.v ===== *)
(** * Transactions against their specification

    Threads that run transactions over the log of [Log.v], in any interleaving of
    their calls, against a specification that has the committed contents, the
    contents the running transaction has made so far, and nothing else; with
    power failures at every write to the disk. *)

From S2P Require Import Prelude KMonad Riscv Sleeplock Bio Session FsLayout Log LogProofs.

(** Thread [p], holding nothing, runs [m]. *)
Definition as_thread {S A} (p : Z) (m : M S A) : M S A :=
  fun c s =>
    match m (Ctx p []) s with
    | Ret a _ s' w => Ret a c s' w
    | Panic e => Panic e
    | Block ch c' s' => Block ch c' s'
    | Diverge => Diverge
    end.

Lemma wp_as_thread {S A} p (m : M S A) c s Φ :
  wp m (Ctx p []) s (fun a _ s' => Φ a c s') -> wp (as_thread p m) c s Φ.
Proof. unfold wp, as_thread; destruct (m (Ctx p []) s); auto. Qed.

(** The calls of a file-system operation: [TUpdate] is the idiom of the comment
    over [log_write] ([bread], change of the data, [log_write], [brelse]). *)
Inductive tx_op :=
| TBegin
| TUpdate (b : Z) (f : block -> block)
| TRead (b : Z)
| TEnd.

Definition update_block (D b : Z) (f : block -> block) : M lstate unit :=
  let! bp := zoom (bread D b) in
  do! zoom (bmodify bp f);
  do! log_write bp;
  zoom (brelse bp).

Definition run_op (D : Z) (o : tx_op) : M lstate (list block) :=
  match o with
  | TBegin => do! begin_op; ret []
  | TUpdate b f => do! update_block D b f; ret []
  | TRead b => let! v := zoom (read_block D b) in ret [v]
  | TEnd => do! end_op; ret []
  end.

Fixpoint sys_run (D : Z) (ops : list (Z * tx_op)) : M lstate (list block) :=
  match ops with
  | [] => ret []
  | (p, o) :: ops =>
      let! vs := as_thread p (run_op D o) in
      let! vs' := sys_run D ops in
      ret (vs ++ vs')
  end.

(** Power-on: an empty cache over the disk, then [initlog]. *)
Definition boot (D : Z) (sb : superblock) : M lstate unit :=
  do! zoom binit;
  initlog D sb.

Definition power_on (img : image) : lstate := LState bss_log (bss_bio (Disk img [])).

(** ** Specification *)

Record tspec := TSpec {
  t_comm : Z -> block;
  t_cur : Z -> block;
  t_dirty : list Z;
  t_out : Z
}.

Definition fresh (h : Z -> block) : tspec := TSpec h h [] 0.

Definition fupd (b : Z) (v : block) (g : Z -> block) : Z -> block :=
  fun x => if decide (x = b) then v else g x.

Definition spec_op (st : tspec) (o : tx_op) : list block * tspec :=
  match o with
  | TBegin => ([], TSpec (t_comm st) (t_cur st) (t_dirty st) (t_out st + 1))
  | TUpdate b f =>
      ([], TSpec (t_comm st) (fupd b (f (t_cur st b)) (t_cur st)) (add_block (t_dirty st) b) (t_out st))
  | TRead b => ([t_cur st b], st)
  | TEnd =>
      ([], if t_out st =? 1 then TSpec (t_cur st) (t_cur st) [] 0
           else TSpec (t_comm st) (t_cur st) (t_dirty st) (t_out st - 1))
  end.

Fixpoint spec_run (st : tspec) (ops : list (Z * tx_op)) : list block * tspec :=
  match ops with
  | [] => ([], st)
  | (_, o) :: ops =>
      let r := spec_op st o in
      let r' := spec_run r.2 ops in
      (r.1 ++ r'.1, r'.2)
  end.

(** What a call needs.  [TBegin]: the room [begin_op] asks for.  [TUpdate]: an
    operation is running, the block is outside the log and the log is not full.
    [TRead] and the commit of [TEnd]: a buffer that is not pinned. *)
Definition op_ok (LS : Z) (st : tspec) (o : tx_op) : Prop :=
  match o with
  | TBegin => Z.of_nat (length (t_dirty st)) + (t_out st + 1) * MAXOPBLOCKS <= LOGBLOCKS
  | TUpdate b f =>
      1 <= t_out st /\ home LS b /\ Z.of_nat (length (t_dirty st)) < LOGBLOCKS /\
      (forall v, length v = 1024%nat -> length (f v) = 1024%nat)
  | TRead b => home LS b /\ (b ∉ t_dirty st -> Z.of_nat (length (t_dirty st)) < NBUF)
  | TEnd => 1 <= t_out st /\ (t_out st = 1 -> Z.of_nat (length (t_dirty st)) < NBUF)
  end.

Fixpoint ops_ok (LS : Z) (st : tspec) (ops : list (Z * tx_op)) : Prop :=
  match ops with
  | [] => True
  | (_, o) :: ops => op_ok LS st o /\ ops_ok LS (spec_op st o).2 ops
  end.

Section system.
Context (D LS : Z) (HD : 0 < D < 2 ^ 31) (HLS : 0 <= LS /\ LS + 30 < 2 ^ 31).

(** ** Refinement relation *)

Record models (s : lstate) (st : tspec) : Prop := {
  ms_tx : tx D LS 0 s (t_dirty st) [];
  ms_out : l_outstanding (ls_log s) = t_out st;
  ms_com : l_committing (ls_log s) = false;
  ms_comm : forall x, home LS x -> dread (bc_disk (ls_bio s)) x = t_comm st x;
  ms_cur : forall x, home LS x -> bview D (ls_bio s) x = t_cur st x
}.

Lemma tx_any p q s bl : tx D LS p s bl [] -> tx D LS q s bl [].
Proof.
  intros [H1 [I1 I2 I3 I4 I5 I6] H3 H4 H5]; split; auto; split; auto.
  by intros i b Hin; apply not_elem_of_nil in Hin.
Qed.

Lemma no_locks p : no_buf_locks (Ctx p []).
Proof. split; [|intros i]; apply not_elem_of_nil. Qed.

(** What one call does to the relation and to the disk. *)
Definition op_post (st : tspec) (s : lstate) (o : tx_op) (vs : list block) (s' : lstate) : Prop :=
  vs = (spec_op st o).1 /\ models s' (spec_op st o).2 /\
  since (bc_disk (ls_bio s)) (bc_disk (ls_bio s')) (fun img =>
    recoverable LS (img_read img) (t_comm st) \/
    recoverable LS (img_read img) (t_comm (spec_op st o).2)).

Lemma begin_op_spec p s st :
  models s st -> op_ok LS st TBegin ->
  wp (run_op D TBegin) (Ctx p []) s (fun vs c' s' => c' = Ctx p [] /\ op_post st s TBegin vs s').
Proof.
  destruct s as [lg b]; intros [Htx Hout Hcom Hcm Hcu] Hok; cbn [ls_log ls_bio op_ok] in *.
  pose proof (lo_n _ _ _ _ (tx_lh _ _ _ _ _ _ Htx)) as En; cbn [ls_log] in En.
  unfold run_op, begin_op, getlog, modlog; wp_steps; cbn [ls_log]; rewrite Hcom, En, Hout.
  destruct (Z.ltb_spec LOGBLOCKS (Z.of_nat (length (t_dirty st)) + (t_out st + 1) * MAXOPBLOCKS)); [lia|].
  wp_step; apply wp_zoom; wp_steps; cbn [lget lset lstate_log ls_log ls_bio].
  split; [done|]; split_and!; [done| |apply since_refl].
  destruct Htx as [[] ? ? ? ?]; split; auto; [|simpl; congruence]; split; auto; split; auto.
Qed.

Lemma add_block_in bl b : b ∈ add_block bl b.
Proof. unfold add_block; case_decide; [done|]; elt. Qed.

Lemma add_block_le bl b : (length bl <= length (add_block bl b))%nat.
Proof. unfold add_block; case_decide; [lia|]; rewrite length_app; lia. Qed.

Ltac lsess lem :=
  apply wp_zoom; cbn [lget lstate_bio ls_bio]; eapply wp_mono; [eapply lem|];
  cbn [lset lstate_bio ls_log ls_bio].

Lemma update_spec p s st b f :
  models s st -> op_ok LS st (TUpdate b f) ->
  wp (run_op D (TUpdate b f)) (Ctx p []) s (fun vs c' s' =>
    c' = Ctx p [] /\ op_post st s (TUpdate b f) vs s').
Proof.
  destruct s as [lg bb]; intros [Htx Hout Hcom Hcm Hcu] (Ho & Hb & Hn & Hf).
  change LOGBLOCKS with 30 in Hn.
  pose proof (tx_any _ p _ _ Htx) as [Hlo Hs Hnd Hh Hhdr]; cbn [ls_log ls_bio] in *.
  assert (HD0 : D <> 0) by lia; pose proof (no_locks p) as Hno.
  unfold run_op, update_block; wp_step; wp_step.
  lsess session_bread; eauto; [apply not_elem_of_nil|rewrite app_nil_r; lia|].
  intros i c' b1 (-> & Hs1 & Hd1 & _ & Hv1); wp_step.
  lsess session_bmodify; eauto; [by left|apply Hf, view_len, Hs1|].
  intros _ c' b2 (-> & Hs2 & Hd2 & _ & Hv2); wp_step.
  eapply wp_mono; [eapply (log_write_spec D LS HD HLS p _ _ (t_dirty st) [(i, b)] i b); eauto|].
  - split; cbn [ls_log ls_bio]; auto; by rewrite Hd2, Hd1.
  - apply not_elem_of_nil.
  - by left.
  - lia.
  - by cbn [ls_log]; rewrite Hout.
  - intros _ c' [lg3 b3] (-> & [Hlo3 Hs3 Hnd3 Hh3 Hhdr3] & [Hf1 Hf2] & Hd3 & Hv3).
    cbn [ls_log ls_bio] in *; lsess (session_brelse D p b3 (add_block (t_dirty st) b) [] [] i b); eauto.
    { intros H; exfalso; apply H, add_block_in. }
    intros _ c' b4 (-> & Hs4 & Hd4 & Hv4); wp_steps; split; [done|].
    assert (Ed : bc_disk b4 = bc_disk bb) by congruence.
    split_and!; [done| |cbn [ls_bio]; rewrite Ed; apply since_refl].
    split; cbn [ls_log ls_bio spec_op snd t_dirty t_out t_comm t_cur]; rewrite ?Ed; auto; [|congruence|congruence|].
    + apply (tx_any p); split; cbn [ls_log ls_bio]; rewrite ?Ed; auto.
    + intros x Hx; rewrite Hv4, Hv3, Hv2; unfold fupd; case_decide; subst; by rewrite Hv1, Hcu.
Qed.

Lemma read_spec p s st b :
  models s st -> op_ok LS st (TRead b) ->
  wp (run_op D (TRead b)) (Ctx p []) s (fun vs c' s' => c' = Ctx p [] /\ op_post st s (TRead b) vs s').
Proof.
  destruct s as [lg bb]; intros [Htx Hout Hcom Hcm Hcu] [Hb Hn].
  change NBUF with 30 in Hn.
  pose proof (tx_any _ p _ _ Htx) as [Hlo Hs Hnd Hh Hhdr]; cbn [ls_log ls_bio] in *.
  assert (HD0 : D <> 0) by lia; pose proof (no_locks p) as Hno.
  unfold run_op, read_block; wp_step; apply wp_zoom; cbn [lget lstate_bio ls_bio]; wp_step.
  eapply wp_mono; [eapply session_bread; eauto; [apply not_elem_of_nil|intros H; specialize (Hn H); rewrite app_nil_r; lia]|].
  intros i c' b1 (-> & Hs1 & Hd1 & _ & Hv1); wp_step.
  eapply wp_mono; [eapply session_bdata; eauto; by left|]; intros v c' ? (-> & -> & ->); wp_step.
  eapply wp_mono; [eapply (session_brelse D p b1 (t_dirty st) [] [] i b); eauto|].
  { intros H; rewrite Hv1, Hd1; apply Hs; [done|apply not_elem_of_nil]. }
  intros _ c' b2 (-> & Hs2 & Hd2 & Hv2); wp_steps; split; [done|].
  assert (Ed : bc_disk b2 = bc_disk bb) by congruence; cbn [lset lstate_bio ls_log ls_bio].
  split_and!; [by simpl; rewrite Hv1, Hcu| |cbn [ls_bio]; rewrite Ed; apply since_refl].
  split; cbn [ls_log ls_bio spec_op snd]; rewrite ?Ed; auto.
  - apply (tx_any p); split; cbn [ls_log ls_bio]; rewrite ?Ed; auto.
  - intros x Hx; rewrite Hv2, Hv1; auto.
Qed.

(** Blocks of the current contents that are not listed equal the committed
    ones. *)
Lemma recoverable_ext f h h' :
  (forall x, home LS x -> h x = h' x) -> recoverable LS f h -> recoverable LS f h'.
Proof. intros E [H1 H2 H3 H4]; split; auto; intros x Hx; rewrite <- E by done; auto. Qed.

Lemma end_spec p s st :
  models s st -> op_ok LS st TEnd ->
  wp (run_op D TEnd) (Ctx p []) s (fun vs c' s' => c' = Ctx p [] /\ op_post st s TEnd vs s').
Proof.
  destruct s as [lg b]; intros [Htx Hout Hcom Hcm Hcu] [Ho Hn].
  cbn [ls_log ls_bio] in *; change NBUF with 30 in Hn.
  unfold run_op, end_op, getlog, modlog; wp_steps; apply wp_zoom; wp_steps.
  cbn [lget lset lstate_log ls_log ls_bio set_outstanding l_outstanding l_committing].
  rewrite Hcom, Hout; unfold op_post; cbn [spec_op fst snd].
  replace (t_out st - 1 =? 0) with (t_out st =? 1) by (destruct (Z.eqb_spec (t_out st) 1), (Z.eqb_spec (t_out st - 1) 0); lia).
  destruct (Z.eqb_spec (t_out st) 1) as [E|E]; wp_steps.
  2:{ split; [done|]; split_and!; [done| |apply since_refl].
      destruct Htx as [[] ? ? ? ?]; split; auto; split; auto; split; auto. }
  apply wp_zoom; wp_steps; cbn [lget lset lstate_log ls_log ls_bio].
  eapply wp_mono; [eapply (commit_spec D LS HD HLS (t_dirty st)); [|apply no_locks|lia]|].
  { pose proof (tx_any _ p _ _ Htx) as [[] ? ? ? ?]; split; auto; split; auto. }
  intros _ c' [lg2 b2] (-> & [[Hlo2 Hs2 Hnd2 Hh2 Hhdr2] [Hf1 Hf2] Hd2 Hi2]); wp_steps.
  apply wp_zoom; wp_steps; cbn [lget lset lstate_log ls_log ls_bio] in *.
  cbn [l_outstanding l_committing set_outstanding set_committing] in *.
  assert (Hcu2 : forall x, home LS x -> dread (bc_disk b2) x = t_cur st x) by (intros; rewrite Hd2; auto).
  split; [done|]; split_and!; [done| |].
  - split; cbn [ls_log ls_bio t_dirty t_out t_comm t_cur length set_committing l_outstanding l_committing];
      auto; [|lia|].
    + apply (tx_any p); split; auto; destruct Hlo2; split; auto.
    + intros x Hx; rewrite <- Hcu2 by done; apply Hs2; apply not_elem_of_nil.
  - eapply since_mono; [|exact Hi2]; intros img [Hr|Hr]; [left|right];
      (eapply recoverable_ext; [|exact Hr]); simpl; auto.
Qed.

Lemma run_op_spec p s st o :
  models s st -> op_ok LS st o ->
  wp (run_op D o) (Ctx p []) s (fun vs c' s' => c' = Ctx p [] /\ op_post st s o vs s').
Proof.
  destruct o; intros; [by apply begin_op_spec|by apply update_spec|by apply read_spec|by apply end_spec].
Qed.

(** ** Runs *)

Definition after (st : tspec) (ops : list (Z * tx_op)) (k : nat) : tspec := (spec_run st (take k ops)).2.

Lemma sys_run_spec ops c s st :
  models s st -> ops_ok LS st ops ->
  wp (sys_run D ops) c s (fun vs c' s' =>
    c' = c /\ vs = (spec_run st ops).1 /\ models s' (spec_run st ops).2 /\
    since (bc_disk (ls_bio s)) (bc_disk (ls_bio s')) (fun img =>
      exists k, (k <= length ops)%nat /\ recoverable LS (img_read img) (t_comm (after st ops k)))).
Proof.
  revert s st; induction ops as [|[p o] ops IH]; intros s st Hm Hok.
  { simpl; apply wp_ret; split_and!; auto; apply since_refl. }
  destruct Hok as [Ho Hok]; cbn [sys_run]; wp_step; apply wp_as_thread.
  eapply wp_mono; [by apply run_op_spec|]; intros vs ? s1 (-> & -> & Hm1 & Hi1); wp_step.
  eapply wp_mono; [by apply IH|]; intros vs' c' s2 (-> & -> & Hm2 & Hi2); wp_steps.
  split_and!; auto; eapply since_trans.
  - eapply since_mono; [|exact Hi1]; intros img [Hr|Hr].
    + exists 0%nat; split; [lia|done].
    + exists 1%nat; split; [simpl; lia|]; unfold after; cbn [take]; by rewrite firstn_O.
  - eapply since_mono; [|exact Hi2]; intros img (k & Hk & Hr).
    exists (S k); split; [simpl; lia|done].
Qed.

Lemma boot_spec sb c img h :
  sb_logstart sb = LS -> no_buf_locks c -> recoverable LS (img_read img) h ->
  wp (boot D sb) c (power_on img) (fun _ c' s' =>
    c' = c /\ models s' (fresh h) /\
    since (Disk img []) (bc_disk (ls_bio s')) (fun img' => recoverable LS (img_read img') h)).
Proof.
  intros Hsb Hno Hr; assert (HD0 : D <> 0) by lia.
  assert (Hs : session D (c_pid c) (booted (Disk img [])) [] []).
  { pose proof (booted_views D HD0 (Disk img [])) as Hb; split.
    - apply booted_inv; [done|apply Hr].
    - intros b; by destruct (Hb b) as (_ & _ & -> & _).
    - intros b; by destruct (Hb b) as (_ & _ & _ & ->).
    - by intros i b Hin; apply not_elem_of_nil in Hin.
    - apply NoDup_nil_2.
    - intros b _ _; apply Hb. }
  unfold boot; wp_step; apply wp_zoom; unfold wp at 1; cbn [lget lstate_bio ls_bio power_on].
  rewrite binit_run; cbn [lset lstate_bio ls_log ls_bio power_on].
  unfold initlog, modlog; change (BSIZE <=? sizeof_logheader) with false; cbn iota.
  wp_step; apply wp_zoom; wp_steps; cbn [lget lset lstate_log ls_log ls_bio].
  eapply wp_mono; [apply (recover_from_log_spec D LS HD HLS c _ _ h); auto|].
  { cbn [set_where l_start]; rewrite Hsb, s32_small; lia. }
  intros _ c' [lg b] (-> & Hs' & Hlo & [Hf1 Hf2] & Hn & Hd & Hi); split_and!; auto.
  split; cbn [ls_log ls_bio fresh t_dirty t_out t_comm t_cur]; auto.
  - apply (tx_any (c_pid c)); split; auto; apply NoDup_nil_2.
  - intros x Hx; rewrite <- Hd by done; apply Hs'; apply not_elem_of_nil.
Qed.

Lemma since_all d0 d (P : image -> Prop) :
  since d0 d P -> Forall P (d_blk d0 :: d_trace d0) -> Forall P (d_blk d :: d_trace d).
Proof. intros (n & -> & Hn) H0; by apply Forall_app. Qed.

(** C1. Crash atomicity of transactions.  Take any disk image that recovery
    turns into contents [h].  Power on ([binit], [initlog]) and let threads run
    any interleaving of [begin_op], block updates through [log_write], reads and
    [end_op] in which every call is admissible: the run ends without a panic or
    a thread left asleep, every read returns what the specification's running
    transaction contains, all locks are released, and [end_op] of the last
    running operation makes the transaction's updates the committed contents.
    And every image the disk has had on the way, one for each block written
    during recovery and during commits, is again one that recovery turns into
    the committed contents of some prefix of the run: a power failure at any
    write leaves all of a transaction or nothing of it. *)
Theorem crash_atomicity sb img h ops p :
  sb_logstart sb = LS -> recoverable LS (img_read img) h -> ops_ok LS (fresh h) ops ->
  wp (do! boot D sb; sys_run D ops) (Ctx p []) (power_on img) (fun vs c' s' =>
    c' = Ctx p [] /\ vs = (spec_run (fresh h) ops).1 /\ models s' (spec_run (fresh h) ops).2 /\
    Forall (fun img' => exists k, (k <= length ops)%nat /\
              recoverable LS (img_read img') (t_comm (after (fresh h) ops k)))
      (d_blk (bc_disk (ls_bio s')) :: d_trace (bc_disk (ls_bio s')))).
Proof.
  intros Hsb Hr Hok; wp_step; eapply wp_mono; [by apply (boot_spec sb _ img h); [|apply no_locks|]|].
  intros _ c' s1 (-> & Hm & Hi); eapply wp_mono; [by apply sys_run_spec|].
  intros vs c' s2 (-> & -> & Hm2 & Hi2); split_and!; auto.
  eapply since_all; [exact Hi2|]; eapply since_all.
  - eapply since_mono; [|exact Hi]; intros img' Hr'; exists 0%nat; split; [lia|done].
  - apply Forall_singleton; exists 0%nat; split; [lia|done].
Qed.

(** C12. A transaction that fills the log cannot commit.  [LOGBLOCKS] equals
    [NBUF], so a transaction of [LOGBLOCKS] blocks pins every buffer of the
    cache; [commit] then finds no buffer for the first log block and stops in
    [panic("bget: no buffers")], although [begin_op] and [log_write] admit it. *)
Theorem full_log_panics p s bl :
  tx D LS p s bl [] -> length bl = 30%nat ->
  commit (Ctx p []) s = Panic "bget: no buffers".
Proof.
  destruct s as [lg b]; intros [Hlo Hs Hnd Hh Hhdr] Hlen; cbn [ls_log ls_bio] in *.
  assert (Hall := all_used D b bl (ss_inv _ _ _ _ _ Hs) Hnd Hlen).
  assert (Hpos : forall x, x ∈ bl -> 0 < bref D b x).
  { intros x Hx; rewrite (ss_ref _ _ _ _ _ Hs), bool_decide_eq_true_2 by done; simpl; lia. }
  specialize (Hall Hpos); unfold commit, write_log, getlog.
  eapply bind_ret_panic; [reflexivity|]; cbn [ls_log]; rewrite (lo_n _ _ _ _ Hlo), Hlen.
  change (0 <? Z.of_nat 30) with true; cbn iota; apply bind_panic.
  eapply bind_ret_panic; [reflexivity|]; cbn [ls_log]; rewrite (lo_n _ _ _ _ Hlo), Hlen.
  change (zrange 0 (Z.to_nat (Z.of_nat 30))) with (0 :: zrange 1 29); cbn [for_each].
  apply bind_panic, bind_panic, zoom_panic; cbn [lget lstate_bio ls_bio].
  rewrite (lo_dev _ _ _ _ Hlo), (lo_start _ _ _ _ Hlo), (u32_small D), u32_small by lia.
  apply bread_exhausted; [apply Hs|apply not_elem_of_nil| |].
  - destruct (find_buf D b _) as [i|] eqn:E; [|done]; apply find_buf_Some in E as (Hin & _ & Hb).
    destruct (Hall i Hin) as (_ & Hb' & _); rewrite Forall_forall in Hh; apply Hh in Hb'.
    unfold home, in_log in Hb'; lia.
  - intros (i & Hin & Hz); destruct (Hall i Hin) as (_ & _ & ?); lia.
Qed.
End system.

(** ** Instances *)

(** The layout [mkfs] makes: log at block 2. *)
Definition sb_example : superblock := Superblock FSMAGIC 2000 1954 200 31 2 33 46.

Definition const_block (v : Z) : block -> block := fun _ => replicate 1024 v.

Lemma zero_recoverable : recoverable 2 (img_read ∅) (fun _ => zero_block).
Proof. apply recoverable_empty; [done|intros; reflexivity|done]. Qed.

Definition two_threads : list (Z * tx_op) :=
  [(1, TBegin); (2, TBegin); (1, TUpdate 40 (const_block 7)); (2, TUpdate 41 (const_block 8));
   (1, TEnd); (2, TRead 40); (2, TEnd); (3, TRead 41)].

Lemma crash_atomicity_witness :
  wp (do! boot 1 sb_example; sys_run 1 two_threads) (Ctx 1 []) (power_on ∅) (fun vs c' s' =>
    c' = Ctx 1 [] /\ vs = [replicate 1024 7; replicate 1024 8] /\
    models 1 2 s' (spec_run (fresh (fun _ => zero_block)) two_threads).2 /\
    Forall (fun img' => exists k, (k <= 8)%nat /\
              recoverable 2 (img_read img') (t_comm (after (fresh (fun _ => zero_block)) two_threads k)))
      (d_blk (bc_disk (ls_bio s')) :: d_trace (bc_disk (ls_bio s')))).
Proof.
  apply (crash_atomicity 1 2 ltac:(lia) ltac:(lia) sb_example ∅ (fun _ => zero_block) two_threads 1).
  - reflexivity.
  - apply zero_recoverable.
  - unfold two_threads; cbn -[home Z.lt Z.le]; unfold home, in_log.
    repeat split; try (intros; apply length_replicate); try lia;
    try (vm_compute; reflexivity); try (vm_compute; congruence).
Defined.

(** Three operations of [MAXOPBLOCKS] blocks each, all admitted by [begin_op]. *)
Definition fill_log : list (Z * tx_op) :=
  [(1, TBegin); (1, TBegin); (1, TBegin)] ++ map (fun b => (1, TUpdate b (const_block 1))) (zrange 50 30).

Lemma fill_log_ok : ops_ok 2 (fresh (fun _ => zero_block)) fill_log.
Proof.
  unfold fill_log; cbn -[home Z.lt Z.le]; unfold home, in_log.
  repeat split; try (intros; apply length_replicate); try lia;
    try (vm_compute; reflexivity); try (vm_compute; congruence).
Qed.

Lemma full_log_panics_witness :
  exists s, wp (do! boot 1 sb_example; sys_run 1 fill_log) (Ctx 1 []) (power_on ∅) (fun _ _ s' => s' = s) /\
    commit (Ctx 1 []) s = Panic "bget: no buffers".
Proof.
  assert (H : wp (do! boot 1 sb_example; sys_run 1 fill_log) (Ctx 1 []) (power_on ∅) (fun _ _ s' =>
    models 1 2 s' (spec_run (fresh (fun _ => zero_block)) fill_log).2)).
  { wp_step; eapply wp_mono; [apply (boot_spec 1 2 ltac:(lia) ltac:(lia) sb_example _ ∅ (fun _ => zero_block))|];
      [done|apply no_locks|apply zero_recoverable|]; cbv beta.
    intros _ c' s1 (_ & Hm & _); eapply wp_mono; [apply (sys_run_spec 1 2); [lia|lia|exact Hm|apply fill_log_ok]|].
    by intros vs c'' s2 (_ & _ & Hm2 & _). }
  apply wp_run in H as (s' & Hs & _ & _ & Hm); exists s'; split; [exact Hs|].
  apply (full_log_panics 1 2 ltac:(lia) ltac:(lia) 1 s' (t_dirty (spec_run (fresh (fun _ => zero_block)) fill_log).2)).
  - apply (tx_any _ _ 0), (ms_tx _ _ _ _ Hm).
  - vm_compute; reflexivity.
Defined.
