(* ===== verification/Fs.v ===== *)
(** * The file system, [kernel/fs.c]

    Blocks, inodes, directories and path names on top of the log.  The state has
    the memory user data is copied to and from, the log with the buffer cache and
    the disk below it, the super block and the inode table.  A pointer to an
    inode is its index in the table, [NULL] is -1; the process on whose behalf a
    call runs is an argument.  Messages printed on the console are left out. *)

From S2P Require Import Prelude KMonad Memory Riscv Kalloc Vm CString Sleeplock Bio Session FsLayout Log.

Definition T_DIR : Z := 1.
Definition T_FILE : Z := 2.
Definition T_DEVICE : Z := 3.

(** The fields after [valid] are the copy of the disk inode. *)
Record inode := Inode {
  i_dev : Z;
  i_inum : Z;
  i_ref : Z;
  i_lock : sleeplock;
  i_valid : bool;
  i_d : dinode
}.

Record fsys := Fsys {
  fs_mem : kmem;
  fs_log : lstate;
  fs_sb : superblock;
  fs_itable : list inode
}.

#[global] Program Instance fsys_kmem : Lens fsys kmem := {|
  lget := fs_mem; lset := fun m s => Fsys m (fs_log s) (fs_sb s) (fs_itable s) |}.
Solve All Obligations with by intros; try destruct t.

#[global] Program Instance fsys_log : Lens fsys lstate := {|
  lget := fs_log; lset := fun l s => Fsys (fs_mem s) l (fs_sb s) (fs_itable s) |}.
Solve All Obligations with by intros; try destruct t.

#[global] Program Instance fsys_bio : Lens fsys bio := {|
  lget := fun s => ls_bio (fs_log s);
  lset := fun b s => Fsys (fs_mem s) (LState (ls_log (fs_log s)) b) (fs_sb s) (fs_itable s) |}.
Solve All Obligations with by intros; try destruct t as [? [] ? ?].

#[global] Program Instance fsys_itable : Lens fsys (list inode) := {|
  lget := fs_itable; lset := fun l s => Fsys (fs_mem s) (fs_log s) (fs_sb s) l |}.
Solve All Obligations with by intros; try destruct t.

Definition NULLI : Z := -1.
Definition dinode0 : dinode := Dinode 0 0 0 0 0 (replicate 13 0).
Definition inode0 : inode := Inode 0 0 0 sl_init false dinode0.

Definition inode_at (s : fsys) (ip : Z) : inode := aget inode0 (fs_itable s) ip.
Definition upd_inode (ip : Z) (f : inode -> inode) (s : fsys) : fsys :=
  Fsys (fs_mem s) (fs_log s) (fs_sb s) (aset (fs_itable s) ip (f (inode_at s ip))).

Definition set_ref (r : Z) (i : inode) : inode := Inode (i_dev i) (i_inum i) r (i_lock i) (i_valid i) (i_d i).
Definition set_ilock (l : sleeplock) (i : inode) : inode := Inode (i_dev i) (i_inum i) (i_ref i) l (i_valid i) (i_d i).
Definition set_valid (v : bool) (i : inode) : inode := Inode (i_dev i) (i_inum i) (i_ref i) (i_lock i) v (i_d i).
Definition set_d (d : dinode) (i : inode) : inode := Inode (i_dev i) (i_inum i) (i_ref i) (i_lock i) (i_valid i) d.
Definition set_type (t : Z) (d : dinode) : dinode :=
  Dinode t (di_major d) (di_minor d) (di_nlink d) (di_size d) (di_addrs d).
Definition set_nlink (n : Z) (d : dinode) : dinode :=
  Dinode (di_type d) (di_major d) (di_minor d) n (di_size d) (di_addrs d).
Definition set_size (n : Z) (d : dinode) : dinode :=
  Dinode (di_type d) (di_major d) (di_minor d) (di_nlink d) n (di_addrs d).
Definition set_addr (k a : Z) (d : dinode) : dinode :=
  Dinode (di_type d) (di_major d) (di_minor d) (di_nlink d) (di_size d) (aset (di_addrs d) k a).

Definition getsb : M fsys superblock := gets fs_sb.
Definition geti (ip : Z) : M fsys inode := gets (fun s => inode_at s ip).
Definition modi (ip : Z) (f : inode -> inode) : M fsys unit := modify (upd_inode ip f).
Definition mod_d (ip : Z) (f : dinode -> dinode) : M fsys unit := modi ip (fun i => set_d (f (i_d i)) i).

(** ** Super block and block allocation *)

Definition readsb (dev : Z) : M fsys unit :=
  let! bp := zoom (bread dev 1) in
  let! d := zoom (bdata bp) in
  do! modify (fun s => Fsys (fs_mem s) (fs_log s) (sb_decode d) (fs_itable s));
  zoom (brelse bp).

Definition bzero (dev bno : Z) : M fsys unit :=
  let! bp := zoom (bread dev bno) in
  do! zoom (bmodify bp (fun _ => replicate (Z.to_nat BSIZE) 0));
  do! zoom (log_write bp);
  zoom (brelse bp).

(** [m = 1 << (bi % 8)] and [bp->data[bi/8] & m]. *)
Definition bit_mask (bi : Z) : Z := Z.shiftl 1 (bi mod 8).
Definition bit_at (d : block) (bi : Z) : Z := Z.land (aget 0 d (bi / 8)) (bit_mask bi).
Definition bit_set (bi : Z) (d : block) : block := aset d (bi / 8) (u8 (Z.lor (aget 0 d (bi / 8)) (bit_mask bi))).
Definition bit_clear (bi : Z) (d : block) : block :=
  aset d (bi / 8) (u8 (Z.land (aget 0 d (bi / 8)) (Z.lnot (bit_mask bi)))).

(** The inner loop of [balloc]: the first clear bit of the bitmap block that
    starts at block [b]. *)
Definition balloc_scan (d : block) (b size : Z) : option Z :=
  List.find (fun bi => bit_at d bi =? 0) (zrange 0 (Z.to_nat (Z.min BPB (size - b)))).

Definition balloc (dev : Z) : M fsys Z :=
  let! sb := getsb in
  let! r := for_find (zrange 0 (Z.to_nat ((sb_size sb + BPB - 1) / BPB))) (fun k =>
    let b := k * BPB in
    let! bp := zoom (bread dev (BBLOCK b sb)) in
    let! d := zoom (bdata bp) in
    match balloc_scan d b (sb_size sb) with
    | Some bi =>
        do! zoom (bmodify bp (bit_set bi));
        do! zoom (log_write bp);
        do! zoom (brelse bp);
        do! bzero dev (b + bi);
        ret (Some (b + bi))
    | None =>
        do! zoom (brelse bp);
        ret None
    end) in
  match r with
  | Some b => ret b
  | None => ret 0
  end.

Definition bfree (dev b : Z) : M fsys unit :=
  let! sb := getsb in
  let! bp := zoom (bread dev (BBLOCK b sb)) in
  let bi := b mod BPB in
  let! d := zoom (bdata bp) in
  if bit_at d bi =? 0 then panic "freeing free block" else
  do! zoom (bmodify bp (bit_clear bi));
  do! zoom (log_write bp);
  zoom (brelse bp).

(** ** Inodes *)

Definition inode_acquiresleep (ip : Z) : M fsys unit :=
  acquiresleep (fun s => i_lock (inode_at s ip)) (fun l => upd_inode ip (set_ilock l)) (INODELK ip).
Definition inode_releasesleep (ip : Z) : M fsys unit :=
  releasesleep (fun l => upd_inode ip (set_ilock l)) (INODELK ip).
Definition inode_holdingsleep (ip : Z) : M fsys bool :=
  holdingsleep (fun s => i_lock (inode_at s ip)) (INODELK ip).

Definition iinit : M fsys unit :=
  for_each (zrange 0 (Z.to_nat NINODE)) (fun i => modi i (set_ilock sl_init)).

(** The loop of [iget]: the entry of the inode, or else the first free one. *)
Fixpoint iget_scan (l : list inode) (i dev inum empty : Z) : bool * Z :=
  match l with
  | [] => (false, empty)
  | ip :: l =>
      if (0 <? i_ref ip) && (i_dev ip =? dev) && (i_inum ip =? inum) then (true, i)
      else iget_scan l (i + 1) dev inum (if (empty =? NULLI) && (i_ref ip =? 0) then i else empty)
  end.

Definition iget (dev inum : Z) : M fsys Z :=
  do! acquire ITABLE;
  let! r := gets (fun s => iget_scan (fs_itable s) 0 dev inum NULLI) in
  if r.1 then
    do! modi r.2 (fun i => set_ref (i_ref i + 1) i);
    do! release ITABLE;
    ret r.2
  else if r.2 =? NULLI then panic "iget: no inodes"
  else
    do! modi r.2 (fun i => Inode dev inum 1 (i_lock i) false (i_d i));
    do! release ITABLE;
    ret r.2.

Definition ialloc (dev type : Z) : M fsys Z :=
  let! sb := getsb in
  let! r := for_find (zrange 1 (Z.to_nat (sb_ninodes sb - 1))) (fun inum =>
    let! bp := zoom (bread dev (IBLOCK inum sb)) in
    let! d := zoom (bdata bp) in
    if di_type (dinode_get d inum) =? 0 then
      do! zoom (bmodify bp (fun d => dinode_put d inum (set_type type dinode0)));
      do! zoom (log_write bp);
      do! zoom (brelse bp);
      let! ip := iget dev inum in
      ret (Some ip)
    else
      do! zoom (brelse bp);
      ret None) in
  match r with
  | Some ip => ret ip
  | None => ret NULLI
  end.

Definition iupdate (ip : Z) : M fsys unit :=
  let! sb := getsb in
  let! i := geti ip in
  let! bp := zoom (bread (i_dev i) (IBLOCK (i_inum i) sb)) in
  do! zoom (bmodify bp (fun d => dinode_put d (i_inum i) (i_d i)));
  do! zoom (log_write bp);
  zoom (brelse bp).

Definition idup (ip : Z) : M fsys Z :=
  do! acquire ITABLE;
  do! modi ip (fun i => set_ref (i_ref i + 1) i);
  do! release ITABLE;
  ret ip.

Definition ilock (ip : Z) : M fsys unit :=
  let! i := geti ip in
  if (ip =? NULLI) || (i_ref i <? 1) then panic "ilock" else
  do! inode_acquiresleep ip;
  let! i := geti ip in
  if negb (i_valid i) then
    let! sb := getsb in
    let! bp := zoom (bread (i_dev i) (IBLOCK (i_inum i) sb)) in
    let! d := zoom (bdata bp) in
    do! mod_d ip (fun _ => dinode_get d (i_inum i));
    do! zoom (brelse bp);
    do! modi ip (set_valid true);
    if di_type (dinode_get d (i_inum i)) =? 0 then panic "ilock: no type" else ret tt
  else ret tt.

Definition iunlock (ip : Z) : M fsys unit :=
  if ip =? NULLI then panic "iunlock" else
  let! h := inode_holdingsleep ip in
  let! i := geti ip in
  if negb h || (i_ref i <? 1) then panic "iunlock" else
  inode_releasesleep ip.

(** ** Inode content *)

Definition bmap (ip bn : Z) : M fsys Z :=
  let! i := geti ip in
  if bn <? NDIRECT then
    let addr := aget 0 (di_addrs (i_d i)) bn in
    if addr =? 0 then
      let! addr := balloc (i_dev i) in
      if addr =? 0 then ret 0 else
      do! mod_d ip (set_addr bn addr);
      ret addr
    else ret addr
  else
  let bn := bn - NDIRECT in
  if bn <? NINDIRECT then
    let addr := aget 0 (di_addrs (i_d i)) NDIRECT in
    let! addr :=
      (if addr =? 0 then
         let! addr := balloc (i_dev i) in
         if addr =? 0 then ret 0 else
         do! mod_d ip (set_addr NDIRECT addr);
         ret addr
       else ret addr) in
    if addr =? 0 then ret 0 else
    let! bp := zoom (bread (i_dev i) addr) in
    let! d := zoom (bdata bp) in
    let addr := get32 d (4 * bn) in
    let! addr :=
      (if addr =? 0 then
         let! addr := balloc (i_dev i) in
         do! (if negb (addr =? 0) then
                do! zoom (bmodify bp (fun d => put32 d (4 * bn) addr));
                zoom (log_write bp)
              else ret tt);
         ret addr
       else ret addr) in
    do! zoom (brelse bp);
    ret addr
  else panic "bmap: out of range".

Definition itrunc (ip : Z) : M fsys unit :=
  do! for_each (zrange 0 (Z.to_nat NDIRECT)) (fun k =>
    let! i := geti ip in
    let a := aget 0 (di_addrs (i_d i)) k in
    if negb (a =? 0) then
      do! bfree (i_dev i) a;
      mod_d ip (set_addr k 0)
    else ret tt);
  let! i := geti ip in
  let a := aget 0 (di_addrs (i_d i)) NDIRECT in
  do! (if negb (a =? 0) then
         let! bp := zoom (bread (i_dev i) a) in
         do! for_each (zrange 0 (Z.to_nat NINDIRECT)) (fun j =>
           let! d := zoom (bdata bp) in
           let aj := get32 d (4 * j) in
           if negb (aj =? 0) then bfree (i_dev i) aj else ret tt);
         do! zoom (brelse bp);
         do! bfree (i_dev i) a;
         mod_d ip (set_addr NDIRECT 0)
       else ret tt);
  do! mod_d ip (set_size 0);
  iupdate ip.

Definition iput (ip : Z) : M fsys unit :=
  do! acquire ITABLE;
  let! i := geti ip in
  do! (if (i_ref i =? 1) && i_valid i && (di_nlink (i_d i) =? 0) then
         do! inode_acquiresleep ip;
         do! release ITABLE;
         do! itrunc ip;
         do! mod_d ip (set_type 0);
         do! iupdate ip;
         do! modi ip (set_valid false);
         do! inode_releasesleep ip;
         acquire ITABLE
       else ret tt);
  do! modi ip (fun i => set_ref (i_ref i - 1) i);
  release ITABLE.

Definition iunlockput (ip : Z) : M fsys unit :=
  do! iunlock ip;
  iput ip.

Definition ireclaim (dev : Z) : M fsys unit :=
  let! sb := getsb in
  for_each (zrange 1 (Z.to_nat (sb_ninodes sb - 1))) (fun inum =>
    let! bp := zoom (bread dev (IBLOCK inum sb)) in
    let! d := zoom (bdata bp) in
    let dip := dinode_get d inum in
    let! ip := (if negb (di_type dip =? 0) && (di_nlink dip =? 0) then iget dev inum else ret NULLI) in
    do! zoom (brelse bp);
    if negb (ip =? NULLI) then
      do! zoom begin_op;
      do! ilock ip;
      do! iunlock ip;
      do! iput ip;
      zoom end_op
    else ret tt).

Definition fsinit (dev : Z) : M fsys unit :=
  do! readsb dev;
  let! sb := getsb in
  if negb (sb_magic sb =? FSMAGIC) then panic "invalid file system" else
  do! zoom (initlog dev sb);
  ireclaim dev.

Record stat := Stat { st_dev : Z; st_ino : Z; st_type : Z; st_nlink : Z; st_size : Z }.

Definition stati (ip : Z) : M fsys stat :=
  let! i := geti ip in
  ret (Stat (i_dev i) (i_inum i) (di_type (i_d i)) (di_nlink (i_d i)) (di_size (i_d i))).

(** ** Copies to and from a caller's buffer

    [dst] and [src] are user addresses of process [p], or buffers of the kernel;
    the bytes copied into a kernel buffer are the result, those copied out of one
    are given as a list. *)
Inductive cdst := UserDst (va : Z) | KernDst.
Inductive csrc := UserSrc (va : Z) | KernSrc (bs : list Z).

Definition dst_add (d : cdst) (n : Z) : cdst :=
  match d with UserDst va => UserDst (u64 (va + n)) | KernDst => KernDst end.
Definition src_add (d : csrc) (n : Z) : csrc :=
  match d with UserSrc va => UserSrc (u64 (va + n)) | KernSrc bs => KernSrc (drop (Z.to_nat n) bs) end.

Section fs.
Context {L : KernelLayout} (p : uproc).

(** [proc.c]. *)
Definition either_copyout (d : cdst) (src : list Z) : M kmem Z :=
  match d with
  | UserDst dst => copyout p (up_pagetable p) dst src
  | KernDst => ret 0
  end.

(** The result and the bytes stored at the destination. *)
Definition either_copyin (s : csrc) (len : Z) : M kmem (Z * list Z) :=
  match s with
  | UserSrc src => copyin p (up_pagetable p) src len
  | KernSrc bs => ret (0, take (Z.to_nat len) bs)
  end.

(** [tot] bytes have been copied; with the result, the bytes copied by the
    remaining turns.  Every turn copies at least one byte. *)
Fixpoint readi_loop (fuel : nat) (ip : Z) (dst : cdst) (off n tot : Z) : M fsys (Z * list Z) :=
  if negb (tot <? n) then ret (tot, []) else
  match fuel with
  | O => diverge
  | S fuel =>
      let! addr := bmap ip (off / BSIZE) in
      if addr =? 0 then ret (tot, []) else
      let! i := geti ip in
      let! bp := zoom (bread (i_dev i) addr) in
      let m := Z.min (n - tot) (BSIZE - off mod BSIZE) in
      let! d := zoom (bdata bp) in
      let bs := slice d (off mod BSIZE) m in
      let! r := zoom (either_copyout dst bs) in
      if r =? -1 then
        do! zoom (brelse bp);
        ret (u32 (-1), [])
      else
        do! zoom (brelse bp);
        let! r := readi_loop fuel ip (dst_add dst m) (u32 (off + m)) n (tot + m) in
        ret (r.1, bs ++ r.2)
  end.

Definition readi (ip : Z) (dst : cdst) (off n : Z) : M fsys (Z * list Z) :=
  let! i := geti ip in
  let size := di_size (i_d i) in
  if (size <? off) || (u32 (off + n) <? off) then ret (0, []) else
  let n := if size <? u32 (off + n) then size - off else n in
  let! r := readi_loop (Z.to_nat (n / BSIZE + 2)) ip dst off n 0 in
  ret (s32 r.1, r.2).

(** With the result, the offset the loop has reached. *)
Fixpoint writei_loop (fuel : nat) (ip : Z) (src : csrc) (off n tot : Z) : M fsys (Z * Z) :=
  if negb (tot <? n) then ret (tot, off) else
  match fuel with
  | O => diverge
  | S fuel =>
      let! addr := bmap ip (off / BSIZE) in
      if addr =? 0 then ret (tot, off) else
      let! i := geti ip in
      let! bp := zoom (bread (i_dev i) addr) in
      let m := Z.min (n - tot) (BSIZE - off mod BSIZE) in
      let! r := zoom (either_copyin src m) in
      do! zoom (bmodify bp (fun d => blit d (off mod BSIZE) r.2));
      if r.1 =? -1 then
        do! zoom (brelse bp);
        ret (tot, off)
      else
        do! zoom (log_write bp);
        do! zoom (brelse bp);
        writei_loop fuel ip (src_add src m) (u32 (off + m)) n (tot + m)
  end.

Definition writei (ip : Z) (src : csrc) (off n : Z) : M fsys Z :=
  let! i := geti ip in
  if (di_size (i_d i) <? off) || (u32 (off + n) <? off) then ret (-1) else
  if MAXFILE * BSIZE <? u32 (off + n) then ret (-1) else
  let! r := writei_loop (Z.to_nat (n / BSIZE + 2)) ip src off n 0 in
  let! i := geti ip in
  do! (if di_size (i_d i) <? r.2 then mod_d ip (set_size r.2) else ret tt);
  do! iupdate ip;
  ret (s32 r.1).

(** ** Directories *)

Definition namecmp (s t : list Z) : Z := strncmp s t (Z.to_nat DIRSIZ).

(** The entry at offset [off] of directory [dp]; [msg] is the caller's panic. *)
Definition read_dirent (dp off : Z) (msg : string) : M fsys dirent :=
  let! r := readi dp KernDst off sizeof_dirent in
  if negb (r.1 =? sizeof_dirent) then panic msg else ret (dirent_decode r.2).

(** The loop of [dirlookup] stops with the offset and the entry it found. *)
Definition dirlookup (dp : Z) (name : list Z) : M fsys (Z * Z) :=
  let! i := geti dp in
  if negb (di_type (i_d i) =? T_DIR) then panic "dirlookup not DIR" else
  let! r := for_find (zrange 0 (Z.to_nat ((di_size (i_d i) + sizeof_dirent - 1) / sizeof_dirent))) (fun k =>
    let off := k * sizeof_dirent in
    let! de := read_dirent dp off "dirlookup read" in
    if de_inum de =? 0 then ret None else
    if namecmp name (de_name de) =? 0 then
      let! ip := iget (i_dev i) (de_inum de) in
      ret (Some (ip, off))
    else ret None) in
  match r with
  | Some x => ret x
  | None => ret (NULLI, 0)
  end.

Definition dirlink (dp : Z) (name : list Z) (inum : Z) : M fsys Z :=
  let! r := dirlookup dp name in
  if negb (r.1 =? NULLI) then
    do! iput r.1;
    ret (-1)
  else
  let! i := geti dp in
  let nent := (di_size (i_d i) + sizeof_dirent - 1) / sizeof_dirent in
  let! r := for_find (zrange 0 (Z.to_nat nent)) (fun k =>
    let off := k * sizeof_dirent in
    let! de := read_dirent dp off "dirlink read" in
    if de_inum de =? 0 then ret (Some off) else ret None) in
  let off := match r with Some off => off | None => nent * sizeof_dirent end in
  let de := Dirent inum (strncpy name (Z.to_nat DIRSIZ)) in
  let! w := writei dp (KernSrc (dirent_encode de)) off sizeof_dirent in
  if negb (w =? sizeof_dirent) then ret (-1) else ret 0.

(** ** Paths *)

Definition SLASH : Z := 47.

Fixpoint skip_slashes (path : list Z) : list Z :=
  match path with
  | c :: path' => if c =? SLASH then skip_slashes path' else path
  | [] => []
  end.

(** The loop up to the next slash or the end: the element and the rest. *)
Fixpoint path_elem (path : list Z) : list Z * list Z :=
  match path with
  | c :: path' =>
      if negb (c =? SLASH) && negb (c =? 0) then
        let r := path_elem path' in (c :: r.1, r.2)
      else ([], path)
  | [] => ([], [])
  end.

(** The rest of the path and the name; [None] for a null result. *)
Definition skipelem (path : list Z) : option (list Z * list Z) :=
  let path := skip_slashes path in
  if hd0 path =? 0 then None else
  let r := path_elem path in
  let name := take (Z.to_nat DIRSIZ) r.1 in
  Some (skip_slashes r.2, name).

(** The loop of [namex] from inode [ip].  Every turn removes an element. *)
Fixpoint namex_loop (fuel : nat) (ip : Z) (path : list Z) (nameiparent : bool) (name : list Z) : M fsys (Z * list Z) :=
  match skipelem path with
  | None =>
      if nameiparent then
        do! iput ip;
        ret (NULLI, name)
      else ret (ip, name)
  | Some (path, name) =>
      match fuel with
      | O => diverge
      | S fuel =>
          do! ilock ip;
          let! i := geti ip in
          if negb (di_type (i_d i) =? T_DIR) then
            do! iunlockput ip;
            ret (NULLI, name)
          else if nameiparent && (hd0 path =? 0) then
            do! iunlock ip;
            ret (ip, name)
          else
          let! next := dirlookup ip name in
          if next.1 =? NULLI then
            do! iunlockput ip;
            ret (NULLI, name)
          else
            do! iunlockput ip;
            namex_loop fuel next.1 path nameiparent name
      end
  end.

Definition namex (cwd : Z) (path : list Z) (nameiparent : bool) : M fsys (Z * list Z) :=
  let! ip := (if hd0 path =? SLASH then iget ROOTDEV ROOTINO else idup cwd) in
  namex_loop (length path) ip path nameiparent [].

Definition namei (cwd : Z) (path : list Z) : M fsys Z :=
  let! r := namex cwd path false in
  ret r.1.

Definition nameiparent (cwd : Z) (path : list Z) : M fsys (Z * list Z) := namex cwd path true.
End fs.
