(* ===== verification/FsTx.v ===== *)
(** * Blocks inside a transaction

    What [fs.c] relies on while it runs inside a transaction, as an interface:
    [TxStore] relates the state of the log and the cache to the contents [g] of
    the blocks as the transaction sees them, the contents [g0] on the disk, the
    blocks [bl] it has logged and the buffers [held].  The log and the cache
    implement it ([log_store]); the theorems about [fs.c] use only the interface. *)

From S2P Require Import Prelude KMonad Memory Riscv Kalloc Sleeplock Bio Session FsLayout Log LogProofs LogSystem Fs.

Definition quiet_ctx (pid : Z) (c : ctx) : Prop := c_pid c = pid /\ no_buf_locks c /\ LOGLOCK ∉ c_held c.

Class TxStore (D pid : Z) (home : Z -> Prop) := {
  store : lstate -> (Z -> block) -> (Z -> block) -> list Z -> list (Z * Z) -> Prop;
  store_ext l g g' g0 bl held : store l g g0 bl held -> (forall b, g' b = g b) -> store l g' g0 bl held;
  store_len l g g0 bl held b : store l g g0 bl held -> home b -> length (g b) = 1024%nat;
  store_nodup l g g0 bl held : store l g g0 bl held -> NoDup bl;
  store_clean l g g0 bl held b : store l g g0 bl held -> home b -> b ∉ bl -> b ∉ held.*2 -> g b = g0 b;
  store_bread l g g0 bl held b c :
    store l g g0 bl held -> quiet_ctx pid c -> home b -> b ∉ held.*2 -> (length bl + length held < 30)%nat ->
    wp (zoom (bread D b)) c l (fun i c' l' => c' = c /\ store l' g g0 bl ((i, b) :: held));
  store_bdata l g g0 bl held i b c :
    store l g g0 bl held -> (i, b) ∈ held -> home b ->
    wp (zoom (bdata i)) c l (fun v c' l' => c' = c /\ l' = l /\ v = g b);
  store_bmodify l g g0 bl held i b f c :
    store l g g0 bl held -> quiet_ctx pid c -> (i, b) ∈ held -> home b -> length (f (g b)) = 1024%nat ->
    wp (zoom (bmodify i f)) c l (fun _ c' l' => c' = c /\ store l' (fupd b (f (g b)) g) g0 bl held);
  store_log_write l g g0 bl held i b c :
    store l g g0 bl held -> quiet_ctx pid c -> (i, b) ∈ held -> home b -> (length bl < 30)%nat ->
    wp (log_write i) c l (fun _ c' l' => c' = c /\ store l' g g0 (add_block bl b) held);
  store_brelse l g g0 bl held i b c :
    store l g g0 bl ((i, b) :: held) -> quiet_ctx pid c -> home b -> b ∈ bl \/ g b = g0 b ->
    wp (zoom (brelse i)) c l (fun _ c' l' => c' = c /\ store l' g g0 bl held)
}.

(** ** The implementation *)

Section log_store.
Context (D LS pid : Z) (HD : 0 < D < 2 ^ 31) (HLS : 0 <= LS /\ LS + 30 < 2 ^ 31).

Record log_rel (l : lstate) (g g0 : Z -> block) (bl : list Z) (held : list (Z * Z)) : Prop := {
  lr_tx : tx D LS pid l bl held;
  lr_out : 1 <= l_outstanding (ls_log l);
  lr_view : forall b, home LS b -> bview D (ls_bio l) b = g b;
  lr_disk : forall b, home LS b -> dread (bc_disk (ls_bio l)) b = g0 b
}.

(** A step of the cache below the log. *)
Lemma log_rel_bio lg b b' g g' g0 bl held held' :
  log_rel (LState lg b) g g0 bl held -> session D pid b' bl held' -> bc_disk b' = bc_disk b ->
  (forall x, home LS x -> bview D b' x = g' x) -> log_rel (LState lg b') g' g0 bl held'.
Proof.
  intros [[T1 T2 T3 T4 T5] Ho Hv Hd] Hs Hdk Hv'; cbn [ls_log ls_bio] in *; split; cbn [ls_log ls_bio]; auto.
  - split; cbn [ls_log ls_bio]; auto; by rewrite Hdk.
  - intros x Hx; rewrite Hdk; auto.
Qed.

#[global] Program Instance log_store : TxStore D pid (home LS) := {| store := log_rel |}.
Next Obligation. intros l g g' g0 bl held [Ht Ho Hv Hd] Hg; split; auto; intros b Hb; rewrite Hg; auto. Qed.
Next Obligation. intros l g g0 bl held b [Ht _ Hv _] Hb; rewrite <- Hv by done; apply view_len, Ht. Qed.
Next Obligation. intros l g g0 bl held [Ht _ _ _]; apply Ht. Qed.
Next Obligation.
  intros l g g0 bl held b [Ht _ Hv Hd] Hb Hn Hh; rewrite <- Hv, <- Hd by done.
  by apply (ss_clean _ _ _ _ _ (tx_sess _ _ _ _ _ _ Ht)).
Qed.
Next Obligation.
  intros [lg b0] g g0 bl held b c Hr (Hpid & Hno & Hlk) Hb Hnh Hlen; apply wp_zoom; cbn [lget lstate_bio ls_bio lset ls_log].
  pose proof (tx_sess _ _ _ _ _ _ (lr_tx _ _ _ _ _ Hr)) as Hs; cbn [ls_bio] in Hs; assert (D <> 0) by lia.
  eapply wp_mono; [eapply (session_bread D); eauto; rewrite length_app, length_fmap; lia|].
  intros i c' b' (-> & Hs' & Hd' & _ & Hv'); split; [done|]; eapply log_rel_bio; eauto.
  intros x Hx; rewrite Hv'; by apply (lr_view _ _ _ _ _ Hr).
Qed.
Next Obligation.
  intros [lg b0] g g0 bl held i b c Hr Hin Hb; apply wp_zoom; cbn [lget lstate_bio ls_bio lset ls_log].
  eapply wp_mono; [eapply (session_bdata D); [apply (tx_sess _ _ _ _ _ _ (lr_tx _ _ _ _ _ Hr))|done]|].
  intros v c' b' (-> & -> & ->); split_and!; auto; by apply (lr_view _ _ _ _ _ Hr).
Qed.
Next Obligation.
  intros [lg b0] g g0 bl held i b f c Hr (Hpid & Hno & Hlk) Hin Hb Hf; apply wp_zoom; cbn [lget lstate_bio ls_bio lset ls_log].
  pose proof (lr_view _ _ _ _ _ Hr) as Hv; cbn [ls_bio] in Hv.
  eapply wp_mono; [eapply (session_bmodify D); [apply (tx_sess _ _ _ _ _ _ (lr_tx _ _ _ _ _ Hr))|done|done|]|].
  { cbn [ls_bio]; by rewrite Hv. }
  intros _ c' b' (-> & Hs' & Hd' & _ & Hv'); split; [done|]; eapply log_rel_bio; eauto.
  intros x Hx; rewrite Hv'; unfold fupd; case_decide; cbn [ls_bio]; subst; by rewrite Hv.
Qed.
Next Obligation.
  intros l g g0 bl held i b c [Ht Ho Hv Hd] (Hpid & Hno & Hlk) Hin Hb Hlen.
  eapply wp_mono; [eapply (log_write_spec D LS HD HLS pid); eauto|].
  intros _ c' l' (-> & Ht' & [Hf1 Hf2] & Hd' & Hv'); split; [done|]; split; auto.
  - lia.
  - intros x Hx; rewrite Hv'; auto.
  - intros x Hx; rewrite Hd'; auto.
Qed.
Next Obligation.
  intros [lg b0] g g0 bl held i b c Hr (Hpid & Hno & Hlk) Hb Hcl; apply wp_zoom; cbn [lget lstate_bio ls_bio lset ls_log].
  eapply wp_mono; [eapply (session_brelse D pid b0 bl [] held i b); auto|].
  { apply (tx_sess _ _ _ _ _ _ (lr_tx _ _ _ _ _ Hr)). }
  { intros Hn; destruct Hcl as [?|E]; [done|].
    pose proof (lr_view _ _ _ _ _ Hr b Hb) as E1; pose proof (lr_disk _ _ _ _ _ Hr b Hb) as E2.
    cbn [ls_bio] in *; congruence. }
  intros _ c' b' (-> & Hs' & Hd' & Hv'); split; [done|]; eapply log_rel_bio; eauto.
  intros x Hx; rewrite Hv'; by apply (lr_view _ _ _ _ _ Hr).
Qed.

(** A machine that has booted from [img] and begun an operation. *)
Lemma begun_store sb img h :
  sb_logstart sb = LS -> recoverable LS (img_read img) h ->
  exists l, wp (do! boot D sb; run_op D TBegin) (Ctx pid []) (power_on img) (fun _ _ l' => l' = l) /\ log_rel l h h [] [].
Proof.
  intros Hsb Hr; assert (H : wp (do! boot D sb; run_op D TBegin) (Ctx pid []) (power_on img) (fun _ _ l' => log_rel l' h h [] [])).
  { wp_step; eapply wp_mono; [apply (boot_spec D LS HD HLS sb _ img h); auto using no_locks|].
    intros _ c' s (-> & Hm & _); eapply wp_mono; [apply (begin_op_spec D LS HD HLS pid s (fresh h)); [done|]|].
    { by vm_compute. }
    intros vs c' s' (-> & _ & [Ht Ho _ Hd Hv] & _); split; auto; [by eapply (tx_any D LS 0)|].
    rewrite Ho; done. }
  apply wp_run in H as (l & H1 & a & c1 & H2); exists l; split; [exact H1|exact H2].
Qed.
End log_store.

(** ** The rules on the state of the file system *)

Section rules.
Context {D pid : Z} {home : Z -> Prop} {TS : TxStore D pid home}.
Implicit Types (m : kmem) (sb : superblock) (it : list inode).

Lemma wp_fs_bio {A} (e : M bio A) m l sb it c Φ :
  wp (zoom e : M lstate A) c l (fun a c' l' => Φ a c' (Fsys m l' sb it)) ->
  wp (zoom e : M fsys A) c (Fsys m l sb it) Φ.
Proof.
  unfold wp, zoom; cbn [lget lset fsys_bio lstate_bio fs_log fs_mem fs_sb fs_itable]; by destruct (e c (ls_bio l)).
Qed.

Lemma wp_fs_log {A} (e : M lstate A) m l sb it c Φ :
  wp e c l (fun a c' l' => Φ a c' (Fsys m l' sb it)) -> wp (zoom e : M fsys A) c (Fsys m l sb it) Φ.
Proof. intros H; by apply wp_zoom. Qed.

Lemma fs_bread m l sb it g g0 bl held b c Φ :
  store l g g0 bl held -> quiet_ctx pid c -> home b -> b ∉ held.*2 -> (length bl + length held < 30)%nat ->
  (forall i l', store l' g g0 bl ((i, b) :: held) -> Φ i c (Fsys m l' sb it)) ->
  wp (zoom (bread D b)) c (Fsys m l sb it) Φ.
Proof.
  intros; apply wp_fs_bio; eapply wp_mono; [by eapply store_bread|]; intros i c' l' [-> ?]; auto.
Qed.

Lemma fs_bdata m l sb it g g0 bl held i b c Φ :
  store l g g0 bl held -> (i, b) ∈ held -> home b -> Φ (g b) c (Fsys m l sb it) ->
  wp (zoom (bdata i)) c (Fsys m l sb it) Φ.
Proof.
  intros; apply wp_fs_bio; eapply wp_mono; [by eapply store_bdata|]; by intros v c' l' (-> & -> & ->).
Qed.

Lemma fs_bmodify m l sb it g g0 bl held i b f c Φ :
  store l g g0 bl held -> quiet_ctx pid c -> (i, b) ∈ held -> home b -> length (f (g b)) = 1024%nat ->
  (forall l', store l' (fupd b (f (g b)) g) g0 bl held -> Φ tt c (Fsys m l' sb it)) ->
  wp (zoom (bmodify i f)) c (Fsys m l sb it) Φ.
Proof.
  intros; apply wp_fs_bio; eapply wp_mono; [by eapply store_bmodify|]; intros [] c' l' [-> ?]; auto.
Qed.

Lemma fs_log_write m l sb it g g0 bl held i b c Φ :
  store l g g0 bl held -> quiet_ctx pid c -> (i, b) ∈ held -> home b -> (length bl < 30)%nat ->
  (forall l', store l' g g0 (add_block bl b) held -> Φ tt c (Fsys m l' sb it)) ->
  wp (zoom (log_write i)) c (Fsys m l sb it) Φ.
Proof.
  intros; apply wp_fs_log; eapply wp_mono; [by eapply store_log_write|]; intros [] c' l' [-> ?]; auto.
Qed.

Lemma fs_brelse m l sb it g g0 bl held i b c Φ :
  store l g g0 bl ((i, b) :: held) -> quiet_ctx pid c -> home b -> b ∈ bl \/ g b = g0 b ->
  (forall l', store l' g g0 bl held -> Φ tt c (Fsys m l' sb it)) ->
  wp (zoom (brelse i)) c (Fsys m l sb it) Φ.
Proof.
  intros; apply wp_fs_bio; eapply wp_mono; [by eapply store_brelse|]; intros [] c' l' [-> ?]; auto.
Qed.

(** A block that was not logged when it was read and has not changed. *)
Lemma store_unlogged l g g0 bl held b : store l g g0 bl held -> home b -> b ∉ held.*2 -> b ∈ bl \/ g b = g0 b.
Proof. intros Hs Hb Hh; destruct (decide (b ∈ bl)); [by left|right]; by eapply store_clean. Qed.

Lemma add_block_len bl b : (length (add_block bl b) <= S (length bl))%nat.
Proof. unfold add_block; case_decide; rewrite ?length_app; simpl; lia. Qed.

Lemma elem_of_add_block bl b x : x ∈ add_block bl b <-> x ∈ bl \/ x = b.
Proof.
  unfold add_block; case_decide; rewrite ?elem_of_app, ?list_elem_of_singleton; [|done].
  split; [by left|]; by intros [?| ->].
Qed.

(** [bread]; change; [log_write]; [brelse]. *)
Lemma fs_update m l sb it g g0 bl held b f c Φ :
  store l g g0 bl held -> quiet_ctx pid c -> home b -> b ∉ held.*2 -> (length bl + length held < 30)%nat ->
  length (f (g b)) = 1024%nat ->
  (forall l', store l' (fupd b (f (g b)) g) g0 (add_block bl b) held -> Φ tt c (Fsys m l' sb it)) ->
  wp (let! bp := zoom (bread D b) in
      do! zoom (bmodify bp f);
      do! zoom (log_write bp);
      zoom (brelse bp)) c (Fsys m l sb it) Φ.
Proof.
  intros Hs Hc Hb Hh Hl Hf HΦ; wp_step; eapply fs_bread; eauto; intros i l1 Hs1; wp_step.
  eapply fs_bmodify; eauto; [by left|]; intros l2 Hs2; wp_step.
  eapply fs_log_write; eauto; [by left|lia|]; intros l3 Hs3.
  eapply fs_brelse; eauto; left; apply elem_of_add_block; by right.
Qed.
End rules.

Lemma quiet_cons pid c lk : quiet_ctx pid c -> lk <> LOGLOCK -> lk <> BCACHE -> (forall i, lk <> BUFLK i) ->
  quiet_ctx pid (Ctx (c_pid c) (lk :: c_held c)).
Proof.
  intros (H1 & [H2 H3] & H4) N1 N2 N3; split; [done|]; split; [split; [|intros i]|]; cbn [c_held]; apply not_elem_of_cons; auto.
Qed.
