(* ===== verification/FsBlocks.v ===== *)
(** * The block allocator

    The free bitmap as a predicate on block numbers, and what [balloc] and
    [bfree] do to it. *)

From S2P Require Import Prelude KMonad Memory Riscv Kalloc Vm Sleeplock Bio Session FsLayout Log LogProofs LogSystem Fs FsTx.

(** ** Bits of a bitmap block *)

Definition bitv (d : block) (bi : Z) : bool := negb (bit_at d bi =? 0).

Lemma land_mask x n : 0 <= n -> negb (Z.land x (Z.shiftl 1 n) =? 0) = Z.testbit x n.
Proof.
  intros Hn; rewrite Z.shiftl_1_l; destruct (Z.testbit x n) eqn:E.
  - destruct (Z.eqb_spec (Z.land x (2 ^ n)) 0) as [E0|]; [|done].
    assert (H : Z.testbit (Z.land x (2 ^ n)) n = true) by (by rewrite Z.land_spec, E, Z.pow2_bits_true).
    by rewrite E0, Z.bits_0 in H.
  - destruct (Z.eqb_spec (Z.land x (2 ^ n)) 0) as [|Hne]; [done|]; destruct Hne; apply Z.bits_inj'; intros k Hk.
    rewrite Z.land_spec, Z.bits_0, Z.pow2_bits_eqb by lia.
    destruct (Z.eqb_spec n k) as [->|]; [by rewrite E|apply andb_false_r].
Qed.

Lemma bitv_testbit d bi : bitv d bi = Z.testbit (aget 0 d (bi / 8)) (bi mod 8).
Proof. apply land_mask, Z.mod_pos_bound; lia. Qed.

Lemma testbit_u8 x n : 0 <= n < 8 -> Z.testbit (u8 x) n = Z.testbit x n.
Proof. intros; unfold u8; change 256 with (2 ^ 8); by rewrite Z.mod_pow2_bits_low by lia. Qed.

Lemma div8_range bi : 0 <= bi < BPB -> 0 <= bi / 8 < 1024 /\ 0 <= bi mod 8 < 8.
Proof.
  intros H; change BPB with 8192 in H; pose proof (Z.mod_pos_bound bi 8 ltac:(lia)).
  split; [split; [apply Z.div_pos|apply Z.div_lt_upper_bound]|]; lia.
Qed.

(** Changing bit [bi] of a byte by [f] leaves the other bits alone. *)
Lemma bitv_aset d bi bj x :
  length d = 1024%nat -> 0 <= bi < BPB -> 0 <= bj < BPB ->
  (forall n, 0 <= n < 8 -> n <> bi mod 8 -> Z.testbit x n = Z.testbit (aget 0 d (bi / 8)) n) ->
  bitv (aset d (bi / 8) x) bj = if decide (bj = bi) then Z.testbit x (bi mod 8) else bitv d bj.
Proof.
  intros Hl Hi Hj Hx; destruct (div8_range bi Hi), (div8_range bj Hj); rewrite !bitv_testbit.
  destruct (decide (bj = bi)) as [->|Hne]; [by rewrite aget_aset_eq by lia|].
  destruct (decide (bj / 8 = bi / 8)) as [E|]; [|by rewrite aget_aset_ne by lia].
  rewrite E, aget_aset_eq by lia; apply Hx; [done|]; intros Em; apply Hne.
  rewrite (Z.div_mod bj 8), (Z.div_mod bi 8) by lia; lia.
Qed.

Lemma bitv_set d bi bj :
  length d = 1024%nat -> 0 <= bi < BPB -> 0 <= bj < BPB ->
  bitv (bit_set bi d) bj = bool_decide (bj = bi) || bitv d bj.
Proof.
  intros Hl Hi Hj; destruct (div8_range bi Hi) as [_ Hm]; unfold bit_set, bit_mask; rewrite bitv_aset by (try done;
    intros n Hn Hne; rewrite testbit_u8, Z.lor_spec, Z.shiftl_1_l, Z.pow2_bits_false by lia; apply orb_false_r).
  case_decide as E; [|by rewrite bool_decide_eq_false_2].
  rewrite bool_decide_eq_true_2, testbit_u8, Z.lor_spec, Z.shiftl_1_l, Z.pow2_bits_true by (done || lia); apply orb_true_r.
Qed.

Lemma bitv_clear d bi bj :
  length d = 1024%nat -> 0 <= bi < BPB -> 0 <= bj < BPB ->
  bitv (bit_clear bi d) bj = negb (bool_decide (bj = bi)) && bitv d bj.
Proof.
  intros Hl Hi Hj; destruct (div8_range bi Hi) as [_ Hm]; unfold bit_clear, bit_mask; rewrite bitv_aset by (try done;
    intros n Hn Hne; rewrite testbit_u8, Z.land_spec, Z.lnot_spec, Z.shiftl_1_l, Z.pow2_bits_false by lia; apply andb_true_r).
  case_decide as E; [|by rewrite bool_decide_eq_false_2].
  rewrite bool_decide_eq_true_2, testbit_u8, Z.land_spec, Z.lnot_spec, Z.shiftl_1_l, Z.pow2_bits_true by (done || lia).
  apply andb_false_r.
Qed.

Lemma length_bit_set bi d : length (bit_set bi d) = length d.
Proof. apply length_aset. Qed.
Lemma length_bit_clear bi d : length (bit_clear bi d) = length d.
Proof. apply length_aset. Qed.
#[export] Hint Rewrite length_bit_set length_bit_clear : fslen.

(** ** Geometry of the disk *)

(** Boot block, super block, log, inodes, bitmap, data, in this order; [home] are
    the blocks outside the log. *)
Record geometry (home : Z -> Prop) (sb : superblock) : Prop := {
  gm_size : 0 < sb_size sb < 2 ^ 31;
  gm_inode : 1 < sb_inodestart sb;
  gm_ninodes : 0 < sb_ninodes sb < 2 ^ 16;
  gm_order : sb_inodestart sb + sb_ninodes sb / IPB < sb_bmapstart sb;
  gm_bmap : sb_bmapstart sb + sb_size sb / BPB < sb_size sb;
  gm_home : forall b, sb_inodestart sb <= b < sb_size sb -> home b
}.

(** The first data block. *)
Definition datastart (sb : superblock) : Z := sb_bmapstart sb + sb_size sb / BPB + 1.
Definition data_block (sb : superblock) (b : Z) : Prop := datastart sb <= b < sb_size sb.

Definition used (sb : superblock) (g : Z -> block) (b : Z) : bool := bitv (g (BBLOCK b sb)) (b mod BPB).

(** The blocks before the data are never free. *)
Definition meta_used (sb : superblock) (g : Z -> block) : Prop :=
  forall b, 0 <= b < datastart sb -> used sb g b = true.

Lemma fupd_eq b v g : fupd b v g b = v.
Proof. unfold fupd; by rewrite decide_True. Qed.
Lemma fupd_ne b v g x : x <> b -> fupd b v g x = g x.
Proof. intros; unfold fupd; by rewrite decide_False. Qed.

Definition zeros : block := replicate (Z.to_nat BSIZE) 0.

(** The contents after block [r] has been allocated. *)
Definition alloc_view (sb : superblock) (g : Z -> block) (r : Z) : Z -> block :=
  fupd r zeros (fupd (BBLOCK r sb) (bit_set (r mod BPB) (g (BBLOCK r sb))) g).
Definition free_view (sb : superblock) (g : Z -> block) (r : Z) : Z -> block :=
  fupd (BBLOCK r sb) (bit_clear (r mod BPB) (g (BBLOCK r sb))) g.

Section blocks.
Context {D pid : Z} {home : Z -> Prop} {TS : TxStore D pid home}.
Context (sb : superblock) (Hg : geometry home sb).

Lemma BBLOCK_eq b : 0 <= b < sb_size sb ->
  BBLOCK b sb = b / BPB + sb_bmapstart sb /\ sb_bmapstart sb <= BBLOCK b sb < datastart sb.
Proof.
  intros Hb; destruct Hg as [G1 G2 G3 G4 G5 _]; unfold BBLOCK, datastart; change BPB with 8192 in *; change IPB with 16 in *.
  pose proof (Z.div_pos b 8192); pose proof (Z.div_le_mono b (sb_size sb) 8192).
  pose proof (Z.div_pos (sb_ninodes sb) 16); rewrite u32_small; lia.
Qed.

Lemma meta_home b : sb_inodestart sb <= b < sb_size sb -> home b.
Proof. apply Hg. Qed.

Lemma datastart_bound : 1 < sb_inodestart sb < sb_bmapstart sb /\ sb_bmapstart sb < datastart sb <= sb_size sb.
Proof.
  destruct Hg as [G1 G2 G3 G4 G5 _]; unfold datastart; change BPB with 8192 in *; change IPB with 16 in *.
  pose proof (Z.div_pos (sb_size sb) 8192); pose proof (Z.div_pos (sb_ninodes sb) 16); lia.
Qed.

Lemma BBLOCK_home b : 0 <= b < sb_size sb -> home (BBLOCK b sb).
Proof. intros Hb; pose proof (BBLOCK_eq b Hb); pose proof datastart_bound; apply meta_home; lia. Qed.

Lemma data_home b : data_block sb b -> home b.
Proof. unfold data_block; pose proof datastart_bound; intros; apply meta_home; lia. Qed.

(** Blocks of the same bitmap block differ in their bit. *)
Lemma same_bblock x b : 0 <= x < sb_size sb -> 0 <= b < sb_size sb ->
  BBLOCK x sb = BBLOCK b sb -> x mod BPB = b mod BPB -> x = b.
Proof.
  intros Hx Hb E1 E2; rewrite (proj1 (BBLOCK_eq x Hx)), (proj1 (BBLOCK_eq b Hb)) in E1.
  change BPB with 8192 in *; rewrite (Z.div_mod x 8192), (Z.div_mod b 8192) by lia; lia.
Qed.

Lemma mod_BPB b : 0 <= b mod BPB < BPB.
Proof. apply Z.mod_pos_bound; done. Qed.

(** A change of the bitmap block of [b] seen through [used]. *)
Lemma used_fupd g b x d :
  0 <= x < sb_size sb -> 0 <= b < sb_size sb ->
  used sb (fupd (BBLOCK b sb) d g) x = if decide (BBLOCK x sb = BBLOCK b sb) then bitv d (x mod BPB) else used sb g x.
Proof. intros; unfold used, fupd; by destruct (decide _). Qed.

Lemma used_frame g g' x : 0 <= x < sb_size sb ->
  (forall y, sb_bmapstart sb <= y < datastart sb -> g' y = g y) -> used sb g' x = used sb g x.
Proof. intros Hx H; unfold used; rewrite H; [done|by apply BBLOCK_eq]. Qed.

Lemma used_alloc g r x :
  data_block sb r -> 0 <= x < sb_size sb -> length (g (BBLOCK r sb)) = 1024%nat ->
  used sb (alloc_view sb g r) x = bool_decide (x = r) || used sb g x.
Proof.
  intros Hr Hx Hlen; pose proof datastart_bound; unfold data_block in Hr; unfold alloc_view.
  rewrite (used_frame (fupd (BBLOCK r sb) (bit_set (r mod BPB) (g (BBLOCK r sb))) g)); [|done|].
  2:{ intros y Hy; apply fupd_ne; lia. }
  rewrite used_fupd by lia; case_decide as E.
  - rewrite bitv_set by (auto using mod_BPB); unfold used; rewrite E; f_equal.
    apply bool_decide_ext; split; [|by intros ->]; intros; apply same_bblock; auto; lia.
  - rewrite bool_decide_eq_false_2; [done|]; by intros ->.
Qed.

Lemma used_free g r x :
  0 <= r < sb_size sb -> 0 <= x < sb_size sb -> length (g (BBLOCK r sb)) = 1024%nat ->
  used sb (free_view sb g r) x = negb (bool_decide (x = r)) && used sb g x.
Proof.
  intros Hr Hx Hlen; unfold free_view; rewrite used_fupd by done; case_decide as E.
  - rewrite bitv_clear by (auto using mod_BPB); unfold used; rewrite E; do 2 f_equal.
    apply bool_decide_ext; split; [|by intros ->]; intros; by apply same_bblock.
  - rewrite bool_decide_eq_false_2; [done|]; by intros ->.
Qed.

(** Blocks held by the caller that [balloc] and [bfree] do not touch. *)
Definition held_apart (g : Z -> block) (held : list (Z * Z)) : Prop :=
  forall b, b ∈ held.*2 -> ~ (sb_bmapstart sb <= b < datastart sb) /\ (0 <= b < sb_size sb -> used sb g b = true).

Lemma held_bblock g held b : held_apart g held -> 0 <= b < sb_size sb -> BBLOCK b sb ∉ held.*2.
Proof. intros Hh Hb Hin; destruct (Hh _ Hin) as [H _]; apply H, BBLOCK_eq, Hb. Qed.

Lemma bzero_spec m l it g g0 bl held b c Φ :
  store l g g0 bl held -> quiet_ctx pid c -> home b -> b ∉ held.*2 -> (length bl + length held < 30)%nat ->
  (forall l', store l' (fupd b zeros g) g0 (add_block bl b) held -> Φ tt c (Fsys m l' sb it)) ->
  wp (bzero D b) c (Fsys m l sb it) Φ.
Proof. intros; unfold bzero; eapply fs_update; eauto. Qed.

(** The scan of one bitmap block. *)
Lemma balloc_scan_spec g k :
  0 <= k * BPB < sb_size sb ->
  let d := g (BBLOCK (k * BPB) sb) in
  match balloc_scan d (k * BPB) (sb_size sb) with
  | Some bi => let r := k * BPB + bi in
      k * BPB <= r < Z.min ((k + 1) * BPB) (sb_size sb) /\ used sb g r = false /\ BBLOCK r sb = BBLOCK (k * BPB) sb /\
      bi = r mod BPB /\ forall b, k * BPB <= b < r -> used sb g b = true
  | None => forall b, k * BPB <= b < Z.min ((k + 1) * BPB) (sb_size sb) -> used sb g b = true
  end.
Proof.
  intros Hk d; unfold balloc_scan; set (n := Z.min BPB (sb_size sb - k * BPB)).
  assert (Hd : forall b, k * BPB <= b < Z.min ((k + 1) * BPB) (sb_size sb) ->
    BBLOCK b sb = BBLOCK (k * BPB) sb /\ b mod BPB = b - k * BPB).
  { intros b Hb; change BPB with 8192 in *; assert (E : b / 8192 = k) by (symmetry; apply (Z.div_unique b 8192 k (b - k * 8192)); lia).
    rewrite (proj1 (BBLOCK_eq b ltac:(lia))), (proj1 (BBLOCK_eq (k * 8192) ltac:(lia))).
    change BPB with 8192; rewrite Z.div_mul, E by lia; split; [done|].
    pose proof (Z.div_mod b 8192 ltac:(lia)); lia. }
  assert (Hu : forall b, k * BPB <= b < Z.min ((k + 1) * BPB) (sb_size sb) -> used sb g b = negb (bit_at d (b - k * BPB) =? 0)).
  { intros b Hb; destruct (Hd b Hb) as [E1 E2]; unfold used, bitv; by rewrite E1, E2. }
  pose proof (find_zrange (fun bi => bit_at d bi =? 0) 0 (Z.to_nat n)) as F; destruct (List.find _ _) as [bi|].
  - destruct F as (Hbi & Hz & Hb); rewrite Z2Nat.id in Hbi by (unfold n; change BPB with 8192 in *; lia).
    assert (Hr : k * BPB <= k * BPB + bi < Z.min ((k + 1) * BPB) (sb_size sb)) by (unfold n in Hbi; change BPB with 8192 in *; lia).
    destruct (Hd _ Hr) as [E1 E2]; split_and!; [lia|lia| |done|lia|].
    + rewrite Hu by done; replace (k * BPB + bi - k * BPB) with bi by lia; by rewrite Hz.
    + intros b Hb'; rewrite Hu, Hb by lia; done.
  - intros b Hb; rewrite Hu by done; rewrite F; [done|]; unfold n; change BPB with 8192 in *; lia.
Qed.

(** [balloc] returns the first free block, marked in use and zeroed, or 0 when
    every block is in use. *)
Lemma balloc_spec m l it g g0 bl held c Φ :
  store l g g0 bl held -> quiet_ctx pid c -> meta_used sb g -> held_apart g held -> (length bl + length held < 29)%nat ->
  (forall l', (forall b, 0 <= b < sb_size sb -> used sb g b = true) -> store l' g g0 bl held -> Φ 0 c (Fsys m l' sb it)) ->
  (forall r l', data_block sb r -> used sb g r = false -> (forall b, 0 <= b < r -> used sb g b = true) ->
     store l' (alloc_view sb g r) g0 (add_block (add_block bl (BBLOCK r sb)) r) held -> Φ r c (Fsys m l' sb it)) ->
  wp (balloc D) c (Fsys m l sb it) Φ.
Proof.
  intros Hs Hc Hmeta Hheld Hlen H0 HR; unfold balloc, getsb; wp_steps; cbn [fs_sb].
  pose proof (gm_size _ _ Hg) as Hsz; set (n := (sb_size sb + BPB - 1) / BPB).
  assert (Hn : 0 <= n /\ forall k, k < n -> k * BPB < sb_size sb).
  { unfold n; change BPB with 8192; split; [apply Z.div_pos; lia|]; intros k Hk.
    pose proof (Z.mul_div_le (sb_size sb + 8192 - 1) 8192); lia. }
  apply (wp_find_range 0 n _ (fun k c' s' => c' = c /\ exists l', s' = Fsys m l' sb it /\ store l' g g0 bl held /\
    forall b, 0 <= b < Z.min (k * BPB) (sb_size sb) -> used sb g b = true)); [lia| | |].
  - split; [done|]; exists l; split_and!; auto; lia.
  - intros k c' s' Hk (-> & l1 & -> & Hs1 & Hb1); cbv zeta.
    assert (Hkr : 0 <= k * BPB < sb_size sb) by (split; [change BPB with 8192; lia|apply Hn; lia]).
    wp_step; eapply fs_bread; eauto using BBLOCK_home; try lia; [by eapply held_bblock|].
    intros i l2 Hs2; wp_step; eapply fs_bdata; eauto using BBLOCK_home; [by left|].
    pose proof (balloc_scan_spec g k Hkr) as Hscan; cbv zeta in Hscan; destruct (balloc_scan _ _ _) as [bi|].
    + destruct Hscan as (Hr & Hfree & EB & Ebi & Hbefore); set (r := k * BPB + bi) in *.
      assert (Hd : data_block sb r).
      { split; [|lia]; destruct (decide (datastart sb <= r)); [done|]; exfalso.
        rewrite Hmeta in Hfree; [done|]; change BPB with 8192 in *; lia. }
      assert (Hrh : r ∉ held.*2).
      { intros Hin; destruct (Hheld _ Hin) as [_ Hu]; rewrite Hu in Hfree; [done|]; change BPB with 8192 in *; lia. }
      assert (Hl1024 : length (g (BBLOCK r sb)) = 1024%nat) by (rewrite EB; eapply store_len; eauto using BBLOCK_home).
      wp_step; eapply fs_bmodify; eauto using BBLOCK_home; [by left|by rewrite length_bit_set, <- EB|].
      intros l3 Hs3; wp_step; eapply fs_log_write; eauto using BBLOCK_home; try lia; [by left|].
      intros l4 Hs4; wp_step; eapply fs_brelse; eauto using BBLOCK_home; [left; apply elem_of_add_block; by right|].
      intros l5 Hs5; wp_step; pose proof (add_block_len bl (BBLOCK (k * BPB) sb)).
      eapply bzero_spec; eauto using data_home; try lia; intros l6 Hs6; do 2 wp_step.
      rewrite <- EB, Ebi in Hs6; apply HR; auto; intros b Hb.
      destruct (decide (b < k * BPB)); [apply Hb1; lia|apply Hbefore; lia].
    + wp_step; eapply fs_brelse; eauto using BBLOCK_home; [eapply (store_unlogged l1); eauto using BBLOCK_home; by eapply held_bblock|].
      intros l3 Hs3; wp_step; split; [done|]; exists l3; split_and!; auto; intros b Hb.
      destruct (decide (b < k * BPB)); [apply Hb1; lia|apply Hscan; lia].
  - intros c' s' (-> & l' & -> & Hs' & Hall); wp_step; apply H0; [|done]; intros b Hb; apply Hall.
    split; [lia|]; apply Z.min_glb_lt; [|lia]; unfold n; change BPB with 8192.
    pose proof (Z.div_mod (sb_size sb + 8192 - 1) 8192 ltac:(lia)); pose proof (Z.mod_pos_bound (sb_size sb + 8192 - 1) 8192 ltac:(lia)); lia.
Qed.

Lemma bfree_spec m l it g g0 bl held b c Φ :
  store l g g0 bl held -> quiet_ctx pid c -> held_apart g held -> (length bl + length held < 30)%nat ->
  0 <= b < sb_size sb -> used sb g b = true ->
  (forall l', store l' (free_view sb g b) g0 (add_block bl (BBLOCK b sb)) held -> Φ tt c (Fsys m l' sb it)) ->
  wp (bfree D b) c (Fsys m l sb it) Φ.
Proof.
  intros Hs Hc Hheld Hlen Hb Hu HΦ; unfold bfree, getsb; wp_steps; cbn [fs_sb].
  eapply fs_bread; eauto using BBLOCK_home; [by eapply held_bblock|]; intros i l2 Hs2; cbv zeta; wp_step.
  eapply fs_bdata; eauto using BBLOCK_home; [by left|]; unfold used, bitv in Hu.
  destruct (bit_at _ _ =? 0); [done|]; wp_step.
  eapply fs_bmodify; eauto using BBLOCK_home; [by left|rewrite length_bit_clear; eapply store_len; eauto using BBLOCK_home|].
  intros l3 Hs3; wp_step; eapply fs_log_write; eauto using BBLOCK_home; try lia; [by left|]; intros l4 Hs4.
  eapply fs_brelse; eauto using BBLOCK_home; left; apply elem_of_add_block; by right.
Qed.

(** C34. Block allocation.  [balloc] returns the lowest free block: it was free, it
    lies in the data area, it is zeroed and marked in use, and no other block's
    state or content outside the bitmap changes.  It returns 0 exactly when no
    block is free, and then changes nothing. *)
Theorem balloc_allocates m l it g g0 bl c :
  store l g g0 bl [] -> quiet_ctx pid c -> meta_used sb g -> (length bl < 29)%nat ->
  wp (balloc D) c (Fsys m l sb it) (fun r c' s' =>
    c' = c /\ exists l' g' bl', s' = Fsys m l' sb it /\ store l' g' g0 bl' [] /\ meta_used sb g' /\
    ((r = 0 /\ g' = g /\ bl' = bl /\ forall b, 0 <= b < sb_size sb -> used sb g b = true) \/
     (data_block sb r /\ used sb g r = false /\ (forall b, 0 <= b < r -> used sb g b = true) /\ g' r = zeros /\
      (forall b, 0 <= b < sb_size sb -> used sb g' b = bool_decide (b = r) || used sb g b) /\
      forall x, x <> r -> ~ (sb_bmapstart sb <= x < datastart sb) -> g' x = g x))).
Proof.
  intros Hs Hc Hm Hl; assert (Hap : held_apart g []) by (by intros b Hb%not_elem_of_nil).
  eapply (balloc_spec m l it g g0 bl []); [exact Hs|exact Hc|exact Hm|exact Hap|simpl; lia| |].
  - intros l' Hu Hs'; split; [done|]; exists l', g, bl; split_and!; auto.
  - intros r l' Hr Hu Hlow Hs'; split; [done|]; pose proof datastart_bound; unfold data_block in Hr.
    assert (Hlen : length (g (BBLOCK r sb)) = 1024%nat) by (eapply store_len; [exact Hs|apply BBLOCK_home; lia]).
    assert (Hua := fun b => used_alloc g r b Hr); eexists l', _, _; split_and!; [done|exact Hs'| |right].
    + intros b Hb; rewrite Hua by (done || lia); rewrite Hm by done; apply orb_true_r.
    + split_and!; auto; try lia; [apply fupd_eq|]; intros x Hne Hx; unfold alloc_view; rewrite !fupd_ne; auto.
      intros ->; apply Hx, BBLOCK_eq; lia.
Qed.

(** Freeing.  [bfree] of a block in use clears its bit and changes nothing
    else; of a free block it panics. *)
Theorem bfree_frees m l it g g0 bl b c :
  store l g g0 bl [] -> quiet_ctx pid c -> (length bl < 30)%nat -> 0 <= b < sb_size sb ->
  if used sb g b then
    wp (bfree D b) c (Fsys m l sb it) (fun _ c' s' =>
      c' = c /\ exists l' g' bl', s' = Fsys m l' sb it /\ store l' g' g0 bl' [] /\
      (forall x, 0 <= x < sb_size sb -> used sb g' x = negb (bool_decide (x = b)) && used sb g x) /\
      forall x, ~ (sb_bmapstart sb <= x < datastart sb) -> g' x = g x)
  else panics (bfree D b) c (Fsys m l sb it) "freeing free block".
Proof.
  intros Hs Hc Hl Hb; assert (Hap : held_apart g []) by (by intros x Hx%not_elem_of_nil).
  assert (Hlen : length (g (BBLOCK b sb)) = 1024%nat) by (eapply store_len; [exact Hs|by apply BBLOCK_home]).
  destruct (used sb g b) eqn:Hu.
  - eapply bfree_spec; eauto; [simpl; lia|]; intros l' Hs'; split; [done|]; eexists l', _, _; split_and!; [done|exact Hs'| |].
    + intros x Hx; by apply used_free.
    + intros x Hx; apply fupd_ne; intros ->; by apply Hx, BBLOCK_eq.
  - unfold bfree, getsb; apply wp_panics; wp_step; cbn [fs_sb]; apply wp_panics.
    eapply fs_bread; eauto using BBLOCK_home; [apply not_elem_of_nil|simpl; lia|]; intros i l1 Hs1; cbv zeta; apply wp_panics.
    eapply fs_bdata; eauto using BBLOCK_home; [by left|]; unfold used, bitv in Hu.
    destruct (bit_at _ _ =? 0); done.
Qed.
End blocks.
