(* ===== verification/FsFiles.v ===== *)
(** * Files

    The content of an inode as a function from offsets to bytes, and what [bmap],
    [readi] and [writei] do to it. *)

From S2P Require Import Prelude KMonad Memory Riscv Kalloc Vm Sleeplock Bio Session FsLayout Log LogProofs LogSystem Fs FsTx FsBlocks.

(** ** The blocks of an inode *)

Definition ind (d : dinode) : Z := aget 0 (di_addrs d) NDIRECT.

(** The number of the block that holds block [bn] of the file, 0 if there is none. *)
Definition fblock (g : Z -> block) (d : dinode) (bn : Z) : Z :=
  if bn <? NDIRECT then aget 0 (di_addrs d) bn
  else if ind d =? 0 then 0 else get32 (g (ind d)) (4 * (bn - NDIRECT)).

Definition fbyte (g : Z -> block) (d : dinode) (off : Z) : Z :=
  let b := fblock g d (off / BSIZE) in
  if b =? 0 then 0 else aget 0 (g b) (off mod BSIZE).

Definition in_file (bn : Z) : Prop := 0 <= bn < MAXFILE.

(** The blocks are data blocks in use, and no block serves two purposes. *)
Record file_ok (sb : superblock) (g : Z -> block) (d : dinode) : Prop := {
  fo_len : length (di_addrs d) = 13%nat;
  fo_ind : ind d = 0 \/ (data_block sb (ind d) /\ used sb g (ind d) = true);
  fo_data : forall bn, in_file bn -> fblock g d bn <> 0 ->
    data_block sb (fblock g d bn) /\ used sb g (fblock g d bn) = true /\ fblock g d bn <> ind d;
  fo_inj : forall bn bn', in_file bn -> in_file bn' -> fblock g d bn <> 0 -> fblock g d bn = fblock g d bn' -> bn = bn'
}.

(** What an operation on the file may do to the other blocks: those that were in
    use keep their contents, except the bitmap and the file's own blocks. *)
Record grows (sb : superblock) (g g' : Z -> block) (d d' : dinode) : Prop := {
  gr_used : forall x, 0 <= x < sb_size sb -> used sb g x = true -> used sb g' x = true;
  gr_frame : forall x, ~ (sb_bmapstart sb <= x < datastart sb) -> (data_block sb x -> used sb g x = true) -> x <> ind d -> g' x = g x;
  gr_meta : di_type d' = di_type d /\ di_major d' = di_major d /\ di_minor d' = di_minor d /\
            di_nlink d' = di_nlink d /\ di_size d' = di_size d;
  gr_byte : forall off, 0 <= off < MAXFILE * BSIZE -> fbyte g' d' off = fbyte g d off;
  gr_ind : ind d' = ind d \/ (ind d = 0 /\ data_block sb (ind d') /\ used sb g (ind d') = false);
  gr_new : forall bn, in_file bn -> fblock g' d' bn = fblock g d bn \/
             (fblock g d bn = 0 /\ data_block sb (fblock g' d' bn) /\ used sb g (fblock g' d' bn) = false)
}.

(** The logged blocks stay within a list of at most [n] more. *)
Definition logs_within (bl bl' : list Z) (W : list Z) : Prop := forall x, x ∈ bl' -> x ∈ bl \/ x ∈ W.

Lemma logs_within_length bl bl' W : NoDup bl' -> logs_within bl bl' W -> (length bl' <= length bl + length W)%nat.
Proof.
  intros Hn Hw; rewrite <- length_app; apply submseteq_length, NoDup_submseteq; [done|].
  intros x Hx; apply elem_of_app; auto.
Qed.

Lemma logs_within_add bl bl' W b : logs_within bl bl' W -> b ∈ bl \/ b ∈ W -> logs_within bl (add_block bl' b) W.
Proof. intros Hw Hb x Hx; apply elem_of_add_block in Hx as [?| ->]; auto. Qed.

Lemma logs_within_mono bl bl' W W' : logs_within bl bl' W -> (forall x, x ∈ W -> x ∈ W') -> logs_within bl bl' W'.
Proof. intros Hw Hs x Hx; destruct (Hw x Hx); auto. Qed.

Lemma fblock_direct g d bn : bn < NDIRECT -> fblock g d bn = aget 0 (di_addrs d) bn.
Proof. intros H; unfold fblock; by destruct (Z.ltb_spec bn NDIRECT); [|lia]. Qed.

Lemma fblock_indirect g d bn : NDIRECT <= bn -> ind d <> 0 -> fblock g d bn = get32 (g (ind d)) (4 * (bn - NDIRECT)).
Proof.
  intros H Hi; unfold fblock; destruct (Z.ltb_spec bn NDIRECT); [lia|]; destruct (Z.eqb_spec (ind d) 0); done.
Qed.

Lemma fblock_no_ind g d bn : NDIRECT <= bn -> ind d = 0 -> fblock g d bn = 0.
Proof. intros H Hi; unfold fblock; destruct (Z.ltb_spec bn NDIRECT); [lia|]; by rewrite Hi. Qed.

Lemma ind_set_addr d k a : length (di_addrs d) = 13%nat -> 0 <= k <= 12 -> ind (set_addr k a d) = if decide (k = 12) then a else ind d.
Proof.
  intros Hl Hk; unfold ind, set_addr; cbn [di_addrs]; change NDIRECT with 12; case_decide; subst.
  - by rewrite aget_aset_eq by lia.
  - by rewrite aget_aset_ne by lia.
Qed.

Lemma aget_zeros i : aget 0 zeros i = 0.
Proof.
  unfold aget, zeros; rewrite nth_lookup; destruct (_ !! _) as [x|] eqn:E; [|done].
  by apply lookup_replicate in E as [-> _].
Qed.

Lemma get32_zeros o : get32 zeros o = 0.
Proof.
  unfold get32; assert (H : Forall (fun x => x = 0) (slice zeros o 4)).
  { unfold slice, zeros; apply Forall_take, Forall_drop, Forall_replicate; done. }
  induction H as [|x l -> _ IH]; [done|]; cbn [le_val]; by rewrite IH.
Qed.

Section files.
Context {D pid : Z} {home : Z -> Prop} {TS : TxStore D pid home}.
Context (sb : superblock) (Hg : geometry home sb).

Lemma data_not_meta x : data_block sb x -> ~ (sb_bmapstart sb <= x < datastart sb) /\ 0 < x < sb_size sb.
Proof. unfold data_block; pose proof (datastart_bound sb Hg); lia. Qed.

Lemma used_ne g x r : used sb g x = true -> used sb g r = false -> x <> r.
Proof. by intros H1 H2 ->; rewrite H1 in H2. Qed.

Lemma alloc_view_old g r x :
  data_block sb r -> ~ (sb_bmapstart sb <= x < datastart sb) -> x <> r -> alloc_view sb g r x = g x.
Proof.
  intros Hr Hx Hne; unfold alloc_view; rewrite fupd_ne by done; apply fupd_ne; intros ->; apply Hx.
  apply (BBLOCK_eq sb Hg); by apply data_not_meta in Hr as [_ ?]; lia.
Qed.

(** A block of the file is still there after another block has been allocated. *)
Lemma alloc_view_file g r x :
  data_block sb r -> used sb g r = false -> data_block sb x -> used sb g x = true -> alloc_view sb g r x = g x.
Proof.
  intros Hr Hu Hx Hux; apply alloc_view_old; [done|by apply data_not_meta|by eapply used_ne].
Qed.

Lemma fblock_alloc g d r bn :
  file_ok sb g d -> data_block sb r -> used sb g r = false -> fblock (alloc_view sb g r) d bn = fblock g d bn.
Proof.
  intros Hf Hr Hu; unfold fblock; destruct (Z.ltb_spec bn NDIRECT); [done|].
  destruct (Z.eqb_spec (ind d) 0); [done|]; destruct (fo_ind _ _ _ Hf) as [?|[H1 H2]]; [done|].
  by rewrite alloc_view_file.
Qed.

Lemma fbyte_alloc g d r off :
  file_ok sb g d -> data_block sb r -> used sb g r = false -> 0 <= off < MAXFILE * BSIZE ->
  fbyte (alloc_view sb g r) d off = fbyte g d off.
Proof.
  intros Hf Hr Hu Ho; unfold fbyte; rewrite fblock_alloc by done; cbv zeta.
  destruct (Z.eqb_spec (fblock g d (off / BSIZE)) 0) as [|Hne]; [done|].
  destruct (fo_data _ _ _ Hf (off / BSIZE)) as (H1 & H2 & _); auto; [|by rewrite alloc_view_file].
  change BSIZE with 1024 in *; split; [apply Z.div_pos|apply Z.div_lt_upper_bound]; lia.
Qed.

(** [g'] is [g] with [r] allocated and perhaps an entry of the indirect block
    changed; the map of the file is that of [d] with [r] at [bn] (no new block
    when [bn] is outside the file, for the indirect block itself). *)
Record extends (g g' : Z -> block) (d d' : dinode) (r bn : Z) : Prop := {
  ex_r : data_block sb r;
  ex_free : used sb g r = false;
  ex_len : length (di_addrs d') = 13%nat;
  ex_meta : di_type d' = di_type d /\ di_major d' = di_major d /\ di_minor d' = di_minor d /\
            di_nlink d' = di_nlink d /\ di_size d' = di_size d;
  ex_used : forall x, 0 <= x < sb_size sb -> used sb g' x = bool_decide (x = r) || used sb g x;
  ex_zero : g' r = zeros;
  ex_frame : forall x, ~ (sb_bmapstart sb <= x < datastart sb) -> x <> r -> x <> ind d -> g' x = g x;
  ex_old : fblock g d bn = 0;
  ex_map : forall k, in_file k -> fblock g' d' k = if decide (k = bn) then r else fblock g d k;
  ex_ind : (ind d' = ind d /\ in_file bn) \/ (ind d = 0 /\ ind d' = r /\ ~ in_file bn)
}.

Lemma extends_file_ok g g' d d' r bn : file_ok sb g d -> extends g g' d d' r bn -> file_ok sb g' d'.
Proof.
  intros [F1 F2 F3 F4] [E1 E2 E3 E4 E5 E6 E7 E8 E9 E10]; pose proof (data_not_meta r E1) as [_ Hr].
  assert (Hu : forall x, data_block sb x -> used sb g x = true -> used sb g' x = true).
  { intros x Hx Hux; rewrite E5 by (apply data_not_meta in Hx; lia); rewrite Hux; apply orb_true_r. }
  assert (Hur : used sb g' r = true) by (rewrite E5, bool_decide_eq_true_2 by lia; done).
  assert (Hni : ind d <> r) by (destruct F2 as [->|[? ?]]; [lia|by eapply used_ne]).
  split; auto.
  - destruct E10 as [[-> _]|(_ & -> & _)]; [|right; auto]; destruct F2 as [|[? ?]]; [by left|right; auto].
  - intros k Hk; rewrite E9 by done; case_decide as E.
    + subst k; destruct E10 as [[-> _]|(_ & _ & ?)]; auto.
    + intros Hne; destruct (F3 k Hk Hne) as (G1 & G2 & G3); split_and!; auto.
      destruct E10 as [[-> _]|(_ & -> & _)]; [done|by eapply used_ne].
  - intros k k' Hk Hk'; rewrite !E9 by done; case_decide as Ea; case_decide as Eb; subst; auto.
    + intros _ Er; exfalso; destruct (decide (fblock g d k' = 0)); [lia|].
      destruct (F3 k' Hk') as (_ & G2 & _); [done|]; by eapply (used_ne g (fblock g d k') r).
    + intros Hne Er; exfalso; destruct (F3 k Hk) as (_ & G2 & _); [done|]; by eapply (used_ne g (fblock g d k) r).
Qed.

Lemma extends_byte g g' d d' r bn off :
  file_ok sb g d -> extends g g' d d' r bn -> 0 <= off < MAXFILE * BSIZE -> fbyte g' d' off = fbyte g d off.
Proof.
  intros Hf He Ho; assert (Hk : in_file (off / BSIZE)).
  { change BSIZE with 1024 in *; split; [apply Z.div_pos|apply Z.div_lt_upper_bound]; lia. }
  pose proof (data_not_meta r (ex_r _ _ _ _ _ _ He)) as [_ Hr].
  unfold fbyte; rewrite (ex_map _ _ _ _ _ _ He) by done; cbv zeta; case_decide as E.
  - rewrite E, (ex_old _ _ _ _ _ _ He), (ex_zero _ _ _ _ _ _ He); cbn; destruct (Z.eqb_spec r 0); [done|].
    apply aget_zeros.
  - destruct (Z.eqb_spec (fblock g d (off / BSIZE)) 0) as [|Hne]; [done|].
    destruct (fo_data _ _ _ Hf _ Hk Hne) as (H1 & H2 & H3).
    rewrite (ex_frame _ _ _ _ _ _ He); [done|by apply data_not_meta| |done].
    eapply used_ne; [done|apply He].
Qed.

Lemma extends_grows g g' d d' r bn : file_ok sb g d -> extends g g' d d' r bn -> grows sb g g' d d'.
Proof.
  intros Hf He; pose proof (data_not_meta r (ex_r _ _ _ _ _ _ He)) as [_ Hr]; split.
  - intros x Hx Hu; rewrite (ex_used _ _ _ _ _ _ He) by done; rewrite Hu; apply orb_true_r.
  - intros x Hb Hd Hi; apply (ex_frame _ _ _ _ _ _ He); auto; intros ->; eapply used_ne; [apply Hd, He|apply He|done].
  - apply He.
  - intros off Ho; by apply (extends_byte _ _ _ _ _ _ _ Hf He).
  - destruct (ex_ind _ _ _ _ _ _ He) as [[? _]|(? & -> & _)]; [by left|right; split_and!; [done|apply He..]].
  - intros k Hk; rewrite (ex_map _ _ _ _ _ _ He) by done; case_decide; [|by left].
    subst; right; split_and!; apply He.
Qed.

Lemma grows_refl g d : grows sb g g d d.
Proof. split; auto. Qed.

Lemma grows_trans g1 g2 g3 d1 d2 d3 : grows sb g1 g2 d1 d2 -> grows sb g2 g3 d2 d3 -> grows sb g1 g3 d1 d3.
Proof.
  intros [A1 A2 A3 A4 A5 A6] [B1 B2 B3 B4 B5 B6].
  assert (Hu : forall x, data_block sb x -> used sb g2 x = false -> used sb g1 x = false).
  { intros x Hx Hf; destruct (used sb g1 x) eqn:E; [|done]; pose proof (data_not_meta x Hx) as [_ ?].
    rewrite A1 in Hf; [done|lia|done]. }
  split; auto.
  - intros x Hb Hd Hi; assert (g2 x = g1 x) as <- by auto; apply B2; auto.
    + intros Hx; apply A1; auto; apply data_not_meta in Hx as [_ ?]; lia.
    + destruct A5 as [->|(_ & H1 & H2)]; [done|]; intros ->; rewrite Hd in H2; done.
  - destruct A3 as (?&?&?&?&?), B3 as (?&?&?&?&?); split_and!; congruence.
  - intros off Ho; rewrite B4, A4; done.
  - destruct B5 as [->|(E & H1 & H2)]; [done|]; destruct A5 as [A5|(E' & H3 & _)]; [right; split_and!; auto; congruence|].
    pose proof (data_not_meta _ H3); lia.
  - intros k Hk; destruct (B6 k Hk) as [->|(E & H1 & H2)]; [auto|].
    destruct (A6 k Hk) as [A6'|(E' & H3 & _)]; [right; split_and!; auto; congruence|].
    pose proof (data_not_meta _ H3); lia.
Qed.

Lemma extend_direct g d r bn :
  file_ok sb g d -> data_block sb r -> used sb g r = false -> length (g (BBLOCK r sb)) = 1024%nat ->
  0 <= bn < NDIRECT -> fblock g d bn = 0 -> extends g (alloc_view sb g r) d (set_addr bn r d) r bn.
Proof.
  intros Hf Hr Hu Hl Hbn H0; pose proof (fo_len _ _ _ Hf) as Hlen; change NDIRECT with 12 in Hbn.
  assert (Hind : ind (set_addr bn r d) = ind d) by (rewrite ind_set_addr by lia; rewrite decide_False by lia; done).
  split; auto.
  - cbn [set_addr di_addrs]; by rewrite length_aset.
  - intros x Hx; by apply (used_alloc sb Hg).
  - apply fupd_eq.
  - intros x Hx Hne _; by apply alloc_view_old.
  - intros k [Hk _]; destruct (decide (k < NDIRECT)) as [Hlt|Hge].
    + rewrite !fblock_direct by done; cbn [set_addr di_addrs]; case_decide; subst.
      * by rewrite aget_aset_eq by lia.
      * by rewrite aget_aset_ne by lia.
    + rewrite decide_False by (change NDIRECT with 12 in *; lia).
      rewrite <- (fblock_alloc g d r k) by done; unfold fblock; destruct (Z.ltb_spec k NDIRECT); [lia|]; by rewrite Hind.
  - left; split; [done|]; split; [lia|]; change MAXFILE with 268; lia.
Qed.

Lemma extend_ind g d r :
  file_ok sb g d -> data_block sb r -> used sb g r = false -> length (g (BBLOCK r sb)) = 1024%nat ->
  ind d = 0 -> extends g (alloc_view sb g r) d (set_addr NDIRECT r d) r MAXFILE.
Proof.
  intros Hf Hr Hu Hl H0; pose proof (fo_len _ _ _ Hf) as Hlen; pose proof (data_not_meta r Hr) as [_ Hr0].
  assert (Hind : ind (set_addr NDIRECT r d) = r) by (rewrite ind_set_addr by (try done; change NDIRECT with 12; lia); done).
  split; auto.
  - cbn [set_addr di_addrs]; by rewrite length_aset.
  - intros x Hx; by apply (used_alloc sb Hg).
  - apply fupd_eq.
  - intros x Hx Hne _; by apply alloc_view_old.
  - by apply fblock_no_ind.
  - intros k [Hk Hk']; rewrite decide_False by lia; destruct (decide (k < NDIRECT)) as [Hlt|Hge].
    + rewrite !fblock_direct by done; cbn [set_addr di_addrs]; by rewrite aget_aset_ne by (change NDIRECT with 12 in *; lia).
    + rewrite fblock_indirect, Hind by (rewrite ?Hind; lia); rewrite (fblock_no_ind g d) by (auto; lia).
      unfold alloc_view; rewrite fupd_eq; apply get32_zeros.
  - right; split_and!; auto; unfold in_file; lia.
Qed.

Lemma extend_entry g d r bn :
  file_ok sb g d -> data_block sb r -> used sb g r = false -> length (g (BBLOCK r sb)) = 1024%nat ->
  length (g (ind d)) = 1024%nat -> ind d <> 0 -> NDIRECT <= bn < MAXFILE -> fblock g d bn = 0 ->
  extends g (fupd (ind d) (put32 (g (ind d)) (4 * (bn - NDIRECT)) r) (alloc_view sb g r)) d d r bn.
Proof.
  intros Hf Hr Hu Hl Hli Hi Hbn H0; pose proof (fo_len _ _ _ Hf) as Hlen; pose proof (data_not_meta r Hr) as [_ Hr0].
  destruct (fo_ind _ _ _ Hf) as [?|[Hid Hiu]]; [done|]; pose proof (used_ne g _ _ Hiu Hu) as Hir.
  pose proof (data_not_meta _ Hid) as [Him _]; pose proof (gm_size _ _ Hg) as Hsz.
  change NDIRECT with 12 in *; change MAXFILE with 268 in Hbn; split; auto.
  - intros x Hx; rewrite <- (used_alloc sb Hg) by done; apply (used_frame sb Hg); [done|]; intros y Hy.
    apply fupd_ne; intros ->; by apply Him.
  - rewrite fupd_ne by done; apply fupd_eq.
  - intros x Hx Hne Hxi; rewrite fupd_ne by done; by apply alloc_view_old.
  - intros k [Hk Hk']; change MAXFILE with 268 in Hk'; destruct (decide (k < 12)) as [Hlt|Hge].
    + rewrite decide_False by lia; by rewrite !fblock_direct by done.
    + rewrite !fblock_indirect, fupd_eq by (try done; change NDIRECT with 12; lia); change NDIRECT with 12.
      case_decide; [subst k|].
      * rewrite get32_put32_eq by lia; apply u32_small; lia.
      * by rewrite get32_put32_ne by lia.
  - left; split; [done|]; split; [lia|]; change MAXFILE with 268; lia.
Qed.

(** ** [bmap] *)

Definition with_d (it : list inode) (ip : Z) (d : dinode) : list inode := aset it ip (set_d d (aget inode0 it ip)).

Definition is_inode (it : list inode) (ip : Z) : Prop :=
  0 <= ip < Z.of_nat (length it) /\ i_dev (aget inode0 it ip) = D.

Lemma inode_with_d it ip d : is_inode it ip -> aget inode0 (with_d it ip d) ip = set_d d (aget inode0 it ip).
Proof. intros [H _]; unfold with_d; by rewrite aget_aset_eq. Qed.

Lemma with_with_d it ip d d' : is_inode it ip -> with_d (with_d it ip d) ip d' = with_d it ip d'.
Proof.
  intros H; unfold with_d at 1; rewrite inode_with_d by done; unfold with_d, aset; by rewrite list_insert_insert_eq.
Qed.

Lemma wp_geti m l it ip d c Φ :
  is_inode it ip -> Φ (set_d d (aget inode0 it ip)) c (Fsys m l sb (with_d it ip d)) ->
  wp (geti ip) c (Fsys m l sb (with_d it ip d)) Φ.
Proof. intros Hi H; unfold geti; wp_step; unfold inode_at; cbn [fs_itable]; by rewrite inode_with_d. Qed.

Lemma wp_mod_d m l it ip d f c Φ :
  is_inode it ip -> Φ tt c (Fsys m l sb (with_d it ip (f d))) ->
  wp (mod_d ip f) c (Fsys m l sb (with_d it ip d)) Φ.
Proof.
  intros Hi H; unfold mod_d, modi; wp_step; unfold upd_inode, inode_at; cbn [fs_itable fs_mem fs_log fs_sb].
  rewrite inode_with_d by done; unfold set_d at 2; cbn [i_d i_dev i_inum i_ref i_lock i_valid].
  replace (aset (with_d it ip d) ip _) with (with_d it ip (f d)); [done|].
  unfold with_d, aset; rewrite list_insert_insert_eq; done.
Qed.

Context (Hone : sb_size sb <= BPB).

Lemma BBLOCK_one b : 0 <= b < sb_size sb -> BBLOCK b sb = sb_bmapstart sb.
Proof. intros Hb; rewrite (proj1 (BBLOCK_eq sb Hg b Hb)), Z.div_small by lia; lia. Qed.

(** The state of a file between two steps: the transaction, the inode and the
    bitmap. *)
Record fstate (l : lstate) (g g0 : Z -> block) (bl : list Z) (held : list (Z * Z)) (d : dinode) : Prop := {
  fs_store : store l g g0 bl held;
  fs_meta : meta_used sb g;
  fs_file : file_ok sb g d
}.

(** Block [bn] of the file is [r] now. *)
Record mapped (g g' : Z -> block) (d d' : dinode) (bn r : Z) (bl bl' : list Z) : Prop := {
  mp_grows : grows sb g g' d d';
  mp_map : forall k, in_file k -> fblock g' d' k = if decide (k = bn) then r else fblock g d k;
  mp_logs : logs_within bl bl' [sb_bmapstart sb; ind d'; r];
  mp_full : r = 0 -> forall b, 0 <= b < sb_size sb -> used sb g' b = true
}.

Lemma meta_grows g g' d d' : meta_used sb g -> grows sb g g' d d' -> meta_used sb g'.
Proof. intros Hm Hgr b Hb; apply (gr_used _ _ _ _ _ Hgr); [pose proof (datastart_bound sb Hg); lia|by apply Hm]. Qed.

Lemma fstate_extends l g g' g0 bl bl' held d d' r bn :
  fstate l g g0 bl held d -> extends g g' d d' r bn -> forall l', store l' g' g0 bl' held -> fstate l' g' g0 bl' held d'.
Proof.
  intros [Hs Hm Hf] He l' Hs'; split; [done| |by eapply extends_file_ok].
  eapply meta_grows; [exact Hm|]; by eapply extends_grows.
Qed.

Lemma mapped_same g d bn bl : in_file bn -> fblock g d bn <> 0 -> mapped g g d d bn (fblock g d bn) bl bl.
Proof.
  intros Hb Hne; split; [apply grows_refl| |by left|done].
  intros k Hk; case_decide; by subst.
Qed.

Lemma mapped_full g d bn bl : fblock g d bn = 0 -> (forall b, 0 <= b < sb_size sb -> used sb g b = true) -> mapped g g d d bn 0 bl bl.
Proof. intros E Hu; split; [apply grows_refl| |by left|done]; intros k Hk; case_decide; by subst. Qed.

Lemma mapped_extends g g' d d' r bn bl :
  file_ok sb g d -> extends g g' d d' r bn -> in_file bn ->
  mapped g g' d d' bn r bl (add_block (add_block bl (BBLOCK r sb)) r).
Proof.
  intros Hf He Hb; pose proof (data_not_meta r (ex_r _ _ _ _ _ _ He)) as [_ Hr]; split.
  - by eapply extends_grows.
  - intros k Hk; by apply (ex_map _ _ _ _ _ _ He).
  - rewrite BBLOCK_one by lia; repeat apply logs_within_add; [by left|right; elt|right; elt].
  - lia.
Qed.

Lemma balloc_file m l it g g0 bl held d c Φ :
  fstate l g g0 bl held d -> quiet_ctx pid c -> held_apart sb g held -> (length bl + length held < 29)%nat ->
  (forall l', (forall b, 0 <= b < sb_size sb -> used sb g b = true) -> fstate l' g g0 bl held d -> Φ 0 c (Fsys m l' sb it)) ->
  (forall r l', data_block sb r -> used sb g r = false -> length (g (BBLOCK r sb)) = 1024%nat ->
     store l' (alloc_view sb g r) g0 (add_block (add_block bl (BBLOCK r sb)) r) held -> Φ r c (Fsys m l' sb it)) ->
  wp (balloc D) c (Fsys m l sb it) Φ.
Proof.
  intros [Hs Hm Hf] Hc Hh Hl H0 HR; eapply (balloc_spec sb Hg _ _ _ g g0 bl held); [exact Hs|exact Hc|exact Hm|exact Hh|exact Hl| |].
  - intros l' Hu Hs'; apply H0; [done|by split].
  - intros r l' Hr Hu _ Hs'; apply HR; auto; eapply store_len; [exact Hs|].
    apply (BBLOCK_home sb Hg); pose proof (data_not_meta r Hr); lia.
Qed.

Lemma nil_apart g : held_apart sb g [].
Proof. by intros b Hb%not_elem_of_nil. Qed.

Lemma bmap_direct_spec m l it ip g g0 bl d bn c Φ :
  is_inode it ip -> fstate l g g0 bl [] d -> quiet_ctx pid c -> 0 <= bn < NDIRECT -> (length bl < 29)%nat ->
  (forall r l' g' bl' d', fstate l' g' g0 bl' [] d' -> mapped g g' d d' bn r bl bl' -> Φ r c (Fsys m l' sb (with_d it ip d'))) ->
  wp (bmap ip bn) c (Fsys m l sb (with_d it ip d)) Φ.
Proof.
  intros Hi Hst Hc Hbn Hl HΦ; unfold bmap; wp_step; apply wp_geti; [done|].
  destruct (Z.ltb_spec bn NDIRECT); [|lia]; cbv zeta; cbn [set_d i_d i_dev]; rewrite (proj2 Hi).
  assert (Hin : in_file bn) by (split; [lia|change MAXFILE with 268; change NDIRECT with 12 in *; lia]).
  rewrite <- (fblock_direct g d bn) by lia; destruct (Z.eqb_spec (fblock g d bn) 0) as [E|Hne].
  2:{ wp_step; eapply HΦ; [exact Hst|by apply mapped_same]. }
  wp_step; eapply balloc_file; eauto using nil_apart; [simpl; lia| |].
  - intros l' Hu Hs'; wp_steps; eapply HΦ; [exact Hs'|by apply mapped_full].
  - intros r l' Hr Hu Hl1 Hs'; pose proof (data_not_meta r Hr) as [_ Hr0]; destruct (Z.eqb_spec r 0); [lia|].
    assert (He : extends g (alloc_view sb g r) d (set_addr bn r d) r bn) by (apply extend_direct; auto; apply Hst).
    wp_step; apply wp_mod_d; [done|]; wp_step; eapply HΦ.
    + eapply fstate_extends; eauto.
    + apply mapped_extends; auto; apply Hst.
Qed.

(** The indirect block, allocated if necessary. *)
Lemma indirect_spec m l it ip g g0 bl d c Φ :
  is_inode it ip -> fstate l g g0 bl [] d -> quiet_ctx pid c -> (length bl < 29)%nat ->
  (forall l', ind d = 0 -> (forall b, 0 <= b < sb_size sb -> used sb g b = true) -> fstate l' g g0 bl [] d ->
     Φ 0 c (Fsys m l' sb (with_d it ip d))) ->
  (forall l' g' bl' d', ind d' <> 0 -> fstate l' g' g0 bl' [] d' -> grows sb g g' d d' ->
     (forall k, in_file k -> fblock g' d' k = fblock g d k) -> logs_within bl bl' [sb_bmapstart sb; ind d'] ->
     Φ (ind d') c (Fsys m l' sb (with_d it ip d'))) ->
  wp (if ind d =? 0 then
        let! addr := balloc D in
        if addr =? 0 then ret 0 else
        do! mod_d ip (set_addr NDIRECT addr);
        ret addr
      else ret (ind d)) c (Fsys m l sb (with_d it ip d)) Φ.
Proof.
  intros Hi Hst Hc Hl H0 HR; destruct (Z.eqb_spec (ind d) 0) as [E|Hne].
  2:{ wp_step; eapply HR; eauto using grows_refl; by left. }
  wp_step; eapply balloc_file; eauto using nil_apart; [simpl; lia|intros l' Hu Hs'; wp_steps; by apply H0|].
  intros r l' Hr Hu Hl1 Hs'; pose proof (data_not_meta r Hr) as [_ Hr0]; destruct (Z.eqb_spec r 0); [lia|].
  pose proof (extend_ind g d r (fs_file _ _ _ _ _ _ Hst) Hr Hu Hl1 E) as He.
  assert (Ei : ind (set_addr NDIRECT r d) = r).
  { rewrite ind_set_addr; [done|apply Hst|change NDIRECT with 12; lia]. }
  wp_step; apply wp_mod_d; [done|]; wp_step; rewrite <- Ei at 1; eapply HR; rewrite ?Ei; [lia| | | |].
  - eapply fstate_extends; eauto.
  - eapply extends_grows; [apply Hst|exact He].
  - intros k Hk; rewrite (ex_map _ _ _ _ _ _ He) by done; rewrite decide_False; [done|]; unfold in_file in Hk; lia.
  - rewrite BBLOCK_one by lia; repeat apply logs_within_add; [by left|right; elt|right; elt].
Qed.

Lemma ind_home l g g0 bl held d : fstate l g g0 bl held d -> ind d <> 0 ->
  home (ind d) /\ held_apart sb g [(0, ind d)] /\ length (g (ind d)) = 1024%nat.
Proof.
  intros Hst Hi; destruct (fo_ind _ _ _ (fs_file _ _ _ _ _ _ Hst)) as [?|[H1 H2]]; [done|].
  assert (Hh : home (ind d)) by (by apply (data_home sb Hg)); split_and!; [done| |by eapply store_len; [apply Hst|]].
  intros b Hb; cbn in Hb; apply list_elem_of_singleton in Hb as ->; split; [by apply data_not_meta|done].
Qed.

(** The entry of the indirect block. *)
Lemma entry_spec m l it ip g g0 bl d bn c Φ :
  fstate l g g0 bl [] d -> quiet_ctx pid c -> ind d <> 0 -> NDIRECT <= bn < MAXFILE -> (length bl < 27)%nat ->
  (forall r l' g' bl', fstate l' g' g0 bl' [] d -> mapped g g' d d bn r bl bl' -> Φ r c (Fsys m l' sb (with_d it ip d))) ->
  wp (let! bp := zoom (bread D (ind d)) in
      let! dat := zoom (bdata bp) in
      let addr := get32 dat (4 * (bn - NDIRECT)) in
      let! addr :=
        (if addr =? 0 then
           let! addr := balloc D in
           do! (if negb (addr =? 0) then
                  do! zoom (bmodify bp (fun dat => put32 dat (4 * (bn - NDIRECT)) addr));
                  zoom (log_write bp)
                else ret tt);
           ret addr
         else ret addr) in
      do! zoom (brelse bp);
      ret addr) c (Fsys m l sb (with_d it ip d)) Φ.
Proof.
  intros Hst Hc Hne Hbn Hl HΦ; pose proof Hst as [Hs Hm Hf]; destruct (ind_home _ _ _ _ _ _ Hst Hne) as (Hh & Hap & Hlen).
  assert (Hin : in_file bn) by (split; [change NDIRECT with 12 in *|]; lia).
  wp_step; eapply fs_bread; eauto; [apply not_elem_of_nil|simpl; lia|]; intros i l1 Hs1.
  wp_step; eapply fs_bdata; eauto; [by left|]; cbv zeta; rewrite <- (fblock_indirect g d bn) by (done || lia).
  destruct (Z.eqb_spec (fblock g d bn) 0) as [E|Hn0].
  2:{ do 2 wp_step; cbn; wp_step; eapply fs_brelse; eauto; [eapply (store_unlogged l); eauto; apply not_elem_of_nil|].
      intros l2 Hs2; wp_step; eapply HΦ; [by split|by apply mapped_same]. }
  wp_step; wp_step; eapply (balloc_file _ _ _ g g0 bl [(i, ind d)] d); [by split|done|exact Hap|simpl; lia| |].
  - intros l2 Hu [Hs2 _ _]; cbn [Z.eqb negb]; wp_steps; eapply fs_brelse; eauto; [eapply (store_unlogged l); eauto; apply not_elem_of_nil|].
    intros l3 Hs3; wp_step; eapply HΦ; [by split|by apply mapped_full].
  - intros r l2 Hr Hu Hl1 Hs2; pose proof (data_not_meta r Hr) as [_ Hr0]; destruct (Z.eqb_spec r 0); [lia|]; cbn [negb].
    pose proof (extend_entry g d r bn Hf Hr Hu Hl1 Hlen Hne Hbn E) as He.
    destruct (fo_ind _ _ _ Hf) as [?|[Hid Hiu]]; [done|].
    wp_step; wp_step; eapply fs_bmodify; eauto; [by left| |].
    { by rewrite (alloc_view_file g r (ind d)), length_put32. }
    rewrite (alloc_view_file g r (ind d)) by done; intros l3 Hs3; pose proof (add_block_len (add_block bl (BBLOCK r sb)) r).
    pose proof (add_block_len bl (BBLOCK r sb)); eapply fs_log_write; eauto; [by left|lia|]; intros l4 Hs4.
    do 2 wp_step; eapply fs_brelse; eauto; [left; apply elem_of_add_block; by right|]; intros l5 Hs5; wp_step; eapply HΦ.
    + eapply fstate_extends; eauto.
    + destruct (mapped_extends g _ d d r bn bl Hf He Hin) as [M1 M2 M3 M4]; split; auto.
      apply logs_within_add; [done|right; elt].
Qed.

Lemma bmap_spec m l it ip g g0 bl d bn c Φ :
  is_inode it ip -> fstate l g g0 bl [] d -> quiet_ctx pid c -> in_file bn -> (length bl < 25)%nat ->
  (forall r l' g' bl' d', fstate l' g' g0 bl' [] d' -> mapped g g' d d' bn r bl bl' -> Φ r c (Fsys m l' sb (with_d it ip d'))) ->
  wp (bmap ip bn) c (Fsys m l sb (with_d it ip d)) Φ.
Proof.
  intros Hi Hst Hc Hbn Hl HΦ; destruct (decide (bn < NDIRECT)) as [Hlt|Hge].
  { eapply bmap_direct_spec; eauto; [split; [apply Hbn|done]|lia]. }
  destruct Hbn as [Hb0 Hb1]; unfold bmap; wp_step; apply wp_geti; [done|].
  destruct (Z.ltb_spec bn NDIRECT); [lia|]; cbv zeta; cbn [set_d i_d i_dev]; rewrite (proj2 Hi).
  destruct (Z.ltb_spec (bn - NDIRECT) NINDIRECT) as [_|Hx]; [|unfold MAXFILE in Hb1; lia].
  wp_step; change (aget 0 (di_addrs d) NDIRECT) with (ind d); eapply indirect_spec; eauto; [lia| |].
  - intros l' E Hu Hst'; cbn [Z.eqb]; wp_step; eapply HΦ; [exact Hst'|]; apply mapped_full; [|done]; apply fblock_no_ind; [lia|done].
  - intros l' g' bl' d' Hne Hst' Hgr Hmap Hlog; destruct (Z.eqb_spec (ind d') 0); [done|].
    pose proof (logs_within_length _ _ _ (store_nodup _ _ _ _ _ (fs_store _ _ _ _ _ _ Hst')) Hlog) as Hlen; simpl in Hlen.
    eapply entry_spec; eauto; try lia; intros r l2 g2 bl2 Hst2 [M1 M2 M3 M4]; eapply HΦ; [exact Hst2|]; split; auto.
    + by eapply grows_trans.
    + intros k Hk; rewrite M2 by done; case_decide; auto.
    + intros x Hx; destruct (M3 x Hx) as [Hx'|]; [|by right]; destruct (Hlog x Hx') as [|Hx2]; [by left|right].
      apply elem_of_cons in Hx2 as [->|Hx2]; [by left|]; right; apply list_elem_of_singleton in Hx2 as ->; by left.
Qed.
End files.
