(* ===== verification/FsData.v ===== *)
(** * Reading and writing files

    [readi] returns the bytes of the file, [writei] changes them and nothing else;
    neither loses a block, and a write stays within the log space an operation
    reserves. *)

From S2P Require Import Prelude KMonad Memory Riscv Kalloc Vm Sleeplock Bio Session FsLayout Log LogProofs LogSystem Fs FsTx FsBlocks FsFiles.

(** Every block below the size is there. *)
Definition dense (g : Z -> block) (d : dinode) : Prop := forall bn, 0 <= bn -> bn * BSIZE < di_size d -> fblock g d bn <> 0.

(** A step of the owner of the file: its own blocks, free blocks and the bitmap
    may change. *)
Record fstep (sb : superblock) (g g' : Z -> block) (d d' : dinode) : Prop := {
  st_used : forall x, 0 <= x < sb_size sb -> used sb g x = true -> used sb g' x = true;
  st_frame : forall x, ~ (sb_bmapstart sb <= x < datastart sb) -> (data_block sb x -> used sb g x = true) ->
    x <> ind d -> (forall bn, in_file bn -> fblock g d bn <> x) -> g' x = g x;
  st_meta : di_type d' = di_type d /\ di_major d' = di_major d /\ di_minor d' = di_minor d /\
            di_nlink d' = di_nlink d /\ di_size d' = di_size d;
  st_ind : ind d' = ind d \/ (ind d = 0 /\ data_block sb (ind d') /\ used sb g (ind d') = false);
  st_new : forall bn, in_file bn -> fblock g' d' bn = fblock g d bn \/
             (fblock g d bn = 0 /\ data_block sb (fblock g' d' bn) /\ used sb g (fblock g' d' bn) = false)
}.

Lemma block_index off k : 0 <= off -> 0 <= k -> off mod BSIZE + k < BSIZE ->
  (off + k) / BSIZE = off / BSIZE /\ (off + k) mod BSIZE = off mod BSIZE + k.
Proof.
  change BSIZE with 1024; intros Ho Hk Hlt; pose proof (Z.div_mod off 1024 ltac:(lia)).
  pose proof (Z.mod_pos_bound off 1024 ltac:(lia)).
  split; symmetry; [apply (Z.div_unique _ _ _ (off mod 1024 + k))|apply (Z.mod_unique _ _ (off / 1024))]; lia.
Qed.

Lemma slice_fbyte g d off m :
  0 <= off -> 0 <= m -> off mod BSIZE + m <= BSIZE -> fblock g d (off / BSIZE) <> 0 ->
  length (g (fblock g d (off / BSIZE))) = 1024%nat ->
  slice (g (fblock g d (off / BSIZE))) (off mod BSIZE) m = map (fbyte g d) (zrange off (Z.to_nat m)).
Proof.
  intros Ho Hm Hle Hne Hlen; pose proof (Z.mod_pos_bound off BSIZE ltac:(done)); change BSIZE with 1024 in *.
  apply list_eq; intros k; rewrite list_lookup_fmap; destruct (decide (k < Z.to_nat m)%nat) as [Hk|Hk].
  - rewrite lookup_slice, lookup_zrange by done; cbn [fmap option_fmap option_map]; unfold fbyte.
    destruct (block_index off (Z.of_nat k)) as [E1 E2]; [lia|lia|change BSIZE with 1024; lia|].
    change BSIZE with 1024 in *; rewrite E1, E2; destruct (Z.eqb_spec (fblock g d (off / 1024)) 0); [done|].
    replace (Z.to_nat (off mod 1024) + k)%nat with (Z.to_nat (off mod 1024 + Z.of_nat k)) by lia; apply lookup_aget; lia.
  - rewrite lookup_slice_ge by lia; symmetry; apply fmap_None, lookup_ge_None_2; rewrite length_zrange; lia.
Qed.

(** The offset and the number of bytes left after a turn that has copied [mm] of
    [rem] bytes. *)
Lemma next_turn off tot n mm fuel :
  0 <= off -> mm = Z.min (n - tot) (BSIZE - off mod BSIZE) -> tot < n -> off mod BSIZE + (n - tot) <= Z.of_nat (S fuel) * BSIZE ->
  tot + mm = n \/ (off + mm) mod BSIZE + (n - (tot + mm)) <= Z.of_nat fuel * BSIZE.
Proof.
  change BSIZE with 1024; intros Ho -> Ht Hf; pose proof (Z.mod_pos_bound off 1024 ltac:(lia)).
  destruct (decide (n - tot <= 1024 - off mod 1024)); [left; lia|right].
  rewrite Z.min_r by lia; replace ((off + (1024 - off mod 1024)) mod 1024) with 0; [lia|].
  apply (Z.mod_unique _ _ (off / 1024 + 1)); [lia|]; pose proof (Z.div_mod off 1024 ltac:(lia)); lia.
Qed.

Section data.
Context {D pid : Z} {home : Z -> Prop} {TS : TxStore D pid home}.
Context (sb : superblock) (Hg : geometry home sb).
Context {L : KernelLayout} (p : uproc).

#[local] Abbreviation is_inode := (is_inode (D := D)).
#[local] Abbreviation fstate := (fstate (D := D) (pid := pid) (home := home) sb).

(** [bmap] of a block that is there. *)
Lemma bmap_hit_spec m l it ip g g0 bl d bn c Φ :
  is_inode it ip -> fstate l g g0 bl [] d -> quiet_ctx pid c -> in_file bn -> (length bl < 30)%nat -> fblock g d bn <> 0 ->
  (forall l', fstate l' g g0 bl [] d -> Φ (fblock g d bn) c (Fsys m l' sb (with_d it ip d))) ->
  wp (bmap ip bn) c (Fsys m l sb (with_d it ip d)) Φ.
Proof.
  intros Hi Hst Hc [Hb0 Hb1] Hl Hne HΦ; pose proof Hst as [Hs Hm Hf]; unfold bmap; wp_step; eapply wp_geti; [exact Hi|].
  cbv zeta; cbn [set_d i_d i_dev]; rewrite (proj2 Hi); destruct (Z.ltb_spec bn NDIRECT) as [Hlt|Hge].
  - rewrite fblock_direct in * by lia; destruct (Z.eqb_spec (aget 0 (di_addrs d) bn) 0); [done|]; wp_step; by apply HΦ.
  - destruct (Z.ltb_spec (bn - NDIRECT) NINDIRECT) as [_|Hx]; [|unfold MAXFILE in Hb1; lia].
    assert (Hi0 : ind d <> 0) by (intros E; by rewrite fblock_no_ind in Hne).
    change (aget 0 (di_addrs d) NDIRECT) with (ind d); destruct (Z.eqb_spec (ind d) 0); [done|].
    destruct (ind_home sb Hg _ _ _ _ _ _ Hst Hi0) as (Hh & _ & _).
    do 2 wp_step; destruct (Z.eqb_spec (ind d) 0); [done|]; wp_step.
    eapply fs_bread; eauto; [apply not_elem_of_nil|simpl; lia|]; intros i l1 Hs1; wp_step.
    eapply fs_bdata; eauto; [by left|]; rewrite <- (fblock_indirect g d bn) by (done || lia).
    destruct (Z.eqb_spec (fblock g d bn) 0); [done|]; wp_steps.
    eapply fs_brelse; eauto; [eapply (store_unlogged l); eauto; apply not_elem_of_nil|].
    intros l2 Hs2; wp_step; by apply HΦ.
Qed.

Lemma fblock_home l g g0 bl held d bn : fstate l g g0 bl held d -> in_file bn -> fblock g d bn <> 0 ->
  home (fblock g d bn) /\ length (g (fblock g d bn)) = 1024%nat.
Proof.
  intros [Hs Hm Hf] Hb Hne; destruct (fo_data _ _ _ Hf bn Hb Hne) as (H1 & _ & _).
  assert (home (fblock g d bn)) by (by apply (data_home sb Hg)); split; [done|by eapply store_len].
Qed.

Lemma readi_loop_spec fuel m l it ip g g0 bl d off n tot c Φ :
  is_inode it ip -> fstate l g g0 bl [] d -> quiet_ctx pid c -> (length bl < 30)%nat ->
  0 <= off -> 0 <= tot <= n -> off + (n - tot) <= MAXFILE * BSIZE -> tot = n \/ off mod BSIZE + (n - tot) <= Z.of_nat fuel * BSIZE ->
  (forall o, off <= o < off + (n - tot) -> fblock g d (o / BSIZE) <> 0) ->
  (forall l', fstate l' g g0 bl [] d ->
     Φ (n, map (fbyte g d) (zrange off (Z.to_nat (n - tot)))) c (Fsys m l' sb (with_d it ip d))) ->
  wp (readi_loop p fuel ip KernDst off n tot) c (Fsys m l sb (with_d it ip d)) Φ.
Proof.
  revert l off tot Φ; induction fuel as [|fuel IH]; intros l off tot Φ Hi Hst Hc Hl Ho Ht Hmax Hfuel Hdense HΦ;
    cbn [readi_loop]; pose proof (Z.mod_pos_bound off BSIZE ltac:(done)) as Hmod;
    (destruct (Z.ltb_spec tot n) as [Hlt|Hge]; cbn [negb];
      [|wp_step; replace tot with n in * by lia; rewrite Z.sub_diag in HΦ; by apply HΦ]).
  { lia. }
  assert (Hin : in_file (off / BSIZE)).
  { change BSIZE with 1024 in *; split; [apply Z.div_pos|apply Z.div_lt_upper_bound]; lia. }
  assert (Hne : fblock g d (off / BSIZE) <> 0) by (apply Hdense; lia).
  destruct (fblock_home _ _ _ _ _ _ _ Hst Hin Hne) as [Hh Hlen].
  wp_step; eapply bmap_hit_spec; eauto; intros l1 Hst1; destruct (Z.eqb_spec (fblock g d (off / BSIZE)) 0); [done|].
  wp_step; eapply wp_geti; [exact Hi|]; cbn [set_d i_dev]; rewrite (proj2 Hi); wp_step.
  eapply fs_bread; eauto; [apply Hst1|apply not_elem_of_nil|simpl; lia|]; intros i l2 Hs2; cbv zeta.
  set (mm := Z.min (n - tot) (BSIZE - off mod BSIZE)).
  wp_step; eapply fs_bdata; eauto; [by left|]; wp_step; apply wp_zoom; cbn [either_copyout]; wp_step.
  cbn [lset lget fsys_kmem fs_mem fs_log fs_sb fs_itable Z.eqb]; wp_step.
  eapply fs_brelse; eauto; [eapply (store_unlogged l1); eauto; [apply Hst1|apply not_elem_of_nil]|].
  intros l3 Hs3; wp_step; cbn [dst_add].
  assert (Hmm : 0 < mm <= n - tot /\ off mod BSIZE + mm <= BSIZE) by (unfold mm; lia).
  assert (HM : MAXFILE * BSIZE < 2 ^ 32) by done.
  rewrite u32_small by lia; eapply IH; eauto; try lia.
  - by split; [|apply Hst1..].
  - apply next_turn; auto; lia.
  - intros o Hoo; apply Hdense; lia.
  - intros l4 Hst4; wp_step; cbn [fst snd]; rewrite slice_fbyte by (auto; lia).
    rewrite <- map_app; replace (Z.to_nat (n - tot)) with (Z.to_nat mm + Z.to_nat (n - (tot + mm)))%nat in HΦ by lia.
    rewrite zrange_app, Z2Nat.id in HΦ by lia; by apply HΦ.
Qed.

Lemma readi_spec m l it ip g g0 bl d off n c Φ :
  is_inode it ip -> fstate l g g0 bl [] d -> quiet_ctx pid c -> (length bl < 30)%nat ->
  0 <= di_size d <= MAXFILE * BSIZE -> dense g d -> 0 <= off <= di_size d -> 0 <= n -> off + n < 2 ^ 32 ->
  (forall l' k, k = Z.min n (di_size d - off) -> fstate l' g g0 bl [] d ->
     Φ (k, map (fbyte g d) (zrange off (Z.to_nat k))) c (Fsys m l' sb (with_d it ip d))) ->
  wp (readi p ip KernDst off n) c (Fsys m l sb (with_d it ip d)) Φ.
Proof.
  intros Hi Hst Hc Hl Hsz Hd Ho Hn Hov HΦ; unfold readi; wp_step; eapply wp_geti; [exact Hi|]; cbn [set_d i_d]; cbv zeta.
  rewrite u32_small by lia; destruct (Z.ltb_spec (di_size d) off); [lia|]; destruct (Z.ltb_spec (off + n) off); [lia|]; cbn [orb].
  set (k := if di_size d <? off + n then di_size d - off else n).
  assert (Ek : k = Z.min n (di_size d - off)) by (unfold k; destruct (Z.ltb_spec (di_size d) (off + n)); lia).
  clearbody k; wp_step; pose proof (Z.mod_pos_bound off BSIZE ltac:(done)); eapply readi_loop_spec; eauto; try lia.
  - right; change BSIZE with 1024 in *; pose proof (Z.div_mod k 1024 ltac:(lia)); pose proof (Z.mod_pos_bound k 1024 ltac:(lia)).
    pose proof (Z.div_pos k 1024); lia.
  - intros o Hoo; apply Hd; [apply Z.div_pos; [lia|done]|]; pose proof (Z.mul_div_le o BSIZE ltac:(done)); lia.
  - intros l' Hst'; wp_step; rewrite Z.sub_0_r; cbn [fst snd]; rewrite s32_small; [by apply HΦ|].
    assert (MAXFILE * BSIZE < 2 ^ 31) by done; lia.
Qed.

(** ** Writing one block *)

Lemma fupd_own g d bn v :
  file_ok sb g d -> in_file bn -> fblock g d bn <> 0 -> let g' := fupd (fblock g d bn) v g in
  (forall k, fblock g' d k = fblock g d k) /\ (forall x, 0 <= x < sb_size sb -> used sb g' x = used sb g x) /\
  file_ok sb g' d /\ fstep sb g g' d d.
Proof.
  intros Hf Hb Hne g'; destruct (fo_data _ _ _ Hf bn Hb Hne) as (H1 & H2 & H3).
  pose proof (data_not_meta sb Hg _ H1) as [Hnm _].
  assert (Hfb : forall k, fblock g' d k = fblock g d k).
  { intros k; unfold fblock; destruct (k <? NDIRECT); [done|]; destruct (ind d =? 0); [done|].
    unfold g'; by rewrite fupd_ne. }
  assert (Hu : forall x, 0 <= x < sb_size sb -> used sb g' x = used sb g x).
  { intros x Hx; apply (used_frame sb Hg); [done|]; intros y Hy; apply fupd_ne; by intros ->. }
  assert (Hdr : forall x, data_block sb x -> 0 <= x < sb_size sb) by (intros x Hx; apply (data_not_meta sb Hg) in Hx as [_ ?]; lia).
  split_and!; auto.
  - destruct Hf as [F1 F2 F3 F4]; split; auto.
    + destruct F2 as [|[? ?]]; [by left|right; split; [done|]]; rewrite Hu; auto.
    + intros k Hk; rewrite Hfb; intros Hk0; destruct (F3 k Hk Hk0) as (? & ? & ?); rewrite Hu; auto.
    + intros k k' Hk Hk'; rewrite !Hfb; auto.
  - split; auto.
    + intros x Hx; by rewrite Hu.
    + intros x _ _ _ Hx; apply fupd_ne; intros ->; by apply (Hx bn).
Qed.

Lemma fstep_refl g d : fstep sb g g d d.
Proof. split; auto. Qed.

Lemma grows_fstep g g' d d' : grows sb g g' d d' -> fstep sb g g' d d'.
Proof. intros [A1 A2 A3 A4 A5 A6]; split; auto. Qed.

Lemma fstep_trans g1 g2 g3 d1 d2 d3 : fstep sb g1 g2 d1 d2 -> fstep sb g2 g3 d2 d3 -> fstep sb g1 g3 d1 d3.
Proof.
  intros [A1 A2 A3 A5 A6] [B1 B2 B3 B5 B6].
  assert (Hdr : forall x, data_block sb x -> 0 < x < sb_size sb) by (intros x Hx; by apply (data_not_meta sb Hg) in Hx as [_ ?]).
  assert (Hu : forall x, data_block sb x -> used sb g2 x = false -> used sb g1 x = false).
  { intros x Hx Hf; destruct (used sb g1 x) eqn:E; [|done]; rewrite A1 in Hf; [done|pose proof (Hdr x Hx); lia|done]. }
  split; auto.
  - intros x Hb Hd Hi Hk; assert (g2 x = g1 x) as <- by auto; apply B2; auto.
    + intros Hx; apply A1; auto; pose proof (Hdr x Hx); lia.
    + destruct A5 as [->|(_ & H1 & H2)]; [done|]; intros ->; rewrite Hd in H2; done.
    + intros bn Hbn; destruct (A6 bn Hbn) as [->|(_ & H1 & H2)]; [auto|]; intros <-; rewrite Hd in H2; done.
  - destruct A3 as (?&?&?&?&?), B3 as (?&?&?&?&?); split_and!; congruence.
  - destruct B5 as [->|(E & H1 & H2)]; [done|]; destruct A5 as [A5|(E' & H3 & _)]; [right; split_and!; auto; congruence|].
    pose proof (Hdr _ H3); lia.
  - intros k Hk; destruct (B6 k Hk) as [->|(E & H1 & H2)]; [auto|].
    destruct (A6 k Hk) as [A6'|(E' & H3 & _)]; [right; split_and!; auto; congruence|].
    pose proof (Hdr _ H3); lia.
Qed.

Lemma fbyte_blit g d off bs o :
  file_ok sb g d -> in_file (off / BSIZE) -> fblock g d (off / BSIZE) <> 0 -> length (g (fblock g d (off / BSIZE))) = 1024%nat ->
  0 <= off -> off mod BSIZE + Z.of_nat (length bs) <= BSIZE -> 0 <= o < MAXFILE * BSIZE ->
  fbyte (fupd (fblock g d (off / BSIZE)) (blit (g (fblock g d (off / BSIZE))) (off mod BSIZE) bs) g) d o =
  if decide (off <= o < off + Z.of_nat (length bs)) then aget 0 bs (o - off) else fbyte g d o.
Proof.
  intros Hf Hb Hne Hlen Ho Hle Hoo; destruct (fupd_own g d _ (blit (g (fblock g d (off / BSIZE))) (off mod BSIZE) bs) Hf Hb Hne) as (Hfb & _).
  unfold fbyte at 1; cbv zeta; rewrite Hfb; pose proof (Z.mod_pos_bound off BSIZE ltac:(done)) as Hm1.
  pose proof (Z.mod_pos_bound o BSIZE ltac:(done)) as Hm2.
  assert (Hdm : o = BSIZE * (o / BSIZE) + o mod BSIZE /\ off = BSIZE * (off / BSIZE) + off mod BSIZE).
  { split; apply Z.div_mod; done. }
  destruct (decide (o / BSIZE = off / BSIZE)) as [E|Hd].
  - rewrite E; destruct (Z.eqb_spec (fblock g d (off / BSIZE)) 0); [done|]; rewrite fupd_eq; case_decide as Hc.
    + unfold aget; rewrite nth_lookup; unfold blit; rewrite list_lookup_inserts by (change BSIZE with 1024 in *; lia).
      rewrite <- nth_lookup; f_equal; rewrite E in Hdm; lia.
    + unfold fbyte; cbv zeta; rewrite E; destruct (Z.eqb_spec (fblock g d (off / BSIZE)) 0); [done|].
      unfold aget; rewrite !nth_lookup; f_equal; unfold blit; rewrite E in Hdm.
      destruct (decide (o < off)); [apply list_lookup_inserts_lt|apply list_lookup_inserts_ge]; lia.
  - rewrite decide_False; [|intros Hc; apply Hd; destruct (block_index off (o - off)) as [E _]; [lia|lia|lia|];
      by replace (off + (o - off)) with o in E by lia].
    unfold fbyte; cbv zeta; destruct (Z.eqb_spec (fblock g d (o / BSIZE)) 0) as [|Hn0]; [done|]; rewrite fupd_ne; [done|].
    intros Ee; apply Hd; apply (fo_inj _ _ _ Hf); auto; change BSIZE with 1024 in *.
    split; [apply Z.div_pos|apply Z.div_lt_upper_bound]; lia.
Qed.

(** ** The inode on the disk *)

Definition inum_ok (inum : Z) : Prop := 0 <= inum < sb_ninodes sb.

Lemma IBLOCK_range inum : inum_ok inum -> sb_inodestart sb <= IBLOCK inum sb < sb_bmapstart sb.
Proof.
  intros Hi; destruct Hg as [G1 G2 G3 G4 G5 _]; unfold IBLOCK, inum_ok in *; change IPB with 16 in *; change BPB with 8192 in *.
  pose proof (Z.div_pos inum 16); pose proof (Z.div_le_mono inum (sb_ninodes sb) 16); pose proof (Z.div_pos (sb_size sb) 8192).
  rewrite u32_small; lia.
Qed.

Lemma IBLOCK_home inum : inum_ok inum -> home (IBLOCK inum sb).
Proof. intros Hi; pose proof (IBLOCK_range _ Hi); pose proof (datastart_bound sb Hg); apply (meta_home sb Hg); lia. Qed.

(** Blocks outside the bitmap and the data do not matter to files. *)
Lemma file_frame g g' d :
  (forall x, sb_bmapstart sb <= x -> g' x = g x) -> file_ok sb g d ->
  file_ok sb g' d /\ (forall k, fblock g' d k = fblock g d k) /\ (forall x, 0 <= x < sb_size sb -> used sb g' x = used sb g x) /\
  (forall o, 0 <= o < MAXFILE * BSIZE -> fbyte g' d o = fbyte g d o).
Proof.
  intros Hx Hf; pose proof (datastart_bound sb Hg).
  assert (Hd : forall x, data_block sb x -> g' x = g x /\ 0 <= x < sb_size sb).
  { intros x Hdx; unfold data_block in Hdx; split; [apply Hx|]; lia. }
  assert (Hfb : forall k, fblock g' d k = fblock g d k).
  { intros k; unfold fblock; destruct (k <? NDIRECT); [done|]; destruct (Z.eqb_spec (ind d) 0); [done|].
    destruct (fo_ind _ _ _ Hf) as [?|[H1 _]]; [done|]; by rewrite (proj1 (Hd _ H1)). }
  assert (Hu : forall x, 0 <= x < sb_size sb -> used sb g' x = used sb g x).
  { intros x Hxr; apply (used_frame sb Hg); [done|]; intros y Hy; apply Hx; lia. }
  split_and!; auto.
  - destruct Hf as [F1 F2 F3 F4]; split; auto.
    + destruct F2 as [|[H1 ?]]; [by left|right]; rewrite Hu by (by apply Hd); auto.
    + intros k Hk; rewrite Hfb; intros Hk0; destruct (F3 k Hk Hk0) as (H1 & ? & ?); rewrite Hu by (by apply Hd); auto.
    + intros k k' Hk Hk'; rewrite !Hfb; auto.
  - intros o Ho; unfold fbyte; rewrite Hfb; cbv zeta; destruct (Z.eqb_spec (fblock g d (o / BSIZE)) 0); [done|].
    destruct (fo_data _ _ _ Hf (o / BSIZE)) as (H1 & _); auto; [|by rewrite (proj1 (Hd _ H1))].
    change BSIZE with 1024 in *; split; [apply Z.div_pos|apply Z.div_lt_upper_bound]; lia.
Qed.

Lemma file_dinode_ok g d :
  file_ok sb g d -> - 2 ^ 15 <= di_type d < 2 ^ 15 -> - 2 ^ 15 <= di_major d < 2 ^ 15 -> - 2 ^ 15 <= di_minor d < 2 ^ 15 ->
  - 2 ^ 15 <= di_nlink d < 2 ^ 15 -> 0 <= di_size d < 2 ^ 32 -> dinode_ok d.
Proof.
  intros Hf; split; auto; [apply Hf|]; pose proof (gm_size _ _ Hg) as Hsz; pose proof (fo_len _ _ _ Hf) as Hl.
  assert (Hdr : forall x, data_block sb x -> 0 <= x < 2 ^ 32) by (intros x Hx; apply (data_not_meta sb Hg) in Hx; lia).
  apply Forall_lookup; intros i x Hx; pose proof (lookup_lt_Some _ _ _ Hx) as Hi; rewrite Hl in Hi.
  assert (Ex : aget 0 (di_addrs d) (Z.of_nat i) = x) by (apply aget_lookup; [lia|by rewrite Nat2Z.id]).
  destruct (decide (i = 12%nat)) as [->|].
  - change (ind d = x) in Ex; destruct (fo_ind _ _ _ Hf) as [|[? _]]; subst; [lia|auto].
  - rewrite <- (fblock_direct g d) in Ex by (change NDIRECT with 12; lia); destruct (decide (x = 0)); [lia|]; subst x.
    apply Hdr, (fo_data _ _ _ Hf); [|done]; split; [lia|change MAXFILE with 268; lia].
Qed.

Lemma iupdate_spec m l it ip g g0 bl d inum c Φ :
  is_inode it ip -> i_inum (aget inode0 it ip) = inum -> inum_ok inum -> fstate l g g0 bl [] d -> quiet_ctx pid c ->
  (length bl < 30)%nat ->
  (forall l' g', g' = fupd (IBLOCK inum sb) (dinode_put (g (IBLOCK inum sb)) inum d) g ->
     fstate l' g' g0 (add_block bl (IBLOCK inum sb)) [] d -> Φ tt c (Fsys m l' sb (with_d it ip d))) ->
  wp (iupdate ip) c (Fsys m l sb (with_d it ip d)) Φ.
Proof.
  intros Hi En Hin Hst Hc Hl HΦ; unfold iupdate, getsb; wp_steps; cbn [fs_sb]; eapply wp_geti; [exact Hi|].
  cbn [set_d i_dev i_inum i_d]; rewrite (proj2 Hi), En; pose proof (IBLOCK_home inum Hin) as Hh.
  eapply fs_update; [apply Hst|exact Hc|exact Hh|apply not_elem_of_nil|simpl; lia| |].
  { rewrite length_dinode_put; eapply store_len; [apply Hst|done]. }
  intros l' Hs'; eapply HΦ; [done|]; pose proof (IBLOCK_range inum Hin).
  destruct (file_frame g (fupd (IBLOCK inum sb) (dinode_put (g (IBLOCK inum sb)) inum d) g) d) as (H1 & _ & H3 & _).
  { intros x Hx; apply fupd_ne; lia. }
  { apply Hst. }
  split; auto; intros b Hb; rewrite H3; [by apply Hst|]; pose proof (datastart_bound sb Hg); lia.
Qed.

(** ** [writei] *)

(** The logged blocks, counting the bitmap once. *)
Definition weight (bl : list Z) : nat := length (add_block bl (sb_bmapstart sb)).

Lemma NoDup_add_block bl b : NoDup bl -> NoDup (add_block bl b).
Proof.
  intros H; unfold add_block; case_decide; [done|]; apply NoDup_app; split_and!; auto using NoDup_singleton.
  intros x Hx ->%list_elem_of_singleton; done.
Qed.

Lemma weight_step bl bl' a b : NoDup bl' -> logs_within bl bl' [sb_bmapstart sb; a; b] -> (weight bl' <= weight bl + 2)%nat.
Proof.
  intros Hn Hw; unfold weight; apply (logs_within_length _ _ [a; b]); [by apply NoDup_add_block|].
  intros x Hx; rewrite !elem_of_add_block in *; destruct Hx as [Hx| ->]; [|by left; right].
  destruct (Hw x Hx) as [|Hx']; [by left; left|]; apply elem_of_cons in Hx' as [->|]; auto.
Qed.

Lemma weight_len bl : (length bl <= weight bl)%nat.
Proof. apply add_block_le. Qed.

(** [t] bytes of [bs] have been written at [off]. *)
Record wrote (g g' : Z -> block) (d d' : dinode) (off t : Z) (bs : list Z) : Prop := {
  wr_step : fstep sb g g' d d';
  wr_byte : forall o, 0 <= o < MAXFILE * BSIZE ->
    fbyte g' d' o = if decide (off <= o < off + t) then aget 0 bs (o - off) else fbyte g d o;
  wr_dense : forall o, off <= o < off + t -> fblock g' d' (o / BSIZE) <> 0
}.

Lemma wrote_nil g d off bs : wrote g g d d off 0 bs.
Proof. split; [apply fstep_refl| |lia]; intros o Ho; by rewrite decide_False by lia. Qed.

Lemma fstep_keeps g g' d d' bn : fstep sb g g' d d' -> in_file bn -> fblock g d bn <> 0 -> fblock g' d' bn = fblock g d bn.
Proof. intros Hf Hb Hne; destruct (st_new _ _ _ _ _ Hf bn Hb) as [|(E & _)]; done. Qed.

Lemma wrote_step g g1 g2 d d1 d2 off mm t bs :
  0 <= off -> 0 <= mm -> 0 <= t -> off + mm + t <= MAXFILE * BSIZE -> (Z.to_nat mm <= length bs)%nat ->
  wrote g g1 d d1 off mm (take (Z.to_nat mm) bs) -> wrote g1 g2 d1 d2 (off + mm) t (drop (Z.to_nat mm) bs) ->
  wrote g g2 d d2 off (mm + t) bs.
Proof.
  intros Ho Hm Ht Hmax Hl [A1 A2 A3] [B1 B2 B3]; split; [by eapply fstep_trans| |].
  - intros o Hoo; rewrite B2, A2 by done; unfold aget; case_decide as E1; case_decide as E2; try lia.
    + rewrite nth_lookup, lookup_drop, <- nth_lookup; f_equal; lia.
    + rewrite decide_True by lia; rewrite nth_lookup, lookup_take_lt, <- nth_lookup by lia; done.
    + by rewrite decide_False by lia.
  - intros o Hoo; destruct (decide (o < off + mm)); [|apply B3; lia].
    rewrite (fstep_keeps _ _ _ _ _ B1); [apply A3; lia| |apply A3; lia].
    change BSIZE with 1024 in *; split; [apply Z.div_pos|apply Z.div_lt_upper_bound]; lia.
Qed.

(** One turn of the loop: [bmap], then the copy into the block. *)
Lemma wrote_turn g g1 d d1 off mm bs r bl bl' :
  fblock g1 d1 (off / BSIZE) = r -> r <> 0 -> mapped sb g g1 d d1 (off / BSIZE) r bl bl' -> file_ok sb g1 d1 ->
  length (g1 r) = 1024%nat -> 0 <= off -> 0 < mm -> off mod BSIZE + mm <= BSIZE -> off + mm <= MAXFILE * BSIZE ->
  length bs = Z.to_nat mm ->
  wrote g (fupd r (blit (g1 r) (off mod BSIZE) bs) g1) d d1 off mm bs.
Proof.
  intros Er Hr [M1 M2 M3 M4] Hf Hl Ho Hm Hle Hmax Hbs; assert (Hb : in_file (off / BSIZE)).
  { change BSIZE with 1024 in *; split; [apply Z.div_pos|apply Z.div_lt_upper_bound]; lia. }
  subst r; destruct (fupd_own g1 d1 _ (blit (g1 (fblock g1 d1 (off / BSIZE))) (off mod BSIZE) bs) Hf Hb Hr) as (Hfb & _ & _ & Hst).
  split.
  - eapply fstep_trans; [by apply grows_fstep|exact Hst].
  - intros o Hoo; rewrite fbyte_blit by (auto; lia); replace (Z.of_nat (length bs)) with mm by lia.
    case_decide; [done|]; by apply (gr_byte _ _ _ _ _ M1).
  - intros o Hoo; rewrite Hfb; destruct (block_index off (o - off)) as [E _]; [lia|lia|lia|].
    replace (off + (o - off)) with o in E by lia; by rewrite E.
Qed.

Context (Hone : sb_size sb <= BPB).

(** What [writei] needs of its source [src] when it writes [bs] at offset [off]: to
    copy [k] of the bytes for one block gives them, or fails without having copied
    any, which only happens if [fails].  The memory of the machine stays in [I], and
    an address has 64 bits. *)
Record source (I : kmem -> Prop) (fails : Prop) (c : ctx) (off : Z) (src : csrc) (bs : list Z) : Prop := {
  so_addr : src_add src 0 = src;
  so_copy o k m : I m -> 0 <= o -> 0 < k -> o + k <= Z.of_nat (length bs) -> (off + o) mod BSIZE + k <= BSIZE ->
    wp (either_copyin p (src_add src o) k) c m (fun r c' m' =>
      c' = c /\ I m' /\ (r = (0, take (Z.to_nat k) (drop (Z.to_nat o) bs)) \/ (r = (-1, []) /\ fails)))
}.

Lemma src_add_add src a b : 0 <= a -> 0 <= b -> src_add (src_add src a) b = src_add src (a + b).
Proof.
  intros Ha Hb; destruct src as [va|bs]; cbn [src_add]; f_equal.
  - unfold u64; rewrite Zplus_mod_idemp_l; f_equal; lia.
  - rewrite drop_drop; f_equal; lia.
Qed.

Lemma source_add I fails c off src bs a : 0 <= a <= Z.of_nat (length bs) ->
  source I fails c off src bs -> source I fails c (off + a) (src_add src a) (drop (Z.to_nat a) bs).
Proof.
  intros Ha [H0 Hs]; split; [by rewrite src_add_add, Z.add_0_r by lia|].
  intros o k m Hm Ho Hk Hle Hmod; rewrite length_drop in Hle; rewrite src_add_add, drop_drop by lia.
  replace (Z.to_nat a + Z.to_nat o)%nat with (Z.to_nat (a + o)) by lia; apply Hs; auto; try lia; by rewrite Z.add_assoc.
Qed.

Lemma source_start I fails c off src bs m k : source I fails c off src bs -> I m -> 0 < k <= Z.of_nat (length bs) -> off mod BSIZE + k <= BSIZE ->
  wp (either_copyin p src k) c m (fun r c' m' => c' = c /\ I m' /\ (r = (0, take (Z.to_nat k) bs) \/ (r = (-1, []) /\ fails))).
Proof.
  intros [H0 Hs] Hm Hk Hmod; rewrite <- H0; change bs with (drop (Z.to_nat 0) bs); apply Hs; auto; try lia; by rewrite Z.add_0_r.
Qed.

Lemma kern_source c off bs m : source (eq m) False c off (KernSrc bs) bs.
Proof. split; [done|]; intros o k m' -> Ho Hk Hle _; cbn [src_add either_copyin]; wp_step; auto. Qed.

Lemma writei_loop_spec I fails fuel m l it ip g g0 bl d off n tot src bs c Φ :
  is_inode it ip -> fstate l g g0 bl [] d -> quiet_ctx pid c -> (weight bl + 2 * fuel < 25)%nat ->
  0 <= off -> 0 <= tot <= n -> off + (n - tot) <= MAXFILE * BSIZE -> tot = n \/ off mod BSIZE + (n - tot) <= Z.of_nat fuel * BSIZE ->
  length bs = Z.to_nat (n - tot) -> source I fails c off src bs -> I m ->
  (forall m' l' g' bl' d' t, I m' -> 0 <= t <= n - tot -> fstate l' g' g0 bl' [] d' -> wrote g g' d d' off t bs ->
     (weight bl' <= weight bl + 2 * fuel)%nat -> (t < n - tot -> fails \/ forall b, 0 <= b < sb_size sb -> used sb g' b = true) ->
     Φ (tot + t, off + t) c (Fsys m' l' sb (with_d it ip d'))) ->
  forall fuel', (fuel <= fuel')%nat ->
  wp (writei_loop p fuel' ip src off n tot) c (Fsys m l sb (with_d it ip d)) Φ.
Proof.
  revert m l g bl d off tot src bs Φ; induction fuel as [|fuel IH];
    intros m l g bl d off tot src bs Φ Hi Hst Hc Hw Ho Ht Hmax Hfuel Hbs Hsrc Hm HΦ fuel' Hle;
    pose proof (Z.mod_pos_bound off BSIZE ltac:(done)) as Hmod;
    (destruct fuel' as [|fuel']; cbn [writei_loop]; destruct (Z.ltb_spec tot n) as [Hlt|Hge]; cbn [negb];
      try (wp_step; replace tot with n in * by lia; replace (n, off) with (n + 0, off + 0) by (f_equal; lia);
           eapply (HΦ m _ g bl d); [done|lia|exact Hst|apply wrote_nil|lia|lia])); try lia.
  assert (Hin : in_file (off / BSIZE)).
  { change BSIZE with 1024 in *; split; [apply Z.div_pos|apply Z.div_lt_upper_bound]; lia. }
  pose proof (weight_len bl).
  wp_step; eapply (bmap_spec sb Hg Hone); [exact Hi|exact Hst|exact Hc|exact Hin|lia|]; intros r l1 g1 bl1 d1 Hst1 Hmp.
  pose proof (weight_step bl bl1 _ _ (store_nodup _ _ _ _ _ (fs_store _ _ _ _ _ _ _ Hst1)) (mp_logs _ _ _ _ _ _ _ _ _ Hmp)) as Hw1.
  assert (Hstop : forall m' l' g', I m' -> fstate l' g' g0 bl1 [] d1 -> g' = g1 -> fails \/ (forall b, 0 <= b < sb_size sb -> used sb g1 b = true) ->
    Φ (tot, off) c (Fsys m' l' sb (with_d it ip d1))).
  { intros m' l' g' Hm' Hst' -> Hwhy; replace (tot, off) with (tot + 0, off + 0) by (f_equal; lia); eapply (HΦ m' _ g1 bl1 d1); auto; [lia| |lia].
    split; [by apply grows_fstep, Hmp| |lia]; intros o Hoo; rewrite decide_False by lia; by apply Hmp. }
  destruct (Z.eqb_spec r 0) as [->|Hr].
  { wp_step; apply (Hstop m l1 g1); auto; right; by apply (mp_full _ _ _ _ _ _ _ _ _ Hmp). }
  assert (Er : fblock g1 d1 (off / BSIZE) = r) by (rewrite (mp_map _ _ _ _ _ _ _ _ _ Hmp) by done; by rewrite decide_True).
  destruct (fblock_home _ _ _ _ _ _ (off / BSIZE) Hst1 Hin) as [Hh Hlen]; rewrite Er in *; [done|].
  wp_step; eapply wp_geti; [exact Hi|]; cbn [set_d i_dev]; rewrite (proj2 Hi); pose proof (weight_len bl1); wp_step.
  eapply fs_bread; [apply Hst1|exact Hc|exact Hh|apply not_elem_of_nil|simpl; lia|]; intros i l2 Hs2; cbv zeta.
  set (mm := Z.min (n - tot) (BSIZE - off mod BSIZE)).
  assert (Hmm : 0 < mm <= n - tot /\ off mod BSIZE + mm <= BSIZE) by (unfold mm; lia).
  assert (Htk : length (take (Z.to_nat mm) bs) = Z.to_nat mm) by (rewrite length_take; lia).
  assert (HM : MAXFILE * BSIZE < 2 ^ 32) by done.
  wp_step; apply wp_zoom; eapply wp_mono; [apply (source_start I fails c off src bs m mm Hsrc Hm); lia|].
  intros rr c' m' (-> & Hm' & Hr'); cbn [lset lget fsys_kmem fs_mem fs_log fs_sb fs_itable fst snd].
  wp_step; eapply fs_bmodify; eauto; [by left|by rewrite length_blit|]; intros l3 Hs3; cbn [Z.eqb].
  destruct Hr' as [->|[-> Hfails]]; cbn [fst snd Z.eqb Pos.eqb] in *.
  2:{ wp_step; assert (store l3 g1 g0 bl1 [(i, r)]) as Hs3' by (apply (store_ext _ _ _ _ _ _ Hs3); intros b; unfold fupd; case_decide; by subst).
      eapply fs_brelse; [exact Hs3'|exact Hc|exact Hh| |]; [by apply (store_unlogged l1 g1 g0 bl1 []); [apply Hst1| |apply not_elem_of_nil]|].
      intros l4 Hs4; wp_step; apply (Hstop m' l4 g1); auto; destruct Hst1; by split. }
  wp_step.
  eapply fs_log_write; eauto; [by left|lia|]; intros l4 Hs4; wp_step.
  eapply fs_brelse; eauto; [left; apply elem_of_add_block; by right|]; intros l5 Hs5.
  pose proof (wrote_turn g g1 d d1 off mm (take (Z.to_nat mm) bs) r bl bl1 Er Hr Hmp (fs_file _ _ _ _ _ _ _ Hst1) Hlen Ho
    ltac:(lia) ltac:(lia) ltac:(lia) Htk) as Hturn.
  assert (Hst5 : fstate l5 (fupd r (blit (g1 r) (off mod BSIZE) (take (Z.to_nat mm) bs)) g1) g0 (add_block bl1 r) [] d1).
  { destruct (fupd_own g1 d1 _ (blit (g1 r) (off mod BSIZE) (take (Z.to_nat mm) bs)) (fs_file _ _ _ _ _ _ _ Hst1) Hin) as (_ & Hu & Hf & _);
      rewrite Er in *; [done|]; split; auto; intros b Hb; rewrite Hu; [by apply Hst1|].
    pose proof (datastart_bound sb Hg); lia. }
  assert (Hw5 : (weight (add_block bl1 r) <= weight bl + 2)%nat).
  { eapply weight_step; [apply (store_nodup _ _ _ _ _ Hs4)|]; eapply logs_within_add; [apply Hmp|right; elt]. }
  rewrite u32_small by lia.
  eapply (IH m' l5 _ (add_block bl1 r) d1 (off + mm) (tot + mm) _ (drop (Z.to_nat mm) bs)); [exact Hi|exact Hst5|exact Hc|lia|lia|lia|lia| | | |exact Hm'| |lia].
  - apply next_turn; auto; lia.
  - rewrite length_drop; lia.
  - apply source_add; [lia|done].
  - intros m'' l' g' bl' d' t Hm'' Ht' Hst' Hwr Hw' Hfull; rewrite <- !Z.add_assoc; eapply (HΦ m'' _ g' bl' d'); auto; try lia.
    + eapply wrote_step; eauto; lia.
    + intros Hlt'; apply Hfull; lia.
Qed.
End data.
