(* ===== verification/FsWrite.v ===== *)
(** * What [writei] and [readi] promise

    The theorems about file contents, block allocation and the log space of a
    write, and a file system on which they are evaluated. *)

From S2P Require Import Prelude KMonad Memory Riscv Kalloc Vm Sleeplock Bio Session FsLayout Log LogProofs LogSystem Fs FsTx FsBlocks FsFiles FsData.

(** An inode that is fit to be read and written. *)
Record good_file (sb : superblock) (g : Z -> block) (d : dinode) : Prop := {
  gf_ok : file_ok sb g d;
  gf_size : 0 <= di_size d <= MAXFILE * BSIZE;
  gf_dense : dense g d;
  gf_fields : dinode_ok d
}.

(** The number of blocks a range of a file touches. *)
Definition nblocks (off n : Z) : Z := (off mod BSIZE + n + BSIZE - 1) / BSIZE.

Lemma nblocks_range off n : 0 <= n -> 0 <= nblocks off n <= n / BSIZE + 2 /\ off mod BSIZE + n <= nblocks off n * BSIZE.
Proof.
  intros Hn; unfold nblocks; change BSIZE with 1024; pose proof (Z.mod_pos_bound off 1024 ltac:(lia)).
  pose proof (Z.div_mod (off mod 1024 + n + 1024 - 1) 1024 ltac:(lia)).
  pose proof (Z.mod_pos_bound (off mod 1024 + n + 1024 - 1) 1024 ltac:(lia)).
  pose proof (Z.div_mod n 1024 ltac:(lia)); pose proof (Z.mod_pos_bound n 1024 ltac:(lia)).
  pose proof (Z.div_pos (off mod 1024 + n + 1024 - 1) 1024); lia.
Qed.

Section write.
Context {D pid : Z} {home : Z -> Prop} {TS : TxStore D pid home}.
Context (sb : superblock) (Hg : geometry home sb) (Hone : sb_size sb <= BPB).
Context {L : KernelLayout} (p : uproc).

#[local] Abbreviation is_inode := (is_inode (D := D)).
#[local] Abbreviation fstate := (fstate (D := D) (pid := pid) (home := home) sb).

(** What a write of [t] bytes of [bs] at [off] leaves. *)
Record written (g g' : Z -> block) (d d' : dinode) (inum off t : Z) (bs : list Z) : Prop := {
  wn_good : good_file sb g' d';
  wn_size : di_size d' = Z.max (di_size d) (off + t);
  wn_meta : di_type d' = di_type d /\ di_nlink d' = di_nlink d;
  wn_byte : forall o, 0 <= o < MAXFILE * BSIZE ->
    fbyte g' d' o = if decide (off <= o < off + t) then aget 0 bs (o - off) else fbyte g d o;
  wn_disk : dinode_get (g' (IBLOCK inum sb)) inum = d';
  wn_inodes : forall j, inum_ok sb j -> j <> inum -> dinode_get (g' (IBLOCK j sb)) j = dinode_get (g (IBLOCK j sb)) j;
  wn_frame : forall x, data_block sb x -> used sb g x = true -> x <> ind d -> (forall bn, in_file bn -> fblock g d bn <> x) ->
    g' x = g x /\ used sb g' x = true
}.

Lemma set_size_same g d n o : fblock g (set_size n d) o = fblock g d o /\ fbyte g (set_size n d) o = fbyte g d o.
Proof. done. Qed.

Lemma file_ok_size g d n : file_ok sb g d -> file_ok sb g (set_size n d).
Proof. intros [F1 F2 F3 F4]; by split. Qed.

Lemma same_iblock i j : inum_ok sb i -> inum_ok sb j -> IBLOCK i sb = IBLOCK j sb -> i mod IPB = j mod IPB -> i = j.
Proof.
  intros Hi Hj; pose proof (IBLOCK_range sb Hg i Hi) as Ri; pose proof (IBLOCK_range sb Hg j Hj) as Rj.
  destruct Hg as [G1 G2 G3 G4 G5 _]; unfold IBLOCK, inum_ok in *; change IPB with 16 in *; change BPB with 8192 in *.
  pose proof (Z.div_pos i 16); pose proof (Z.div_pos j 16); pose proof (Z.div_pos (sb_size sb) 8192).
  pose proof (Z.div_le_mono i (sb_ninodes sb) 16); pose proof (Z.div_le_mono j (sb_ninodes sb) 16).
  rewrite !u32_small by lia; pose proof (Z.div_mod i 16 ltac:(lia)); pose proof (Z.div_mod j 16 ltac:(lia)); lia.
Qed.

(** The file after the data has been written, the size set and the inode stored. *)
Lemma wrote_written g g1 d d1 inum off t bs :
  good_file sb g d -> inum_ok sb inum -> file_ok sb g1 d1 -> wrote sb g g1 d d1 off t bs ->
  (forall x, home x -> length (g1 x) = 1024%nat) ->
  0 <= off <= di_size d -> 0 <= t -> off + t <= MAXFILE * BSIZE ->
  let d2 := if di_size d1 <? off + t then set_size (off + t) d1 else d1 in
  written g (fupd (IBLOCK inum sb) (dinode_put (g1 (IBLOCK inum sb)) inum d2) g1) d d2 inum off t bs.
Proof.
  intros [F1 F2 F3 F4] Hin Hf1 [W1 W2 W3] Hlen Ho Ht Hmax d2; pose proof (datastart_bound sb Hg).
  destruct (st_meta _ _ _ _ _ W1) as (M1 & M2 & M3 & M4 & M5); pose proof (IBLOCK_range sb Hg inum Hin) as Hib.
  assert (Hsame : forall o, fblock g1 d2 o = fblock g1 d1 o) by (intros o; unfold d2; by destruct (_ <? _)).
  assert (Hbyte : forall o, fbyte g1 d2 o = fbyte g1 d1 o) by (intros o; unfold d2; by destruct (_ <? _)).
  assert (Esz : di_size d2 = Z.max (di_size d) (off + t)).
  { unfold d2; destruct (Z.ltb_spec (di_size d1) (off + t)); cbn [set_size di_size]; lia. }
  assert (Hf2 : file_ok sb g1 d2) by (unfold d2; destruct (_ <? _); [by apply file_ok_size|done]).
  set (g2 := fupd (IBLOCK inum sb) (dinode_put (g1 (IBLOCK inum sb)) inum d2) g1).
  assert (Hg2 : forall x, sb_bmapstart sb <= x -> g2 x = g1 x) by (intros x Hx; apply fupd_ne; lia).
  destruct (file_frame sb Hg g1 g2 d2 Hg2 Hf2) as (K1 & K2 & K3 & K4).
  assert (HM : MAXFILE * BSIZE < 2 ^ 32) by done.
  assert (Hdo : dinode_ok d2).
  { apply (file_dinode_ok sb Hg g1); auto; [..|lia]; destruct F4; unfold d2; destruct (_ <? _); cbn [set_size di_type di_major di_minor di_nlink]; lia. }
  split; auto.
  - split; auto; [lia|]; intros bn Hbn Hsz; rewrite K2, Hsame; destruct (decide (bn * BSIZE < di_size d)).
    + rewrite (fstep_keeps sb _ _ _ _ _ W1); [by apply F3| |by apply F3]; split; [lia|].
      change BSIZE with 1024 in *; change MAXFILE with 268 in *; lia.
    + replace bn with (bn * BSIZE / BSIZE) by (by rewrite Z.div_mul); apply W3; lia.
  - unfold d2; destruct (_ <? _); cbn [set_size di_type di_nlink]; auto.
  - intros o Hoo; rewrite K4, Hbyte by done; by apply W2.
  - unfold g2; rewrite fupd_eq; apply dinode_get_put_eq; [done|]; apply Hlen, (IBLOCK_home sb Hg); done.
  - intros j Hj Hne; unfold g2; pose proof (IBLOCK_range sb Hg j Hj) as Hjb.
    assert (Ej : g1 (IBLOCK j sb) = g (IBLOCK j sb)).
    { apply (st_frame _ _ _ _ _ W1); [lia|unfold data_block; lia| |].
      - destruct (fo_ind _ _ _ F1) as [->|[Hd _]]; [lia|]; unfold data_block in Hd; lia.
      - intros bn Hbn E; destruct (decide (fblock g d bn = 0)); [lia|].
        destruct (fo_data _ _ _ F1 bn Hbn) as (Hd & _); [done|]; unfold data_block in Hd; lia. }
    destruct (decide (IBLOCK j sb = IBLOCK inum sb)) as [E|Hd]; [|by rewrite fupd_ne, Ej].
    rewrite E, fupd_eq, dinode_get_put_ne, <- E, Ej; [done|apply Hf2|].
    intros Em; apply Hne, same_iblock; auto.
  - intros x Hx Hu Hxi Hxb; unfold data_block in Hx; rewrite Hg2, K3 by lia; split.
    + apply (st_frame _ _ _ _ _ W1); auto; lia.
    + apply (st_used _ _ _ _ _ W1); [lia|done].
Qed.

Lemma writei_spec I fails m l it ip g g0 bl d inum off src bs c :
  is_inode it ip -> i_inum (aget inode0 it ip) = inum -> inum_ok sb inum ->
  fstate l g g0 bl [] d -> good_file sb g d -> quiet_ctx pid c -> source p I fails c off src bs -> I m ->
  let n := Z.of_nat (length bs) in
  0 <= off <= di_size d -> off + n <= MAXFILE * BSIZE -> Z.of_nat (weight sb bl) + 2 * nblocks off n < 25 ->
  wp (writei p ip src off n) c (Fsys m l sb (with_d it ip d)) (fun r c' s' =>
    c' = c /\ exists m' l' g' bl' d', s' = Fsys m' l' sb (with_d it ip d') /\ I m' /\ fstate l' g' g0 bl' [] d' /\
    0 <= r <= n /\ written g g' d d' inum off r bs /\
    (r < n -> fails \/ forall b, 0 <= b < sb_size sb -> used sb g' b = true) /\
    Z.of_nat (weight sb bl') <= Z.of_nat (weight sb bl) + 2 * nblocks off n + 1).
Proof.
  intros Hi En Hin Hst Hgf Hc Hsrc Hm n Ho Hmax Hw; assert (HM : MAXFILE * BSIZE < 2 ^ 31) by done.
  pose proof (nblocks_range off n ltac:(lia)) as [Hnb Hnb2]; unfold writei; wp_step; eapply wp_geti; [exact Hi|].
  cbn [set_d i_d]; rewrite u32_small by lia; destruct (Z.ltb_spec (di_size d) off); [lia|].
  destruct (Z.ltb_spec (off + n) off); [lia|]; cbn [orb]; destruct (Z.ltb_spec (MAXFILE * BSIZE) (off + n)); [lia|].
  wp_step; eapply (writei_loop_spec sb Hg p Hone I fails (Z.to_nat (nblocks off n)) m l it ip g g0 bl d off n 0 src bs c);
    [exact Hi|exact Hst|exact Hc|lia|lia|lia|lia|right; rewrite Z2Nat.id by lia; lia|lia|exact Hsrc|exact Hm| |lia].
  rewrite Z.sub_0_r; intros m1 l1 g1 bl1 d1 t Hm1 Ht Hst1 Hwr Hw1 Hfull; wp_step; eapply wp_geti; [exact Hi|]; cbn [set_d i_d fst snd].
  pose proof (weight_len sb bl1); set (d2 := if di_size d1 <? off + t then set_size (off + t) d1 else d1).
  assert (Hst2 : fstate l1 g1 g0 bl1 [] d2).
  { destruct Hst1 as [S1 S2 S3]; split; auto; unfold d2; destruct (_ <? _); [by apply file_ok_size|done]. }
  wp_step; apply (wp_mono _ _ _ (fun _ c' s' => c' = c /\ s' = Fsys m1 l1 sb (with_d it ip d2))).
  { unfold d2; destruct (_ <? _); [eapply wp_mod_d; [exact Hi|]; done|by wp_step]. }
  intros _ c' s' [-> ->]; wp_step; eapply (iupdate_spec sb Hg); [exact Hi|exact En|exact Hin|exact Hst2|exact Hc|lia|].
  intros l2 g2 -> Hst3; wp_step; split; [done|]; exists m1, l2, (fupd (IBLOCK inum sb) (dinode_put (g1 (IBLOCK inum sb)) inum d2) g1),
    (add_block bl1 (IBLOCK inum sb)), d2; rewrite Z.add_0_l, s32_small by lia; split_and!; auto; try lia.
  - apply wrote_written; auto; try lia; [apply Hst1|]; intros x Hx; eapply store_len; [apply Hst1|done].
  - intros Hr; destruct Hfull as [|Hfull]; [lia|by left|right]; intros b Hb.
    destruct (file_frame sb Hg g1 (fupd (IBLOCK inum sb) (dinode_put (g1 (IBLOCK inum sb)) inum d2) g1) d2) as (_ & _ & K3 & _).
    + pose proof (IBLOCK_range sb Hg inum Hin); intros x Hx; apply fupd_ne; lia.
    + apply Hst2.
    + rewrite K3 by done; by apply Hfull.
  - unfold weight at 1; pose proof (add_block_len (add_block bl1 (sb_bmapstart sb)) (IBLOCK inum sb)).
    assert (Hle : (length (add_block (add_block bl1 (IBLOCK inum sb)) (sb_bmapstart sb)) <=
                   length (add_block (add_block bl1 (sb_bmapstart sb)) (IBLOCK inum sb)))%nat); [|unfold weight in *; lia].
    apply submseteq_length, NoDup_submseteq; [apply NoDup_add_block, (store_nodup _ _ _ _ _ (fs_store _ _ _ _ _ _ _ Hst3))|].
    intros x; rewrite !elem_of_add_block; tauto.
Qed.

(** The blocks of a file, and a file whose blocks are all kept. *)
Definition owns (g : Z -> block) (d : dinode) (x : Z) : Prop := x = ind d \/ exists bn, in_file bn /\ fblock g d bn = x.

Lemma blocks_data g d x : file_ok sb g d -> owns g d x -> x <> 0 -> data_block sb x /\ used sb g x = true.
Proof.
  intros Hf [->|(bn & Hb & <-)] H0.
  - by destruct (fo_ind _ _ _ Hf).
  - by destruct (fo_data _ _ _ Hf bn Hb H0) as (? & ? & _).
Qed.

Lemma file_kept g g' d :
  file_ok sb g d -> (forall x, owns g d x -> x <> 0 -> g' x = g x /\ used sb g' x = true) ->
  file_ok sb g' d /\ (forall k, fblock g' d k = fblock g d k) /\ (forall o, 0 <= o < MAXFILE * BSIZE -> fbyte g' d o = fbyte g d o).
Proof.
  intros Hf Hk; assert (Hfb : forall k, fblock g' d k = fblock g d k).
  { intros k; unfold fblock; destruct (k <? NDIRECT); [done|]; destruct (Z.eqb_spec (ind d) 0); [done|].
    destruct (Hk (ind d)) as [-> _]; [by left|done|done]. }
  split_and!; auto.
  - destruct Hf as [F1 F2 F3 F4]; split; auto.
    + destruct F2 as [|[H1 _]]; [by left|]; destruct (decide (ind d = 0)); [by left|right; split; [done|]].
      apply Hk; [by left|done].
    + intros k Hb; rewrite Hfb; intros H0; destruct (F3 k Hb H0) as (? & _ & ?); split_and!; auto; apply Hk; [right; eauto|done].
    + intros k k' Hb Hb'; rewrite !Hfb; auto.
  - intros o Ho; unfold fbyte; rewrite Hfb; cbv zeta; destruct (Z.eqb_spec (fblock g d (o / BSIZE)) 0); [done|].
    destruct (Hk (fblock g d (o / BSIZE))) as [-> _]; auto; right; exists (o / BSIZE); split; [|done].
    change BSIZE with 1024 in *; split; [apply Z.div_pos|apply Z.div_lt_upper_bound]; lia.
Qed.

(** C19. What is written can be read back.  Inside a transaction, [writei] of [bs]
    at an offset within the file followed by [readi] of the same range returns
    [bs] and both report its length, unless the disk is full; in that case
    [writei] reports the smaller number of bytes it has written and these are
    read back. *)
Theorem write_then_read m l it ip g g0 bl d inum off bs c :
  is_inode it ip -> i_inum (aget inode0 it ip) = inum -> inum_ok sb inum ->
  fstate l g g0 bl [] d -> good_file sb g d -> quiet_ctx pid c ->
  let n := Z.of_nat (length bs) in
  0 <= off <= di_size d -> off + n <= MAXFILE * BSIZE -> Z.of_nat (weight sb bl) + 2 * nblocks off n < 25 ->
  wp (let! r := writei p ip (KernSrc bs) off n in
      let! x := readi p ip KernDst off r in
      ret (r, x)) c (Fsys m l sb (with_d it ip d)) (fun rx c' s' =>
    c' = c /\ exists l' g' bl' d', s' = Fsys m l' sb (with_d it ip d') /\ fstate l' g' g0 bl' [] d' /\ good_file sb g' d' /\
    rx.2 = (rx.1, take (Z.to_nat rx.1) bs) /\
    (rx.1 = n \/ (0 <= rx.1 < n /\ forall b, 0 <= b < sb_size sb -> used sb g' b = true))).
Proof.
  intros Hi En Hin Hst Hgf Hc n Ho Hmax Hw; assert (HM : MAXFILE * BSIZE < 2 ^ 31) by done.
  wp_step; eapply wp_mono; [eapply (writei_spec (eq m) False m l it ip g g0 bl d inum off (KernSrc bs) bs c); eauto using kern_source|].
  intros r c' s' (-> & m1 & l1 & g1 & bl1 & d1 & -> & <- & Hst1 & Hr & [W1 W2 W3 W4 _ _ _] & Hfull & Hw1).
  fold n in Hr, Hfull, Hw1; pose proof (weight_len sb bl1); pose proof (nblocks_range off n ltac:(lia)); wp_step.
  eapply (readi_spec sb Hg); [exact Hi|exact Hst1|exact Hc|lia|apply W1|apply W1|lia|lia|lia|].
  intros l2 k Ek Hst2; assert (k = r) as -> by lia; wp_step; split; [done|]; exists l2, g1, bl1, d1.
  cbn [fst snd]; split_and!; auto; [|destruct (decide (r = n)); [by left|right; split; [lia|by destruct Hfull as [|Hfull]; [lia|done|]]]].
  f_equal; apply list_eq; intros j; rewrite list_lookup_fmap; destruct (decide (j < Z.to_nat r)%nat) as [Hj|Hj].
  - rewrite lookup_zrange by done; cbn [fmap option_fmap option_map]; rewrite W4 by lia; rewrite decide_True by lia.
    rewrite lookup_take_lt by done; symmetry; replace j with (Z.to_nat (off + Z.of_nat j - off)) at 1 by lia.
    apply lookup_aget; lia.
  - rewrite !lookup_ge_None_2; [done|rewrite length_take; lia|rewrite length_zrange; lia].
Qed.

(** C20. Writing one file does not disturb another.  A second file whose blocks
    are not blocks of the first keeps its content, its blocks and its place on
    the disk when [writei] writes the first, whatever is allocated. *)
Theorem write_isolates m l it ip g g0 bl d inum off bs c d2 inum2 :
  is_inode it ip -> i_inum (aget inode0 it ip) = inum -> inum_ok sb inum ->
  fstate l g g0 bl [] d -> good_file sb g d -> quiet_ctx pid c ->
  let n := Z.of_nat (length bs) in
  0 <= off <= di_size d -> off + n <= MAXFILE * BSIZE -> Z.of_nat (weight sb bl) + 2 * nblocks off n < 25 ->
  good_file sb g d2 -> inum_ok sb inum2 -> inum2 <> inum -> dinode_get (g (IBLOCK inum2 sb)) inum2 = d2 ->
  (forall x, x <> 0 -> owns g d2 x -> x <> ind d /\ forall bn, in_file bn -> fblock g d bn <> x) ->
  wp (writei p ip (KernSrc bs) off n) c (Fsys m l sb (with_d it ip d)) (fun r c' s' =>
    exists l' g' bl' d', s' = Fsys m l' sb (with_d it ip d') /\ fstate l' g' g0 bl' [] d' /\
    good_file sb g' d2 /\ dinode_get (g' (IBLOCK inum2 sb)) inum2 = d2 /\
    forall o, 0 <= o < di_size d2 -> fbyte g' d2 o = fbyte g d2 o).
Proof.
  intros Hi En Hin Hst Hgf Hc n Ho Hmax Hw [F1 F2 F3 F4] Hin2 Hne Hd2 Hdis.
  eapply wp_mono; [eapply (writei_spec (eq m) False m l it ip g g0 bl d inum off (KernSrc bs) bs c); eauto using kern_source|].
  intros r c' s' (-> & m1 & l1 & g1 & bl1 & d1 & -> & <- & Hst1 & Hr & W & _ & _); exists l1, g1, bl1, d1.
  destruct (file_kept g g1 d2 F1) as (Hf2 & Hfb & Hby).
  { intros x Hx Hx0; destruct (Hdis x Hx0 Hx) as [Hxi Hxb]; destruct (blocks_data g d2 x F1 Hx Hx0).
    by apply (wn_frame _ _ _ _ _ _ _ _ W). }
  assert (Hds : dense g1 d2) by (intros bn Hbn Hsz; rewrite Hfb; by apply F3); split_and!; auto.
  2:{ by rewrite (wn_inodes _ _ _ _ _ _ _ _ W). }
  - by split.
  - intros o Hoo; apply Hby; lia.
Qed.

(** A write of up to three blocks' worth of data in a transaction of its own logs no
    more blocks than [begin_op] has reserved for it; one that the file cannot take
    logs none. *)
Lemma writei_fits I fails m l it ip g g0 d inum off src bs c :
  is_inode it ip -> i_inum (aget inode0 it ip) = inum -> inum_ok sb inum ->
  fstate l g g0 [] [] d -> good_file sb g d -> quiet_ctx pid c -> source p I fails c off src bs -> I m ->
  let n := Z.of_nat (length bs) in
  0 <= off < 2 ^ 32 -> n <= 3 * BSIZE ->
  wp (writei p ip src off n) c (Fsys m l sb (with_d it ip d)) (fun r c' s' =>
    c' = c /\ exists m' l' g' bl' d', s' = Fsys m' l' sb (with_d it ip d') /\ I m' /\ fstate l' g' g0 bl' [] d' /\
    Z.of_nat (length bl') <= MAXOPBLOCKS).
Proof.
  intros Hi En Hin Hst Hgf Hc Hsrc Hm n Ho Hn; assert (HM : MAXFILE * BSIZE < 2 ^ 31) by done; change BSIZE with 1024 in Hn.
  assert (Hstay : c = c /\ exists m' l' g' bl' d', Fsys m l sb (with_d it ip d) = Fsys m' l' sb (with_d it ip d') /\ I m' /\
            fstate l' g' g0 bl' [] d' /\ Z.of_nat (length bl') <= MAXOPBLOCKS) by (split; [done|]; by exists m, l, g, [], d).
  destruct (decide (off <= di_size d /\ off + n <= MAXFILE * BSIZE)) as [[Hle Hmax]|Hbad].
  - assert (Hw0 : weight sb [] = 1%nat) by done; assert (Hnb : nblocks off n <= 4).
    { unfold nblocks; change BSIZE with 1024 in *; pose proof (Z.mod_pos_bound off 1024 ltac:(lia)).
      apply Z.lt_succ_r, Z.div_lt_upper_bound; lia. }
    eapply wp_mono; [eapply (writei_spec I fails m l it ip g g0 [] d inum off src bs c); eauto; [lia|rewrite Hw0; fold n; lia]|].
    intros r c' s' (-> & m1 & l1 & g1 & bl1 & d1 & -> & Hm1 & Hst1 & _ & _ & _ & Hw); rewrite Hw0 in Hw; fold n in Hw; split; [done|].
    exists m1, l1, g1, bl1, d1; split_and!; auto; pose proof (weight_len sb bl1); change MAXOPBLOCKS with 10; lia.
  - unfold writei; wp_step; eapply wp_geti; [exact Hi|]; cbn [set_d i_d].
    destruct (Z.ltb_spec (di_size d) off) as [|Hle]; cbn [orb]; [by wp_step|]; destruct (Z.ltb_spec (u32 (off + n)) off) as [|Hnw]; [by wp_step|].
    assert (u32 (off + n) = off + n) as ->.
    { unfold u32 in *; destruct (decide (off + n < 2 ^ 32)); [by apply Z.mod_small; lia|].
      assert ((off + n) mod 2 ^ 32 = off + n - 2 ^ 32) as E by (symmetry; apply Z.mod_unique with 1; lia); lia. }
    destruct (Z.ltb_spec (MAXFILE * BSIZE) (off + n)); [by wp_step|]; lia.
Qed.
End write.
