(* ===== verification/FsExample.v ===== *)
(** * A small file system

    A disk with an empty file and a second file of one block, on which the
    theorems about the file system are evaluated. *)

From S2P Require Import Prelude KMonad Memory Riscv Kalloc Vm Sleeplock Bio Session FsLayout Log LogProofs LogSystem Fs FsTx FsBlocks FsFiles FsData FsWrite.

(** Blocks 0 to 47 are in use: the metadata and the block of the second file. *)
Definition bitmap0 : block := replicate 6 255 ++ replicate 1018 0.
Definition second_file : dinode := Dinode T_FILE 0 0 1 3 (47 :: replicate 12 0).
Definition img0 : image := {[46 := bitmap0; 33 := dinode_put (replicate 1024 0) 7 second_file]}.
Definition disk_view : Z -> block := img_read img0.
Definition empty_file : dinode := Dinode T_FILE 0 0 1 0 (replicate 13 0).
Definition machine0 : kmem := Kmem ∅ 0.
Definition proc0 : uproc := UProc 0 0.
Definition itable0 : list inode := aset (replicate 50 inode0) 0 (Inode 1 5 1 sl_init true empty_file).

Lemma geometry0 : geometry (home 2) sb_example.
Proof.
  split; cbn; try lia; try done; [by vm_compute..|].
  intros b Hb; unfold home, in_log; lia.
Qed.

Lemma one_bitmap0 : sb_size sb_example <= BPB.
Proof. by vm_compute. Qed.

Lemma recoverable0 : recoverable 2 (img_read img0) disk_view.
Proof.
  apply recoverable_empty; [by vm_compute| |done].
  intros b; unfold img_read, img0; destruct (decide (b = 46)) as [->|]; [by vm_compute|].
  destruct (decide (b = 33)) as [->|]; [by vm_compute|].
  rewrite lookup_insert_ne, lookup_singleton_ne by done; by vm_compute.
Qed.

Lemma meta0 : meta_used sb_example disk_view.
Proof.
  intros b Hb; assert (H : forallb (fun b => used sb_example disk_view b) (zrange 0 (Z.to_nat (datastart sb_example))) = true) by (by vm_compute).
  rewrite forallb_forall in H; apply H, list_elem_of_In, elem_of_zrange; lia.
Qed.

Lemma fblock_empty g bn : 0 <= bn -> fblock g empty_file bn = 0.
Proof.
  intros Hb; unfold fblock, ind, aget, empty_file; cbn [di_addrs]; change NDIRECT with 12.
  destruct (Z.ltb_spec bn 12); [|done]; rewrite nth_lookup; destruct (_ !! _) eqn:E; [|done].
  by apply lookup_replicate in E as [-> _].
Qed.

Lemma empty_file_ok sb g : good_file sb g empty_file.
Proof.
  split.
  - split; [done|by left| |]; intros bn; [|intros bn'; intros]; intros; exfalso; rewrite fblock_empty in *; unfold in_file in *; lia || done.
  - by vm_compute.
  - intros bn Hbn Hs; cbn in Hs; change BSIZE with 1024 in Hs; lia.
  - split; cbn; try lia; [done|]; repeat constructor; lia.
Qed.

Lemma fblock_second g bn : 0 <= bn -> fblock g second_file bn = if decide (bn = 0) then 47 else 0.
Proof.
  intros Hb; unfold fblock, ind, aget, second_file; cbn [di_addrs]; change NDIRECT with 12.
  destruct (Z.ltb_spec bn 12); [|rewrite decide_False by lia; done]; rewrite nth_lookup.
  case_decide; [by subst|]; destruct (Z.to_nat bn) as [|k] eqn:E; [lia|]; cbn [lookup list_lookup].
  destruct (replicate 12 0 !! k) eqn:E2; [|done]; by apply lookup_replicate in E2 as [-> _].
Qed.

Lemma second_file_ok : good_file sb_example disk_view second_file.
Proof.
  split.
  - split; [done|by left| |].
    + intros bn [Hb _]; rewrite fblock_second by done; case_decide; [|done]; intros _; by vm_compute.
    + intros bn bn' [Hb _] [Hb' _]; rewrite !fblock_second by done; repeat case_decide; by subst.
  - by vm_compute.
  - intros bn Hbn Hs; cbn in Hs; change BSIZE with 1024 in Hs; rewrite fblock_second by done.
    rewrite decide_True by lia; done.
  - split; cbn; try lia; [done|]; repeat constructor; lia.
Qed.

Definition store0 : TxStore 1 1 (home 2).
Proof. apply (log_store 1 2 1); lia. Defined.

Lemma begun0 : exists l, store (TxStore := store0) l disk_view disk_view [] [].
Proof.
  destruct (begun_store 1 2 1 ltac:(lia) ltac:(lia) sb_example img0 disk_view) as (l & _ & Hl); [done|apply recoverable0|].
  by exists l.
Qed.

Lemma quiet0 : quiet_ctx 1 (Ctx 1 []).
Proof. split; [done|split; [apply no_locks|apply not_elem_of_nil]]. Qed.

Lemma file0 l : store (TxStore := store0) l disk_view disk_view [] [] ->
  fstate (TS := store0) sb_example l disk_view disk_view [] [] empty_file.
Proof. intros Hl; split; [done|apply meta0|apply empty_file_ok]. Qed.

Lemma inode0_ok : is_inode (D := 1) itable0 0 /\ i_inum (aget inode0 itable0 0) = 5 /\ inum_ok sb_example 5.
Proof. by vm_compute. Qed.

Definition fs0 (l : lstate) : fsys := Fsys machine0 l sb_example (with_d itable0 0 empty_file).

Lemma balloc_allocates_witness :
  exists l, wp (balloc 1) (Ctx 1 []) (fs0 l) (fun r c' s' => r = 0 \/ (data_block sb_example r /\ used sb_example disk_view r = false)).
Proof.
  destruct begun0 as [l Hl]; exists l; eapply wp_mono.
  - apply (balloc_allocates (TS := store0) sb_example geometry0 machine0 l (with_d itable0 0 empty_file) disk_view disk_view []).
    + exact Hl.
    + apply quiet0.
    + apply meta0.
    + simpl; lia.
  - intros r c' s' (_ & _ & _ & _ & _ & _ & _ & [[-> _]|(H1 & H2 & _)]); auto.
Defined.

Lemma bfree_frees_witness :
  exists l, if used sb_example disk_view 47 then wp (bfree 1 47) (Ctx 1 []) (fs0 l) (fun _ c' _ => c' = Ctx 1 [])
            else panics (bfree 1 47) (Ctx 1 []) (fs0 l) "freeing free block".
Proof.
  destruct begun0 as [l Hl]; exists l.
  pose proof (bfree_frees (TS := store0) sb_example geometry0 machine0 l (with_d itable0 0 empty_file) disk_view disk_view [] 47
    (Ctx 1 []) Hl quiet0 ltac:(simpl; lia) ltac:(cbn; lia)) as H.
  destruct (used sb_example disk_view 47); [|exact H]; eapply wp_mono; [exact H|]; by intros _ c' s' [-> _].
Defined.

Lemma write_then_read_witness :
  exists l, wp (let! r := writei proc0 0 (KernSrc [104; 105]) 0 2 in
                let! x := readi proc0 0 KernDst 0 r in
                ret (r, x)) (Ctx 1 []) (fs0 l) (fun rx c' s' => rx.2 = (rx.1, take (Z.to_nat rx.1) [104; 105])).
Proof.
  destruct begun0 as [l Hl]; exists l; destruct inode0_ok as (I1 & I2 & I3); eapply wp_mono.
  - apply (write_then_read (TS := store0) sb_example geometry0 one_bitmap0 proc0 machine0 l itable0 0 disk_view disk_view []
             empty_file 5 0 [104; 105]); auto.
    + by apply file0.
    + apply empty_file_ok.
    + apply quiet0.
    + cbn; lia.
    + by vm_compute.
    + by vm_compute.
  - by intros rx c' s' (_ & _ & _ & _ & _ & _ & _ & _ & H & _).
Defined.

Lemma write_isolates_witness :
  exists l, wp (writei proc0 0 (KernSrc [104; 105]) 0 2) (Ctx 1 []) (fs0 l) (fun r c' s' =>
    exists g', good_file sb_example g' second_file).
Proof.
  destruct begun0 as [l Hl]; exists l; destruct inode0_ok as (I1 & I2 & I3); eapply wp_mono.
  - apply (write_isolates (TS := store0) sb_example geometry0 one_bitmap0 proc0 machine0 l itable0 0 disk_view disk_view []
             empty_file 5 0 [104; 105] (Ctx 1 []) second_file 7); auto.
    + by apply file0.
    + apply empty_file_ok.
    + apply quiet0.
    + cbn; lia.
    + by vm_compute.
    + by vm_compute.
    + apply second_file_ok.
    + intros x Hx _; split; [done|]; intros bn [Hbn _]; rewrite fblock_empty by done; auto.
  - intros r c' s' (l' & g' & bl' & d' & _ & _ & H & _ & _); exists g'; exact H.
Defined.
