(* ===== verification/FsNames.v ===== *)
(** * Path names and directory entries

    [skipelem] against a plain splitting of the path at its slashes, the names of
    directory entries, and the layout of inodes and entries on the disk. *)

From S2P Require Import Prelude KMonad CString Bio FsLayout Fs.

(** ** Splitting a path *)

(** The maximal runs of characters other than the slash; [cur] is the run that
    ends here. *)
Fixpoint split_path (p cur : list Z) : list (list Z) :=
  match p with
  | [] => if decide (cur = []) then [] else [cur]
  | c :: p =>
      if c =? SLASH then if decide (cur = []) then split_path p [] else cur :: split_path p []
      else split_path p (cur ++ [c])
  end.

(** The names that repeated calls of [skipelem] return. *)
Fixpoint path_names (fuel : nat) (path : list Z) : option (list (list Z)) :=
  match skipelem path with
  | None => Some []
  | Some (rest, name) =>
      match fuel with
      | O => None
      | S fuel => cons name <$> path_names fuel rest
      end
  end.

Lemma split_run e p cur : Forall (fun c => c <> SLASH) e -> split_path (e ++ p) cur = split_path p (cur ++ e).
Proof.
  intros He; revert cur; induction He as [|c e Hc _ IH]; intros cur; simpl; [by rewrite app_nil_r|].
  destruct (Z.eqb_spec c SLASH); [done|]; by rewrite IH, <- app_assoc.
Qed.

Lemma split_skip p : split_path (cstr (skip_slashes p)) [] = split_path (cstr p) [].
Proof.
  induction p as [|c p IH]; [done|]; cbn [skip_slashes]; destruct (Z.eqb_spec c SLASH) as [->|]; [|done].
  rewrite IH; cbn [cstr]; destruct (Z.eqb_spec SLASH 0) as [E|_]; [done|]; cbn [split_path]; by rewrite Z.eqb_refl, decide_True.
Qed.

Lemma path_elem_spec p : Forall (fun c => c <> SLASH) (path_elem p).1 /\ cstr p = (path_elem p).1 ++ cstr (path_elem p).2 /\
  (cstr (path_elem p).2 = [] \/ exists r, cstr (path_elem p).2 = SLASH :: r).
Proof.
  induction p as [|c p (IH1 & IH2 & IH3)]; [split_and!; auto|]; cbn [path_elem].
  destruct (Z.eqb_spec c SLASH) as [Es|Hs]; [subst; split_and!; auto; right; by eexists|].
  destruct (Z.eqb_spec c 0) as [E0|H0]; cbn [negb andb fst snd app cstr]; [subst; split_and!; auto|].
  destruct (Z.eqb_spec c 0); [done|]; split_and!; auto; by rewrite IH2 at 1.
Qed.

Lemma skip_le p : (length (skip_slashes p) <= length p)%nat.
Proof. induction p as [|c p IH]; simpl; [lia|]; destruct (c =? SLASH); simpl; lia. Qed.

Lemma path_elem_le p : (length (path_elem p).1 + length (path_elem p).2 = length p)%nat.
Proof. induction p as [|c p IH]; [done|]; simpl; destruct (_ && _); simpl; lia. Qed.

Lemma skip_hd p : hd0 (skip_slashes p) <> SLASH.
Proof. induction p as [|c p IH]; [done|]; simpl; by destruct (Z.eqb_spec c SLASH). Qed.

(** One call: the first element and a path with the others. *)
Lemma skipelem_spec p :
  match skipelem p with
  | None => split_path (cstr p) [] = []
  | Some (rest, name) => exists e, split_path (cstr p) [] = e :: split_path (cstr rest) [] /\
      name = take (Z.to_nat DIRSIZ) e /\ e <> [] /\ (length rest < length p)%nat
  end.
Proof.
  unfold skipelem; cbv zeta; pose proof (split_skip p) as Hs; pose proof (skip_le p) as Hle; pose proof (skip_hd p) as Hh.
  set (q := skip_slashes p) in *; clearbody q; destruct (Z.eqb_spec (hd0 q) 0) as [E|Hne].
  { rewrite <- Hs, cstr_step, E; done. }
  destruct (path_elem_spec q) as (H1 & H2 & H3); pose proof (path_elem_le q); exists (path_elem q).1.
  assert (He : (path_elem q).1 <> []).
  { destruct q as [|c q]; [done|]; cbn [hd0 hd path_elem] in *; unfold hd0 in *; simpl in *.
    destruct (Z.eqb_spec c SLASH); [done|]; by destruct (Z.eqb_spec c 0). }
  split_and!; [|done|done|].
  - rewrite <- Hs, H2, split_run, split_skip by done; cbn [app].
    destruct H3 as [->|(r & ->)]; cbn [split_path]; [by rewrite decide_False|].
    rewrite Z.eqb_refl, decide_False by done; by rewrite decide_True.
  - pose proof (skip_le (path_elem q).2); destruct (path_elem q).1; [done|]; simpl in *; lia.
Qed.

(** Path names.  The names [skipelem] delivers one after the other are the
    elements of the path between its slashes, each cut to [DIRSIZ] characters;
    empty elements are skipped, and the walk ends after at most as many calls as
    the path has characters. *)
Theorem skipelem_splits path : path_names (length path) path = Some (map (take (Z.to_nat DIRSIZ)) (split_path (cstr path) [])).
Proof.
  assert (H : forall n p, (length p <= n)%nat -> path_names n p = Some (map (take (Z.to_nat DIRSIZ)) (split_path (cstr p) []))); [|by apply H].
  induction n as [|n IH]; intros p Hp; cbn [path_names]; pose proof (skipelem_spec p) as Hs;
    destruct (skipelem p) as [[rest name]|]; try (by rewrite Hs);
    destruct Hs as (e & -> & -> & _ & Hlt); [lia|]; rewrite IH by lia; done.
Qed.

(** ** Names of entries *)

Lemma namecmp_zero s t : Forall byte_ok s -> Forall byte_ok t ->
  namecmp s t = 0 <-> take (Z.to_nat DIRSIZ) (cstr s) = take (Z.to_nat DIRSIZ) (cstr t).
Proof. apply strncmp_zero. Qed.

(** The name [dirlink] stores in an entry is found by [dirlookup]: the entry
    survives its encoding, and [namecmp] takes its name for equal to another
    exactly when both agree on their first [DIRSIZ] characters. *)
Theorem dirent_name_match name other inum :
  Forall byte_ok name -> Forall byte_ok other -> 0 <= inum < 2 ^ 16 ->
  let de := dirent_decode (dirent_encode (Dirent inum (strncpy name (Z.to_nat DIRSIZ)))) in
  de_inum de = inum /\ length (dirent_encode de) = Z.to_nat sizeof_dirent /\
  (namecmp other (de_name de) = 0 <-> take (Z.to_nat DIRSIZ) (cstr other) = take (Z.to_nat DIRSIZ) (cstr name)).
Proof.
  intros Hn Ho Hi de; assert (E : de = Dirent inum (strncpy name (Z.to_nat DIRSIZ))).
  { apply dirent_roundtrip; cbn [de_inum de_name]; [done|apply length_strncpy]. }
  rewrite E; cbn [de_inum de_name]; split_and!; [done| |].
  - apply length_dirent_encode, length_strncpy.
  - rewrite namecmp_zero by (auto using strncpy_ok); rewrite cstr_strncpy, take_take; by rewrite Nat.min_id.
Qed.

Lemma dirent_name_match_witness :
  let de := dirent_decode (dirent_encode (Dirent 7 (strncpy [97; 98] (Z.to_nat DIRSIZ)))) in
  de_inum de = 7 /\ length (dirent_encode de) = Z.to_nat sizeof_dirent /\
  (namecmp [97; 98; 0; 1] (de_name de) = 0 <-> take (Z.to_nat DIRSIZ) (cstr [97; 98; 0; 1]) = take (Z.to_nat DIRSIZ) (cstr [97; 98])).
Proof. apply (dirent_name_match [97; 98] [97; 98; 0; 1] 7); [repeat constructor; lia..|lia]. Defined.

(** Inodes on the disk.  [iupdate]'s encoding of an inode is read back by
    [ilock]'s decoding, and the other inodes of the block are not touched. *)
Theorem dinode_layout b inum d :
  dinode_ok d -> length b = Z.to_nat BSIZE ->
  dinode_get (dinode_put b inum d) inum = d /\ length (dinode_put b inum d) = Z.to_nat BSIZE /\
  forall j, j mod IPB <> inum mod IPB -> dinode_get (dinode_put b inum d) j = dinode_get b j.
Proof.
  intros Hd Hb; split_and!; [by apply dinode_get_put_eq|by rewrite length_dinode_put|].
  intros j Hj; apply dinode_get_put_ne; [apply Hd|auto].
Qed.

Lemma dinode_layout_witness :
  let d := Dinode T_DIR 0 0 1 48 (500 :: replicate 12 0) in
  dinode_get (dinode_put (replicate 1024 9) 17 d) 17 = d /\ length (dinode_put (replicate 1024 9) 17 d) = Z.to_nat BSIZE /\
  forall j, j mod IPB <> 17 mod IPB -> dinode_get (dinode_put (replicate 1024 9) 17 d) j = dinode_get (replicate 1024 9) j.
Proof. apply (dinode_layout (replicate 1024 9) 17); [|done]; split; cbn; try lia; [done|repeat constructor; lia]. Defined.
