(* ===== verification/FsInodes.v ===== *)
(** * The inode table

    An inode has at most one entry in the table while it is referenced, and the
    reference counts follow [iget], [idup] and [iput]. *)

From S2P Require Import Prelude KMonad Memory Riscv Kalloc Vm Sleeplock Bio Session FsLayout Log Fs.

(** Entry [i] caches inode [inum] of [dev]. *)
Definition caches (i : inode) (dev inum : Z) : Prop := 0 < i_ref i /\ i_dev i = dev /\ i_inum i = inum.

#[global] Instance caches_dec i dev inum : Decision (caches i dev inum).
Proof. unfold caches; apply _. Defined.

Record itable_ok (it : list inode) : Prop := {
  to_ref : forall k i, it !! k = Some i -> 0 <= i_ref i;
  to_uniq : forall k k' i i' dev inum, it !! k = Some i -> it !! k' = Some i' ->
    caches i dev inum -> caches i' dev inum -> k = k'
}.

(** The number of references to inode [inum] of [dev]. *)
Definition irefs (it : list inode) (dev inum : Z) : Z :=
  foldr (fun i n => (if decide (caches i dev inum) then i_ref i else 0) + n) 0 it.

Lemma scan_test i dev inum : (0 <? i_ref i) && (i_dev i =? dev) && (i_inum i =? inum) = bool_decide (caches i dev inum).
Proof.
  unfold caches; destruct (Z.ltb_spec 0 (i_ref i)), (Z.eqb_spec (i_dev i) dev), (Z.eqb_spec (i_inum i) inum); cbn [andb];
    symmetry; try (apply bool_decide_eq_true_2; tauto); apply bool_decide_eq_false_2; try tauto; lia.
Qed.

Lemma iget_scan_spec l n dev inum e : 0 <= n ->
  let r := iget_scan l n dev inum e in
  if r.1 then exists k i, l !! k = Some i /\ r.2 = n + Z.of_nat k /\ caches i dev inum
  else (forall k i, l !! k = Some i -> ~ caches i dev inum) /\
       ((e <> NULLI /\ r.2 = e) \/ (e = NULLI /\ r.2 = NULLI /\ forall k i, l !! k = Some i -> i_ref i <> 0) \/
        (e = NULLI /\ exists k i, l !! k = Some i /\ r.2 = n + Z.of_nat k /\ i_ref i = 0)).
Proof.
  revert n e; induction l as [|i l IH]; intros n e Hn; cbn [iget_scan].
  { cbn; split; [done|]; destruct (decide (e = NULLI)); [right; left; by split_and!|by left]. }
  rewrite scan_test; case_bool_decide as Hc; [by exists 0%nat, i; rewrite Z.add_0_r|].
  specialize (IH (n + 1) (if (e =? NULLI) && (i_ref i =? 0) then n else e) ltac:(lia)); cbv zeta in IH |- *.
  destruct (iget_scan l _ _ _ _) as [[|] x]; cbn [fst snd] in *.
  - destruct IH as (k & j & Hk & -> & Hj); exists (S k), j; split_and!; [done|lia|done].
  - destruct IH as [Hno IH]; split; [intros [|k] j; [by intros [= <-]|apply Hno]|].
    destruct (Z.eqb_spec e NULLI) as [->|He]; cbn [andb] in IH.
    + destruct (Z.eqb_spec (i_ref i) 0) as [E0|H0].
      * destruct IH as [[_ ->]|[(E & _)|(E & _)]]; [|unfold NULLI in E; lia..].
        right; right; split; [done|]; exists 0%nat, i; split_and!; [done|lia|done].
      * destruct IH as [[? _]|[(_ & -> & H)|(_ & k & j & Hk & -> & Hj)]]; [done| |].
        -- right; left; split_and!; auto; intros [|k] j; [by intros [= <-]|apply H].
        -- right; right; split; [done|]; exists (S k), j; split_and!; [done|lia|done].
    + destruct IH as [[_ ->]|[(E & _)|(E & _)]]; [by left|done..].
Qed.

Lemma irefs_cons i it dev inum :
  irefs (i :: it) dev inum = (if decide (caches i dev inum) then i_ref i else 0) + irefs it dev inum.
Proof. done. Qed.

Lemma irefs_insert it k i i' dev inum : it !! k = Some i ->
  irefs (<[k := i']> it) dev inum = irefs it dev inum - (if decide (caches i dev inum) then i_ref i else 0) +
                                    (if decide (caches i' dev inum) then i_ref i' else 0).
Proof.
  revert k; induction it as [|j it IH]; intros [|k] H; try done.
  - injection H as ->; change (<[0%nat := i']> (i :: it)) with (i' :: it); rewrite !irefs_cons; lia.
  - change (<[S k := i']> (j :: it)) with (j :: <[k := i']> it); rewrite !irefs_cons, (IH k H); lia.
Qed.

Lemma irefs_none it dev inum : (forall k i, it !! k = Some i -> ~ caches i dev inum) -> irefs it dev inum = 0.
Proof.
  induction it as [|j it IH]; intros H; [done|]; rewrite irefs_cons, decide_False by (by apply (H 0%nat)).
  rewrite IH; [done|]; intros k; apply (H (S k)).
Qed.

Lemma irefs_one it dev inum k i : itable_ok it -> it !! k = Some i -> caches i dev inum -> irefs it dev inum = i_ref i.
Proof.
  intros [_ Hu]; revert k Hu; induction it as [|j it IH]; intros k Hu Hk Hc; [done|].
  rewrite irefs_cons; destruct k as [|k].
  - injection Hk as ->; rewrite decide_True by done; rewrite irefs_none; [lia|].
    intros k' i' Hk' Hc'; by specialize (Hu 0%nat (S k') i i' dev inum eq_refl Hk' Hc Hc').
  - rewrite decide_False; [rewrite (IH k); [lia| |done|done]|].
    + intros a b x y dv nu Ha Hb Hx Hy; specialize (Hu (S a) (S b) x y dv nu Ha Hb Hx Hy); lia.
    + intros Hj; by specialize (Hu 0%nat (S k) j i dev inum eq_refl Hk Hj Hc).
Qed.

(** Replacing an entry. *)
Lemma itable_ok_insert it k i i' :
  itable_ok it -> it !! k = Some i -> 0 <= i_ref i' ->
  (forall dev inum, caches i' dev inum -> caches i dev inum \/ forall j x, it !! j = Some x -> ~ caches x dev inum) ->
  itable_ok (<[k := i']> it).
Proof.
  intros [H1 H2] Hk Hr Hc; pose proof (lookup_lt_Some _ _ _ Hk); split.
  - intros j x; rewrite list_lookup_insert_Some; intros [(_ & <- & _)|(_ & Hj)]; eauto.
  - intros a b x y dev inum; rewrite !list_lookup_insert_Some; intros [(<- & <- & _)|(Ha & Hax)] [(<- & <- & _)|(Hb & Hby)] Cx Cy; auto.
    + destruct (Hc _ _ Cx) as [Ci|Hn]; [by eapply (H2 k b i y)|by destruct (Hn b y)].
    + destruct (Hc _ _ Cy) as [Ci|Hn]; [by eapply (H2 a k x i)|by destruct (Hn a x)].
    + by eapply H2.
Qed.

Section itable.
Implicit Types (s : fsys) (it : list inode).

Lemma upd_inode_at s k i f : fs_itable s !! k = Some i ->
  upd_inode (Z.of_nat k) f s = Fsys (fs_mem s) (fs_log s) (fs_sb s) (<[k := f i]> (fs_itable s)).
Proof.
  intros H; unfold upd_inode, inode_at, aset; rewrite (aget_lookup inode0 _ _ i), Nat2Z.id; [done|lia|by rewrite Nat2Z.id].
Qed.

(** C35. The inode table.  [iget] returns the entry of the inode if it has one and
    else a free entry set up for it, not yet valid; the number of references to
    that inode grows by one and to no other inode changes, and the table still
    has at most one entry per inode.  It panics exactly when the inode has no
    entry and no entry is free. *)
Theorem iget_references s c dev inum :
  itable_ok (fs_itable s) -> ITABLE ∉ c_held c ->
  if decide (Exists (fun i => caches i dev inum \/ i_ref i = 0) (fs_itable s)) then
    wp (iget dev inum) c s (fun ip c' s' => c' = c /\ exists k i, ip = Z.of_nat k /\
      fs_itable s' !! k = Some i /\ caches i dev inum /\ itable_ok (fs_itable s') /\
      (irefs (fs_itable s) dev inum = 0 -> i_valid i = false) /\
      (forall dev' inum', irefs (fs_itable s') dev' inum' =
         irefs (fs_itable s) dev' inum' + (if decide (dev' = dev /\ inum' = inum) then 1 else 0)) /\
      fs_mem s' = fs_mem s /\ fs_log s' = fs_log s)
  else panics (iget dev inum) c s "iget: no inodes".
Proof.
  intros Hok Hk; pose proof (iget_scan_spec (fs_itable s) 0 dev inum NULLI ltac:(lia)) as Hs; cbv zeta in Hs.
  set (r := iget_scan (fs_itable s) 0 dev inum NULLI) in *; destruct (r.1) eqn:Er.
  - destruct Hs as (k & i & Hki & Er2 & Hc); rewrite decide_True by (apply Exists_exists; exists i; split; [by eapply list_elem_of_lookup_2|by left]).
    unfold iget, modi; wp_steps; fold r; rewrite Er, Er2, Z.add_0_l; wp_steps; split; [by destruct c|].
    rewrite (upd_inode_at s k i) by done; cbn [fs_itable fs_mem fs_log]; destruct Hc as (Hr & <- & <-).
    exists k, (set_ref (i_ref i + 1) i); split_and!; auto.
    + rewrite list_lookup_insert_eq; [done|by eapply lookup_lt_Some].
    + split_and!; cbn; auto; lia.
    + eapply itable_ok_insert; [done|exact Hki|cbn; lia|]; intros dv nu (H1 & H2 & H3); left; split_and!; cbn in *; auto.
    + intros E0; rewrite (irefs_one _ _ _ k i) in E0; [lia|done|done|by split_and!].
    + intros dv nu; rewrite (irefs_insert _ k i) by done; unfold caches; cbn [set_ref i_ref i_dev i_inum].
      repeat case_decide; lia || (exfalso; intuition lia).
  - destruct Hs as [Hno [[? _]|[(_ & E2 & Hno0)|(_ & k & i & Hki & E2 & H0)]]]; [done| |].
    + rewrite decide_False.
      2:{ rewrite Exists_exists; intros (i & Hin & Hi); apply list_elem_of_lookup in Hin as [k Hki].
          destruct Hi as [Hi|Hi]; [by eapply Hno|by eapply Hno0]. }
      unfold iget; apply wp_panics; wp_step; apply wp_panics; wp_step; fold r; rewrite Er, E2; done.
    + rewrite decide_True by (apply Exists_exists; exists i; split; [by eapply list_elem_of_lookup_2|by right]).
      unfold iget, modi; wp_steps; fold r; rewrite Er, E2, Z.add_0_l; destruct (Z.eqb_spec (Z.of_nat k) NULLI) as [E|_]; [unfold NULLI in E; lia|].
      wp_steps; split; [by destruct c|]; rewrite (upd_inode_at s k i) by done; cbn [fs_itable fs_mem fs_log].
      exists k, (Inode dev inum 1 (i_lock i) false (i_d i)); split_and!; auto.
      * rewrite list_lookup_insert_eq; [done|by eapply lookup_lt_Some].
      * done.
      * eapply itable_ok_insert; [done|exact Hki|cbn; lia|]; intros dv nu (_ & <- & <-); right; apply Hno.
      * intros dv nu; rewrite (irefs_insert _ k i) by done; unfold caches; cbn [i_ref i_dev i_inum].
        repeat case_decide; lia || (exfalso; intuition lia).
Qed.

(** [idup] adds one reference to the inode of a referenced entry and changes
    nothing else of the table. *)
Lemma idup_references s c k i :
  itable_ok (fs_itable s) -> ITABLE ∉ c_held c -> fs_itable s !! k = Some i -> 0 < i_ref i ->
  wp (idup (Z.of_nat k)) c s (fun ip c' s' => c' = c /\ ip = Z.of_nat k /\ itable_ok (fs_itable s') /\
    forall dev inum, irefs (fs_itable s') dev inum =
      irefs (fs_itable s) dev inum + (if decide (dev = i_dev i /\ inum = i_inum i) then 1 else 0)).
Proof.
  intros Hok Hk Hki Hr; unfold idup, modi; wp_steps; split_and!; [by destruct c|done|..];
    rewrite (upd_inode_at s k i) by done; cbn [fs_itable].
  - eapply itable_ok_insert; [done|exact Hki|cbn; lia|]; intros dv nu (H1 & H2 & H3); left; split_and!; cbn in *; auto.
  - intros dv nu; rewrite (irefs_insert _ k i) by done; unfold caches; cbn [set_ref i_ref i_dev i_inum].
    repeat case_decide; lia || (exfalso; intuition lia).
Qed.

(** C36. [iput] of an inode that has other references or links only drops one
    reference: the inode table keeps its shape and nothing is written. *)
Theorem iput_drops_reference s c k i :
  itable_ok (fs_itable s) -> ITABLE ∉ c_held c -> fs_itable s !! k = Some i -> 0 < i_ref i ->
  i_ref i <> 1 \/ i_valid i = false \/ di_nlink (i_d i) <> 0 ->
  wp (iput (Z.of_nat k)) c s (fun _ c' s' => c' = c /\ itable_ok (fs_itable s') /\ fs_log s' = fs_log s /\
    forall dev inum, irefs (fs_itable s') dev inum =
      irefs (fs_itable s) dev inum - (if decide (dev = i_dev i /\ inum = i_inum i) then 1 else 0)).
Proof.
  intros Hok Hk Hki Hr Hno; unfold iput, geti, modi; wp_steps.
  assert (Ei : inode_at s (Z.of_nat k) = i) by (apply aget_lookup; [lia|by rewrite Nat2Z.id]).
  replace ((_ =? 1) && _ && _) with false; [|rewrite Ei; symmetry; destruct Hno as [H|[->|H]]].
  - wp_steps; split_and!; [by destruct c|..]; rewrite (upd_inode_at s k i) by done; cbn [fs_itable fs_log]; [|done|].
    + eapply itable_ok_insert; [done|exact Hki|cbn; lia|]; intros dv nu (H1 & H2 & H3); left; split_and!; cbn in *; auto; lia.
    + intros dv nu; rewrite (irefs_insert _ k i) by done; unfold caches; cbn [set_ref i_ref i_dev i_inum].
      repeat case_decide; lia || (exfalso; intuition lia).
  - by destruct (Z.eqb_spec (i_ref i) 1).
  - by rewrite andb_false_r.
  - destruct (Z.eqb_spec (di_nlink (i_d i)) 0); [done|apply andb_false_r].
Qed.

End itable.

Definition table2 : list inode := [Inode 1 1 2 sl_init true dinode0; inode0].
Definition fs2 : fsys := Fsys (Kmem ∅ 0) (LState bss_log (bss_bio (Disk ∅ []))) (Superblock 0 0 0 0 0 0 0 0) table2.

Lemma table2_ok : itable_ok (fs_itable fs2).
Proof.
  split.
  - intros [|[|k]] i H; simpl in H; simplify_eq; cbn; lia.
  - intros [|[|k]] [|[|k']] i i' dev inum H H' (A & _) (B & _); simpl in H, H'; simplify_eq; cbn in *; lia || done.
Qed.

Lemma iget_references_witness :
  if decide (Exists (fun i => caches i 1 5 \/ i_ref i = 0) (fs_itable fs2)) then
    wp (iget 1 5) (Ctx 1 []) fs2 (fun ip c' s' => exists k i, ip = Z.of_nat k /\ fs_itable s' !! k = Some i /\ caches i 1 5)
  else panics (iget 1 5) (Ctx 1 []) fs2 "iget: no inodes".
Proof.
  pose proof (iget_references fs2 (Ctx 1 []) 1 5 table2_ok ltac:(apply not_elem_of_nil)) as H.
  destruct (decide _); [|exact H]; eapply wp_mono; [exact H|].
  intros ip c' s' (_ & k & i & E & Hk & Hc & _); by exists k, i.
Defined.

Lemma iput_drops_reference_witness : wp (iput 0) (Ctx 1 []) fs2 (fun _ _ s' => itable_ok (fs_itable s')).
Proof.
  eapply wp_mono; [apply (iput_drops_reference fs2 (Ctx 1 []) 0 (Inode 1 1 2 sl_init true dinode0))|].
  - apply table2_ok.
  - apply not_elem_of_nil.
  - done.
  - cbn; lia.
  - left; cbn; lia.
  - by intros _ c' s' (_ & H & _).
Defined.
