(* ===== verification/Mkfs.v ===== *)
(** * The image builder, [mkfs/mkfs.c]

    The program that makes the first disk image on the build machine.  Its state is
    the image file (the sectors written so far and their number) and the two
    counters; the super block is a constant.  [die] and a failed [assert] end the
    run like a panic.  The machine is little-endian, and writing to the image file
    succeeds.

    The programs on the command line are pairs of a path and the pieces in which
    [read] delivers the file, or [None] if it cannot be opened. *)

From S2P Require Import Prelude KMonad Riscv CString Bio FsLayout Fs.

Definition NINODES : Z := 200.
Definition nbitmap : Z := FSSIZE / BPB + 1.
Definition ninodeblocks : Z := NINODES / IPB + 1.
Definition nlog : Z := LOGBLOCKS + 1.
Definition nmeta : Z := 2 + nlog + ninodeblocks + nbitmap.
Definition nblocks : Z := FSSIZE - nmeta.

(** The value whose bytes in memory are those of [x] in little-endian order. *)
Definition xshort (x : Z) : Z := le_val [u8 x; u8 (Z.shiftr x 8)].
Definition xint (x : Z) : Z := le_val [u8 x; u8 (Z.shiftr x 8); u8 (Z.shiftr x 16); u8 (Z.shiftr x 24)].

Definition mk_sb : superblock :=
  Superblock FSMAGIC (xint FSSIZE) (xint nblocks) (xint NINODES) (xint nlog) (xint 2) (xint (2 + nlog)) (xint (2 + nlog + ninodeblocks)).

Definition sb_encode (s : superblock) : list Z :=
  [sb_magic s; sb_size s; sb_nblocks s; sb_ninodes s; sb_nlog s; sb_logstart s; sb_inodestart s; sb_bmapstart s] ≫= le_bytes 4.

Record mkst := Mk { k_img : image; k_sects : Z; k_freeinode : Z; k_freeblock : Z }.

Definition die {A} (s : string) : M mkst A := panic s.
Definition assert_ (b : bool) : M mkst unit := if b then ret tt else panic "assert".

(** The sector that [lseek(fsfd, sec * BSIZE, 0)] finds; the product is a [uint]. *)
Definition seek (sec : Z) : Z := u32 (sec * BSIZE) / BSIZE.

Definition wsect (sec : Z) (buf : block) : M mkst unit :=
  modify (fun s => Mk (<[seek sec := buf]> (k_img s)) (Z.max (k_sects s) (seek sec + 1)) (k_freeinode s) (k_freeblock s)).

(** Beyond the end of the file [read] returns nothing. *)
Definition rsect (sec : Z) : M mkst block :=
  let! s := get in
  if seek sec <? k_sects s then ret (img_read (k_img s) (seek sec)) else die "read".

Definition winode (inum : Z) (ip : dinode) : M mkst unit :=
  let bn := IBLOCK inum mk_sb in
  let! buf := rsect bn in
  wsect bn (dinode_put buf inum ip).

Definition rinode (inum : Z) : M mkst dinode :=
  let! buf := rsect (IBLOCK inum mk_sb) in
  ret (dinode_get buf inum).

Definition ialloc (type : Z) : M mkst Z :=
  let! inum := gets k_freeinode in
  do! modify (fun s => Mk (k_img s) (k_sects s) (u32 (k_freeinode s + 1)) (k_freeblock s));
  do! winode inum (Dinode (xshort type) 0 0 (xshort 1) (xint 0) (replicate 13 0));
  ret inum.

Definition balloc (used : Z) : M mkst unit :=
  do! assert_ (used <? BPB);
  wsect (sb_bmapstart mk_sb) (foldl (fun buf i => bit_set i buf) zero_block (zrange 0 (Z.to_nat used))).

(** [freeblock++]. *)
Definition next_block : M mkst Z :=
  let! b := gets k_freeblock in
  do! modify (fun s => Mk (k_img s) (k_sects s) (k_freeinode s) (u32 (k_freeblock s + 1)));
  ret b.

(** The block an entry of the indirect block names, allocated if there is none. *)
Definition indirect_block (din : dinode) (fbn : Z) : M mkst Z :=
  let ia := xint (aget 0 (di_addrs din) NDIRECT) in
  let! indirect := rsect ia in
  let! indirect :=
    if get32 indirect (4 * (fbn - NDIRECT)) =? 0 then
      let! b := next_block in
      let indirect := put32 indirect (4 * (fbn - NDIRECT)) (xint b) in
      do! wsect ia indirect;
      ret indirect
    else ret indirect in
  ret (xint (get32 indirect (4 * (fbn - NDIRECT)))).

(** The first part of the loop body of [iappend]: the block that holds block [fbn] of
    the file, and the inode with it. *)
Definition iappend_block (din : dinode) (fbn : Z) : M mkst (dinode * Z) :=
  if fbn <? NDIRECT then
    let! din :=
      if xint (aget 0 (di_addrs din) fbn) =? 0 then let! b := next_block in ret (set_addr fbn (xint b) din) else ret din in
    ret (din, xint (aget 0 (di_addrs din) fbn))
  else
    let! din :=
      if xint (aget 0 (di_addrs din) NDIRECT) =? 0 then let! b := next_block in ret (set_addr NDIRECT (xint b) din) else ret din in
    let! x := indirect_block din fbn in
    ret (din, x).

(** [p] are the [n] bytes still to be appended. *)
Fixpoint iappend_loop (fuel : nat) (din : dinode) (off : Z) (p : list Z) : M mkst (dinode * Z) :=
  match p with
  | [] => ret (din, off)
  | _ =>
      match fuel with
      | O => diverge
      | S fuel =>
          let fbn := off / BSIZE in
          do! assert_ (fbn <? MAXFILE);
          let! r := iappend_block din fbn in
          let '(din, x) := r in
          let n1 := Z.min (Z.of_nat (length p)) ((fbn + 1) * BSIZE - off) in
          let! buf := rsect x in
          do! wsect x (blit buf (off - fbn * BSIZE) (take (Z.to_nat n1) p));
          iappend_loop fuel din (u32 (off + n1)) (drop (Z.to_nat n1) p)
      end
  end.

Definition iappend (inum : Z) (p : list Z) : M mkst unit :=
  let! din := rinode inum in
  let! r := iappend_loop (length p) din (xint (di_size din)) p in
  let '(din, off) := r in
  winode inum (set_size (xint off) din).

(** A name in a directory entry that was zero before; [strcpy] and [strncpy] store
    the same bytes in it. *)
Definition mk_dirent (inum : Z) (name : list Z) : list Z := dirent_encode (Dirent (xshort inum) (strncpy name (Z.to_nat DIRSIZ))).

Definition USER : list Z := [117; 115; 101; 114; 47].   (* "user/" *)

Definition shortname (path : list Z) : list Z := if strncmp path USER 5 =? 0 then drop 5 path else path.

(** The body of the loop over the programs. *)
Definition add_file (root : Z) (f : list Z * option (list (list Z))) : M mkst unit :=
  let name := shortname f.1 in
  do! assert_ (negb (bool_decide (47 ∈ name)));
  match f.2 with
  | None => die "open"
  | Some pieces =>
      let name := if hd0 name =? 95 then tl name else name in
      do! assert_ (strlen name <=? DIRSIZ);
      let! inum := ialloc T_FILE in
      do! iappend root (mk_dirent inum name);
      for_each pieces (iappend inum)
  end.

Definition mkfs (files : list (list Z * option (list (list Z)))) : M mkst unit :=
  do! assert_ (BSIZE mod sizeof_dinode =? 0);
  do! assert_ (BSIZE mod sizeof_dirent =? 0);
  do! modify (fun s => Mk (k_img s) (k_sects s) (k_freeinode s) nmeta);
  do! for_each (zrange 0 (Z.to_nat FSSIZE)) (fun i => wsect i zero_block);
  do! wsect 1 (blit zero_block 0 (sb_encode mk_sb));
  let! rootino := ialloc T_DIR in
  do! assert_ (rootino =? ROOTINO);
  do! iappend rootino (mk_dirent rootino [46]);
  do! iappend rootino (mk_dirent rootino [46; 46]);
  do! for_each files (add_file rootino);
  let! din := rinode rootino in
  let off := xint (di_size din) in
  let off := u32 ((off / BSIZE + 1) * BSIZE) in
  do! winode rootino (set_size (xint off) din);
  let! used := gets k_freeblock in
  balloc used.

(** The file has just been truncated. *)
Definition mk0 : mkst := Mk ∅ 0 1 0.
