(* ===== verification/MkfsProofs.v ===== *)
(** * The files [mkfs] writes

    [has] describes a file under construction: its blocks, each in one place, and the
    bytes they hold.  [iappend_loop] makes the file longer by the bytes it is given,
    takes exactly the blocks needed, and touches no block of another file. *)

From S2P Require Import Prelude KMonad Riscv CString Sleeplock Bio Session FsLayout Log LogProofs LogSystem Fs FsTx FsBlocks FsFiles FsData FsWrite Mkfs.

Abbreviation view s := (img_read (k_img s)).

(** ** Numbers and sectors *)

Lemma xint_id x : 0 <= x < 2 ^ 32 -> xint x = x.
Proof.
  intros Hx; unfold xint; rewrite !Z.shiftr_div_pow2 by lia.
  replace [u8 x; u8 (x / 2 ^ 8); u8 (x / 2 ^ 16); u8 (x / 2 ^ 24)] with (le_bytes 4 x) by (cbn [le_bytes]; by rewrite !Z.div_div by lia).
  rewrite le_val_le_bytes; by apply Z.mod_small.
Qed.

Lemma xshort_id x : 0 <= x < 2 ^ 16 -> xshort x = x.
Proof.
  intros Hx; unfold xshort; rewrite !Z.shiftr_div_pow2 by lia; change [u8 x; u8 (x / 2 ^ 8)] with (le_bytes 2 x).
  rewrite le_val_le_bytes; by apply Z.mod_small.
Qed.

Lemma seek_id b : 0 <= b < FSSIZE -> seek b = b.
Proof. unfold seek, FSSIZE; change BSIZE with 1024; intros Hb; rewrite u32_small by lia; by rewrite Z.div_mul. Qed.

(** The states of the program after the image has been filled with zeros. *)
Definition mk (img : image) (fi fb : Z) : mkst := Mk img FSSIZE fi fb.

Lemma wp_wsect b v img fi fb c (Q : unit -> ctx -> mkst -> Prop) :
  0 <= b < FSSIZE -> Q tt c (mk (<[b := v]> img) fi fb) -> wp (wsect b v) c (mk img fi fb) Q.
Proof. intros Hb HQ; unfold wsect; wp_step; cbn [k_img k_sects k_freeinode k_freeblock mk]; rewrite seek_id by done; by rewrite Z.max_l by lia. Qed.

Lemma wp_rsect b img fi fb c (Q : block -> ctx -> mkst -> Prop) :
  0 <= b < FSSIZE -> Q (img_read img b) c (mk img fi fb) -> wp (rsect b) c (mk img fi fb) Q.
Proof. intros Hb HQ; unfold rsect; wp_steps; cbn [k_sects mk]; rewrite seek_id by done; rewrite (proj2 (Z.ltb_lt b FSSIZE)) by lia; by wp_step. Qed.

Lemma wp_next_block img fi fb c (Q : Z -> ctx -> mkst -> Prop) :
  0 <= fb < FSSIZE -> Q fb c (mk img fi (fb + 1)) -> wp next_block c (mk img fi fb) Q.
Proof. intros Hb HQ; unfold next_block; wp_steps; cbn [k_freeblock k_img k_sects k_freeinode mk]; rewrite u32_small; [done|]; unfold FSSIZE in Hb; lia. Qed.

(** ** Files under construction *)

(** The number of blocks a file of [m] data blocks takes. *)
Definition cost (m : Z) : Z := if 12 <? m then m + 1 else m.

(** [d] is a file with [m] data blocks below [fb] that holds [bytes] and then zeros. *)
Record has (g : Z -> block) (fb : Z) (d : dinode) (m : Z) (bytes : list Z) : Prop := {
  h_len : length (di_addrs d) = 13%nat;
  h_m : 0 <= m <= MAXFILE;
  h_ind : if 12 <? m then nmeta <= ind d < fb else ind d = 0;
  h_blk : forall bn, in_file bn -> if bn <? m then nmeta <= fblock g d bn < fb /\ fblock g d bn <> ind d else fblock g d bn = 0;
  h_inj : forall bn bn', in_file bn -> in_file bn' -> fblock g d bn <> 0 -> fblock g d bn = fblock g d bn' -> bn = bn';
  h_fit : Z.of_nat (length bytes) <= m * BSIZE;
  h_byte : forall o, 0 <= o < m * BSIZE -> fbyte g d o = aget 0 bytes o
}.

(** The blocks of a file. *)
Definition part (g : Z -> block) (d : dinode) (x : Z) : Prop := x <> 0 /\ owns g d x.

Lemma has_frame g g' fb fb' d m bytes : has g fb d m bytes -> fb <= fb' -> (forall x, part g d x -> g' x = g x) -> has g' fb' d m bytes.
Proof.
  intros [H1 H2 H3 H4 H5 H6 H7] Hfb Hg.
  assert (forall bn, fblock g' d bn = fblock g d bn) as Hf.
  { intros bn; unfold fblock; destruct (bn <? NDIRECT); [done|]; destruct (Z.eqb_spec (ind d) 0); [done|]; rewrite Hg; [done|]; split; [done|by left]. }
  split; auto.
  - destruct (12 <? m); [lia|done].
  - intros bn Hb; rewrite Hf; specialize (H4 bn Hb); destruct (bn <? m); [|done]; split; [lia|tauto].
  - intros bn bn' Hb Hb'; rewrite !Hf; auto.
  - intros o Ho; rewrite <- (H7 o Ho); unfold fbyte; rewrite Hf; cbv zeta; destruct (Z.eqb_spec (fblock g d (o / BSIZE)) 0); [done|].
    rewrite Hg; [done|]; split; [done|right]; exists (o / BSIZE); split; [|done].
    unfold in_file; change BSIZE with 1024 in *; split; [apply Z.div_pos; lia|apply Z.div_lt_upper_bound; lia].
Qed.

Lemma fblock_ext g g' d : (ind d <> 0 -> g' (ind d) = g (ind d)) -> forall bn, fblock g' d bn = fblock g d bn.
Proof. intros H bn; unfold fblock; destruct (bn <? NDIRECT); [done|]; destruct (Z.eqb_spec (ind d) 0); [done|]; by rewrite H. Qed.

(** The bytes do not change when the blocks that hold them do not and a block of zeros
    is added. *)
Lemma bytes_kept g g' d d' m bytes : 0 <= m -> Z.of_nat (length bytes) <= m * BSIZE ->
  (forall bn, 0 <= bn < m -> fblock g' d' bn = fblock g d bn /\ fblock g d bn <> 0 /\ g' (fblock g d bn) = g (fblock g d bn)) ->
  g' (fblock g' d' m) = zero_block ->
  (forall o, 0 <= o < m * BSIZE -> fbyte g d o = aget 0 bytes o) -> forall o, 0 <= o < (m + 1) * BSIZE -> fbyte g' d' o = aget 0 bytes o.
Proof.
  intros Hm Hl Hb Hz H o Ho; destruct (Z.lt_ge_cases o (m * BSIZE)) as [Hlt|Hge].
  - rewrite <- (H o) by lia; destruct (Hb (o / BSIZE)) as (E1 & E2 & E3); [change BSIZE with 1024 in *; split; [apply Z.div_pos; lia|apply Z.div_lt_upper_bound; lia]|].
    unfold fbyte; by rewrite E1; cbv zeta; rewrite E3.
  - assert (o / BSIZE = m) as E by (change BSIZE with 1024 in *; symmetry; apply (Z.div_unique_pos o 1024 m (o - m * 1024)); lia).
    rewrite aget_ge by lia; unfold fbyte; rewrite E; cbv zeta; case_match; [done|rewrite Hz; apply aget_zeros].
Qed.

Lemma fblock_set_direct g d k a bn : length (di_addrs d) = 13%nat -> 0 <= k < 12 -> 0 <= bn ->
  fblock g (set_addr k a d) bn = if decide (bn = k) then a else fblock g d bn.
Proof.
  intros Hl Hk Hb; unfold fblock; rewrite ind_set_addr, decide_False by lia; unfold set_addr; cbn [di_addrs]; change NDIRECT with 12.
  destruct (Z.ltb_spec bn 12); [by rewrite aget_aset by lia|by rewrite decide_False by lia].
Qed.

Lemma has_direct g fb d m bytes : has g fb d m bytes -> nmeta <= fb -> m < 12 -> g fb = zero_block -> has g (fb + 1) (set_addr m fb d) (m + 1) bytes.
Proof.
  intros [H1 H2 H3 H4 H5 H6 H7] Hfb Hm Hz; rewrite (proj2 (Z.ltb_ge 12 m)) in H3 by lia; change nmeta with 47 in *; change BSIZE with 1024 in *.
  assert (forall bn, 0 <= bn -> fblock g (set_addr m fb d) bn = if decide (bn = m) then fb else fblock g d bn) as Hf by (intros; apply fblock_set_direct; auto; lia).
  assert (ind (set_addr m fb d) = 0) as Hi by (rewrite ind_set_addr, decide_False by lia; done).
  assert (forall bn, in_file bn -> fblock g d bn < fb /\ (fblock g d bn <> 0 <-> bn < m)) as Hlt.
  { intros bn Hb; specialize (H4 bn Hb); destruct (Z.ltb_spec bn m); lia. }
  split; rewrite ?Hi; change nmeta with 47; change BSIZE with 1024.
  - cbn; by rewrite length_aset.
  - change MAXFILE with 268 in *; lia.
  - by rewrite (proj2 (Z.ltb_ge 12 (m + 1))) by lia.
  - intros bn Hb; pose proof (proj1 Hb); rewrite Hf by lia; specialize (H4 bn Hb); destruct (decide (bn = m)) as [E|E], (Z.ltb_spec bn m), (Z.ltb_spec bn (m + 1)); lia.
  - intros bn bn' Hb Hb'; pose proof (proj1 Hb); pose proof (proj1 Hb'); rewrite !Hf by lia; pose proof (Hlt bn Hb); pose proof (Hlt bn' Hb').
    repeat case_decide; subst; auto; lia.
  - lia.
  - apply (bytes_kept g g d _ m); [lia|done| |by rewrite Hf, decide_True by (done || lia)|done]; intros bn Hb; rewrite Hf, decide_False by lia; split; [done|].
    assert (in_file bn) as Hin by (change MAXFILE with 268 in *; unfold in_file; change MAXFILE with 268; lia); split; [|done]; apply Hlt; [done|lia].
Qed.

Lemma fblock_set_indirect g g' d d' m base new :
  12 <= m < MAXFILE -> (forall bn, 0 <= bn < 12 -> aget 0 (di_addrs d') bn = aget 0 (di_addrs d) bn) ->
  (forall bn, in_file bn -> 12 <= bn -> get32 base (4 * (bn - 12)) = fblock g d bn) -> length base = 1024%nat ->
  ind d' <> 0 -> 0 <= new < 2 ^ 32 -> g' (ind d') = put32 base (4 * (m - 12)) new ->
  forall bn, in_file bn -> fblock g' d' bn = if decide (bn = m) then new else fblock g d bn.
Proof.
  intros Hm Hdir Hind Hbl HI Hnew Hgi bn Hb; change MAXFILE with 268 in *; destruct (decide (bn < 12)) as [Hlt|Hge].
  - rewrite !fblock_direct by (change NDIRECT with 12; lia); rewrite decide_False by lia; apply Hdir; destruct Hb; lia.
  - destruct Hb as [Hb0 Hb1]; change MAXFILE with 268 in Hb1; rewrite fblock_indirect by (change NDIRECT with 12; lia); change NDIRECT with 12; rewrite Hgi; case_decide.
    + subst; rewrite get32_put32_eq by lia; apply u32_small; lia.
    + rewrite get32_put32_ne by lia; apply Hind; [split; change MAXFILE with 268; lia|lia].
Qed.

Lemma has_indirect g g' fb fb' d d' m bytes base new :
  has g fb d m bytes -> nmeta <= fb <= fb' -> fb' <= FSSIZE -> 12 <= m < MAXFILE -> length (di_addrs d') = 13%nat ->
  (forall bn, 0 <= bn < 12 -> aget 0 (di_addrs d') bn = aget 0 (di_addrs d) bn) ->
  (forall bn, in_file bn -> 12 <= bn -> get32 base (4 * (bn - 12)) = fblock g d bn) -> length base = 1024%nat ->
  nmeta <= ind d' < fb' -> fb <= new < fb' -> new <> ind d' -> (ind d' = ind d \/ fb <= ind d') -> g new = zero_block ->
  g' (ind d') = put32 base (4 * (m - 12)) new -> (forall x, x <> ind d' -> g' x = g x) ->
  has g' fb' d' (m + 1) bytes.
Proof.
  intros [H1 H2 H3 H4 H5 H6 H7] Hfb Hmax Hm Hl Hdir Hind Hbl HI Hnew Hni HIor Hz Hgi Hg; change nmeta with 47 in *; change MAXFILE with 268 in *; change FSSIZE with 2000 in *.
  assert (forall bn, in_file bn -> fblock g' d' bn = if decide (bn = m) then new else fblock g d bn) as Hf
    by (apply (fblock_set_indirect g g' d d' m base new); auto; lia).
  assert (forall bn, in_file bn -> fblock g d bn < fb /\ (fblock g d bn <> 0 <-> bn < m) /\ (bn < m -> 47 <= fblock g d bn /\ fblock g d bn <> ind d')) as Hlt.
  { intros bn Hb; specialize (H4 bn Hb); destruct (Z.ltb_spec bn m); [|lia]; split_and!; lia. }
  split; change nmeta with 47; change MAXFILE with 268; change BSIZE with 1024 in *; try done; try lia.
  - rewrite (proj2 (Z.ltb_lt 12 (m + 1))) by lia; lia.
  - intros bn Hb; rewrite Hf by done; destruct (Hlt bn Hb) as (L1 & L2 & L3); destruct (decide (bn = m)) as [E|E], (Z.ltb_spec bn (m + 1)); lia.
  - intros bn bn' Hb Hb'; rewrite !Hf by done; destruct (Hlt bn Hb) as (L1 & L2 & L3), (Hlt bn' Hb') as (M1 & M2 & M3).
    repeat case_decide; subst; auto; lia.
  - apply (bytes_kept g g' d d' m); [lia|done| |rewrite Hf, decide_True, Hg by (done || split; change MAXFILE with 268; lia); done|done].
    intros bn Hb; assert (in_file bn) as Hin by (split; change MAXFILE with 268; lia).
    destruct (Hlt bn Hin) as (L1 & L2 & L3); rewrite Hf, decide_False by (done || lia); split_and!; [done|lia|apply Hg; lia].
Qed.

(** Writing the next bytes into the last block. *)
Lemma has_write g g' fb d m bytes bs x :
  has g fb d m bytes -> let off := Z.of_nat (length bytes) in off / BSIZE = m - 1 -> off mod BSIZE + Z.of_nat (length bs) <= BSIZE ->
  x = fblock g d (off / BSIZE) -> length (g x) = 1024%nat -> g' x = blit (g x) (off mod BSIZE) bs -> (forall y, y <> x -> g' y = g y) ->
  has g' fb d m (bytes ++ bs).
Proof.
  intros Hh off Hoff Hfit Ex Hlen Hgx Hg; pose proof Hh as [H1 H2 H3 H4 H5 H6 H7].
  pose proof (Z.div_mod off BSIZE ltac:(done)) as Hdm; pose proof (Z.mod_pos_bound off BSIZE ltac:(done)) as Hmod; change BSIZE with 1024 in *; change MAXFILE with 268 in *.
  assert (0 <= off / 1024) by (apply Z.div_pos; lia); assert (in_file (off / 1024)) as Hin by (split; change MAXFILE with 268; lia).
  pose proof (H4 _ Hin) as Hx; rewrite (proj2 (Z.ltb_lt (off / 1024) m)) in Hx by lia; rewrite <- Ex in Hx; destruct Hx as [Hx Hxi]; change nmeta with 47 in *.
  assert (forall bn, fblock g' d bn = fblock g d bn) as Hf by (apply fblock_ext; intros; apply Hg; auto).
  split; [done..|intros bn Hb; rewrite Hf; by apply H4|intros bn bn' Hb Hb'; rewrite !Hf; by apply H5|rewrite length_app; change BSIZE with 1024; lia|].
  intros o Ho; change BSIZE with 1024 in Ho; pose proof (Z.div_mod o 1024 ltac:(done)) as Hdo; pose proof (Z.mod_pos_bound o 1024 ltac:(done)) as Hmo; rewrite aget_app by lia; fold off.
  assert (in_file (o / 1024)) as Hino by (split; [apply Z.div_pos; lia|apply Z.div_lt_upper_bound; change MAXFILE with 268; lia]).
  pose proof (H7 o Ho) as Hold; unfold fbyte in *; rewrite Hf; cbv zeta in *; change BSIZE with 1024 in *.
  destruct (decide (o / 1024 = off / 1024)) as [E|E].
  - rewrite E in *; rewrite <- Ex in *; destruct (Z.eqb_spec x 0); [lia|]; rewrite Hgx, aget_blit by lia; rewrite Hold.
    destruct (Z.ltb_spec o off); case_decide; (done || lia || (f_equal; lia) || rewrite !aget_ge by lia; done).
  - assert (o < off \/ off + Z.of_nat (length bs) <= o) as Hout.
    { destruct (Z.lt_ge_cases o off); [auto|right]; destruct (Z.lt_ge_cases o (off + Z.of_nat (length bs))); [|done].
      destruct E; symmetry; apply (Z.div_unique_pos o 1024 (off / 1024) (o - 1024 * (off / 1024))); lia. }
    rewrite Hg by (rewrite Ex; intros E'; apply E, H5; auto; specialize (H4 _ Hino); destruct (Z.ltb_spec (o / 1024) m); lia); rewrite Hold.
    destruct (Z.ltb_spec o off); [done|]; rewrite !aget_ge by lia; done.
Qed.

(** ** Appending to a file *)

(** The blocks from [fb] on have not been written. *)
Definition clean (g : Z -> block) (fb : Z) : Prop := (forall x, length (g x) = 1024%nat) /\ (forall x, fb <= x -> g x = zero_block).

Definition head (d : dinode) := (di_type d, di_major d, di_minor d, di_nlink d, di_size d).

(** The file [d] has grown to [d'] by taking blocks from [fb] on. *)
Inductive grown (g : Z -> block) (fb : Z) (d : dinode) (g' : Z -> block) (fb' : Z) (d' : dinode) : Prop :=
  | Grown : clean g' fb' -> fb <= fb' -> head d' = head d ->
      (forall x, x < fb -> ~ part g d x -> g' x = g x) -> (forall x, part g' d' x -> part g d x \/ fb <= x < fb') -> grown g fb d g' fb' d'.

Lemma grown_refl g fb d : clean g fb -> grown g fb d g fb d.
Proof. intros; split; auto; lia. Qed.

Lemma grown_trans g fb d g1 fb1 d1 g2 fb2 d2 : grown g fb d g1 fb1 d1 -> grown g1 fb1 d1 g2 fb2 d2 -> grown g fb d g2 fb2 d2.
Proof.
  intros [A1 A2 A3 A4 A5] [B1 B2 B3 B4 B5]; split; auto; [lia|congruence| |].
  - intros x Hx Hp; rewrite B4, A4; auto; [lia|]; intros Hp'; destruct (A5 x Hp'); [done|lia].
  - intros x Hp; destruct (B5 x Hp) as [Hp'|]; [destruct (A5 x Hp'); [auto|right; lia]|right; lia].
Qed.

Lemma view_insert img b v x : img_read (<[b := v]> img) x = if decide (x = b) then v else img_read img x.
Proof. unfold img_read; case_decide; [subst; by rewrite lookup_insert_eq|by rewrite lookup_insert_ne by done]. Qed.

Lemma clean_le g fb fb' : clean g fb -> fb <= fb' -> clean g fb'.
Proof. intros [A B] H; split; [done|intros; apply B; lia]. Qed.

Lemma clean_write g fb fb' x (v : block) g' : clean g fb -> fb <= fb' -> length v = 1024%nat -> x < fb' ->
  g' x = v -> (forall y, y <> x -> g' y = g y) -> clean g' fb'.
Proof.
  intros [A B] Hle Hv Hx E Hg; split; intros y; [destruct (decide (y = x)) as [->|]; [by rewrite E|by rewrite Hg]|].
  intros Hy; rewrite Hg by lia; apply B; lia.
Qed.

(** The blocks of a file with [m] data blocks. *)
Lemma has_part g fb d m bytes x : has g fb d m bytes ->
  part g d x <-> (12 < m /\ x = ind d) \/ exists bn, 0 <= bn < m /\ x = fblock g d bn.
Proof.
  intros [H1 H2 H3 H4 H5 H6 H7]; change nmeta with 47 in *; split.
  - intros [Hx [->|(bn & Hb & <-)]].
    + destruct (Z.ltb_spec 12 m); [auto|lia].
    + right; exists bn; specialize (H4 bn Hb); destruct (Z.ltb_spec bn m); destruct Hb; [split; [lia|done]|done].
  - intros [[Hm ->]|(bn & Hb & ->)].
    + rewrite (proj2 (Z.ltb_lt 12 m)) in H3 by lia; split; [lia|by left].
    + assert (in_file bn) as Hin by (unfold in_file; lia); specialize (H4 bn Hin); rewrite (proj2 (Z.ltb_lt bn m)) in H4 by lia.
      split; [lia|right; by exists bn].
Qed.

(** [d] grows by block [fbn], and nothing else of it changes. *)
Inductive extended (g : Z -> block) (fb : Z) (d : dinode) (m : Z) (bytes : list Z) (fbn : Z) (g' : Z -> block) (d' : dinode) : Prop :=
  | Extended : let fb' := fb + cost (fbn + 1) - cost m in has g' fb' d' (fbn + 1) bytes -> grown g fb d g' fb' d' -> extended g fb d m bytes fbn g' d'.

Lemma extended_same g fb d m bytes : has g fb d m bytes -> clean g fb -> extended g fb d m bytes (m - 1) g d.
Proof.
  intros Hh Hc; split; replace (m - 1 + 1) with m by lia; replace (fb + cost m - cost m) with fb by lia; [done|by apply grown_refl].
Qed.

Lemma extended_direct g fb d m bytes : has g fb d m bytes -> clean g fb -> nmeta <= fb -> m < 12 -> extended g fb d m bytes m g (set_addr m fb d).
Proof.
  intros Hh Hc Hfb Hm; pose proof (has_direct _ _ _ _ _ Hh Hfb Hm (proj2 Hc fb ltac:(lia))) as Hh'; pose proof (h_m _ _ _ _ _ Hh).
  split; unfold cost; rewrite (proj2 (Z.ltb_ge 12 (m + 1))), (proj2 (Z.ltb_ge 12 m)) by lia; replace (fb + (m + 1) - m) with (fb + 1) by lia; [done|].
  split; [by apply (clean_le g fb); [|lia]|lia|done|done|].
  intros x Hp; rewrite (has_part _ _ _ _ _ x Hh') in Hp; rewrite (has_part _ _ _ _ _ x Hh).
  destruct Hp as [?|(bn & Hb & E)]; [lia|]; rewrite fblock_set_direct in E by (apply Hh || lia).
  case_decide; [right; lia|left; right; exists bn; split; [lia|done]].
Qed.

Lemma extended_indirect g g' fb d d' m bytes base fb' :
  has g fb d m bytes -> clean g fb -> nmeta <= fb -> 12 <= m < MAXFILE -> fb' = fb + cost (m + 1) - cost m -> fb' <= FSSIZE ->
  d' = (if decide (m = 12) then set_addr 12 fb d else d) -> base = (if decide (m = 12) then zero_block else g (ind d)) ->
  g' (ind d') = put32 base (4 * (m - 12)) (fb' - 1) -> (forall x, x <> ind d' -> g' x = g x) ->
  extended g fb d m bytes m g' d'.
Proof.
  intros Hh Hc Hfb Hm Efb Hmax Ed Eb Hgi Hg; pose proof Hh as [H1 H2 H3 H4 H5 H6 H7]; pose proof Hc as [Hlen Hz]; change nmeta with 47 in *; change MAXFILE with 268 in *.
  pose proof Efb as Efb'; unfold cost in Efb'; rewrite (proj2 (Z.ltb_lt 12 (m + 1))) in Efb' by lia; change FSSIZE with 2000 in Hmax.
  assert ((ind d' = ind d /\ 12 < m /\ fb' = fb + 1 /\ ind d < fb \/ ind d' = fb /\ fb' = fb + 2 /\ m = 12) /\ 47 <= ind d' < fb') as [HI HI'].
  { rewrite Ed; destruct (decide (m = 12)) as [->|E]; [rewrite ind_set_addr, decide_True by (done || lia); cbn in Efb'; lia|].
    rewrite (proj2 (Z.ltb_lt 12 m)) in H3, Efb' by lia; lia. }
  assert (length base = 1024%nat) as Hbl by (rewrite Eb; case_decide; done).
  assert (length (di_addrs d') = 13%nat) as Hl' by (rewrite Ed; case_decide; [cbn; by rewrite length_aset|done]).
  assert (forall bn, 0 <= bn < 12 -> aget 0 (di_addrs d') bn = aget 0 (di_addrs d) bn) as Hdir.
  { intros bn Hb; rewrite Ed; case_decide; [|done]; cbn [set_addr di_addrs]; rewrite aget_aset, decide_False by lia; done. }
  assert (forall bn, in_file bn -> 12 <= bn -> get32 base (4 * (bn - 12)) = fblock g d bn) as Hent.
  { intros bn Hb Hge; rewrite Eb; case_decide; [rewrite get32_zeros; specialize (H4 bn Hb); rewrite (proj2 (Z.ltb_ge bn m)) in H4 by lia; done|].
    rewrite fblock_indirect by (change NDIRECT with 12; lia); done. }
  split; cbv zeta; rewrite <- Efb.
  - apply (has_indirect g g' fb fb' d d' m bytes base (fb' - 1)); auto; [..|apply Hz; lia]; change nmeta with 47; change MAXFILE with 268; change FSSIZE with 2000; lia.
  - split; [apply (clean_write g fb fb' (ind d') (put32 base (4 * (m - 12)) (fb' - 1))); auto; [lia|by rewrite length_put32|lia]|lia|subst d'; by case_decide| |].
    + intros x Hx Hp; apply Hg; intros ->; destruct HI as [(E & ? & _)|]; [|lia]; apply Hp; rewrite E; split; [lia|by left].
    + intros x [Hx [->|(bn & Hb & <-)]]; [destruct HI as [(E & ? & _)|]; [left; rewrite E in *; split; [done|by left]|right; lia]|].
      revert Hx; rewrite (fblock_set_indirect g g' d d' m base (fb' - 1)) by (auto || lia); destruct (decide (bn = m)); intros Hx; [right; lia|].
      left; split; [done|right; by exists bn].
Qed.

Lemma wp_indirect_block img fi fb d fbn c (Q : Z -> ctx -> mkst -> Prop) :
  let g := img_read img in
  12 <= fbn < MAXFILE -> 0 <= ind d < FSSIZE -> 0 <= fb -> length (g (ind d)) = 1024%nat ->
  let e := get32 (g (ind d)) (4 * (fbn - 12)) in
  (e = 0 -> fb < FSSIZE /\ Q fb c (mk (<[ind d := put32 (g (ind d)) (4 * (fbn - 12)) fb]> img) fi (fb + 1))) -> (0 < e -> Q e c (mk img fi fb)) -> 0 <= e < FSSIZE ->
  wp (indirect_block d fbn) c (mk img fi fb) Q.
Proof.
  intros g Hfbn Hi Hfb Hl e H0 H1 He; change MAXFILE with 268 in Hfbn; unfold indirect_block; fold (ind d); change NDIRECT with 12.
  unfold FSSIZE in *; rewrite xint_id by lia; wp_step; apply wp_rsect; [unfold FSSIZE; lia|]; fold (g (ind d)) e.
  destruct (Z.eqb_spec e 0); wp_steps; [|fold e; rewrite xint_id by lia; apply H1; lia].
  destruct H0 as [? H0]; [done|]; apply wp_next_block; [unfold FSSIZE; lia|]; wp_steps; rewrite xint_id by lia; apply wp_wsect; [unfold FSSIZE; lia|]; wp_steps.
  rewrite get32_put32_eq by (fold g; lia); rewrite u32_small, xint_id by lia; auto.
Qed.

Lemma wp_indirect_addr img fi fb d m bytes c (Q : dinode -> ctx -> mkst -> Prop) :
  has (img_read img) fb d m bytes -> 12 <= m < MAXFILE -> nmeta <= fb < FSSIZE ->
  Q (if decide (m = 12) then set_addr 12 fb d else d) c (mk img fi (fb + cost (m + 1) - cost m - 1)) ->
  wp (if xint (ind d) =? 0 then let! b := next_block in ret (set_addr 12 (xint b) d) else ret d) c (mk img fi fb) Q.
Proof.
  intros Hh Hm Hfb HQ; pose proof (h_ind _ _ _ _ _ Hh) as H3; change nmeta with 47 in *; unfold FSSIZE in *; unfold cost in HQ.
  rewrite (proj2 (Z.ltb_lt 12 (m + 1))) in HQ by lia; case_decide as E.
  - subst m; cbn in H3; rewrite H3; change (xint 0 =? 0) with true; cbn [Z.ltb Z.compare Pos.compare Pos.compare_cont] in HQ; cbv iota in HQ |- *; wp_step.
    apply wp_next_block; [unfold FSSIZE; lia|]; wp_steps; rewrite xint_id by lia; by replace (fb + 1) with (fb + (12 + 1 + 1) - 12 - 1) by lia.
  - rewrite (proj2 (Z.ltb_lt 12 m)) in * by lia; rewrite xint_id by lia; destruct (Z.eqb_spec (ind d) 0); [lia|]; wp_steps.
    by replace (fb + (m + 1 + 1) - (m + 1) - 1) with fb in HQ by lia.
Qed.

Lemma wp_iappend_indirect img fi fb d m bytes c (Q : dinode * Z -> ctx -> mkst -> Prop) :
  let g := img_read img in
  has g fb d m bytes -> clean g fb -> nmeta <= fb -> 12 <= m < MAXFILE -> fb + cost (m + 1) - cost m <= FSSIZE ->
  (forall img' d', let g' := img_read img' in extended g fb d m bytes m g' d' -> Q (d', fblock g' d' m) c (mk img' fi (fb + cost (m + 1) - cost m))) ->
  wp (let! din := if xint (ind d) =? 0 then let! b := next_block in ret (set_addr 12 (xint b) d) else ret d in
      let! x := indirect_block din m in ret (din, x)) c (mk img fi fb) Q.
Proof.
  intros g Hh Hc Hfb Hm Hroom HQ; set (d' := if decide (m = 12) then set_addr 12 fb d else d) in *; remember (fb + cost (m + 1) - cost m) as fb' eqn:Efb.
  assert (fb < fb' /\ nmeta <= ind d' < fb' /\ get32 (g (ind d')) (4 * (m - 12)) = 0 /\ g (ind d') = (if decide (m = 12) then zero_block else g (ind d))) as (Hlt & HI & E0 & Eb).
  { pose proof Hh as [H1 H2 H3 H4 H5 H6 H7]; subst d' fb'; unfold cost in *; change nmeta with 47 in *; change MAXFILE with 268 in *.
    rewrite (proj2 (Z.ltb_lt 12 (m + 1))) in * by lia; destruct (decide (m = 12)) as [->|E].
    - rewrite ind_set_addr, decide_True, (proj2 Hc fb) by (done || lia); rewrite get32_zeros; cbn; split_and!; (done || lia).
    - rewrite (proj2 (Z.ltb_lt 12 m)) in * by lia; split_and!; try (done || lia).
      assert (in_file m) as Hin by (split; change MAXFILE with 268; lia); specialize (H4 m Hin); rewrite Z.ltb_irrefl in H4.
      rewrite fblock_indirect in H4 by (change NDIRECT with 12; lia); done. }
  wp_step; apply (wp_indirect_addr _ _ _ _ m bytes); auto; [unfold FSSIZE in *; lia|]; fold d'; rewrite <- Efb; wp_step.
  apply wp_indirect_block; fold g; rewrite ?E0; auto; try (change nmeta with 47 in *; unfold FSSIZE in *; lia); [apply Hc|].
  intros _; split; [lia|]; wp_steps; replace (fb' - 1 + 1) with fb' by lia; specialize (HQ (<[ind d' := put32 (g (ind d')) (4 * (m - 12)) (fb' - 1)]> img) d').
  cbv zeta in HQ; rewrite fblock_indirect in HQ by (change nmeta with 47 in *; change NDIRECT with 12; lia); change NDIRECT with 12 in HQ.
  rewrite view_insert, decide_True in HQ by done; change MAXFILE with 268 in *; unfold FSSIZE in *; change nmeta with 47 in *.
  rewrite get32_put32_eq in HQ by (rewrite ?(proj1 Hc); lia); rewrite u32_small in HQ by lia.
  apply HQ, (extended_indirect g _ fb d d' m bytes (g (ind d')) fb'); auto; [by rewrite view_insert, decide_True|].
  intros x Hx; by rewrite view_insert, decide_False.
Qed.

Lemma wp_iappend_block img fi fb d m bytes fbn c (Q : dinode * Z -> ctx -> mkst -> Prop) :
  let g := img_read img in
  has g fb d m bytes -> clean g fb -> nmeta <= fb -> 0 <= fbn < MAXFILE -> (m = fbn \/ m = fbn + 1) -> fb + cost (fbn + 1) - cost m <= FSSIZE ->
  (forall img' d', let g' := img_read img' in extended g fb d m bytes fbn g' d' -> Q (d', fblock g' d' fbn) c (mk img' fi (fb + cost (fbn + 1) - cost m))) ->
  wp (iappend_block d fbn) c (mk img fi fb) Q.
Proof.
  intros g Hh Hc Hfb Hfbn Hm Hroom HQ; pose proof Hh as [H1 H2 H3 H4 H5 H6 H7]; change nmeta with 47 in *; change MAXFILE with 268 in *; change FSSIZE with 2000 in Hroom.
  assert (in_file fbn) as Hin by (split; change MAXFILE with 268; lia); specialize (H4 fbn Hin); unfold iappend_block; change NDIRECT with 12; destruct Hm as [->|Hm].
  - rewrite (proj2 (Z.ltb_ge fbn fbn)) in H4 by lia; destruct (Z.ltb_spec fbn 12).
    + pose proof (extended_direct g fb d fbn bytes Hh Hc Hfb ltac:(lia)) as He.
      rewrite fblock_direct in H4 by (change NDIRECT with 12; lia); rewrite H4; change (xint 0 =? 0) with true; cbv iota.
      unfold cost in *; rewrite (proj2 (Z.ltb_ge 12 (fbn + 1))), (proj2 (Z.ltb_ge 12 fbn)) in * by lia.
      wp_step; wp_step; apply wp_next_block; [unfold FSSIZE; lia|]; rewrite xint_id by lia; wp_steps.
      specialize (HQ img _ He); rewrite fblock_direct in HQ by (change NDIRECT with 12; lia); replace (fb + 1) with (fb + (fbn + 1) - fbn) by lia.
      rewrite xint_id; [done|]; cbn [set_addr di_addrs]; rewrite aget_aset, decide_True by (done || lia); lia.
    + apply (wp_iappend_indirect img fi fb d fbn bytes c Q); auto; unfold FSSIZE; change MAXFILE with 268; change nmeta with 47; lia.
  - subst m; specialize (HQ img d); replace (fb + cost (fbn + 1) - cost (fbn + 1)) with fb in HQ by lia.
    pose proof (extended_same g fb d (fbn + 1) bytes Hh Hc) as He; replace (fbn + 1 - 1) with fbn in He by lia; specialize (HQ He).
    rewrite (proj2 (Z.ltb_lt fbn (fbn + 1))) in H4 by lia; destruct (Z.ltb_spec fbn 12).
    + rewrite fblock_direct in H4, HQ by (change NDIRECT with 12; lia); rewrite xint_id by lia; destruct (Z.eqb_spec (aget 0 (di_addrs d) fbn) 0); [lia|].
      wp_steps; rewrite xint_id by lia; done.
    + rewrite (proj2 (Z.ltb_lt 12 (fbn + 1))) in H3 by lia; change (aget 0 (di_addrs d) 12) with (ind d); rewrite xint_id by lia; destruct (Z.eqb_spec (ind d) 0); [lia|]; wp_steps.
      rewrite fblock_indirect in H4, HQ by (change NDIRECT with 12; lia); change NDIRECT with 12 in *.
      apply wp_indirect_block; change MAXFILE with 268; unfold FSSIZE; fold g; [lia..|apply Hc|lia| |lia].
      intros _; by wp_steps.
Qed.

(** The number of blocks that hold [n] bytes. *)
Definition need (n : Z) : Z := (n + (BSIZE - 1)) / BSIZE.

Lemma need_spec n k : 0 <= n -> need n = k <-> (k - 1) * BSIZE < n <= k * BSIZE \/ n = 0 /\ k = 0.
Proof.
  intros Hn; unfold need; change BSIZE with 1024; pose proof (Z.div_mod (n + 1023) 1024 ltac:(lia)); pose proof (Z.mod_pos_bound (n + 1023) 1024 ltac:(lia)).
  change (1024 - 1) with 1023; lia.
Qed.

Lemma need_mono n n' : n <= n' -> need n <= need n'.
Proof. intros; apply Z.div_le_mono; change BSIZE with 1024; lia. Qed.

Lemma cost_mono m m' : m <= m' -> cost m <= cost m'.
Proof. unfold cost; repeat case_match; lia. Qed.

Lemma grown_write g g' fb d m bytes x v : has g fb d m bytes -> clean g fb -> (exists bn, 0 <= bn < m /\ x = fblock g d bn) ->
  length v = 1024%nat -> g' x = v -> (forall y, y <> x -> g' y = g y) -> grown g fb d g' fb d.
Proof.
  intros Hh Hc (bn & Hb & Ex) Hv Hgx Hg; pose proof (h_m _ _ _ _ _ Hh); assert (in_file bn) as Hin by (unfold in_file; lia).
  pose proof (h_blk _ _ _ _ _ Hh bn Hin) as Hx; rewrite (proj2 (Z.ltb_lt bn m)) in Hx by lia; rewrite <- Ex in Hx; destruct Hx as [Hx Hxi]; change nmeta with 47 in Hx.
  assert (forall bn, fblock g' d bn = fblock g d bn) as Hf by (apply fblock_ext; intros; apply Hg; auto).
  split; [apply (clean_write g fb fb x v); auto; lia|lia|done| |].
  - intros y Hy Hp; apply Hg; intros ->; apply Hp; split; [lia|right; exists bn; auto].
  - intros y [Hy [->|(bn' & Hb' & E)]]; left; split; auto; [by left|right; exists bn'; by rewrite <- Hf].
Qed.

Lemma need_round off n : 0 <= off -> 0 < n -> let fbn := off / BSIZE in let n1 := Z.min n ((fbn + 1) * BSIZE - off) in
  (need off = fbn \/ need off = fbn + 1) /\ need (off + n1) = fbn + 1 /\ 0 < n1 <= n /\ off - fbn * BSIZE = off mod BSIZE /\ off mod BSIZE + n1 <= BSIZE /\ 0 <= fbn /\ fbn + 1 <= need (off + n).
Proof.
  intros Ho Hn fbn n1; pose proof (Z.div_mod off BSIZE ltac:(done)) as E; pose proof (Z.mod_pos_bound off BSIZE ltac:(done)) as Hm; fold fbn in E; change BSIZE with 1024 in *.
  assert (0 <= fbn) by (subst fbn; apply Z.div_pos; change BSIZE with 1024; lia); assert (0 < n1 <= n) by lia.
  assert (need (off + n1) = fbn + 1) as E1 by (apply need_spec; change BSIZE with 1024; lia).
  split_and!; try lia.
  - destruct (decide (off mod 1024 = 0)); [left|right]; apply need_spec; change BSIZE with 1024; lia.
  - rewrite <- E1; apply need_mono; lia.
Qed.

(** One round of the loop, followed by [k]. *)
Lemma wp_iappend_round img fi fb d bytes p c (k : dinode -> M mkst (dinode * Z)) Q :
  let g := img_read img in let off := Z.of_nat (length bytes) in let fbn := off / BSIZE in
  let n1 := Z.min (Z.of_nat (length p)) ((fbn + 1) * BSIZE - off) in let fb1 := fb + cost (fbn + 1) - cost (need off) in
  has g fb d (need off) bytes -> clean g fb -> nmeta <= fb -> fbn < MAXFILE -> fb1 <= FSSIZE -> (0 < length p)%nat ->
  (forall img' d', let g' := img_read img' in has g' fb1 d' (fbn + 1) (bytes ++ take (Z.to_nat n1) p) -> grown g fb d g' fb1 d' -> wp (k d') c (mk img' fi fb1) Q) ->
  wp (let! r := iappend_block d fbn in let '(din, x) := r in let! buf := rsect x in
      do! wsect x (blit buf (off - fbn * BSIZE) (take (Z.to_nat n1) p)); k din) c (mk img fi fb) Q.
Proof.
  intros g off fbn n1 fb1 Hh Hc Hfb Hfbn Hroom Hp HQ; destruct (need_round off (Z.of_nat (length p))) as (Hm & E1 & Hn1 & Eoff & Hfit & H0 & _); [lia..|]; fold fbn in Hm, E1, Hn1, Eoff, Hfit, H0; fold n1 in E1, Hn1, Hfit.
  wp_step; apply (wp_iappend_block _ _ _ _ (need off) bytes); auto; fold g fb1; intros img' d' g' [fb1' Hh' Hgr]; subst fb1'; fold fb1 in Hh', Hgr.
  assert (exists bn, 0 <= bn < fbn + 1 /\ fblock g' d' fbn = fblock g' d' bn) as Hex by (exists fbn; split; [lia|done]).
  pose proof (h_blk _ _ _ _ _ Hh' fbn ltac:(split; [lia|done])) as Hx; rewrite (proj2 (Z.ltb_lt fbn (fbn + 1))) in Hx by lia; change nmeta with 47 in Hx.
  pose proof Hgr as [Hc' _ _ _ _]; wp_step; apply wp_rsect; [lia|]; fold g'; wp_step; apply wp_wsect; [lia|].
  set (x := fblock g' d' fbn) in *; apply HQ.
  - apply (has_write g' _ fb1 d' (fbn + 1) bytes _ x); auto; fold off fbn; [lia|rewrite length_take; lia|by rewrite (proj1 Hc')| |].
    + rewrite view_insert, decide_True by done; by rewrite Eoff.
    + intros y Hy; by rewrite view_insert, decide_False.
  - eapply grown_trans; [done|]; apply (grown_write g' _ fb1 d' (fbn + 1) bytes x (blit (g' x) (off - fbn * BSIZE) (take (Z.to_nat n1) p))); auto.
    + rewrite length_blit; apply Hc'.
    + by rewrite view_insert, decide_True.
    + intros y Hy; by rewrite view_insert, decide_False.
Qed.

Lemma wp_iappend_loop fi c (Q : dinode * Z -> ctx -> mkst -> Prop) fuel : forall img d fb bytes p,
  let g := img_read img in let off := Z.of_nat (length bytes) in let n' := need (off + Z.of_nat (length p)) in let fb' := fb + cost n' - cost (need off) in
  has g fb d (need off) bytes -> clean g fb -> nmeta <= fb -> n' <= MAXFILE -> fb' <= FSSIZE -> (length p <= fuel)%nat ->
  (forall img' d', let g' := img_read img' in has g' fb' d' n' (bytes ++ p) -> grown g fb d g' fb' d' -> Q (d', off + Z.of_nat (length p)) c (mk img' fi fb')) ->
  wp (iappend_loop fuel d off p) c (mk img fi fb) Q.
Proof.
  induction fuel as [|fuel IH]; intros img d fb bytes p g off n' fb' Hh Hc Hfb Hn' Hroom Hfuel HQ; (destruct p as [|p0 p']; [|cbn in Hfuel; try lia]).
  1, 2: cbn [iappend_loop]; wp_step; subst n' fb' off; rewrite app_nil_r in HQ; cbn [length] in *; rewrite Z.add_0_r in *; specialize (HQ img d);
    replace (fb + cost (need (Z.of_nat (length bytes))) - cost (need (Z.of_nat (length bytes)))) with fb in HQ by lia; apply HQ; [done|by apply grown_refl].
  remember (p0 :: p') as p eqn:Ep; rewrite Ep; cbn [iappend_loop]; rewrite <- Ep.
  destruct (need_round off (Z.of_nat (length p))) as (Hm & E1 & Hn1 & Eoff & Hfit & H0 & Hle); [lia|subst p; cbn [length]; lia|]; fold n' in Hle.
  set (fbn := off / BSIZE) in *; set (n1 := Z.min (Z.of_nat (length p)) ((fbn + 1) * BSIZE - off)) in *; cbv zeta; rewrite (proj2 (Z.ltb_lt fbn MAXFILE)) by lia; wp_steps.
  pose proof (cost_mono _ _ Hle) as Hcost; subst fb'.
  apply (wp_iappend_round img fi fb d bytes p c (fun din => iappend_loop fuel din (u32 (off + n1)) (drop (Z.to_nat n1) p))); auto; fold off fbn; [lia..|subst p; cbn; lia|].
  intros img1 d1 g1 Hh1 Hgr1; assert (off + n1 = Z.of_nat (length (bytes ++ take (Z.to_nat n1) p))) as Eoff1 by (rewrite length_app, length_take; lia).
  assert (off + n1 + Z.of_nat (length (drop (Z.to_nat n1) p)) = off + Z.of_nat (length p)) as Eall by (rewrite length_drop; lia).
  assert (u32 (off + n1) = off + n1) as -> by (apply u32_small; change MAXFILE with 268 in *; change BSIZE with 1024 in *; lia).
  rewrite Eoff1 in *; apply IH; rewrite <- ?app_assoc, ?take_drop, ?Eall, ?E1; fold n'; auto.
  - destruct Hgr1; auto.
  - destruct Hgr1; lia.
  - lia.
  - apply (f_equal length) in Ep; cbn [length] in Ep; rewrite length_drop; lia.
  - intros img2 d2 g2 Hh2 Hgr2; replace (fb + cost (fbn + 1) - cost (need off) + cost n' - cost (fbn + 1)) with (fb + cost n' - cost (need off)) in Hh2, Hgr2 |- * by lia.
    apply HQ; [done|by eapply grown_trans].
Qed.
