(* ===== verification/MkfsImage.v ===== *)
(** * The file system [mkfs] builds

    The image satisfies what the theorems about [fs.c] assume of a disk: a super
    block with the right geometry, an empty log, a bitmap that marks exactly the
    blocks in use, and files that are fit to be read and written and hold the bytes
    of the programs. *)

From S2P Require Import Prelude KMonad Riscv CString Bio FsLayout Log LogProofs Fs FsBlocks FsFiles FsData FsWrite Mkfs MkfsProofs.

(** ** Inodes *)

Definition di (g : Z -> block) (inum : Z) : dinode := dinode_get (g (IBLOCK inum mk_sb)) inum.

Lemma IBLOCK_mk inum : 0 <= inum < NINODES -> IBLOCK inum mk_sb = inum / 16 + 33 /\ 33 <= inum / 16 + 33 < 46.
Proof.
  unfold NINODES; intros Hi; unfold IBLOCK; change (sb_inodestart mk_sb) with 33; change IPB with 16.
  pose proof (Z.div_mod inum 16 ltac:(lia)); pose proof (Z.mod_pos_bound inum 16 ltac:(lia)); rewrite u32_small; lia.
Qed.

(** The inode [inum] has been written. *)
Inductive inode_written (g : Z -> block) (inum : Z) (d : dinode) (g' : Z -> block) : Prop :=
  | Inode_written : (forall x, ~ 33 <= x < 46 -> g' x = g x) -> (forall x, length (g' x) = 1024%nat) ->
      di g' inum = d -> (forall j, 0 <= j < NINODES -> j <> inum -> di g' j = di g j) -> inode_written g inum d g'.

Lemma wp_winode img fi fb inum d c (Q : unit -> ctx -> mkst -> Prop) : let g := img_read img in
  (forall x, length (g x) = 1024%nat) -> 0 <= inum < NINODES -> dinode_ok d ->
  (forall img', inode_written g inum d (img_read img') -> Q tt c (mk img' fi fb)) -> wp (winode inum d) c (mk img fi fb) Q.
Proof.
  intros g Hl Hi Hd HQ; destruct (IBLOCK_mk inum Hi) as [E HE]; unfold winode; cbv zeta; rewrite E.
  wp_step; apply wp_rsect; [unfold FSSIZE; lia|]; apply wp_wsect; [unfold FSSIZE; lia|]; apply HQ; fold g; split.
  - intros x Hx; rewrite view_insert, decide_False; [done|lia].
  - intros x; rewrite view_insert; case_decide; [by rewrite length_dinode_put|apply Hl].
  - unfold di; rewrite E, view_insert, decide_True by done; by apply dinode_get_put_eq.
  - intros j Hj Hne; unfold di; destruct (IBLOCK_mk j Hj) as [-> _]; rewrite view_insert; case_decide as Eb; [|done].
    rewrite dinode_get_put_ne; [by rewrite Eb|apply Hd|]; change IPB with 16; intros Em.
    pose proof (Z.div_mod inum 16 ltac:(lia)); pose proof (Z.div_mod j 16 ltac:(lia)); lia.
Qed.

Lemma wp_rinode img fi fb inum c (Q : dinode -> ctx -> mkst -> Prop) : 0 <= inum < NINODES ->
  Q (di (img_read img) inum) c (mk img fi fb) -> wp (rinode inum) c (mk img fi fb) Q.
Proof.
  intros Hi HQ; destruct (IBLOCK_mk inum Hi) as [E HE]; unfold rinode; unfold di in HQ; rewrite E in *.
  wp_step; apply wp_rsect; [unfold FSSIZE; lia|]; by wp_step.
Qed.

(** ** The image under construction *)

(** The files are a list of types and contents; the first has inode 1. *)
Definition inum_of (j : nat) : Z := Z.of_nat j + 1.
Definition size (bs : list Z) : Z := Z.of_nat (length bs).
Definition blocks (F : list (Z * list Z)) : Z := foldr (fun e n => cost (need (size e.2)) + n) 0 F.

(** The blocks that are neither inodes nor data. *)
Definition meta (x : Z) : block := if decide (x = 1) then blit zero_block 0 (sb_encode mk_sb) else zero_block.

Record holds (g : Z -> block) (fb : Z) (d : dinode) (e : Z * list Z) : Prop := {
  ho_type : 0 <= e.1 < 2 ^ 15;
  ho_head : head d = (e.1, 0, 0, 1, size e.2);
  ho_has : has g fb d (need (size e.2)) e.2
}.

Record built (g : Z -> block) (fi fb : Z) (F : list (Z * list Z)) : Prop := {
  bu_fi : fi = inum_of (length F);
  bu_max : fi <= NINODES;
  bu_fb : fb = nmeta + blocks F;
  bu_room : fb <= FSSIZE;
  bu_clean : clean g fb;
  bu_meta : forall x, x < 33 \/ x = 46 -> g x = meta x;
  bu_free : forall i, fi <= i < NINODES -> di_type (di g i) = 0;
  bu_file : forall j e, F !! j = Some e -> holds g fb (di g (inum_of j)) e;
  bu_apart : forall j k x, (j < length F)%nat -> (k < length F)%nat -> part g (di g (inum_of j)) x -> part g (di g (inum_of k)) x -> j = k
}.

Lemma part_range g fb d m bytes x : has g fb d m bytes -> part g d x -> nmeta <= x < fb.
Proof.
  intros Hh Hp; apply (has_part _ _ _ _ _ x Hh) in Hp as [[Hm ->]|(bn & Hb & ->)].
  - pose proof (h_ind _ _ _ _ _ Hh) as H; by rewrite (proj2 (Z.ltb_lt 12 m)) in H by lia.
  - pose proof (h_m _ _ _ _ _ Hh); assert (in_file bn) as Hin by (unfold in_file; lia).
    pose proof (h_blk _ _ _ _ _ Hh bn Hin) as Hx; rewrite (proj2 (Z.ltb_lt bn m)) in Hx by lia; tauto.
Qed.

(** The address fields of a file are block numbers. *)
Lemma has_addrs g fb d m bytes : has g fb d m bytes -> fb <= FSSIZE -> Forall (fun a => 0 <= a < 2 ^ 32) (di_addrs d).
Proof.
  intros Hh Hfb; pose proof (h_len _ _ _ _ _ Hh) as Hl; apply Forall_lookup; intros i x Hx; pose proof (lookup_lt_Some _ _ _ Hx) as Hi; rewrite Hl in Hi.
  assert (aget 0 (di_addrs d) (Z.of_nat i) = x) as Ex by (apply aget_lookup; [lia|by rewrite Nat2Z.id]).
  assert (x = 0 \/ part g d x) as [->|Hp]; [|lia|apply (part_range _ _ _ _ _ _ Hh) in Hp; change nmeta with 47 in Hp; unfold FSSIZE in Hfb; lia].
  destruct (decide (x = 0)); [auto|right; split; [done|]]; destruct (decide (i = 12%nat)) as [->|]; [by left|].
  right; exists (Z.of_nat i); split; [split; change MAXFILE with 268; lia|by rewrite fblock_direct by (change NDIRECT with 12; lia)].
Qed.

Lemma has_dinode_ok g fb d m bytes ty sz : has g fb d m bytes -> fb <= FSSIZE -> head d = (ty, 0, 0, 1, sz) -> 0 <= ty < 2 ^ 15 -> 0 <= sz < 2 ^ 32 -> dinode_ok d.
Proof.
  intros Hh Hfb Hd Hty Hsz; pose proof (has_addrs _ _ _ _ _ Hh Hfb); injection Hd as E1 E2 E3 E4 E5; split; rewrite ?E1, ?E2, ?E3, ?E4, ?E5; auto; try lia; apply Hh.
Qed.

Lemma holds_dinode_ok g fb d e : holds g fb d e -> fb <= FSSIZE -> dinode_ok d.
Proof.
  intros [Ht Hd Hh] Hfb; pose proof (h_fit _ _ _ _ _ Hh); pose proof (h_m _ _ _ _ _ Hh); change MAXFILE with 268 in *; change BSIZE with 1024 in *.
  apply (has_dinode_ok _ _ _ _ _ _ _ Hh Hfb Hd Ht); unfold size; lia.
Qed.

Lemma has_size g fb d m bytes n : has g fb d m bytes -> has g fb (set_size n d) m bytes.
Proof. intros [H1 H2 H3 H4 H5 H6 H7]; by split. Qed.

Lemma head_set_size n d ty ma mi nl sz : head d = (ty, ma, mi, nl, sz) -> head (set_size n d) = (ty, ma, mi, nl, n).
Proof. destruct d; unfold head; cbn; congruence. Qed.

(** A file is not affected by what happens outside its blocks. *)
Lemma entry_frame g g' fb fb' d e : holds g fb d e -> fb <= fb' -> (forall x, part g d x -> g' x = g x) -> holds g' fb' d e.
Proof. intros [H1 H2 H3] Hfb Hg; split; auto; by apply (has_frame g g' fb). Qed.

Lemma part_frame g g' d x : (part g d (ind d) -> g' (ind d) = g (ind d)) -> part g' d x -> part g d x.
Proof.
  intros Hg [H0 Ho]; assert (forall bn, fblock g' d bn = fblock g d bn) as Hf by (apply fblock_ext; intros Hi; apply Hg; split; [done|by left]).
  split; [done|]; destruct Ho as [?|(bn & Hb & E)]; [by left|right; exists bn; by rewrite <- Hf].
Qed.

Lemma blocks_cons e F : blocks (e :: F) = cost (need (size e.2)) + blocks F.
Proof. done. Qed.

Lemma blocks_app F F' : blocks (F ++ F') = blocks F + blocks F'.
Proof. induction F as [|e F IH]; [done|]; cbn [app]; rewrite !blocks_cons, IH; lia. Qed.

Lemma blocks_insert F j e e' : F !! j = Some e -> blocks (<[j := e']> F) = blocks F + cost (need (size e'.2)) - cost (need (size e.2)).
Proof.
  intros Hj; rewrite <- (take_drop_middle F j e Hj) at 2; rewrite insert_take_drop by (by eapply lookup_lt_Some).
  rewrite !blocks_app, !blocks_cons; lia.
Qed.

Lemma blocks_nonneg F : 0 <= blocks F.
Proof.
  induction F as [|e F IH]; [done|]; rewrite blocks_cons; enough (0 <= need (size e.2)) by (unfold cost; case_match; lia).
  apply Z.div_pos; unfold size; change BSIZE with 1024; lia.
Qed.

Lemma built_range g fi fb F j e x : built g fi fb F -> F !! j = Some e -> part g (di g (inum_of j)) x -> 47 <= x < fb.
Proof. intros Hb Hj; apply (part_range _ _ _ _ _ _ (ho_has _ _ _ _ (bu_file _ _ _ _ Hb j e Hj))). Qed.

Lemma built_inum g fi fb F j : built g fi fb F -> (j < length F)%nat -> 0 <= inum_of j < NINODES.
Proof. intros [-> ? _ _ _ _ _ _ _] Hj; unfold inum_of in *; lia. Qed.

(** A file has grown and its inode has been written. *)
Lemma built_update g g1 g2 fi fb fb1 F j e bs' d1 :
  built g fi fb F -> F !! j = Some e -> let d := di g (inum_of j) in
  fb1 = nmeta + blocks (<[j := (e.1, bs')]> F) -> fb1 <= FSSIZE ->
  grown g fb d g1 fb1 d1 -> has g1 fb1 d1 (need (size bs')) bs' -> inode_written g1 (inum_of j) (set_size (size bs') d1) g2 ->
  built g2 fi fb1 (<[j := (e.1, bs')]> F).
Proof.
  intros B Hj d Efb Hroom [G1 G2 G3 G4 G5] Hh [W1 W2 W3 W4]; pose proof (lookup_lt_Some _ _ _ Hj) as Hjl.
  assert (forall x, 47 <= x -> g2 x = g1 x) as Hg2 by (intros; apply W1; lia).
  assert (47 <= fb) as Hfb by (pose proof (bu_fb _ _ _ _ B); pose proof (blocks_nonneg F); change nmeta with 47 in *; lia).
  assert (forall x, x < 47 -> g1 x = g x) as Hlow by (intros x Hx; apply G4; [lia|]; intros Hp; apply (built_range _ _ _ _ _ _ _ B Hj) in Hp; lia).
  assert (forall k, (k < length F)%nat -> k <> j -> di g2 (inum_of k) = di g (inum_of k)) as Hdi.
  { intros k Hk Hne; pose proof (built_inum _ _ _ _ _ B Hk) as Hk'; rewrite W4 by (done || (unfold inum_of; lia)).
    unfold di; destruct (IBLOCK_mk _ Hk') as [-> HI]; by rewrite Hlow by lia. }
  assert (forall k e' x, F !! k = Some e' -> k <> j -> part g (di g (inum_of k)) x -> g2 x = g x) as Hoth.
  { intros k e' x Hk Hne Hp; destruct (built_range _ _ _ _ _ _ _ B Hk Hp); rewrite Hg2 by lia; apply G4; [lia|].
    intros Hp'; apply Hne, (bu_apart _ _ _ _ B k j x); auto; by eapply lookup_lt_Some. }
  assert (forall k x, (k < length F)%nat -> part g2 (di g2 (inum_of k)) x -> part g (di g (inum_of k)) x /\ x < fb \/ k = j /\ fb <= x) as Hpart.
  { intros k x Hk Hp; destruct (decide (k = j)) as [->|Hne].
    - rewrite W3 in Hp; change (part g2 d1 x) in Hp; apply (part_frame g1) in Hp; [|intros Hi; apply Hg2, (part_range _ _ _ _ _ _ Hh Hi)].
      destruct (G5 x Hp) as [Hp'|]; [left|right; lia]; split; [done|apply (built_range _ _ _ _ _ _ _ B Hj Hp')].
    - destruct (lookup_lt_is_Some_2 F k Hk) as [e' He']; rewrite Hdi in Hp by done; apply (part_frame g) in Hp; [|intros; by apply (Hoth k e')].
      left; split; [done|apply (built_range _ _ _ _ _ _ _ B He' Hp)]. }
  split; rewrite ?length_insert; auto; try apply B.
  - split; [done|]; intros x Hx; rewrite W1 by lia; by apply G1.
  - intros x Hx; rewrite W1, Hlow by lia; by apply B.
  - intros i Hi; pose proof (bu_fi _ _ _ _ B); unfold inum_of in *; rewrite W4 by lia; unfold di; destruct (IBLOCK_mk i ltac:(lia)) as [E HI]; rewrite E, Hlow by lia.
    rewrite <- E; by apply B.
  - intros k e' Hk; destruct (decide (k = j)) as [->|Hne].
    + rewrite list_lookup_insert_eq in Hk by done; injection Hk as <-; destruct (bu_file _ _ _ _ B j e Hj) as [K1 K2 K3]; rewrite W3; split; cbn [fst snd]; [done| |].
      * fold d in K2; rewrite <- G3 in K2; by apply (head_set_size _ _ _ _ _ _ _ K2).
      * apply has_size, (has_frame g1 g2 fb1); auto; [lia|]; intros x Hp; apply Hg2, (part_range _ _ _ _ _ _ Hh Hp).
    + rewrite list_lookup_insert_ne in Hk by done; rewrite Hdi by (done || by eapply lookup_lt_Some).
      apply (entry_frame g g2 fb); [by apply B|lia|intros x; by apply (Hoth k e')].
  - intros a b x Ha Hb Pa Pb; destruct (Hpart a x Ha Pa) as [[Pa' ?]|[-> ?]], (Hpart b x Hb Pb) as [[Pb' ?]|[-> ?]]; [by apply (bu_apart _ _ _ _ B a b x)|lia..|done].
Qed.

Lemma need_bound n : n <= need n * BSIZE.
Proof. unfold need; change BSIZE with 1024; pose proof (Z.div_mod (n + 1023) 1024 ltac:(lia)); pose proof (Z.mod_pos_bound (n + 1023) 1024 ltac:(lia)); change (1024 - 1) with 1023; lia. Qed.

Lemma wp_iappend img fi fb F j e p c (Q : unit -> ctx -> mkst -> Prop) : let g := img_read img in
  built g fi fb F -> F !! j = Some e -> let F' := <[j := (e.1, e.2 ++ p)]> F in
  need (size (e.2 ++ p)) <= MAXFILE -> nmeta + blocks F' <= FSSIZE ->
  (forall img', built (img_read img') fi (nmeta + blocks F') F' -> Q tt c (mk img' fi (nmeta + blocks F'))) ->
  wp (iappend (inum_of j) p) c (mk img fi fb) Q.
Proof.
  intros g B Hj F' Hn Hroom HQ; pose proof (built_inum _ _ _ _ _ B (lookup_lt_Some _ _ _ Hj)) as Hi; pose proof (bu_file _ _ _ _ B j e Hj) as [T1 T2 T3].
  set (d := di g (inum_of j)) in *; assert (di_size d = size e.2) as Esz by (by injection T2).
  assert (size (e.2 ++ p) = size e.2 + Z.of_nat (length p)) as Eapp by (unfold size; rewrite length_app; lia).
  assert (fb + cost (need (size (e.2 ++ p))) - cost (need (size e.2)) = nmeta + blocks F') as Efb by (subst F'; rewrite (bu_fb _ _ _ _ B), (blocks_insert F j e) by done; cbn [snd]; lia).
  assert (0 <= size (e.2 ++ p) < 2 ^ 32) as Hsz by (pose proof (need_bound (size (e.2 ++ p)));
    change MAXFILE with 268 in *; change BSIZE with 1024 in *; unfold size in *; lia).
  assert (nmeta <= fb) as Hfb by (rewrite (bu_fb _ _ _ _ B); pose proof (blocks_nonneg F); lia).
  unfold iappend; wp_step; apply wp_rinode; [done|]; fold g d; rewrite Esz; rewrite xint_id by (rewrite Eapp in Hsz; unfold size in *; lia); wp_step.
  apply wp_iappend_loop; fold g (size e.2); rewrite <- ?Eapp, ?Efb; auto; [apply B|]; intros img1 d1 g1 Hh1 Hgr.
  rewrite xint_id by done; pose proof Hgr as [G1 G2 G3 _ _].
  assert (holds g1 (nmeta + blocks F') (set_size (size (e.2 ++ p)) d1) (e.1, e.2 ++ p)) as Hho.
  { split; [done| |by apply has_size]; rewrite <- G3 in T2; by apply (head_set_size _ _ _ _ _ _ _ T2). }
  apply wp_winode; [apply G1|done|by apply (holds_dinode_ok g1 _ _ _ Hho)|]; intros img2 W; apply HQ; by apply (built_update g g1 _ fi fb _ F j e _ d1).
Qed.

(** ** A new inode *)

Lemma part_none g ty sz x : ~ part g (Dinode ty 0 0 1 sz (replicate 13 0)) x.
Proof.
  intros [Hx [->|(bn & Hb & E)]]; [done|]; apply Hx; rewrite <- E; unfold fblock; cbn [di_addrs]; destruct (bn <? NDIRECT); [|done].
  unfold aget; rewrite nth_lookup; destruct (_ !! _) eqn:El; [|done]; by apply lookup_replicate in El as [-> _].
Qed.

Lemma has_empty g fb ty sz : has g fb (Dinode ty 0 0 1 sz (replicate 13 0)) 0 [].
Proof.
  set (d := Dinode _ _ _ _ _ _); assert (forall bn, in_file bn -> fblock g d bn = 0) as Hf.
  { intros bn Hb; destruct (decide (fblock g d bn = 0)); [done|]; destruct (part_none g ty sz (fblock g d bn)); split; [done|right; by exists bn]. }
  split; try done.
  - intros bn Hb; rewrite Hf by done; by rewrite (proj2 (Z.ltb_ge bn 0)) by (destruct Hb; lia).
  - intros bn bn' Hb Hb' H; by destruct H; apply Hf.
  - lia.
Qed.

Lemma built_alloc g g' fi fb F ty : built g fi fb F -> fi < NINODES -> 0 <= ty < 2 ^ 15 ->
  inode_written g fi (Dinode ty 0 0 1 0 (replicate 13 0)) g' -> built g' (fi + 1) fb (F ++ [(ty, [])]).
Proof.
  intros B Hfi Hty [W1 W2 W3 W4]; pose proof (bu_fi _ _ _ _ B) as Efi.
  assert (47 <= fb) as Hfb by (pose proof (bu_fb _ _ _ _ B); pose proof (blocks_nonneg F); change nmeta with 47 in *; lia).
  assert (forall k, (k < length F)%nat -> di g' (inum_of k) = di g (inum_of k)) as Hdi.
  { intros k Hk; pose proof (built_inum _ _ _ _ _ B Hk); apply W4; [done|unfold inum_of in *; lia]. }
  assert (forall k x, (k < length (F ++ [(ty, [])]))%nat -> part g' (di g' (inum_of k)) x -> (k < length F)%nat /\ part g (di g (inum_of k)) x) as Hpart.
  { intros k x Hk Hp; rewrite length_app in Hk; cbn [length] in Hk; destruct (decide (k = length F)) as [->|]; [rewrite <- Efi, W3 in Hp; by apply part_none in Hp|].
    assert (k < length F)%nat as Hk' by lia; destruct (lookup_lt_is_Some_2 F k Hk') as [e He]; rewrite Hdi in Hp by done.
    split; [done|]; apply (part_frame g) in Hp; [done|]; intros Hi; apply W1; apply (built_range _ _ _ _ _ _ _ B He) in Hi; lia. }
  split; rewrite ?blocks_app; try apply B; auto.
  - rewrite length_app; cbn [length]; unfold inum_of in *; lia.
  - lia.
  - rewrite (bu_fb _ _ _ _ B); change (blocks [(ty, [])]) with 0; lia.
  - split; [done|]; intros x Hx; rewrite W1 by lia; by apply B.
  - intros x Hx; rewrite W1 by lia; by apply B.
  - intros i Hi; rewrite W4 by (unfold inum_of in Efi; lia); apply B; lia.
  - intros j e Hj; apply lookup_app_Some in Hj as [Hj|[Hge Hj]].
    + rewrite Hdi by (by eapply lookup_lt_Some); apply (entry_frame g g' fb); [by apply B|lia|]; intros x Hp; apply W1; apply (built_range _ _ _ _ _ _ _ B Hj) in Hp; lia.
    + apply list_lookup_singleton_Some in Hj as [Hj <-]; replace j with (length F) by lia; rewrite <- Efi, W3; split; [done..|apply has_empty].
  - intros j k x Hj Hk Pj Pk; destruct (Hpart j x Hj Pj), (Hpart k x Hk Pk); by apply (bu_apart _ _ _ _ B j k x).
Qed.

Lemma wp_ialloc img fi fb F ty c (Q : Z -> ctx -> mkst -> Prop) : built (img_read img) fi fb F -> fi < NINODES -> 0 <= ty < 2 ^ 15 ->
  (forall img', built (img_read img') (fi + 1) fb (F ++ [(ty, [])]) -> Q fi c (mk img' (fi + 1) fb)) -> wp (ialloc ty) c (mk img fi fb) Q.
Proof.
  intros B Hfi Hty HQ; pose proof (bu_fi _ _ _ _ B) as Efi; unfold inum_of, NINODES in *; unfold ialloc; wp_steps; cbn [k_freeinode k_freeblock k_img k_sects mk].
  rewrite u32_small, xshort_id by lia; change (xshort 1) with 1; change (xint 0) with 0; fold (mk img (fi + 1) fb).
  apply wp_winode; [apply B|unfold NINODES; lia|by split; cbn; try lia; repeat constructor; lia|]; intros img' W; wp_steps; apply HQ; by apply (built_alloc _ _ _ _ _ _ B).
Qed.

(** ** The programs *)

Definition program : Type := list Z * option (list (list Z)).

(** The name and the contents a program has in the file system. *)
Definition fname (f : program) : list Z := let name := shortname f.1 in if hd0 name =? 95 then tl name else name.
Definition data (f : program) : list Z := concat (default [] f.2).

Definition root_bytes (files : list program) : list Z :=
  mk_dirent 1 [46] ++ mk_dirent 1 [46; 46] ++ concat (imap (fun i f => mk_dirent (inum_of (S i)) (fname f)) files).

Definition layout (files : list program) : list (Z * list Z) := (T_DIR, root_bytes files) :: map (fun f => (T_FILE, data f)) files.

Definition legal (f : program) : Prop :=
  47 ∉ (shortname f.1) /\ strlen (fname f) <= DIRSIZ /\ is_Some f.2 /\ need (size (data f)) <= MAXFILE.

(** The programs have names the file system takes, and there is room for them. *)
Definition fits (files : list program) : Prop :=
  Forall legal files /\ inum_of (length (layout files)) <= NINODES /\ nmeta + blocks (layout files) <= FSSIZE.

#[export] Instance legal_dec f : Decision (legal f).
Proof. unfold legal; apply _. Defined.
#[export] Instance fits_dec files : Decision (fits files).
Proof. unfold fits; apply _. Defined.

Lemma wp_pieces fi c (Q : unit -> ctx -> mkst -> Prop) pieces : forall img fb F j ty bs,
  built (img_read img) fi fb F -> F !! j = Some (ty, bs) -> let F' := <[j := (ty, bs ++ concat pieces)]> F in
  need (size (bs ++ concat pieces)) <= MAXFILE -> nmeta + blocks F' <= FSSIZE ->
  (forall img', built (img_read img') fi (nmeta + blocks F') F' -> Q tt c (mk img' fi (nmeta + blocks F'))) ->
  wp (for_each pieces (iappend (inum_of j))) c (mk img fi fb) Q.
Proof.
  induction pieces as [|p pieces IH]; intros img fb F j ty bs B Hj F' Hn Hroom HQ; cbn [for_each concat] in *; subst F'.
  - wp_step; rewrite app_nil_r, list_insert_id in * by done; rewrite <- (bu_fb _ _ _ _ B) in HQ; auto.
  - rewrite app_assoc in *; assert (need (size (bs ++ p)) <= need (size ((bs ++ p) ++ concat pieces))) as Hle
      by (apply need_mono; unfold size; rewrite (length_app (bs ++ p)); lia).
    rewrite (blocks_insert F j _ _ Hj) in Hroom; cbn [snd] in Hroom; pose proof (cost_mono _ _ Hle).
    wp_step; apply (wp_iappend img fi fb F j (ty, bs)); cbn [fst snd]; auto; [lia|rewrite (blocks_insert F j _ _ Hj); cbn [snd]; lia|].
    intros img' B'; apply (IH img' _ _ j ty (bs ++ p) B').
    + apply list_lookup_insert_eq; by eapply lookup_lt_Some.
    + done.
    + rewrite list_insert_insert_eq, (blocks_insert F j _ _ Hj); cbn [snd]; lia.
    + by rewrite list_insert_insert_eq.
Qed.

Lemma root_bytes_snoc fs f : root_bytes (fs ++ [f]) = root_bytes fs ++ mk_dirent (inum_of (length (layout fs))) (fname f).
Proof.
  unfold root_bytes, layout; cbn [length]; rewrite imap_app, concat_app, length_map; cbn [imap concat]; rewrite app_nil_r, Nat.add_0_r; by rewrite <- !app_assoc.
Qed.

Lemma root_size files : size (root_bytes files) = 16 * (Z.of_nat (length files) + 2).
Proof.
  induction files as [|f fs IH] using rev_ind; [done|]; rewrite root_bytes_snoc; unfold size in *; rewrite !length_app; cbn [length].
  unfold mk_dirent; rewrite length_dirent_encode by apply length_strncpy; lia.
Qed.

Lemma layout_snoc fs f : layout (fs ++ [f]) =
  <[length (layout fs) := (T_FILE, data f)]> (<[0%nat := (T_DIR, root_bytes (fs ++ [f]))]> (layout fs ++ [(T_FILE, [])])).
Proof.
  unfold layout; cbn [length app]; set (a := (T_DIR, root_bytes (fs ++ [f]))); set (l := map _ fs).
  change (<[0%nat := a]> ((T_DIR, root_bytes fs) :: l ++ [(T_FILE, [])])) with (a :: l ++ [(T_FILE, [])]).
  change (<[S (length l) := ?x]> (a :: ?l')) with (a :: <[length l := x]> l'); f_equal; rewrite map_app; cbn [map].
  rewrite insert_app_r_alt by lia; by rewrite Nat.sub_diag.
Qed.

Lemma layout_mono fs fs' : blocks (layout fs) <= blocks (layout (fs ++ fs')).
Proof.
  unfold layout; rewrite map_app, !blocks_cons, blocks_app; cbn [snd]; pose proof (blocks_nonneg (map (fun f => (T_FILE, data f)) fs')).
  enough (cost (need (size (root_bytes fs))) <= cost (need (size (root_bytes (fs ++ fs'))))) by lia.
  apply cost_mono, need_mono; rewrite !root_size, length_app; lia.
Qed.

Lemma wp_add_file img fi fb fs f c (Q : unit -> ctx -> mkst -> Prop) :
  let F' := layout (fs ++ [f]) in let fb' := nmeta + blocks F' in
  built (img_read img) fi fb (layout fs) -> legal f -> fi < NINODES -> fb' <= FSSIZE ->
  (forall img', built (img_read img') (fi + 1) fb' F' -> Q tt c (mk img' (fi + 1) fb')) -> wp (add_file ROOTINO f) c (mk img fi fb) Q.
Proof.
  intros F' fb' B (L1 & L2 & [pieces L3] & L4) Hfi Hroom HQ; unfold add_file, assert_; rewrite bool_decide_eq_false_2 by done; fold (fname f); rewrite L3, (proj2 (Z.leb_le _ _)) by done; cbv zeta; cbn [negb]; repeat wp_step.
  pose proof (bu_fi _ _ _ _ B); subst fi; apply (wp_ialloc _ _ _ _ _ _ _ B); [done|done|]; intros img1 B1; wp_steps.
  assert (F' = <[length (layout fs) := (T_FILE, [] ++ concat pieces)]> (<[0%nat := (T_DIR, root_bytes (fs ++ [f]))]> (layout fs ++ [(T_FILE, [])]))) as EF.
  { subst F'; rewrite layout_snoc; unfold data; by rewrite L3. }
  set (F1 := <[0%nat := (T_DIR, root_bytes (fs ++ [f]))]> (layout fs ++ [(T_FILE, [])])) in *.
  assert (F1 !! length (layout fs) = Some (T_FILE, [])) as H1.
  { subst F1; rewrite list_lookup_insert_ne by done; apply list_lookup_middle; done. }
  assert (blocks F1 <= blocks F') as Hle.
  { rewrite EF, (blocks_insert F1 _ _ _ H1); cbn [snd]; change (cost (need (size []))) with 0; pose proof (blocks_nonneg [(T_FILE, [] ++ concat pieces)]) as H0.
    rewrite blocks_cons in H0; cbn [snd] in H0; change (blocks []) with 0 in H0; lia. }
  change ROOTINO with (inum_of 0); apply (wp_iappend img1 _ _ _ 0 (T_DIR, root_bytes fs) _ _ _ B1); cbn [fst snd]; rewrite <- ?root_bytes_snoc; fold F1; [done| |lia|].
  - apply (Z.le_trans _ (need 4096)); [|done]; apply need_mono; rewrite root_size, length_app; cbn [length]; revert Hfi; unfold layout, inum_of, NINODES in *; cbn [length]; rewrite length_map; lia.
  - intros img2 B2; apply (wp_pieces _ _ _ pieces img2 _ F1 _ T_FILE []); [done|done| |by rewrite <- EF; subst fb'|].
    + cbn [app]; revert L4; unfold data; by rewrite L3.
    + intros img3; rewrite <- EF; by apply HQ.
Qed.

(** ** The whole run *)

Lemma wp_zero c (Q : unit -> ctx -> mkst -> Prop) k : forall n img, 0 <= n -> n + Z.of_nat k = FSSIZE -> (forall x, img_read img x = zero_block) ->
  (forall img', (forall x, img_read img' x = zero_block) -> Q tt c (mk img' 1 nmeta)) ->
  wp (for_each (zrange n k) (fun i => wsect i zero_block)) c (Mk img n 1 nmeta) Q.
Proof.
  induction k as [|k IH]; intros n img Hn Hk Hz HQ; cbn [zrange for_each].
  - wp_step; replace n with FSSIZE by lia; by apply HQ.
  - wp_step; unfold wsect; wp_step; cbn [k_img k_sects k_freeinode k_freeblock]; rewrite seek_id, Z.max_r by lia; apply IH; [lia|lia| |done].
    intros x; rewrite view_insert; by case_decide.
Qed.

Definition bitmap (n : Z) : block := foldl (fun buf i => bit_set i buf) zero_block (zrange 0 (Z.to_nat n)).

Lemma bitv_foldl l : forall d bi, length d = 1024%nat -> Forall (fun i => 0 <= i < BPB) l -> 0 <= bi < BPB ->
  bitv (foldl (fun buf i => bit_set i buf) d l) bi = bool_decide (bi ∈ l) || bitv d bi.
Proof.
  induction l as [|i l IH]; intros d bi Hd Hl Hbi; [done|]; apply Forall_cons in Hl as [Hi Hl]; cbn [foldl].
  rewrite IH, bitv_set by (done || by rewrite length_bit_set); rewrite orb_assoc; f_equal; rewrite orb_comm; symmetry.
  destruct (bool_decide_reflect (bi = i)), (bool_decide_reflect (bi ∈ l)); [apply bool_decide_eq_true_2; set_solver..|apply bool_decide_eq_false_2; set_solver].
Qed.

Lemma length_bitmap n : length (bitmap n) = 1024%nat.
Proof.
  unfold bitmap; generalize (zrange 0 (Z.to_nat n)) as l; assert (length zero_block = 1024%nat) as H by done; revert H; generalize zero_block as d.
  intros d H l; revert d H; induction l as [|i l IH]; intros d H; [done|]; apply IH; by rewrite length_bit_set.
Qed.

Lemma bitv_bitmap n bi : 0 <= n <= BPB -> 0 <= bi < BPB -> bitv (bitmap n) bi = (bi <? n).
Proof.
  intros Hn Hbi; unfold bitmap; rewrite bitv_foldl; [|done|apply Forall_forall; intros i Hi; apply elem_of_zrange in Hi; lia|done].
  assert (bitv zero_block bi = false) as -> by (rewrite bitv_testbit; change zero_block with zeros; by rewrite aget_zeros, Z.bits_0).
  rewrite orb_false_r; destruct (Z.ltb_spec bi n); [apply bool_decide_eq_true_2|apply bool_decide_eq_false_2]; rewrite elem_of_zrange; lia.
Qed.

Lemma wp_files c (Q : unit -> ctx -> mkst -> Prop) rest : forall fs img fi fb, let F := layout (fs ++ rest) in
  built (img_read img) fi fb (layout fs) -> fits (fs ++ rest) ->
  (forall img', built (img_read img') (inum_of (length F)) (nmeta + blocks F) F -> Q tt c (mk img' (inum_of (length F)) (nmeta + blocks F))) ->
  wp (for_each rest (add_file ROOTINO)) c (mk img fi fb) Q.
Proof.
  induction rest as [|f rest IH]; intros fs img fi fb F B Hfit HQ; subst F; cbn [for_each].
  - rewrite app_nil_r in HQ; pose proof (bu_fi _ _ _ _ B); pose proof (bu_fb _ _ _ _ B); subst fi fb; wp_step; by apply HQ.
  - pose proof Hfit as (Hf & Hi & Hb); apply Forall_app in Hf as [_ Hf]; apply Forall_cons in Hf as [Hf _].
    replace (fs ++ f :: rest) with ((fs ++ [f]) ++ rest) in * by (by rewrite <- app_assoc); pose proof (layout_mono (fs ++ [f]) rest).
    wp_step; apply (wp_add_file img fi fb fs f); auto; [|lia|].
    + pose proof (bu_fi _ _ _ _ B); unfold layout, inum_of in *; cbn [length] in *; rewrite length_map, !length_app in *; cbn [length] in *; lia.
    + intros img1 B1; by apply (IH (fs ++ [f])).
Qed.

Lemma built_start img : (forall x, img_read img x = zero_block) ->
  built (img_read (<[1 := blit zero_block 0 (sb_encode mk_sb)]> img)) 1 nmeta [].
Proof.
  intros Hz; assert (forall x, img_read (<[1 := blit zero_block 0 (sb_encode mk_sb)]> img) x = meta x) as Hm.
  { intros x; rewrite view_insert; unfold meta; case_decide; [done|apply Hz]. }
  split; try done.
  - split; intros x; rewrite Hm; unfold meta; case_decide; (done || by rewrite length_blit || (change nmeta with 47; lia)).
  - intros i Hi; unfold di; destruct (IBLOCK_mk i ltac:(lia)) as [-> HI]; rewrite Hm; unfold meta; rewrite decide_False by lia.
    assert (forallb (fun i => di_type (dinode_get zero_block i) =? 0) (zrange 0 (Z.to_nat NINODES)) = true) as H by (by vm_compute).
    rewrite forallb_forall in H; apply Z.eqb_eq, H, list_elem_of_In, elem_of_zrange; unfold NINODES in *; lia.
  - intros j k x Hj; cbn in Hj; lia.
Qed.

(** What the image holds at the end: the last step has made the size of the root
    directory a multiple of the block size. *)
Definition final_size (j : nat) (bs : list Z) : Z := if decide (j = 0%nat) then (size bs / BSIZE + 1) * BSIZE else size bs.

Record image_of (g : Z -> block) (fb : Z) (files : list program) : Prop := {
  im_meta : forall x, x < 33 -> g x = meta x;
  im_len : forall x, length (g x) = 1024%nat;
  im_room : nmeta <= fb <= FSSIZE;
  im_bitmap : forall b, 0 <= b < FSSIZE -> used mk_sb g b = (b <? fb);
  im_free : forall i, inum_of (length (layout files)) <= i < NINODES -> di_type (di g i) = 0;
  im_file : forall j e, layout files !! j = Some e -> let d := di g (inum_of j) in
    head d = (e.1, 0, 0, 1, final_size j e.2) /\ has g fb d (need (size e.2)) e.2;
  im_apart : forall j k x, (j < length (layout files))%nat -> (k < length (layout files))%nat ->
    part g (di g (inum_of j)) x -> part g (di g (inum_of k)) x -> j = k
}.

Lemma image_finish g g1 g2 fi fb files : built g fi fb (layout files) ->
  inode_written g 1 (set_size (final_size 0 (root_bytes files)) (di g 1)) g1 -> g2 46 = bitmap fb -> (forall x, x <> 46 -> g2 x = g1 x) ->
  image_of g2 fb files.
Proof.
  intros B [W1 W2 W3 W4] Hbit Hg2; pose proof (bu_room _ _ _ _ B) as Hroom; pose proof (bu_fi _ _ _ _ B) as Efi; pose proof (bu_max _ _ _ _ B) as Hmax.
  assert (nmeta <= fb) as Hfb by (rewrite (bu_fb _ _ _ _ B); pose proof (blocks_nonneg (layout files)); lia).
  assert (forall x, 47 <= x -> g2 x = g x) as Hhigh by (intros; rewrite Hg2, W1 by lia; done).
  assert (forall i, 0 <= i < NINODES -> di g2 i = if decide (i = 1) then set_size (final_size 0 (root_bytes files)) (di g 1) else di g i) as Hdi.
  { intros i Hi; transitivity (di g1 i); [unfold di; destruct (IBLOCK_mk i Hi) as [-> HI]; by rewrite Hg2 by lia|]; case_decide; [by subst|by apply W4]. }
  assert (forall j, (j < length (layout files))%nat -> di g2 (inum_of j) = if decide (j = 0%nat) then set_size (final_size 0 (root_bytes files)) (di g 1) else di g (inum_of j)) as Hdj.
  { intros j Hj; rewrite Hdi by (by apply (built_inum _ _ _ _ _ B)); unfold inum_of; repeat case_decide; (done || lia). }
  assert (forall j x, (j < length (layout files))%nat -> part g2 (di g2 (inum_of j)) x -> part g (di g (inum_of j)) x) as Hpart.
  { intros j x Hj Hp; destruct (lookup_lt_is_Some_2 _ j Hj) as [e He]; rewrite Hdj in Hp by done.
    apply (part_frame g g2); [intros Hi; apply Hhigh, (built_range _ _ _ _ _ _ _ B He Hi)|]; case_decide; subst; exact Hp. }
  split; auto.
  - intros x Hx; rewrite Hg2, W1 by lia; apply B; lia.
  - intros x; destruct (decide (x = 46)) as [->|]; [rewrite Hbit; apply length_bitmap|by rewrite Hg2].
  - unfold FSSIZE in *; change nmeta with 47 in *; intros b Hb; unfold used, BBLOCK; change BPB with 8192; change (sb_bmapstart mk_sb) with 46.
    rewrite Z.div_small, Z.mod_small by lia; change (u32 (0 + 46)) with 46; rewrite Hbit; apply bitv_bitmap; change BPB with 8192; lia.
  - intros i Hi; rewrite <- Efi in Hi; assert (2 <= fi) by (unfold inum_of, layout in Efi; cbn [length] in Efi; lia); rewrite Hdi, decide_False by lia; by apply B.
  - intros j e He d; pose proof (lookup_lt_Some _ _ _ He) as Hj; destruct (bu_file _ _ _ _ B j e He) as [K1 K2 K3].
    assert (has g2 fb (di g (inum_of j)) (need (size e.2)) e.2) as K4 by (apply (has_frame g g2 fb); auto; [lia|]; intros x Hp; apply Hhigh, (built_range _ _ _ _ _ _ _ B He Hp)).
    subst d; rewrite Hdj by done; unfold final_size; case_decide; [|done]; subst j; change (inum_of 0) with 1 in *; injection He as <-.
    split; [by apply (head_set_size _ _ _ _ _ _ _ K2)|by apply has_size].
  - intros j k x Hj Hk Pj Pk; apply (bu_apart _ _ _ _ B j k x); auto.
Qed.

Lemma final_range files : fits files -> 0 <= final_size 0 (root_bytes files) < 2 ^ 32.
Proof.
  intros (_ & Hi & _); unfold final_size; rewrite decide_True, root_size by done; unfold inum_of, layout, NINODES in Hi; cbn [length] in Hi; rewrite length_map in Hi.
  change BSIZE with 1024; pose proof (Z.div_mod (16 * (Z.of_nat (length files) + 2)) 1024 ltac:(lia)); pose proof (Z.mod_pos_bound (16 * (Z.of_nat (length files) + 2)) 1024 ltac:(lia)); lia.
Qed.

Lemma root_final files : fits files -> xint (u32 ((xint (size (root_bytes files)) / BSIZE + 1) * BSIZE)) = final_size 0 (root_bytes files).
Proof.
  intros Hf; pose proof (final_range files Hf) as Hr; pose proof Hf as (_ & Hi & _); unfold inum_of, layout, NINODES in Hi; cbn [length] in Hi; rewrite length_map in Hi.
  rewrite (xint_id (size _)) by (rewrite root_size; lia); change ((size (root_bytes files) / BSIZE + 1) * BSIZE) with (final_size 0 (root_bytes files)).
  rewrite u32_small by done; by apply xint_id.
Qed.

Lemma wp_mkfs files c (Q : unit -> ctx -> mkst -> Prop) : fits files ->
  (forall img, let fb := nmeta + blocks (layout files) in image_of (img_read img) fb files -> Q tt c (mk img (inum_of (length (layout files))) fb)) ->
  wp (mkfs files) c mk0 Q.
Proof.
  intros Hfit HQ; pose proof Hfit as (_ & Hi & Hroom); pose proof (layout_mono [] files) as Hmono; cbn [app] in Hmono.
  unfold mkfs, assert_; change (BSIZE mod sizeof_dinode =? 0) with true; change (BSIZE mod sizeof_dirent =? 0) with true; cbv iota; do 6 wp_step.
  unfold mk0; cbn [k_img k_sects k_freeinode k_freeblock].
  wp_step; apply wp_zero; [lia|unfold FSSIZE; lia|done|]; intros img1 Hz; wp_step; apply wp_wsect; [unfold FSSIZE; lia|]; pose proof (built_start _ Hz) as B1; wp_step.
  apply (wp_ialloc _ _ _ _ _ _ _ B1); [done|done|]; intros img2 B2; change (1 =? ROOTINO) with true; cbv iota; do 3 wp_step; change ([] ++ [(T_DIR, [])]) with [(T_DIR, @nil Z)] in B2.
  change 1 with (inum_of 0) at 1; apply (wp_iappend img2 _ _ _ 0 _ _ _ _ B2 eq_refl); [by vm_compute|by vm_compute|]; intros img3 B3; wp_step.
  change 1 with (inum_of 0) at 1; apply (wp_iappend img3 _ _ _ 0 _ _ _ _ B3 eq_refl); [by vm_compute|by vm_compute|]; intros img4 B4; wp_step.
  match type of B4 with built _ _ _ ?F => assert (F = layout []) as E by (by vm_compute); rewrite E in B4; rewrite E; clear E end.
  apply (wp_files _ _ files [] img4); [done|done|]; cbn [app]; intros img5 B5; wp_step.
  apply wp_rinode; [done|]; pose proof (bu_file _ _ _ _ B5 0 _ eq_refl) as Hroot; pose proof (ho_head _ _ _ _ Hroot) as Hh; cbn [fst snd] in Hh.
  set (g := img_read img5) in *; set (d := di g (inum_of 0)) in *; change (di g 1) with d; assert (di_size d = size (root_bytes files)) as Esz by (by injection Hh).
  rewrite Esz, root_final by done; wp_step; apply wp_winode; [apply B5|done| |].
  - pose proof (holds_dinode_ok _ _ _ _ Hroot Hroom) as [K1 K2 K3 K4 K5 K6 K7]; split; auto; cbn [set_size di_size]; by apply final_range.
  - intros img6 W; wp_steps; cbn [k_freeblock mk]; unfold balloc, assert_; rewrite (proj2 (Z.ltb_lt _ BPB)) by (unfold FSSIZE in Hroom; change BPB with 8192; lia).
    wp_step; wp_step; change (sb_bmapstart mk_sb) with 46; apply wp_wsect; [unfold FSSIZE; lia|]; apply HQ; fold (bitmap (nmeta + blocks (layout files))).
    apply (image_finish g (img_read img6) _ _ _ files B5); [done|by rewrite view_insert, decide_True|intros x Hx; by rewrite view_insert, decide_False].
Qed.

(** ** Theorems *)

Lemma mk_geometry : geometry (home 2) mk_sb.
Proof.
  split; [by vm_compute..|]; unfold home, in_log; change (sb_inodestart mk_sb) with 33; change (sb_size mk_sb) with 2000; lia.
Qed.

(** A file whose size its blocks cover is fit to be used by the kernel. *)
Lemma has_good g fb d m bytes : has g fb d m bytes -> nmeta <= fb <= FSSIZE -> (forall b, 0 <= b < FSSIZE -> used mk_sb g b = (b <? fb)) ->
  0 <= di_size d <= m * BSIZE -> dinode_ok d -> good_file mk_sb g d.
Proof.
  intros Hh Hfb Hu Hsz Hd; pose proof Hh as [H1 H2 H3 H4 H5 H6 H7]; change nmeta with 47 in *; unfold FSSIZE in *; change MAXFILE with 268 in *; change BSIZE with 1024 in *.
  assert (forall x, 47 <= x < fb -> data_block mk_sb x /\ used mk_sb g x = true) as Hx.
  { intros x Hx; split; [unfold data_block, datastart; change (sb_bmapstart mk_sb + sb_size mk_sb / BPB + 1) with 47; change (sb_size mk_sb) with 2000; lia|].
    rewrite Hu by lia; apply Z.ltb_lt; lia. }
  split; [split|change MAXFILE with 268; change BSIZE with 1024; lia| |done]; auto.
  - destruct (12 <? m); [right; by apply Hx|by left].
  - intros bn Hb Hne; specialize (H4 bn Hb); destruct (bn <? m); [destruct H4 as [H4 ?]; destruct (Hx _ H4); auto|done].
  - intros bn Hb Hlt; change BSIZE with 1024 in Hlt; assert (in_file bn) as Hin by (split; change MAXFILE with 268; lia).
    specialize (H4 bn Hin); rewrite (proj2 (Z.ltb_lt bn m)) in H4 by lia; lia.
Qed.

Lemma final_covered j e files : layout files !! j = Some e -> (Z.of_nat (length files) + 2) mod 64 <> 0 -> 0 <= final_size j e.2 <= need (size e.2) * BSIZE.
Proof.
  intros He Hmod; unfold final_size; case_decide; [|split; [unfold size; lia|apply need_bound]].
  subst j; injection He as <-; cbn [snd]; rewrite root_size; set (n := Z.of_nat (length files) + 2) in *; unfold need; change BSIZE with 1024; change (1024 - 1) with 1023.
  pose proof (Z.div_mod n 64 ltac:(lia)); pose proof (Z.mod_pos_bound n 64 ltac:(lia)).
  assert (16 * n / 1024 = n / 64) as -> by (symmetry; apply (Z.div_unique_pos _ 1024 _ (16 * (n mod 64))); lia).
  assert ((16 * n + 1023) / 1024 = n / 64 + 1) as -> by (symmetry; apply (Z.div_unique_pos _ 1024 _ (16 * (n mod 64) - 1)); lia); lia.
Qed.

Lemma layout_type files j e : layout files !! j = Some e -> 0 <= e.1 < 2 ^ 15.
Proof.
  destruct j as [|j]; intros He; [by injection He as <-|]; change (map (fun f => (T_FILE, data f)) files !! j = Some e) in He.
  apply list_elem_of_lookup_2, list_elem_of_fmap in He as (f & -> & _); done.
Qed.

(** C8. The image builder makes a file system the kernel can use.  If the programs
    have legal names, fit on the disk, and there is an entry left in the last block of
    the root directory (the number of programs plus 2 is not a multiple of 64), the run ends normally and the image has the super block with
    the layout of the kernel, an empty log, a bitmap that marks exactly the blocks in
    use, free inodes after the last one, and for the root directory and every program
    an inode that is fit to be read and written, with one link, the right size, and the
    directory entries or the bytes of the program followed by zeros; no block belongs
    to two files. *)
Theorem mkfs_builds files c : fits files -> (Z.of_nat (length files) + 2) mod 64 <> 0 ->
  wp (mkfs files) c mk0 (fun _ _ s => let g := view s in
    (sb_decode (g 1) = mk_sb /\ geometry (home 2) mk_sb /\ recoverable 2 g g /\ meta_used mk_sb g) /\
    k_freeblock s = nmeta + blocks (layout files) /\ (forall b, 0 <= b < FSSIZE -> used mk_sb g b = (b <? k_freeblock s)) /\
    (forall i, inum_of (length (layout files)) <= i < NINODES -> di_type (di g i) = 0) /\
    (forall j e, layout files !! j = Some e -> let d := di g (inum_of j) in
       good_file mk_sb g d /\ di_type d = e.1 /\ di_nlink d = 1 /\ di_size d = final_size j e.2 /\
       forall o, 0 <= o < di_size d -> fbyte g d o = aget 0 e.2 o) /\
    (forall j k x, (j < length (layout files))%nat -> (k < length (layout files))%nat ->
       part g (di g (inum_of j)) x -> part g (di g (inum_of k)) x -> j = k)).
Proof.
  intros Hfit Hmod; apply wp_mkfs; [done|]; intros img fb [I1 I2 I3 I4 I5 I6 I7]; cbv zeta; cbn [k_img k_freeblock mk]; set (g := img_read img) in *.
  split_and!; auto.
  - rewrite I1 by lia; by vm_compute.
  - apply mk_geometry.
  - apply recoverable_empty; auto; rewrite I1 by lia; by vm_compute.
  - intros b Hb; change (datastart mk_sb) with 47 in Hb; change nmeta with 47 in I3; rewrite I4 by (unfold FSSIZE; lia); apply Z.ltb_lt; lia.
  - intros j e He; destruct (I6 j e He) as [Hh Hhas]; set (d := di g (inum_of j)) in *; pose proof (final_covered j e files He Hmod) as Hc.
    assert (di_size d = final_size j e.2) as Esz by (by injection Hh); rewrite Esz; split_and!; [|by injection Hh..|done|intros o Ho; apply (h_byte _ _ _ _ _ Hhas); lia].
    apply (has_good g fb d _ _ Hhas); auto; [by rewrite Esz|].
    apply (has_dinode_ok _ _ _ _ _ _ _ Hhas (proj2 I3) Hh); [by apply (layout_type files j)|].
    pose proof (h_m _ _ _ _ _ Hhas); change MAXFILE with 268 in *; change BSIZE with 1024 in *; lia.
Qed.

(** Two programs, the second of two blocks. *)
Definition two_programs : list program :=
  [(USER ++ [95; 99; 97; 116], Some [[1; 2; 3]]); ([82; 69; 65; 68; 77; 69], Some [replicate 1024 7; [8; 9]])].

Lemma mkfs_builds_witness : wp (mkfs two_programs) (Ctx 0 []) mk0 (fun _ _ s => let g := view s in
  good_file mk_sb g (di g 3) /\ di_size (di g 3) = 1026 /\ fbyte g (di g 3) 1025 = 9 /\ used mk_sb g 50 = true /\ used mk_sb g 51 = false).
Proof.
  eapply wp_mono; [apply mkfs_builds; [apply (bool_decide_unpack _); by vm_compute|by vm_compute]|].
  intros _ c s (_ & Hfb & Hu & _ & Hf & _); specialize (Hf 2%nat _ eq_refl) as (H1 & _ & _ & H2 & H3); change (inum_of 2) with 3 in H1, H2, H3; cbv zeta.
  assert (k_freeblock s = 51) as E by (rewrite Hfb; by vm_compute); rewrite E in Hu; split_and!; [done|by rewrite H2; vm_compute| | |].
  - rewrite H3; [by vm_compute|rewrite H2; by vm_compute].
  - rewrite Hu; [done|unfold FSSIZE; lia].
  - rewrite Hu; [done|unfold FSSIZE; lia].
Defined.

(** C39. When the entries fill the last block of the root directory exactly, the
    builder still adds a block to its size: the last block of the directory does not
    exist, so the image breaks the kernel's assumption that a file has the blocks its
    size covers. *)
Theorem mkfs_root_hole files c : fits files -> (Z.of_nat (length files) + 2) mod 64 = 0 ->
  wp (mkfs files) c mk0 (fun _ _ s => let g := view s in let d := di g ROOTINO in
    let bn := (Z.of_nat (length files) + 2) / 64 in di_size d = (bn + 1) * BSIZE /\ fblock g d bn = 0 /\ ~ dense g d).
Proof.
  intros Hfit Hmod; apply wp_mkfs; [done|]; intros img fb I; cbv zeta; cbn [k_img mk]; set (g := img_read img) in *.
  destruct (im_file _ _ _ I 0 _ eq_refl) as [Hh Hhas]; change (inum_of 0) with ROOTINO in *; set (d := di g ROOTINO) in *; cbn [fst snd] in Hh, Hhas.
  set (n := Z.of_nat (length files) + 2) in *; pose proof (Z.div_mod n 64 ltac:(lia)) as En.
  assert (size (root_bytes files) = n / 64 * BSIZE) as Es by (rewrite root_size; fold n; change BSIZE with 1024; lia).
  assert (di_size d = (n / 64 + 1) * BSIZE) as Ed by (assert (di_size d = final_size 0 (root_bytes files)) as -> by (by injection Hh); unfold final_size; rewrite decide_True, Es by done; by rewrite Z.div_mul).
  assert (in_file (n / 64)) as Hin.
  { destruct Hfit as (_ & Hi & _); unfold inum_of, layout, NINODES in Hi; cbn [length] in Hi; rewrite length_map in Hi; split; change MAXFILE with 268; lia. }
  assert (need (size (root_bytes files)) = n / 64) as Em.
  { apply need_spec; [unfold size; lia|]; rewrite Es; destruct Hin; change BSIZE with 1024; lia. }
  pose proof (h_blk _ _ _ _ _ Hhas _ Hin) as H0; rewrite Em, Z.ltb_irrefl in H0.
  split_and!; [done..|]; intros Hd; apply (Hd (n / 64)); [destruct Hin; lia|rewrite Ed; change BSIZE with 1024; lia|done].
Qed.

(** A full directory block: 62 programs. *)
Definition full_directory : list program := map (fun i => ([97 + i / 10; 97 + i mod 10], Some [])) (zrange 0 62).

Lemma mkfs_root_hole_witness : wp (mkfs full_directory) (Ctx 0 []) mk0 (fun _ _ s => let d := di (view s) ROOTINO in
  di_size d = 2048 /\ fblock (view s) d 1 = 0).
Proof.
  eapply wp_mono; [apply mkfs_root_hole; [apply (bool_decide_unpack _); by vm_compute|by vm_compute]|].
  intros _ c s (H1 & H2 & _); split; [rewrite H1; by vm_compute|exact H2].
Defined.
