(* ===== verification/Spinlock.v ===== *)
(** * Spin locks, [kernel/spinlock.c]

    The locks of [KMonad.v] as the CPUs run them: every CPU executes [acquire]
    and [release] one memory access at a time, in any interleaving with the
    others.  A CPU's own fields ([noff], [intena], the interrupt-enable bit of
    its [sstatus]) are only accessed by itself.  [h_held] records the locks the
    CPU's atomic swap has obtained and not given back; no code reads it.  A lock
    is named by a number; [lk->name] is for messages only and left out. *)

From stdpp Require Import functions.
From S2P Require Import Prelude.

(** [struct spinlock]: [cpu] is the holder, for [holding]. *)
Record spinlock := Spinlock { lk_locked : Z; lk_cpu : option nat }.

Definition initlock : spinlock := Spinlock 0 None.

(** The part of [struct cpu] the locks use, and [sstatus.SIE]. *)
Record cpu := Cpu { noff : Z; intena : bool; sie : bool }.

Definition intr_get (c : cpu) : bool := sie c.
Definition intr_off (c : cpu) : cpu := Cpu (noff c) (intena c) false.
Definition intr_on (c : cpu) : cpu := Cpu (noff c) (intena c) true.

Definition push_off (c : cpu) : cpu :=
  let old := intr_get c in
  let c := intr_off c in
  let c := if noff c =? 0 then Cpu (noff c) old (sie c) else c in
  Cpu (noff c + 1) (intena c) (sie c).

Definition pop_off (c : cpu) : string + cpu :=
  if intr_get c then inl "pop_off - interruptible"%string
  else if noff c <? 1 then inl "pop_off"%string
  else
    let c := Cpu (noff c - 1) (intena c) (sie c) in
    inr (if (noff c =? 0) && intena c then intr_on c else c).

(** Where a CPU stands.  [holding(lk)] reads [locked] and then [cpu]. *)
Inductive pc :=
| Running
| AcqHolding (lk : nat)
| AcqHolding2 (lk : nat) (locked : Z)
| AcqSwap (lk : nat)
| AcqSetCpu (lk : nat)
| RelHolding (lk : nat)
| RelHolding2 (lk : nat) (locked : Z)
| RelClearCpu (lk : nat)
| RelSwap (lk : nat)
| RelPop
| Panicked (msg : string).

Record hart := Hart { h_pc : pc; h_cpu : cpu; h_held : list nat }.

Record lkstate := LkState { l_locks : nat -> spinlock; l_harts : list hart }.

Definition set_lock (lk : nat) (l : spinlock) (s : lkstate) : lkstate :=
  LkState (<[lk := l]> (l_locks s)) (l_harts s).
Definition set_hart (i : nat) (h : hart) (s : lkstate) : lkstate := LkState (l_locks s) (<[i := h]> (l_harts s)).

(** [r = (lk->locked && lk->cpu == mycpu())], with the value read for [locked]. *)
Definition holding2 (locked : Z) (l : spinlock) (i : nat) : bool :=
  negb (locked =? 0) && bool_decide (lk_cpu l = Some i).

(** One step of CPU [i] inside [acquire]. *)
Definition acquire_step (i : nat) (h : hart) (s : lkstate) : lkstate :=
  let goto p := set_hart i (Hart p (h_cpu h) (h_held h)) in
  match h_pc h with
  | AcqHolding lk => goto (AcqHolding2 lk (lk_locked (l_locks s lk))) s
  | AcqHolding2 lk locked =>
      if holding2 locked (l_locks s lk) i then goto (Panicked "acquire") s else goto (AcqSwap lk) s
  | AcqSwap lk =>
      let old := lk_locked (l_locks s lk) in
      let s := set_lock lk (Spinlock 1 (lk_cpu (l_locks s lk))) s in
      if negb (old =? 0) then s
      else set_hart i (Hart (AcqSetCpu lk) (h_cpu h) (lk :: h_held h)) s
  | AcqSetCpu lk =>
      goto Running (set_lock lk (Spinlock (lk_locked (l_locks s lk)) (Some i)) s)
  | _ => s
  end.

(** One step of CPU [i] inside [release]. *)
Definition release_step (i : nat) (h : hart) (s : lkstate) : lkstate :=
  let goto p := set_hart i (Hart p (h_cpu h) (h_held h)) in
  match h_pc h with
  | RelHolding lk => goto (RelHolding2 lk (lk_locked (l_locks s lk))) s
  | RelHolding2 lk locked =>
      if holding2 locked (l_locks s lk) i then goto (RelClearCpu lk) s else goto (Panicked "release") s
  | RelClearCpu lk =>
      goto (RelSwap lk) (set_lock lk (Spinlock (lk_locked (l_locks s lk)) None) s)
  | RelSwap lk =>
      set_hart i (Hart RelPop (h_cpu h) (filter (.≠ lk) (h_held h)))
        (set_lock lk (Spinlock 0 (lk_cpu (l_locks s lk))) s)
  | RelPop =>
      match pop_off (h_cpu h) with
      | inl e => goto (Panicked e) s
      | inr c => set_hart i (Hart Running c (h_held h)) s
      end
  | _ => s
  end.

(** What the code of a CPU does between lock operations: call [acquire] or
    [release], and turn interrupts on or off outside critical sections, as the
    scheduler and the trap handlers do. *)
Inductive lock_call := CallAcquire (lk : nat) | CallRelease (lk : nat) | CallIntrOn | CallIntrOff.

Definition call (i : nat) (h : hart) (o : lock_call) (s : lkstate) : lkstate :=
  match o with
  | CallAcquire lk => set_hart i (Hart (AcqHolding lk) (push_off (h_cpu h)) (h_held h)) s
  | CallRelease lk => set_hart i (Hart (RelHolding lk) (h_cpu h) (h_held h)) s
  | CallIntrOn => set_hart i (Hart Running (intr_on (h_cpu h)) (h_held h)) s
  | CallIntrOff => set_hart i (Hart Running (intr_off (h_cpu h)) (h_held h)) s
  end.

(** Interrupts are only enabled by hand when no lock is held. *)
Definition call_ok (h : hart) (o : lock_call) : bool :=
  match o with CallIntrOn => noff (h_cpu h) =? 0 | _ => true end.

Inductive lstep : lkstate -> lkstate -> Prop :=
| step_call s i h o :
    l_harts s !! i = Some h -> h_pc h = Running -> call_ok h o = true -> lstep s (call i h o s)
| step_acquire s i h :
    l_harts s !! i = Some h -> lstep s (acquire_step i h s)
| step_release s i h :
    l_harts s !! i = Some h -> lstep s (release_step i h s).

(** After boot: no lock is held and no CPU is inside a lock operation. *)
Definition boot (n : nat) (b : bool) : lkstate :=
  LkState (fun _ => initlock) (replicate n (Hart Running (Cpu 0 false b) [])).

(** ** Invariant *)

Definition holds (hs : list hart) (i lk : nat) : Prop := exists h, hs !! i = Some h /\ lk ∈ h_held h.

(** The hart holds [lk] and has recorded itself in [lk->cpu]. *)
Definition recorded (h : hart) (lk : nat) : Prop :=
  lk ∈ h_held h /\ h_pc h <> AcqSetCpu lk /\ h_pc h <> RelSwap lk.
Definition records (hs : list hart) (i lk : nat) : Prop := exists h, hs !! i = Some h /\ recorded h lk.

Record lock_ok (hs : list hart) (lk : nat) (l : spinlock) : Prop := {
  lock_excl i j : holds hs i lk -> holds hs j lk -> i = j;
  lock_held : lk_locked l <> 0 <-> exists i, holds hs i lk;
  lock_cpu i : lk_cpu l = Some i <-> records hs i lk
}.

(** [push_off] calls of the operation in progress that [h_held] does not show. *)
Definition pending (p : pc) : Z :=
  match p with AcqHolding _ | AcqHolding2 _ _ | AcqSwap _ | RelPop => 1 | _ => 0 end.

Definition pc_ok (p : pc) (held : list nat) : Prop :=
  match p with
  | AcqHolding2 lk v | RelHolding2 lk v => lk ∈ held -> v <> 0
  | AcqSwap lk => lk ∉ held
  | AcqSetCpu lk | RelClearCpu lk | RelSwap lk => lk ∈ held
  | Panicked m => m = "acquire"%string \/ m = "release"%string
  | _ => True
  end.

Record hart_ok (h : hart) : Prop := {
  hart_nodup : NoDup (h_held h);
  hart_pc : pc_ok (h_pc h) (h_held h);
  hart_noff : Z.of_nat (length (h_held h)) + pending (h_pc h) <= noff (h_cpu h);
  hart_sie : 0 < noff (h_cpu h) -> sie (h_cpu h) = false
}.

Definition locks_ok (s : lkstate) : Prop :=
  (forall lk, lock_ok (l_harts s) lk (l_locks s lk)) /\ (forall i h, l_harts s !! i = Some h -> hart_ok h).

Lemma holds_insert hs i h h' j lk :
  hs !! i = Some h -> (lk ∈ h_held h' <-> lk ∈ h_held h) -> holds (<[i := h']> hs) j lk <-> holds hs j lk.
Proof.
  intros Hi E; unfold holds; split; intros (x & Hx & Hl).
  - apply list_lookup_insert_Some in Hx as [(-> & -> & _)|[_ Hx]]; [exists h; tauto|eauto].
  - destruct (decide (j = i)) as [->|]; [|exists x; rewrite list_lookup_insert_ne by done; auto].
    simplify_eq; exists h'; rewrite list_lookup_insert_eq by (by eapply lookup_lt_Some); tauto.
Qed.

Lemma records_insert hs i h h' j lk :
  hs !! i = Some h -> (recorded h' lk <-> recorded h lk) -> records (<[i := h']> hs) j lk <-> records hs j lk.
Proof.
  intros Hi E; unfold records; split; intros (x & Hx & Hl).
  - apply list_lookup_insert_Some in Hx as [(-> & -> & _)|[_ Hx]]; [exists h; tauto|eauto].
  - destruct (decide (j = i)) as [->|]; [|exists x; rewrite list_lookup_insert_ne by done; auto].
    simplify_eq; exists h'; rewrite list_lookup_insert_eq by (by eapply lookup_lt_Some); tauto.
Qed.

Lemma holds_at hs i h lk : hs !! i = Some h -> holds hs i lk <-> lk ∈ h_held h.
Proof. intros Hi; unfold holds; split; [intros (x & ? & ?); simplify_eq; done|eauto]. Qed.
Lemma records_at hs i h lk : hs !! i = Some h -> records hs i lk <-> recorded h lk.
Proof. intros Hi; unfold records; split; [intros (x & ? & ?); simplify_eq; done|eauto]. Qed.

(** The read of [holding] decides whether this hart recorded itself. *)
Lemma holding2_recorded s i h lk v :
  locks_ok s -> l_harts s !! i = Some h -> (lk ∈ h_held h -> v <> 0) ->
  holding2 v (l_locks s lk) i = true <-> recorded h lk.
Proof.
  intros [Hl _] Hi Hv; unfold holding2; rewrite andb_true_iff, negb_true_iff, Z.eqb_neq, bool_decide_eq_true.
  rewrite (lock_cpu _ _ _ (Hl lk)), (records_at _ _ _ _ Hi).
  split; [tauto|]; intros H; split; [apply Hv, H|done].
Qed.

(** A step of hart [i] that leaves a lock alone keeps its invariant. *)
Lemma lock_ok_frame hs i h h' lk l :
  hs !! i = Some h -> (lk ∈ h_held h' <-> lk ∈ h_held h) -> (recorded h' lk <-> recorded h lk) ->
  lock_ok hs lk l -> lock_ok (<[i := h']> hs) lk l.
Proof.
  intros Hi E1 E2 [H1 H2 H3]; split.
  - intros a b; rewrite !(holds_insert _ _ h h') by done; auto.
  - rewrite H2; split; intros [a Ha]; exists a; [by rewrite (holds_insert _ _ h h')|by rewrite (holds_insert _ _ h h') in Ha].
  - intros a; rewrite (records_insert _ _ h h') by done; auto.
Qed.

(** The step of hart [i] also changes lock [lk], and may only change its own
    hold on that lock. *)
Lemma locks_ok_update s i h h' lk l :
  locks_ok s -> l_harts s !! i = Some h -> hart_ok h' ->
  (forall lk', lk' <> lk -> (lk' ∈ h_held h' <-> lk' ∈ h_held h) /\ (recorded h' lk' <-> recorded h lk')) ->
  lock_ok (<[i := h']> (l_harts s)) lk l ->
  locks_ok (set_hart i h' (set_lock lk l s)).
Proof.
  intros [Hl Hh] Hi Hok Hf Hk; split; cbn.
  - intros lk'; destruct (decide (lk' = lk)) as [->|Hne]; [by rewrite fn_lookup_insert|].
    rewrite fn_lookup_insert_ne by done; destruct (Hf _ Hne); by apply (lock_ok_frame _ _ h).
  - intros j x; intros [(-> & -> & _)|[_ Hx]]%list_lookup_insert_Some; eauto.
Qed.

(** A step that changes no lock. *)
Lemma locks_ok_hart s i h h' :
  locks_ok s -> l_harts s !! i = Some h -> hart_ok h' -> h_held h' = h_held h ->
  (forall lk, recorded h' lk <-> recorded h lk) -> locks_ok (set_hart i h' s).
Proof.
  intros [Hl Hh] Hi Hok He Hr; split; cbn.
  - intros lk; apply (lock_ok_frame _ _ h); [done|by rewrite He|done|done].
  - intros j x; intros [(-> & -> & _)|[_ Hx]]%list_lookup_insert_Some; eauto.
Qed.

Ltac hart_tac := cbn [h_pc h_cpu h_held recorded pending pc_ok noff intena sie] in *.

Lemma noff_held h : hart_ok h -> 0 <= noff (h_cpu h).
Proof. intros H; pose proof (hart_noff _ H); destruct (h_pc h); cbn [pending] in *; lia. Qed.

Lemma push_off_ok h p :
  hart_ok h -> h_pc h = Running -> pending p = 1 -> pc_ok p (h_held h) -> hart_ok (Hart p (push_off (h_cpu h)) (h_held h)).
Proof.
  intros H Hr Hp Hk; pose proof (noff_held _ H); destruct H as [H1 H2 H3 H4]; rewrite Hr in H3; hart_tac.
  split; hart_tac; [done|done|..]; unfold push_off, intr_off, intr_get; cbn;
    destruct (noff (h_cpu h) =? 0); cbn; try rewrite Hp; try done; lia.
Qed.

Lemma call_keeps s i h o :
  locks_ok s -> l_harts s !! i = Some h -> h_pc h = Running -> call_ok h o = true -> locks_ok (call i h o s).
Proof.
  intros Hs Hi Hr Hc; pose proof (proj2 Hs _ _ Hi) as Hok; pose proof (noff_held _ Hok).
  assert (forall p c, (forall lk, p <> AcqSetCpu lk /\ p <> RelSwap lk) -> hart_ok (Hart p c (h_held h)) ->
            locks_ok (set_hart i (Hart p c (h_held h)) s)) as Hset.
  { intros p c Hp Hh; apply (locks_ok_hart _ _ h); auto; intros lk; unfold recorded; cbn; rewrite Hr.
    destruct (Hp lk); intuition congruence. }
  destruct o as [lk|lk| |]; cbn [call call_ok] in *; apply Hset; try done;
    try (apply push_off_ok; done); destruct Hok as [H1 H2 H3 H4]; rewrite Hr in H3; split; hart_tac; auto; try lia.
  apply Z.eqb_eq in Hc; cbn; lia.
Qed.

(** A failed swap writes 1 over a nonzero value. *)
Lemma locks_ok_respin s lk v :
  locks_ok s -> lk_locked (l_locks s lk) <> 0 -> v <> 0 ->
  locks_ok (set_lock lk (Spinlock v (lk_cpu (l_locks s lk))) s).
Proof.
  intros [Hl Hh] Hk Hv; split; cbn; [|done]; intros lk'.
  destruct (decide (lk' = lk)) as [->|Hne]; [|by rewrite fn_lookup_insert_ne].
  rewrite fn_lookup_insert; destruct (Hl lk) as [H1 H2 H3]; split; cbn; [done| |done].
  rewrite <- H2; tauto.
Qed.

Lemma nobody_holds s lk j : locks_ok s -> lk_locked (l_locks s lk) = 0 -> ~ holds (l_harts s) j lk.
Proof. intros [Hl _] Hk Hj; apply (proj2 (lock_held _ _ _ (Hl lk)) (ex_intro _ j Hj)), Hk. Qed.

(** The hold of the other harts on a lock is theirs alone. *)
Lemma holds_insert_ne hs i j h' lk : j <> i -> holds (<[i := h']> hs) j lk <-> holds hs j lk.
Proof. intros Hne; unfold holds; by rewrite list_lookup_insert_ne. Qed.
Lemma records_insert_ne hs i j h' lk : j <> i -> records (<[i := h']> hs) j lk <-> records hs j lk.
Proof. intros Hne; unfold records; by rewrite list_lookup_insert_ne. Qed.
Lemma holds_insert_eq hs i h h' lk : hs !! i = Some h -> holds (<[i := h']> hs) i lk <-> lk ∈ h_held h'.
Proof. intros Hi; apply holds_at, list_lookup_insert_eq; by eapply lookup_lt_Some. Qed.
Lemma records_insert_eq hs i h h' lk : hs !! i = Some h -> records (<[i := h']> hs) i lk <-> recorded h' lk.
Proof. intros Hi; apply records_at, list_lookup_insert_eq; by eapply lookup_lt_Some. Qed.
Lemma records_holds hs i lk : records hs i lk -> holds hs i lk.
Proof. intros (h & Hh & Hr & _); by exists h. Qed.

(** A lock that only hart [i] holds, seen after a step of that hart. *)
Lemma lock_ok_sole hs i h h' lk l :
  hs !! i = Some h -> (forall j, j <> i -> ~ holds hs j lk) ->
  (lk_locked l <> 0 <-> lk ∈ h_held h') -> (forall j, lk_cpu l = Some j <-> j = i /\ recorded h' lk) ->
  lock_ok (<[i := h']> hs) lk l.
Proof.
  intros Hi Hn Hk Hc.
  assert (forall j, holds (<[i := h']> hs) j lk <-> j = i /\ lk ∈ h_held h') as Hj.
  { intros j; destruct (decide (j = i)) as [->|Hne]; [rewrite (holds_insert_eq _ _ h) by done; tauto|].
    rewrite holds_insert_ne by done; split; [intros H; by apply Hn in H|tauto]. }
  split.
  - intros a b; rewrite !Hj; by intros [-> _] [-> _].
  - rewrite Hk; split; [intros; exists i; by rewrite Hj|intros [a Ha]; apply Hj in Ha; tauto].
  - intros j; rewrite Hc; destruct (decide (j = i)) as [->|Hne]; [rewrite (records_insert_eq _ _ h) by done; tauto|].
    rewrite records_insert_ne by done; split; [tauto|]; intros H; by apply records_holds, Hn in H.
Qed.

Lemma others_hold_not s i h lk j :
  locks_ok s -> l_harts s !! i = Some h -> lk ∈ h_held h -> j <> i -> ~ holds (l_harts s) j lk.
Proof. intros [Hl _] Hi Hin Hne Hj; apply Hne, (lock_excl _ _ _ (Hl lk)); [done|by apply (holds_at _ _ h)]. Qed.

Lemma acquire_keeps s i h : locks_ok s -> l_harts s !! i = Some h -> locks_ok (acquire_step i h s).
Proof.
  intros Hs Hi; pose proof (proj2 Hs _ _ Hi) as Hok; destruct Hok as [H1 H2 H3 H4].
  unfold acquire_step; destruct (h_pc h) as [|lk|lk v|lk|lk|lk|lk v|lk|lk| |m] eqn:Hp; try done; hart_tac.
  - apply (locks_ok_hart _ _ h); auto; [|intros k; unfold recorded; cbn; rewrite Hp; intuition congruence].
    split; hart_tac; auto; intros Hin; apply (lock_held _ _ _ (proj1 Hs lk)); exists i; by apply (holds_at _ _ h).
  - destruct (holding2 v (l_locks s lk) i) eqn:Eh.
    + apply (locks_ok_hart _ _ h); auto; [split; hart_tac; auto; lia|].
      intros k; unfold recorded; cbn; rewrite Hp; intuition congruence.
    + apply (locks_ok_hart _ _ h); auto; [split; hart_tac; auto|intros k; unfold recorded; cbn; rewrite Hp; intuition congruence].
      intros Hin; apply not_true_iff_false in Eh; apply Eh, (holding2_recorded _ _ h); auto.
      unfold recorded; rewrite Hp; intuition congruence.
  - destruct (lk_locked (l_locks s lk) =? 0) eqn:E0; cbn [negb]; [|by apply locks_ok_respin; [|apply Z.eqb_neq|]].
    apply Z.eqb_eq in E0; apply (locks_ok_update _ _ h); auto.
    + split; hart_tac; [by constructor|left|cbn; lia|done].
    + intros k Hk; unfold recorded; hart_tac; rewrite Hp, !elem_of_cons; intuition congruence.
    + apply (lock_ok_sole _ _ h); [done|intros j _; by apply nobody_holds|cbn; split; [left|done]|].
      intros j; cbn; rewrite (lock_cpu _ _ _ (proj1 Hs lk)); unfold recorded; hart_tac.
      split; [|intuition congruence]; intros Hr%records_holds; by apply nobody_holds in Hr.
  - apply (locks_ok_update _ _ h); auto.
    + split; hart_tac; auto.
    + intros k Hk; unfold recorded; hart_tac; rewrite Hp; intuition congruence.
    + apply (lock_ok_sole _ _ h); [done|intros j; by apply (others_hold_not _ _ h)|..]; cbn.
      * rewrite (lock_held _ _ _ (proj1 Hs lk)); split; [done|intros _; exists i; by apply (holds_at _ _ h)].
      * intros j; unfold recorded; hart_tac; intuition congruence.
Qed.

Lemma filter_length_nodup (lk : nat) l : NoDup l -> lk ∈ l -> S (length (filter (.≠ lk) l)) = length l.
Proof.
  induction l as [|x l IH]; [by intros _ ?%elem_of_nil|].
  intros [Hx Hn]%NoDup_cons [->|Hin]%elem_of_cons; cbn [length]; f_equal.
  - rewrite filter_cons_False by auto; f_equal; clear -Hx; induction l as [|y l IH]; [done|].
    apply not_elem_of_cons in Hx as [? ?]; rewrite filter_cons_True by auto; by rewrite IH.
  - assert (x <> lk) by congruence; rewrite filter_cons_True by auto; cbn; auto.
Qed.

Lemma release_keeps s i h : locks_ok s -> l_harts s !! i = Some h -> locks_ok (release_step i h s).
Proof.
  intros Hs Hi; pose proof (proj2 Hs _ _ Hi) as Hok; destruct Hok as [H1 H2 H3 H4].
  unfold release_step; destruct (h_pc h) as [|lk|lk v|lk|lk|lk|lk v|lk|lk| |m] eqn:Hp; try done; hart_tac.
  - apply (locks_ok_hart _ _ h); auto; [|intros k; unfold recorded; cbn; rewrite Hp; intuition congruence].
    split; hart_tac; auto; intros Hin; apply (lock_held _ _ _ (proj1 Hs lk)); exists i; by apply (holds_at _ _ h).
  - destruct (holding2 v (l_locks s lk) i) eqn:Eh.
    + apply (locks_ok_hart _ _ h); auto; [|intros k; unfold recorded; cbn; rewrite Hp; intuition congruence].
      split; hart_tac; auto; by apply (holding2_recorded _ _ h) in Eh as [? _].
    + apply (locks_ok_hart _ _ h); auto; [split; hart_tac; auto|].
      intros k; unfold recorded; cbn; rewrite Hp; intuition congruence.
  - apply (locks_ok_update _ _ h); auto.
    + split; hart_tac; auto.
    + intros k Hk; unfold recorded; hart_tac; rewrite Hp; intuition congruence.
    + apply (lock_ok_sole _ _ h); [done|intros j; by apply (others_hold_not _ _ h)|..]; cbn.
      * rewrite (lock_held _ _ _ (proj1 Hs lk)); split; [done|intros _; exists i; by apply (holds_at _ _ h)].
      * intros j; unfold recorded; hart_tac; intuition congruence.
  - pose proof (filter_length_nodup lk (h_held h) H1 H2).
    apply (locks_ok_update _ _ h); auto.
    + split; hart_tac; [by apply NoDup_filter|done|lia|done].
    + intros k Hk; unfold recorded; hart_tac; rewrite Hp, list_elem_of_filter; intuition congruence.
    + apply (lock_ok_sole _ _ h); [done|intros j; by apply (others_hold_not _ _ h)|..]; cbn.
      * rewrite list_elem_of_filter; tauto.
      * intros j; rewrite (lock_cpu _ _ _ (proj1 Hs lk)); unfold recorded; hart_tac; rewrite list_elem_of_filter.
        split; [|tauto]; intros Hr; destruct (decide (j = i)) as [->|Hne].
        -- apply (records_at _ _ h) in Hr as (_ & _ & Hr); [|done]; congruence.
        -- exfalso; by apply (others_hold_not s i h lk j Hs Hi H2 Hne), records_holds.
  - unfold pop_off, intr_get; rewrite H4 by lia; destruct (noff (h_cpu h) <? 1) eqn:E1; [lia|].
    apply (locks_ok_hart _ _ h); auto; [|intros k; unfold recorded; hart_tac; rewrite Hp; intuition congruence].
    split; hart_tac; [done|done|..]; destruct (_ && _) eqn:E2; cbn in *; try lia; auto.
Qed.

Lemma boot_ok n b : locks_ok (boot n b).
Proof.
  assert (forall i h, replicate n (Hart Running (Cpu 0 false b) []) !! i = Some h -> h = Hart Running (Cpu 0 false b) []) as Hr
    by (intros i h H; by apply lookup_replicate in H as [-> _]).
  assert (forall i lk, ~ holds (l_harts (boot n b)) i lk) as Hn.
  { intros i lk (h & Hh & Hl); apply Hr in Hh as ->; by apply elem_of_nil in Hl. }
  split.
  - intros lk; split; cbn; [by intros i j ?%Hn|split; [done|intros [i ?%Hn]; done]|].
    intros i; split; [done|]; intros ?%records_holds%Hn; done.
  - intros i h Hh; apply Hr in Hh as ->; split; cbn; [constructor|done|lia|lia].
Qed.

Lemma lstep_keeps s s' : lstep s s' -> locks_ok s -> locks_ok s'.
Proof. intros [] Hs; [by apply call_keeps|by apply acquire_keeps|by apply release_keeps]. Qed.

Lemma reachable_ok n b s : rtc lstep (boot n b) s -> locks_ok s.
Proof.
  intros H; assert (locks_ok (boot n b)) as H0 by apply boot_ok; revert H0; induction H; eauto using lstep_keeps.
Qed.

(** [holding(lk)] evaluated by hart [i] in one go. *)
Definition holding (s : lkstate) (lk i : nat) : bool := holding2 (lk_locked (l_locks s lk)) (l_locks s lk) i.

(** C27. In every interleaving of the CPUs, whatever they call: no two CPUs hold
    the same lock; a CPU that runs between lock operations gets from [holding]
    exactly whether it holds the lock; interrupts are off on a CPU that holds a
    lock; and the only panics are those of [acquire] and [release], never those
    of [pop_off]. *)
Theorem spinlock_exclusion n b s :
  rtc lstep (boot n b) s ->
  (forall i j lk, holds (l_harts s) i lk -> holds (l_harts s) j lk -> i = j) /\
  (forall i h lk, l_harts s !! i = Some h -> h_pc h = Running -> holding s lk i = true <-> lk ∈ h_held h) /\
  (forall i h, l_harts s !! i = Some h -> h_held h <> [] -> intr_get (h_cpu h) = false) /\
  (forall i h m, l_harts s !! i = Some h -> h_pc h = Panicked m -> m = "acquire"%string \/ m = "release"%string).
Proof.
  intros Hs%reachable_ok; split_and!.
  - intros i j lk; apply (lock_excl _ _ _ (proj1 Hs lk)).
  - intros i h lk Hi Hr; unfold holding; rewrite (holding2_recorded s i h lk); auto.
    + unfold recorded; rewrite Hr; intuition congruence.
    + intros Hin; apply (lock_held _ _ _ (proj1 Hs lk)); exists i; by apply (holds_at _ _ h).
  - intros i h Hi Hne; pose proof (proj2 Hs _ _ Hi) as H; apply (hart_sie _ H).
    pose proof (hart_noff _ H); destruct (h_held h); [done|]; destruct (h_pc h); cbn [pending length] in *; lia.
  - intros i h m Hi Hm; pose proof (hart_pc _ (proj2 Hs _ _ Hi)) as H; by rewrite Hm in H.
Qed.

(** ** Callers that follow the rules

    [acquire] is called for locks the CPU does not hold, [release] for locks it
    holds. *)
Definition call_disciplined (h : hart) (o : lock_call) : Prop :=
  match o with CallAcquire lk => lk ∉ h_held h | CallRelease lk => lk ∈ h_held h | _ => True end.

Inductive dstep : lkstate -> lkstate -> Prop :=
| dstep_call s i h o :
    l_harts s !! i = Some h -> h_pc h = Running -> call_ok h o = true -> call_disciplined h o -> dstep s (call i h o s)
| dstep_acquire s i h : l_harts s !! i = Some h -> dstep s (acquire_step i h s)
| dstep_release s i h : l_harts s !! i = Some h -> dstep s (release_step i h s).

Definition pc_disciplined (h : hart) : Prop :=
  match h_pc h with
  | AcqHolding lk | AcqHolding2 lk _ => lk ∉ h_held h
  | RelHolding lk | RelHolding2 lk _ => lk ∈ h_held h
  | Panicked _ => False
  | _ => True
  end.

Definition disciplined (s : lkstate) : Prop :=
  locks_ok s /\ forall i h, l_harts s !! i = Some h -> pc_disciplined h.

Lemma dstep_lstep s s' : dstep s s' -> lstep s s'.
Proof. intros []; [by constructor|by econstructor 2|by econstructor 3]. Qed.

Lemma set_hart_disciplined s i h' :
  (forall j h, l_harts s !! j = Some h -> pc_disciplined h) -> pc_disciplined h' ->
  forall j h, l_harts (set_hart i h' s) !! j = Some h -> pc_disciplined h.
Proof. intros H H' j h [(-> & -> & _)|[_ Hj]]%list_lookup_insert_Some; eauto. Qed.

Lemma dstep_keeps s s' : dstep s s' -> disciplined s -> disciplined s'.
Proof.
  intros Hst [Hok Hd]; split; [eapply lstep_keeps; [by apply dstep_lstep|done]|].
  destruct Hst as [s i h o Hi Hr Hc Hdc|s i h Hi|s i h Hi]; pose proof (Hd _ _ Hi) as Hh; unfold pc_disciplined in Hh.
  - destruct o; cbn [call]; by apply set_hart_disciplined.
  - unfold acquire_step; destruct (h_pc h) as [|lk|lk v|lk|lk|lk|lk v|lk|lk| |m] eqn:Hp; try done;
      try (apply set_hart_disciplined; done).
    + destruct (holding2 v (l_locks s lk) i) eqn:Eh; [|by apply set_hart_disciplined].
      by apply (holding2_recorded _ _ h) in Eh as [? _].
    + destruct (negb _); [done|by apply set_hart_disciplined].
  - unfold release_step; destruct (h_pc h) as [|lk|lk v|lk|lk|lk|lk v|lk|lk| |m] eqn:Hp; try done;
      try (apply set_hart_disciplined; done).
    + destruct (holding2 v (l_locks s lk) i) eqn:Eh; [by apply set_hart_disciplined|].
      pose proof (proj2 Hok _ _ Hi) as H; pose proof (hart_pc _ H) as Hpc; rewrite Hp in Hpc; cbn in Hpc.
      apply not_true_iff_false in Eh; exfalso; apply Eh, (holding2_recorded _ _ h); auto.
      unfold recorded; rewrite Hp; intuition congruence.
    + pose proof (proj2 Hok _ _ Hi) as H; pose proof (hart_noff _ H) as Hn; rewrite Hp in Hn; cbn [pending] in Hn.
      unfold pop_off, intr_get; rewrite (hart_sie _ H) by lia.
      destruct (noff (h_cpu h) <? 1) eqn:E1; [lia|by apply set_hart_disciplined].
Qed.

Lemma boot_disciplined n b : disciplined (boot n b).
Proof. split; [apply boot_ok|]; intros i h H; by apply lookup_replicate in H as [-> _]. Qed.

(** C28. When callers acquire only locks they do not hold and release only locks
    they hold, no CPU ever panics, and a CPU that spins on a lock obtains it at
    its next step unless another CPU holds it at that moment. *)
Theorem spinlock_progress n b s :
  rtc dstep (boot n b) s ->
  (forall i h m, l_harts s !! i = Some h -> h_pc h <> Panicked m) /\
  (forall i h lk, l_harts s !! i = Some h -> h_pc h = AcqSwap lk ->
     (exists j, j <> i /\ holds (l_harts s) j lk) \/ holds (l_harts (acquire_step i h s)) i lk).
Proof.
  intros Hs; assert (disciplined s) as [Hok Hd].
  { pose proof (boot_disciplined n b) as H0; revert H0; induction Hs; eauto using dstep_keeps. }
  split; [intros i h m Hi Hm; specialize (Hd _ _ Hi); unfold pc_disciplined in Hd; by rewrite Hm in Hd|].
  intros i h lk Hi Hp; pose proof (hart_pc _ (proj2 Hok _ _ Hi)) as Hn; rewrite Hp in Hn; cbn in Hn.
  unfold acquire_step; rewrite Hp; destruct (lk_locked (l_locks s lk) =? 0) eqn:E; cbn [negb].
  - right; cbn; apply (holds_insert_eq _ _ h); [done|left].
  - left; apply Z.eqb_neq, (lock_held _ _ _ (proj1 Hok lk)) in E as [j Hj]; exists j; split; [|done].
    intros ->; by apply (holds_at _ _ h) in Hj.
Qed.

(** ** Nested [push_off] and [pop_off] *)

Fixpoint pop_offs (n : nat) (c : cpu) : string + cpu :=
  match n with
  | O => inr c
  | S n => match pop_off c with inl e => inl e | inr c => pop_offs n c end
  end.

Lemma pop_off_inner c : 1 < noff c -> sie c = false -> pop_off c = inr (Cpu (noff c - 1) (intena c) false).
Proof.
  intros Hn Hs; unfold pop_off, intr_get; rewrite Hs; destruct (noff c <? 1) eqn:E; [lia|]; cbn.
  by replace (noff c - 1 =? 0) with false by lia.
Qed.

Lemma pop_offs_inner n c :
  Z.of_nat n < noff c -> sie c = false -> pop_offs n c = inr (Cpu (noff c - Z.of_nat n) (intena c) false).
Proof.
  revert c; induction n as [|n IH]; intros c Hn Hs; cbn [pop_offs].
  - rewrite Z.sub_0_r, <- Hs; by destruct c.
  - rewrite pop_off_inner by (done || lia); rewrite IH; cbn; [|lia|done]; do 2 f_equal; lia.
Qed.

Lemma push_offs n c :
  0 < noff c -> sie c = false -> Nat.iter n push_off c = Cpu (noff c + Z.of_nat n) (intena c) false.
Proof.
  intros Hn Hs; induction n as [|n IH]; [cbn; rewrite Z.add_0_r, <- Hs; by destruct c|].
  rewrite Nat.iter_succ, IH; unfold push_off, intr_off, intr_get; cbn.
  destruct (Z.eqb_spec (noff c + Z.of_nat n) 0); cbn; f_equal; lia.
Qed.

(** It takes as many [pop_off]s to undo as many [push_off]s: outside of any
    pair, they restore the interrupt-enable bit; inside another pair they leave
    interrupts off and restore the state exactly. *)
Theorem push_pop_nest n c :
  0 <= noff c -> (0 < noff c -> sie c = false) ->
  exists c', pop_offs n (Nat.iter n push_off c) = inr c' /\ noff c' = noff c /\ sie c' = sie c /\
             (0 < noff c -> c' = c) /\ (forall k, 0 < k <= Z.of_nat n -> sie (Nat.iter (Z.to_nat k) push_off c) = false).
Proof.
  intros H0 Hs.
  assert (forall m, 0 < noff c -> Nat.iter m push_off c = Cpu (noff c + Z.of_nat m) (intena c) (sie c)) as Hin
    by (intros m Hp; rewrite push_offs by auto; by rewrite Hs).
  assert (forall m, noff c = 0 -> Nat.iter (S m) push_off c = Cpu (Z.of_nat (S m)) (sie c) false) as Hout.
  { intros m Hz; rewrite Nat.iter_succ_r; unfold push_off at 2, intr_off, intr_get; cbn [noff]; rewrite Hz; cbn.
    rewrite push_offs by (cbn; done || lia); cbn; f_equal; lia. }
  destruct (decide (noff c = 0)) as [Hz|Hz].
  - destruct n as [|n]; [exists c; split_and!; [done..|intros; lia]|].
    rewrite Hout, <- Nat.add_1_r by done.
    exists (Cpu 0 (sie c) (sie c)); split_and!; [|done|done|lia|].
    + assert (forall k d, pop_offs (k + 1) d = match pop_offs k d with inl e => inl e | inr d => pop_off d end) as Hsp.
      { induction k as [|k IH]; intros d; cbn; [by destruct (pop_off d)|]; by destruct (pop_off d). }
      rewrite Hsp, pop_offs_inner by (cbn; done || lia); cbn.
      replace (Z.of_nat (n + 1) - Z.of_nat n) with 1 by lia; cbn; by destruct (sie c).
    + intros k Hk; destruct (Z.to_nat k) as [|m] eqn:E; [lia|]; by rewrite Hout.
  - assert (0 < noff c) as Hp by lia; exists c; rewrite Hin by done.
    split_and!; [|done|done|done|intros k Hk; rewrite Hin by done; cbn; auto].
    rewrite pop_offs_inner by (cbn; auto; lia); cbn; f_equal; rewrite <- (Hs Hp); destruct c; cbn; f_equal; lia.
Qed.

(** A run in which CPU 0 takes lock 3 while CPU 1 spins on it. *)
Definition contend : lkstate :=
  let s := boot 2 true in
  let s := call 0 (Hart Running (Cpu 0 false true) []) (CallAcquire 3) s in
  let h0 p l := Hart p (Cpu 1 true false) l in
  let s := acquire_step 0 (h0 (AcqHolding 3) []) s in
  let s := acquire_step 0 (h0 (AcqHolding2 3 0) []) s in
  let s := acquire_step 0 (h0 (AcqSwap 3) []) s in
  let s := acquire_step 0 (h0 (AcqSetCpu 3) [3%nat]) s in
  let s := call 1 (Hart Running (Cpu 0 false true) []) (CallAcquire 3) s in
  let s := acquire_step 1 (h0 (AcqHolding 3) []) s in
  acquire_step 1 (h0 (AcqHolding2 3 1) []) s.

Lemma contend_run : rtc dstep (boot 2 true) contend.
Proof.
  unfold contend; cbv zeta.
  repeat (eapply rtc_r; [|first [apply dstep_acquire; reflexivity
                                |apply dstep_call; [reflexivity..|apply not_elem_of_nil]]]).
  apply rtc_refl.
Qed.

Lemma spinlock_exclusion_witness :
  holds (l_harts contend) 0 3 /\ ~ holds (l_harts contend) 1 3 /\ holding contend 3 0 = true.
Proof.
  assert (rtc lstep (boot 2 true) contend) as Hr by (eapply rtc_subrel; [|apply contend_run]; apply dstep_lstep).
  destruct (spinlock_exclusion 2 true contend Hr) as (He & Hh & _).
  assert (holds (l_harts contend) 0 3) as H0 by (eexists; split; [reflexivity|left]).
  split; [done|]; split; [intros H1; by pose proof (He 0%nat 1%nat 3%nat H0 H1)|].
  eapply (Hh 0%nat); [reflexivity..|left].
Defined.

Lemma spinlock_progress_witness :
  (exists h, l_harts contend !! 1%nat = Some h /\ h_pc h = AcqSwap 3) /\
  (forall m h, l_harts contend !! 1%nat = Some h -> h_pc h <> Panicked m).
Proof.
  split; [eexists; split; reflexivity|]; intros m h Hh.
  exact (proj1 (spinlock_progress 2 true contend contend_run) _ _ m Hh).
Defined.

Lemma push_pop_nest_witness :
  exists c', pop_offs 2 (push_off (push_off (Cpu 0 false true))) = inr c' /\ noff c' = 0 /\ sie c' = true.
Proof.
  destruct (push_pop_nest 2 (Cpu 0 false true)) as (c' & H & Hn & Hs & _); [cbn; lia|cbn; lia|].
  by exists c'.
Defined.
