(* ===== verification/Machine.v ===== *)
(** * The hart: control registers and device registers

    [kernel/riscv.h], [kernel/start.c], [kernel/plic.c].  A hart is its control
    and status registers, its thread pointer and the device registers it reaches
    through memory-mapped addresses.  Each accessor of [riscv.h] is one [csrr],
    [csrw] or [mv] instruction.  What a device answers is not the kernel's code:
    [io_in] is the sequence of values the coming device reads return, whatever
    they are, and [io_out] the device writes made so far, oldest first. *)

From S2P Require Import Prelude KMonad Riscv.

Inductive csr :=
| MHARTID | MSTATUS | MEPC | SSTATUS | SIP | SIE | MIE | SEPC | MEDELEG | MIDELEG | STVEC | STIMECMP
| MENVCFG | PMPCFG0 | PMPADDR0 | SATP | SCAUSE | STVAL | MCOUNTEREN | TIME | TP.

#[global] Instance csr_eq_dec : EqDecision csr.
Proof. solve_decision. Defined.

Record mach := Mach { m_csr : csr -> Z; io_in : list Z; io_out : list (Z * Z) }.

Definition csr_set (r : csr) (v : Z) (m : mach) : mach :=
  Mach (fun x => if decide (x = r) then u64 v else m_csr m x) (io_in m) (io_out m).
Definition r_csr (r : csr) : M mach Z := gets (fun m => m_csr m r).
Definition w_csr (r : csr) (v : Z) : M mach unit := modify (csr_set r v).

(** A load from and a store to a device register. *)
Definition io_read (addr : Z) : M mach Z :=
  let! m := get in
  do! put (Mach (m_csr m) (tl (io_in m)) (io_out m));
  ret (hd 0 (io_in m)).
Definition io_write (addr v : Z) : M mach unit :=
  modify (fun m => Mach (m_csr m) (io_in m) (io_out m ++ [(addr, v)])).

(** ** [riscv.h] *)

Definition r_mhartid : M mach Z := r_csr MHARTID.
Definition MSTATUS_MPP_MASK : Z := Z.shiftl 3 11.
Definition MSTATUS_MPP_M : Z := Z.shiftl 3 11.
Definition MSTATUS_MPP_S : Z := Z.shiftl 1 11.
Definition MSTATUS_MPP_U : Z := Z.shiftl 0 11.
Definition r_mstatus : M mach Z := r_csr MSTATUS.
Definition w_mstatus (x : Z) : M mach unit := w_csr MSTATUS x.
Definition w_mepc (x : Z) : M mach unit := w_csr MEPC x.
Definition SSTATUS_SPP : Z := Z.shiftl 1 8.
Definition SSTATUS_SPIE : Z := Z.shiftl 1 5.
Definition SSTATUS_SIE : Z := Z.shiftl 1 1.
Definition r_sstatus : M mach Z := r_csr SSTATUS.
Definition w_sstatus (x : Z) : M mach unit := w_csr SSTATUS x.
Definition SIE_SEIE : Z := Z.shiftl 1 9.
Definition SIE_STIE : Z := Z.shiftl 1 5.
Definition r_sie : M mach Z := r_csr SIE.
Definition w_sie (x : Z) : M mach unit := w_csr SIE x.
Definition MIE_STIE : Z := Z.shiftl 1 5.
Definition r_mie : M mach Z := r_csr MIE.
Definition w_mie (x : Z) : M mach unit := w_csr MIE x.
Definition w_sepc (x : Z) : M mach unit := w_csr SEPC x.
Definition r_sepc : M mach Z := r_csr SEPC.
Definition w_medeleg (x : Z) : M mach unit := w_csr MEDELEG x.
Definition w_mideleg (x : Z) : M mach unit := w_csr MIDELEG x.
Definition w_stvec (x : Z) : M mach unit := w_csr STVEC x.
Definition w_stimecmp (x : Z) : M mach unit := w_csr STIMECMP x.
Definition r_menvcfg : M mach Z := r_csr MENVCFG.
Definition w_menvcfg (x : Z) : M mach unit := w_csr MENVCFG x.
Definition w_pmpcfg0 (x : Z) : M mach unit := w_csr PMPCFG0 x.
Definition w_pmpaddr0 (x : Z) : M mach unit := w_csr PMPADDR0 x.
Definition w_satp (x : Z) : M mach unit := w_csr SATP x.
Definition r_satp : M mach Z := r_csr SATP.
Definition r_scause : M mach Z := r_csr SCAUSE.
Definition r_stval : M mach Z := r_csr STVAL.
Definition w_mcounteren (x : Z) : M mach unit := w_csr MCOUNTEREN x.
Definition r_mcounteren : M mach Z := r_csr MCOUNTEREN.
Definition r_time : M mach Z := r_csr TIME.
Definition r_tp : M mach Z := r_csr TP.
Definition w_tp (x : Z) : M mach unit := w_csr TP x.

Definition intr_on : M mach unit :=
  let! x := r_sstatus in
  w_sstatus (Z.lor x SSTATUS_SIE).
Definition intr_off : M mach unit :=
  let! x := r_sstatus in
  w_sstatus (Z.land x (u64 (Z.lnot SSTATUS_SIE))).
Definition intr_get : M mach bool :=
  let! x := r_sstatus in
  ret (negb (Z.land x SSTATUS_SIE =? 0)).

(** [proc.c]. *)
Definition cpuid : M mach Z :=
  let! id := r_tp in
  ret (s32 id).

(** ** [start.c]: from machine mode to [main] in supervisor mode *)

Definition timerinit : M mach unit :=
  let! x := r_mie in
  do! w_mie (Z.lor x MIE_STIE);
  let! x := r_menvcfg in
  do! w_menvcfg (Z.lor x (Z.shiftl 1 63));
  let! x := r_mcounteren in
  do! w_mcounteren (Z.lor x 2);
  let! t := r_time in
  w_stimecmp (u64 (t + 1000000)).

(** [main] is the address of the function.  The last instruction, [mret], leaves
    for [mepc] in the mode [MPP] names. *)
Definition start (main : Z) : M mach unit :=
  let! x := r_mstatus in
  let x := Z.land x (u64 (Z.lnot MSTATUS_MPP_MASK)) in
  let x := Z.lor x MSTATUS_MPP_S in
  do! w_mstatus x;
  do! w_mepc main;
  do! w_satp 0;
  do! w_medeleg 0xffff;
  do! w_mideleg 0xffff;
  let! x := r_sie in
  do! w_sie (Z.lor (Z.lor x SIE_SEIE) SIE_STIE);
  do! w_pmpaddr0 0x3fffffffffffff;
  do! w_pmpcfg0 0xf;
  do! timerinit;
  let! id := r_mhartid in
  w_tp (s32 id).

(** ** [plic.c]: the interrupt controller *)

Definition UART0_IRQ : Z := 10.
Definition VIRTIO0_IRQ : Z := 1.
Definition PLIC_SENABLE (hart : Z) : Z := PLIC + 0x2080 + hart * 0x100.
Definition PLIC_SPRIORITY (hart : Z) : Z := PLIC + 0x201000 + hart * 0x2000.
Definition PLIC_SCLAIM (hart : Z) : Z := PLIC + 0x201004 + hart * 0x2000.

Definition plicinit : M mach unit :=
  do! io_write (PLIC + UART0_IRQ * 4) 1;
  io_write (PLIC + VIRTIO0_IRQ * 4) 1.

Definition plicinithart : M mach unit :=
  let! hart := cpuid in
  do! io_write (PLIC_SENABLE hart) (Z.lor (Z.shiftl 1 UART0_IRQ) (Z.shiftl 1 VIRTIO0_IRQ));
  io_write (PLIC_SPRIORITY hart) 0.

Definition plic_claim : M mach Z :=
  let! hart := cpuid in
  let! irq := io_read (PLIC_SCLAIM hart) in
  ret (s32 irq).

Definition plic_complete (irq : Z) : M mach unit :=
  let! hart := cpuid in
  io_write (PLIC_SCLAIM hart) (u32 irq).
