(* ===== verification/Virtio.v ===== *)
(** * The disk driver, [kernel/virtio_disk.c] and [kernel/virtio.h]

    The descriptors, the two rings and the driver's book-keeping.  A descriptor's
    address is what it points to: a request header, the data of a buffer, or a
    status byte.  A buffer is the part of [struct buf] the driver uses, named by
    its index.  A request has three parts, each run under the lock: submitting
    it, the interrupt that reports it done, and freeing its descriptors; between
    them the caller sleeps. *)

From S2P Require Import Prelude KMonad Riscv Machine Bio.

Definition NUM : Z := 8.
Definition VRING_DESC_F_NEXT : Z := 1.
Definition VRING_DESC_F_WRITE : Z := 2.
Definition VIRTIO_BLK_T_IN : Z := 0.
Definition VIRTIO_BLK_T_OUT : Z := 1.

Inductive daddr := ANull | AOps (i : Z) | AData (b : Z) | AStatus (i : Z).

Record virtq_desc := Desc { d_addr : daddr; d_len : Z; d_flags : Z; d_next : Z }.
Record virtio_blk_req := Req { r_type : Z; r_sector : Z }.
Record vinfo := Info { i_b : option Z; i_status : Z }.
Record vbuf := VBuf { vb_blockno : Z; vb_disk : bool; vb_data : block }.

(** [struct disk], with the rings it points to and the buffers of requests. *)
Record vdisk := VDisk {
  v_desc : list virtq_desc;
  v_avail_idx : Z;
  v_avail_ring : list Z;
  v_used_idx_dev : Z;          (* disk.used->idx, written by the device *)
  v_used_ring : list Z;        (* the [id] of each entry *)
  v_free : list bool;
  v_used_idx : Z;              (* disk.used_idx, the driver's *)
  v_info : list vinfo;
  v_ops : list virtio_blk_req;
  v_bufs : list vbuf;
  v_io : mach                  (* the device's registers *)
}.

Definition desc0 : virtq_desc := Desc ANull 0 0 0.
Definition req0 : virtio_blk_req := Req 0 0.
Definition info0 : vinfo := Info None 0.
Definition vbuf0 : vbuf := VBuf 0 false zero_block.

Definition set_descs (l : list virtq_desc) (v : vdisk) : vdisk :=
  VDisk l (v_avail_idx v) (v_avail_ring v) (v_used_idx_dev v) (v_used_ring v) (v_free v) (v_used_idx v) (v_info v) (v_ops v) (v_bufs v) (v_io v).
Definition set_avail (idx : Z) (ring : list Z) (v : vdisk) : vdisk :=
  VDisk (v_desc v) idx ring (v_used_idx_dev v) (v_used_ring v) (v_free v) (v_used_idx v) (v_info v) (v_ops v) (v_bufs v) (v_io v).
Definition set_used (idx : Z) (ring : list Z) (v : vdisk) : vdisk :=
  VDisk (v_desc v) (v_avail_idx v) (v_avail_ring v) idx ring (v_free v) (v_used_idx v) (v_info v) (v_ops v) (v_bufs v) (v_io v).
Definition set_frees (l : list bool) (v : vdisk) : vdisk :=
  VDisk (v_desc v) (v_avail_idx v) (v_avail_ring v) (v_used_idx_dev v) (v_used_ring v) l (v_used_idx v) (v_info v) (v_ops v) (v_bufs v) (v_io v).
Definition set_seen (n : Z) (v : vdisk) : vdisk :=
  VDisk (v_desc v) (v_avail_idx v) (v_avail_ring v) (v_used_idx_dev v) (v_used_ring v) (v_free v) n (v_info v) (v_ops v) (v_bufs v) (v_io v).
Definition set_infos (l : list vinfo) (v : vdisk) : vdisk :=
  VDisk (v_desc v) (v_avail_idx v) (v_avail_ring v) (v_used_idx_dev v) (v_used_ring v) (v_free v) (v_used_idx v) l (v_ops v) (v_bufs v) (v_io v).
Definition set_ops (l : list virtio_blk_req) (v : vdisk) : vdisk :=
  VDisk (v_desc v) (v_avail_idx v) (v_avail_ring v) (v_used_idx_dev v) (v_used_ring v) (v_free v) (v_used_idx v) (v_info v) l (v_bufs v) (v_io v).
Definition set_bufs (l : list vbuf) (v : vdisk) : vdisk :=
  VDisk (v_desc v) (v_avail_idx v) (v_avail_ring v) (v_used_idx_dev v) (v_used_ring v) (v_free v) (v_used_idx v) (v_info v) (v_ops v) l (v_io v).

Definition set_io (m : mach) (v : vdisk) : vdisk :=
  VDisk (v_desc v) (v_avail_idx v) (v_avail_ring v) (v_used_idx_dev v) (v_used_ring v) (v_free v) (v_used_idx v) (v_info v) (v_ops v) (v_bufs v) m.

#[global] Program Instance vdisk_mach : Lens vdisk mach := {| lget := v_io; lset := set_io |}.
Solve All Obligations with by intros; try destruct t.

(** The address of a device register, and its offsets. *)
Definition R (r : Z) : Z := VIRTIO0 + r.
Definition VIRTIO_MMIO_MAGIC_VALUE : Z := 0x000.
Definition VIRTIO_MMIO_VERSION : Z := 0x004.
Definition VIRTIO_MMIO_DEVICE_ID : Z := 0x008.
Definition VIRTIO_MMIO_VENDOR_ID : Z := 0x00c.
Definition VIRTIO_MMIO_DEVICE_FEATURES : Z := 0x010.
Definition VIRTIO_MMIO_DRIVER_FEATURES : Z := 0x020.
Definition VIRTIO_MMIO_QUEUE_SEL : Z := 0x030.
Definition VIRTIO_MMIO_QUEUE_NUM_MAX : Z := 0x034.
Definition VIRTIO_MMIO_QUEUE_NUM : Z := 0x038.
Definition VIRTIO_MMIO_QUEUE_READY : Z := 0x044.
Definition VIRTIO_MMIO_QUEUE_NOTIFY : Z := 0x050.
Definition VIRTIO_MMIO_INTERRUPT_STATUS : Z := 0x060.
Definition VIRTIO_MMIO_INTERRUPT_ACK : Z := 0x064.
Definition VIRTIO_MMIO_STATUS : Z := 0x070.
Definition VIRTIO_MMIO_QUEUE_DESC_LOW : Z := 0x080.
Definition VIRTIO_MMIO_QUEUE_DESC_HIGH : Z := 0x084.
Definition VIRTIO_MMIO_DRIVER_DESC_LOW : Z := 0x090.
Definition VIRTIO_MMIO_DRIVER_DESC_HIGH : Z := 0x094.
Definition VIRTIO_MMIO_DEVICE_DESC_LOW : Z := 0x0a0.
Definition VIRTIO_MMIO_DEVICE_DESC_HIGH : Z := 0x0a4.
Definition VIRTIO_CONFIG_S_ACKNOWLEDGE : Z := 1.
Definition VIRTIO_CONFIG_S_DRIVER : Z := 2.
Definition VIRTIO_CONFIG_S_DRIVER_OK : Z := 4.
Definition VIRTIO_CONFIG_S_FEATURES_OK : Z := 8.
Definition VIRTIO_BLK_F_RO : Z := 5.
Definition VIRTIO_BLK_F_SCSI : Z := 7.
Definition VIRTIO_BLK_F_CONFIG_WCE : Z := 11.
Definition VIRTIO_BLK_F_MQ : Z := 12.
Definition VIRTIO_F_ANY_LAYOUT : Z := 27.
Definition VIRTIO_RING_F_INDIRECT_DESC : Z := 28.
Definition VIRTIO_RING_F_EVENT_IDX : Z := 29.

Definition rreg (r : Z) : M vdisk Z :=
  let! x := zoom (io_read (R r)) in
  ret (u32 x).
Definition wreg (r v : Z) : M vdisk unit := zoom (io_write (R r) (u32 v)).

Definition put_desc (i : Z) (d : virtq_desc) (v : vdisk) : vdisk := set_descs (aset (v_desc v) i d) v.
Definition put_free (i : Z) (b : bool) (v : vdisk) : vdisk := set_frees (aset (v_free v) i b) v.
Definition put_info (i : Z) (x : vinfo) (v : vdisk) : vdisk := set_infos (aset (v_info v) i x) v.
Definition put_op (i : Z) (x : virtio_blk_req) (v : vdisk) : vdisk := set_ops (aset (v_ops v) i x) v.
Definition upd_buf (b : Z) (f : vbuf -> vbuf) (v : vdisk) : vdisk :=
  set_bufs (aset (v_bufs v) b (f (aget vbuf0 (v_bufs v) b))) v.
Definition set_vdisk (x : bool) (b : vbuf) : vbuf := VBuf (vb_blockno b) x (vb_data b).
Definition set_vdata (x : block) (b : vbuf) : vbuf := VBuf (vb_blockno b) (vb_disk b) x.

(** ** Descriptors *)

Definition alloc_desc : M vdisk Z :=
  let! free := gets v_free in
  match List.find (fun i => aget false free i) (zrange 0 (Z.to_nat NUM)) with
  | Some i =>
      do! modify (put_free i false);
      ret i
  | None => ret (-1)
  end.

Definition free_desc (i : Z) : M vdisk unit :=
  if NUM <=? i then panic "free_desc 1" else
  let! free := gets v_free in
  if aget false free i then panic "free_desc 2" else
  do! modify (put_desc i desc0);
  do! modify (put_free i true);
  wakeup ChDiskFree.

(** A chain has at most [NUM] descriptors. *)
Fixpoint free_chain_loop (fuel : nat) (i : Z) : M vdisk unit :=
  match fuel with
  | O => diverge
  | S fuel =>
      let! descs := gets v_desc in
      let flag := d_flags (aget desc0 descs i) in
      let nxt := d_next (aget desc0 descs i) in
      do! free_desc i;
      if negb (Z.land flag VRING_DESC_F_NEXT =? 0) then free_chain_loop fuel nxt else ret tt
  end.
Definition free_chain (i : Z) : M vdisk unit := free_chain_loop (Z.to_nat NUM) i.

(** The three indices, or [None] for -1. *)
Definition alloc3_desc : M vdisk (option (Z * Z * Z)) :=
  let! i0 := alloc_desc in
  if i0 <? 0 then ret None else
  let! i1 := alloc_desc in
  if i1 <? 0 then
    do! free_desc i0;
    ret None
  else
  let! i2 := alloc_desc in
  if i2 <? 0 then
    do! free_desc i0;
    do! free_desc i1;
    ret None
  else ret (Some (i0, i1, i2)).

(** ** Requests *)

Definition sizeof_blk_req : Z := 16.

(** Fill in the descriptors [i0], [i1], [i2] of a request for buffer [b] and hand
    them to the device. *)
Definition submit (i0 i1 i2 b : Z) (write : bool) : M vdisk unit :=
  let! bufs := gets v_bufs in
  let sector := u32 (vb_blockno (aget vbuf0 bufs b) * (BSIZE / 512)) in
  do! modify (put_op i0 (Req (if write then VIRTIO_BLK_T_OUT else VIRTIO_BLK_T_IN) sector));
  do! modify (put_desc i0 (Desc (AOps i0) sizeof_blk_req VRING_DESC_F_NEXT i1));
  do! modify (put_desc i1 (Desc (AData b) BSIZE
        (Z.lor (if write then 0 else VRING_DESC_F_WRITE) VRING_DESC_F_NEXT) i2));
  do! modify (fun v => put_info i0 (Info (i_b (aget info0 (v_info v) i0)) 0xff) v);
  do! modify (put_desc i2 (Desc (AStatus i0) 1 VRING_DESC_F_WRITE 0));
  do! modify (upd_buf b (set_vdisk true));
  do! modify (fun v => put_info i0 (Info (Some b) (i_status (aget info0 (v_info v) i0))) v);
  do! modify (fun v => set_avail (v_avail_idx v) (aset (v_avail_ring v) (v_avail_idx v mod NUM) i0) v);
  do! modify (fun v => set_avail (u16 (v_avail_idx v + 1)) (v_avail_ring v) v);
  wreg VIRTIO_MMIO_QUEUE_NOTIFY 0.

(** [virtio_disk_rw] up to the wait for the request: the array [idx], or asleep
    because descriptors are short; then the caller waits for [b->disk]. *)
Definition virtio_disk_start (b : Z) (write : bool) : M vdisk (Z * Z * Z) :=
  do! acquire VDISK;
  let! idx := alloc3_desc in
  match idx with
  | None => sleep ChDiskFree VDISK
  | Some (i0, i1, i2) =>
      do! submit i0 i1 i2 b write;
      ret (i0, i1, i2)
  end.

(** The wait and what follows it. *)
Definition virtio_disk_finish (b : Z) (idx : Z * Z * Z) : M vdisk unit :=
  let i0 := idx.1.1 in
  let! bufs := gets v_bufs in
  if vb_disk (aget vbuf0 bufs b) then sleep (ChBuf b) VDISK
  else
    do! modify (fun v => put_info i0 (Info None (i_status (aget info0 (v_info v) i0))) v);
    do! free_chain i0;
    release VDISK.

Definition virtio_disk_rw (b : Z) (write : bool) : M vdisk unit :=
  let! idx := virtio_disk_start b write in
  virtio_disk_finish b idx.

(** The loop of the interrupt handler over the new entries of the used ring; the
    device is at most [NUM] entries ahead. *)
Fixpoint intr_loop (fuel : nat) : M vdisk unit :=
  let! v := get in
  if v_used_idx v =? v_used_idx_dev v then ret tt else
  match fuel with
  | O => diverge
  | S fuel =>
      let id := aget 0 (v_used_ring v) (v_used_idx v mod NUM) in
      if negb (i_status (aget info0 (v_info v) id) =? 0) then panic "virtio_disk_intr status" else
      match i_b (aget info0 (v_info v) id) with
      | None => panic "null buffer"
      | Some b =>
          do! modify (upd_buf b (set_vdisk false));
          do! wakeup (ChBuf b);
          do! modify (fun v => set_seen (u16 (v_used_idx v + 1)) v);
          intr_loop fuel
      end
  end.

Definition virtio_disk_intr : M vdisk unit :=
  do! acquire VDISK;
  let! st := rreg VIRTIO_MMIO_INTERRUPT_STATUS in
  do! wreg VIRTIO_MMIO_INTERRUPT_ACK (Z.land st 0x3);
  do! intr_loop (Z.to_nat NUM);
  release VDISK.

(** ** Initialisation

    The three pages for the rings come from [kalloc]: [None] when one is missing.
    Their contents are zeroed. *)

(** [features &= ~(1 << f)] for the features the driver refuses. *)
Definition clear_feature (features f : Z) : Z := Z.land features (u64 (Z.lnot (Z.shiftl 1 f))).
Definition negotiate (features : Z) : Z :=
  foldl clear_feature features
    [VIRTIO_BLK_F_RO; VIRTIO_BLK_F_SCSI; VIRTIO_BLK_F_CONFIG_WCE; VIRTIO_BLK_F_MQ; VIRTIO_F_ANY_LAYOUT;
     VIRTIO_RING_F_EVENT_IDX; VIRTIO_RING_F_INDIRECT_DESC].

(** Up to the allocation of the queue's memory. *)
Definition virtio_probe : M vdisk Z :=
  let! magic := rreg VIRTIO_MMIO_MAGIC_VALUE in
  if negb (magic =? 0x74726976) then panic "could not find virtio disk" else
  let! version := rreg VIRTIO_MMIO_VERSION in
  if negb (version =? 2) then panic "could not find virtio disk" else
  let! device := rreg VIRTIO_MMIO_DEVICE_ID in
  if negb (device =? 2) then panic "could not find virtio disk" else
  let! vendor := rreg VIRTIO_MMIO_VENDOR_ID in
  if negb (vendor =? 0x554d4551) then panic "could not find virtio disk" else
  let status := 0 in
  do! wreg VIRTIO_MMIO_STATUS status;
  let status := Z.lor status VIRTIO_CONFIG_S_ACKNOWLEDGE in
  do! wreg VIRTIO_MMIO_STATUS status;
  let status := Z.lor status VIRTIO_CONFIG_S_DRIVER in
  do! wreg VIRTIO_MMIO_STATUS status;
  let! features := rreg VIRTIO_MMIO_DEVICE_FEATURES in
  do! wreg VIRTIO_MMIO_DRIVER_FEATURES (negotiate features);
  let status := Z.lor status VIRTIO_CONFIG_S_FEATURES_OK in
  do! wreg VIRTIO_MMIO_STATUS status;
  let! status := rreg VIRTIO_MMIO_STATUS in
  if Z.land status VIRTIO_CONFIG_S_FEATURES_OK =? 0 then panic "virtio disk FEATURES_OK unset" else
  do! wreg VIRTIO_MMIO_QUEUE_SEL 0;
  let! ready := rreg VIRTIO_MMIO_QUEUE_READY in
  if negb (ready =? 0) then panic "virtio disk should not be ready" else
  let! max := rreg VIRTIO_MMIO_QUEUE_NUM_MAX in
  if max =? 0 then panic "virtio disk has no queue 0" else
  if max <? NUM then panic "virtio disk max queue too short" else
  ret status.

(** From the zeroing of the queue's memory on; [status] is the device status read
    last. *)
Definition virtio_setup (status desc avail used : Z) : M vdisk unit :=
  do! modify (fun v => set_used 0 (replicate (Z.to_nat NUM) 0) (set_avail 0 (replicate (Z.to_nat NUM) 0)
        (set_descs (replicate (Z.to_nat NUM) desc0) v)));
  do! wreg VIRTIO_MMIO_QUEUE_NUM NUM;
  do! wreg VIRTIO_MMIO_QUEUE_DESC_LOW desc;
  do! wreg VIRTIO_MMIO_QUEUE_DESC_HIGH (Z.shiftr desc 32);
  do! wreg VIRTIO_MMIO_DRIVER_DESC_LOW avail;
  do! wreg VIRTIO_MMIO_DRIVER_DESC_HIGH (Z.shiftr avail 32);
  do! wreg VIRTIO_MMIO_DEVICE_DESC_LOW used;
  do! wreg VIRTIO_MMIO_DEVICE_DESC_HIGH (Z.shiftr used 32);
  do! wreg VIRTIO_MMIO_QUEUE_READY 0x1;
  do! for_each (zrange 0 (Z.to_nat NUM)) (fun i => modify (put_free i true));
  wreg VIRTIO_MMIO_STATUS (Z.lor status VIRTIO_CONFIG_S_DRIVER_OK).
