(* ===== verification/VirtioSystem.v ===== *)
(** * The disk driver and the disk

    Threads that call [virtio_disk_rw], the interrupt handler and the device, in
    any interleaving.  The parts of a request that run under [vdisk_lock] are the
    definitions of [Virtio.v]: a thread sleeps between them.

    The device is what the virtio specification says of a block device: it takes
    the entries of the available ring in their order, completes the requests it
    has taken in any order, and reports them in the used ring.  It may fail a
    request, with a status that says so; then a read leaves anything in the buffer
    and a write anything in the block.  A chain of descriptors that is not a block
    request has no meaning ([serve] is [None]).

    The specification is a block store: a request that has returned has read or
    written the block, at once.  This is the contract [Bio.v] uses. *)

From S2P Require Import Prelude KMonad Riscv Machine Bio Virtio.

(** ** The device *)

Definition desc_at (v : vdisk) (i : Z) : virtq_desc := aget desc0 (v_desc v) i.
Definition buf_at (v : vdisk) (b : Z) : vbuf := aget vbuf0 (v_bufs v) b.
Definition info_at (v : vdisk) (i : Z) : vinfo := aget info0 (v_info v) i.
Definition op_at (v : vdisk) (i : Z) : virtio_blk_req := aget req0 (v_ops v) i.

(** The disk, by block: block [n] is the sectors [2n] and [2n+1]. *)
Definition image : Type := Z -> block.
Definition upd (f : image) (n : Z) (x : block) : image := fun m => if decide (m = n) then x else f m.

Definition has_flag (d : virtq_desc) (f : Z) : bool := negb (Z.land (d_flags d) f =? 0).

(** What the device makes of a request, and the status it reports. *)
Definition VIRTIO_BLK_S_OK : Z := 0.
Definition VIRTIO_BLK_S_IOERR : Z := 1.
Definition VIRTIO_BLK_S_UNSUPP : Z := 2.
Inductive outcome := Success | Failure (unsupported : bool) (data : block).
Definition status_of (o : outcome) : Z :=
  match o with Success => VIRTIO_BLK_S_OK | Failure u _ => if u then VIRTIO_BLK_S_UNSUPP else VIRTIO_BLK_S_IOERR end.
Definition moved (o : outcome) (data : block) : block := match o with Success => data | Failure _ d => d end.

(** The transfer that the chain at [head] asks for. *)
Definition serve (head : Z) (o : outcome) (v : vdisk) (f : image) : option (vdisk * image) :=
  let d0 := desc_at v head in
  let d1 := desc_at v (d_next d0) in
  let d2 := desc_at v (d_next d1) in
  match d_addr d0, d_addr d1, d_addr d2 with
  | AOps k, AData b, AStatus j =>
      let r := op_at v k in
      if has_flag d0 VRING_DESC_F_NEXT && negb (has_flag d0 VRING_DESC_F_WRITE) && (d_len d0 =? sizeof_blk_req) &&
         has_flag d1 VRING_DESC_F_NEXT && (d_len d1 =? BSIZE) &&
         negb (has_flag d2 VRING_DESC_F_NEXT) && has_flag d2 VRING_DESC_F_WRITE && (d_len d2 =? 1) && (r_sector r mod 2 =? 0)
      then
        let n := r_sector r / 2 in
        let status := put_info j (Info (i_b (info_at v j)) (status_of o)) in
        if (r_type r =? VIRTIO_BLK_T_IN) && has_flag d1 VRING_DESC_F_WRITE then Some (status (upd_buf b (set_vdata (moved o (f n))) v), f)
        else if (r_type r =? VIRTIO_BLK_T_OUT) && negb (has_flag d1 VRING_DESC_F_WRITE) then Some (status v, upd f n (moved o (vb_data (buf_at v b))))
        else None
      else None
  | _, _, _ => None
  end.

(** A new entry of the used ring. *)
Definition report (head : Z) (v : vdisk) : vdisk :=
  set_used (u16 (v_used_idx_dev v + 1)) (aset (v_used_ring v) (v_used_idx_dev v mod NUM) head) v.

(** ** The system *)

(** A call of [virtio_disk_rw] that has submitted its request, with its local
    array [idx]. *)
Record request := Rq { q_b : Z; q_write : bool; q_idx : Z * Z * Z }.
#[global] Instance request_eq_dec : EqDecision request.
Proof. solve_decision. Defined.
Definition q_head (r : request) : Z := (q_idx r).1.1.
Definition q_descs (r : request) : list Z := let '(i0, i1, i2) := q_idx r in [i0; i1; i2].

Record dsys := DSys {
  y_v : vdisk;
  y_disk : image;
  y_last : Z;              (* the next entry of the available ring the device takes *)
  y_taken : list Z;        (* the requests the device works on *)
  y_reqs : list request
}.

Inductive event :=
| EStart (b n : Z) (write : bool) (data : block)
| EFinish (b : Z) (data : block).

Definition blockno_of (s : dsys) (b : Z) : Z := vb_blockno (buf_at (y_v s) b).

(** A buffer that can be used for a new request: its holder has no request, and,
    as the cache has one buffer per block, nobody has one for the same block. *)
Definition idle (s : dsys) (b : Z) : Prop :=
  0 <= b < Z.of_nat (length (v_bufs (y_v s))) /\ b ∉ (q_b <$> y_reqs s).
Definition startable (s : dsys) (b : Z) : Prop :=
  idle s b /\ 0 <= blockno_of s b < 2 ^ 31 /\ blockno_of s b ∉ (blockno_of s ∘ q_b <$> y_reqs s).

Inductive dstep : dsys -> list event -> dsys -> Prop :=
| step_start s b write pid idx c' v' w :
    startable s b -> virtio_disk_start b write (Ctx pid []) (y_v s) = Ret idx c' v' w ->
    dstep s [EStart b (blockno_of s b) write (vb_data (buf_at (y_v s) b))]
      (DSys v' (y_disk s) (y_last s) (y_taken s) (y_reqs s ++ [Rq b write idx]))
| step_wait s b write pid ch c' v' :
    startable s b -> virtio_disk_start b write (Ctx pid []) (y_v s) = Block ch c' v' ->
    dstep s [] (DSys v' (y_disk s) (y_last s) (y_taken s) (y_reqs s))
| step_client s b n data :
    idle s b ->
    dstep s [] (DSys (upd_buf b (fun _ => VBuf n false data) (y_v s)) (y_disk s) (y_last s) (y_taken s) (y_reqs s))
| step_take s :
    y_last s <> v_avail_idx (y_v s) ->
    dstep s [] (DSys (y_v s) (y_disk s) (u16 (y_last s + 1)) (y_taken s ++ [aget 0 (v_avail_ring (y_v s)) (y_last s mod NUM)]) (y_reqs s))
| step_serve s t1 head t2 o v' f' :
    y_taken s = t1 ++ head :: t2 -> serve head o (y_v s) (y_disk s) = Some (v', f') ->
    dstep s [] (DSys (report head v') f' (y_last s) (t1 ++ t2) (y_reqs s))
| step_intr s pid h io c' v' w :
    VDISK ∉ h -> virtio_disk_intr (Ctx pid h) (set_io io (y_v s)) = Ret tt c' v' w ->
    dstep s [] (DSys v' (y_disk s) (y_last s) (y_taken s) (y_reqs s))
| step_finish s l1 r l2 pid c' v' w :
    y_reqs s = l1 ++ r :: l2 -> virtio_disk_finish (q_b r) (q_idx r) (Ctx pid [VDISK]) (y_v s) = Ret tt c' v' w ->
    dstep s [EFinish (q_b r) (vb_data (buf_at v' (q_b r)))] (DSys v' (y_disk s) (y_last s) (y_taken s) (l1 ++ l2)).

Inductive dsteps : dsys -> list event -> dsys -> Prop :=
| dsteps_refl s : dsteps s [] s
| dsteps_snoc s tr s1 e s2 : dsteps s tr s1 -> dstep s1 e s2 -> dsteps s (tr ++ e) s2.

(** What [virtio_disk_init] leaves: all descriptors free, the rings empty; the
    buffers hold anything. *)
Definition boot (bufs : list vbuf) (io : mach) (f : image) : dsys :=
  DSys (VDisk (replicate 8 desc0) 0 (replicate 8 0) 0 (replicate 8 0) (replicate 8 true) 0 (replicate 8 info0) (replicate 8 req0) bufs io) f 0 [] [].

(** The driver's variables are zero when the kernel starts. *)
Lemma setup_boots status desc avail used c bufs io f descs ai ar ui ur :
  exists io', virtio_setup status desc avail used c
    (VDisk descs ai ar ui ur (replicate 8 false) 0 (replicate 8 info0) (replicate 8 req0) bufs io) = Ret tt c (y_v (boot bufs io' f)) [].
Proof. eexists; reflexivity. Qed.

(** ** The specification *)

Record pending := Pend { p_b : Z; p_n : Z; p_write : bool; p_data : block }.
Record store := Store { t_disk : image; t_pend : list pending }.

(** A write has the data the buffer had when the request was made; both kinds take
    effect when the request returns. *)
Inductive sstep : store -> event -> store -> Prop :=
| spec_start t b n write data :
    sstep t (EStart b n write data) (Store (t_disk t) (t_pend t ++ [Pend b n write data]))
| spec_finish t l1 p l2 data :
    t_pend t = l1 ++ p :: l2 -> data = (if p_write p then p_data p else t_disk t (p_n p)) ->
    sstep t (EFinish (p_b p) data) (Store (if p_write p then upd (t_disk t) (p_n p) (p_data p) else t_disk t) (l1 ++ l2)).

Inductive ssteps : store -> list event -> store -> Prop :=
| ssteps_refl t : ssteps t [] t
| ssteps_snoc t tr t1 e t2 : ssteps t tr t1 -> sstep t1 e t2 -> ssteps t (tr ++ [e]) t2.

(** ** Arrays of the driver *)

Definition shape (v : vdisk) : Prop :=
  length (v_desc v) = 8%nat /\ length (v_avail_ring v) = 8%nat /\ length (v_used_ring v) = 8%nat /\
  length (v_free v) = 8%nat /\ length (v_info v) = 8%nat /\ length (v_ops v) = 8%nat.

Definition free_at (v : vdisk) (i : Z) : bool := aget false (v_free v) i.

(** Out of range [aset] writes nothing, so for a buffer no bound is needed when it
    keeps what the buffer has there. *)
Lemma desc_put v i d j : shape v -> 0 <= i < 8 -> 0 <= j -> desc_at (put_desc i d v) j = if decide (j = i) then d else desc_at v j.
Proof. intros (H & _) ? ?; unfold desc_at; cbn; apply aget_aset; lia. Qed.
Lemma free_put v i x j : shape v -> 0 <= i < 8 -> 0 <= j -> free_at (put_free i x v) j = if decide (j = i) then x else free_at v j.
Proof. intros (_ & _ & _ & H & _) ? ?; unfold free_at; cbn; apply aget_aset; lia. Qed.
Lemma info_put v i x j : shape v -> 0 <= i < 8 -> 0 <= j -> info_at (put_info i x v) j = if decide (j = i) then x else info_at v j.
Proof. intros (_ & _ & _ & _ & H & _) ? ?; unfold info_at; cbn; apply aget_aset; lia. Qed.
Lemma op_put v i x j : shape v -> 0 <= i < 8 -> 0 <= j -> op_at (put_op i x v) j = if decide (j = i) then x else op_at v j.
Proof. intros (_ & _ & _ & _ & _ & H) ? ?; unfold op_at; cbn; apply aget_aset; lia. Qed.
Lemma buf_upd v b f j : 0 <= b < Z.of_nat (length (v_bufs v)) -> 0 <= j -> buf_at (upd_buf b f v) j = if decide (j = b) then f (buf_at v b) else buf_at v j.
Proof. intros ? ?; unfold buf_at; cbn; by apply aget_aset. Qed.

Lemma shape_put_desc v i d : shape v -> shape (put_desc i d v).
Proof. unfold shape; cbn; by rewrite length_aset. Qed.
Lemma shape_put_free v i d : shape v -> shape (put_free i d v).
Proof. unfold shape; cbn; by rewrite length_aset. Qed.
Lemma shape_put_info v i d : shape v -> shape (put_info i d v).
Proof. unfold shape; cbn; by rewrite length_aset. Qed.
Lemma shape_put_op v i d : shape v -> shape (put_op i d v).
Proof. unfold shape; cbn; by rewrite length_aset. Qed.
Lemma shape_set_avail v n i x : shape v -> shape (set_avail n (aset (v_avail_ring v) i x) v).
Proof. unfold shape; cbn; by rewrite length_aset. Qed.
Lemma shape_report v head : shape v -> shape (report head v).
Proof. unfold shape; cbn; by rewrite length_aset. Qed.

Create HintDb virtio.
#[export] Hint Resolve shape_put_desc shape_put_free shape_put_info shape_put_op shape_set_avail shape_report : virtio.

(** ** Descriptors *)

Lemma alloc_desc_spec v c : shape v ->
  wp alloc_desc c v (fun i c' v' => c' = c /\
    ((0 <= i < 8 /\ free_at v i = true /\ v' = put_free i false v) \/
     (i = -1 /\ v' = v /\ forall j, 0 <= j < 8 -> free_at v j = false))).
Proof.
  intros Hs; unfold alloc_desc; wp_steps; pose proof (find_zrange (fun i => aget false (v_free v) i) 0 (Z.to_nat NUM)) as H.
  change (0 + Z.of_nat (Z.to_nat NUM)) with 8 in H; destruct (List.find _ _) as [i|]; wp_steps; split; [done| |done|].
  - left; by destruct H as (H1 & H2 & _).
  - by right.
Qed.

Lemma free_desc_spec v c i : shape v -> 0 <= i < 8 -> free_at v i = false ->
  wp (free_desc i) c v (fun _ c' v' => c' = c /\ v' = put_free i true (put_desc i desc0 v)).
Proof.
  intros Hs Hi Hf; unfold free_desc; rewrite (proj2 (Z.leb_gt NUM i)) by (unfold NUM; lia); wp_steps.
  change (aget false (v_free v) i) with (free_at v i); rewrite Hf; by wp_steps.
Qed.

(** [v'] is [v] but for the contents of free descriptors. *)
Record cleared (v v' : vdisk) : Prop := {
  cl_rest : set_descs (v_desc v) v' = v;
  cl_desc : forall j, 0 <= j < 8 -> free_at v j = false -> desc_at v' j = desc_at v j;
  cl_shape : shape v'
}.

Lemma rest_eq v v' : v_avail_idx v' = v_avail_idx v -> v_avail_ring v' = v_avail_ring v -> v_used_idx_dev v' = v_used_idx_dev v ->
  v_used_ring v' = v_used_ring v -> v_free v' = v_free v -> v_used_idx v' = v_used_idx v -> v_info v' = v_info v -> v_ops v' = v_ops v ->
  v_bufs v' = v_bufs v -> v_io v' = v_io v -> set_descs (v_desc v) v' = v.
Proof. destruct v, v'; cbn; intros; by subst. Qed.

Lemma refree v i : shape v -> 0 <= i < 8 -> free_at v i = true -> aset (aset (v_free v) i false) i true = v_free v.
Proof.
  intros (_ & _ & _ & H & _) Hi Hf; unfold aset; rewrite list_insert_insert_eq; apply list_insert_id.
  rewrite <- Hf; unfold free_at; rewrite (lookup_aget false) by lia; done.
Qed.

Lemma refree2 v i j : shape v -> 0 <= i < 8 -> 0 <= j < 8 -> i <> j -> free_at v i = true -> free_at v j = true ->
  aset (aset (aset (aset (v_free v) i false) j false) i true) j true = v_free v.
Proof.
  intros Hs Hi Hj Hne Ei Ej; unfold aset; rewrite (list_insert_insert_ne _ (Z.to_nat j) (Z.to_nat i) false) by lia.
  rewrite list_insert_insert_eq, (list_insert_insert_ne _ (Z.to_nat i) (Z.to_nat j)), list_insert_insert_eq by lia.
  rewrite (list_insert_id (v_free v)); [apply list_insert_id; rewrite <- Ej|rewrite <- Ei]; apply (lookup_aget false); destruct Hs as (_ & _ & _ & H & _); lia.
Qed.

Lemma alloc3_desc_spec v c : shape v ->
  wp alloc3_desc c v (fun r c' v' => c' = c /\
    match r with
    | Some (i0, i1, i2) => NoDup [i0; i1; i2] /\ Forall (fun i => 0 <= i < 8 /\ free_at v i = true) [i0; i1; i2] /\
        v' = put_free i2 false (put_free i1 false (put_free i0 false v))
    | None => cleared v v' /\ exists l, (length l <= 2)%nat /\ forall j, 0 <= j < 8 -> free_at v j = true -> j ∈ l
    end).
Proof.
  intros Hs; unfold alloc3_desc; wp_step; eapply wp_mono; [by apply alloc_desc_spec|].
  intros i0 ? v0 (-> & [(Hi0 & Hf0 & ->)|(-> & -> & Hno)]).
  2: { cbn; wp_steps; split_and!; auto; [|exists []; split; [simpl; lia|]; intros j Hj; by rewrite Hno].
       split; [by destruct v|done|done]. }
  rewrite (proj2 (Z.ltb_ge i0 0)) by lia; set (v0 := put_free i0 false v); assert (shape v0) as Hs0 by (by apply shape_put_free).
  wp_step; eapply wp_mono; [by apply alloc_desc_spec|]; intros i1 ? v1 (-> & [(Hi1 & Hf1 & ->)|(-> & -> & Hno)]).
  2: { cbn -[NUM]; wp_step; eapply wp_mono.
       { apply free_desc_spec; [done|done|]; unfold v0; rewrite free_put, decide_True by (done || lia); done. }
       intros _ ? ? [-> ->]; wp_steps; split_and!; auto; [|exists [i0]; split; [simpl; lia|]; intros j Hj Hf].
       - split; [|intros j Hj Hf|by auto with virtio]; [apply rest_eq; try reflexivity; by apply refree|].
         change (desc_at (put_desc i0 desc0 v0) j = desc_at v j); rewrite desc_put by (done || lia); rewrite decide_False; [done|congruence].
       - apply list_elem_of_singleton; destruct (decide (j = i0)) as [|Hne]; [done|]; specialize (Hno j Hj); unfold v0 in Hno.
         rewrite free_put, decide_False in Hno by (done || lia); congruence. }
  rewrite (proj2 (Z.ltb_ge i1 0)) by lia; unfold v0 in Hf1; rewrite free_put in Hf1 by (done || lia); case_decide as Hne1; [done|].
  set (v1 := put_free i1 false v0); assert (shape v1) as Hs1 by (by apply shape_put_free).
  wp_step; eapply wp_mono; [by apply alloc_desc_spec|]; intros i2 ? v2 (-> & [(Hi2 & Hf2 & ->)|(-> & -> & Hno)]).
  - rewrite (proj2 (Z.ltb_ge i2 0)) by lia; unfold v1, v0 in Hf2; rewrite !free_put in Hf2 by (auto with virtio || lia).
    case_decide; [done|]; case_decide; [done|]; wp_steps; split_and!; [done| |repeat (apply Forall_cons; split; [done|]); by apply Forall_nil_2|done].
    apply NoDup_cons; split; [rewrite !elem_of_cons, elem_of_nil; intuition congruence|].
    apply NoDup_cons; split; [rewrite !elem_of_cons, elem_of_nil; intuition congruence|apply NoDup_singleton].
  - cbn -[NUM]; wp_step; eapply wp_mono.
    { apply free_desc_spec; [done|done|]; unfold v1, v0; rewrite !free_put by (auto with virtio || lia); rewrite decide_False, decide_True by congruence; done. }
    intros _ ? ? [-> ->]; wp_step; eapply wp_mono.
    { apply free_desc_spec; [by auto with virtio|done|]; rewrite free_put by (auto with virtio || lia); rewrite decide_False by done.
      change (free_at v1 i1 = false); unfold v1; rewrite free_put, decide_True by (done || lia); done. }
    intros _ ? ? [-> ->]; wp_steps; split_and!; auto; [|exists [i0; i1]; split; [simpl; lia|]; intros j Hj Hf].
    + split; [|intros j Hj Hf|by auto 6 with virtio].
      * pose proof (refree2 v i0 i1 Hs Hi0 Hi1 (not_eq_sym Hne1) Hf0 Hf1) as E; apply rest_eq; try reflexivity; exact E.
      * change (desc_at (put_desc i1 desc0 (put_desc i0 desc0 v1)) j = desc_at v j); rewrite !desc_put by (auto with virtio || lia).
        rewrite !decide_False by congruence; done.
    + rewrite !elem_of_cons; destruct (decide (j = i0)); [by left|]; destruct (decide (j = i1)); [by right; left|]; specialize (Hno j Hj).
      unfold v1, v0 in Hno; rewrite !free_put, !decide_False in Hno by (auto with virtio || lia); congruence.
Qed.

(** ** Rings *)

(** The entries of a ring from [start] on. *)
Definition segment (ring : list Z) (start : Z) (l : list Z) : Prop :=
  forall k x, l !! k = Some x -> aget 0 ring ((start + Z.of_nat k) mod NUM) = x.

Lemma u16_mod_num x : u16 x mod NUM = x mod NUM.
Proof. unfold u16, NUM; apply Z.mod_mod_divide; by exists (2 ^ 13). Qed.

Lemma segment_wrap ring start l : segment ring (u16 start) l <-> segment ring start l.
Proof.
  assert (forall k, (u16 start + k) mod NUM = (start + k) mod NUM) as E.
  { intros k; rewrite (Z.add_mod (u16 start)), u16_mod_num, <- Z.add_mod; done. }
  unfold segment; split; intros H k x Hk; rewrite <- (H k x Hk); by rewrite E.
Qed.

Lemma segment_push ring start l x : length ring = 8%nat -> (length l < 8)%nat -> segment ring start l ->
  segment (aset ring ((start + Z.of_nat (length l)) mod NUM) x) start (l ++ [x]).
Proof.
  intros Hr Hl H k y Hk; pose proof (Z.mod_pos_bound (start + Z.of_nat (length l)) NUM eq_refl).
  pose proof (Z.mod_pos_bound (start + Z.of_nat k) NUM eq_refl); unfold NUM in *; apply lookup_app_Some in Hk as [Hk|[Hk1 Hk]].
  - pose proof (lookup_lt_Some _ _ _ Hk); rewrite aget_aset_ne; [by apply H|lia|lia|]; intros E.
    assert ((Z.of_nat (length l) - Z.of_nat k) mod 8 = 0) as E2; [|rewrite Z.mod_small in E2; lia].
    replace (Z.of_nat (length l) - Z.of_nat k) with (start + Z.of_nat (length l) - (start + Z.of_nat k)) by lia.
    by rewrite Zminus_mod, E, Z.sub_diag.
  - apply list_lookup_singleton_Some in Hk as [Hk ->]; replace k with (length l) by lia; apply aget_aset_eq; lia.
Qed.

Lemma segment_pop ring start x l : segment ring start (x :: l) ->
  aget 0 ring (start mod NUM) = x /\ segment ring (u16 (start + 1)) l.
Proof.
  intros H; split; [specialize (H 0%nat x eq_refl); by rewrite Z.add_0_r in H|]; apply segment_wrap; intros k y Hk.
  rewrite <- (H (S k) y Hk); do 2 f_equal; lia.
Qed.

(** Ring indices that differ by less than the range of their type differ. *)
Lemma wrap_moves x n : 0 <= x < 2 ^ 16 -> 0 < n < 2 ^ 16 -> x <> u16 (x + n).
Proof.
  intros Hx Hn E; assert (n mod 2 ^ 16 = 0) as E2; [|rewrite Z.mod_small in E2; lia]; unfold u16 in E.
  replace n with (x + n - x) by lia; rewrite Zminus_mod, <- E, (Z.mod_small x) by lia; by rewrite Z.sub_diag.
Qed.

(** ** The invariant *)

Definition descs (l : list request) : list Z := l ≫= q_descs.

(** The chain of a request, as the device reads it. *)
Definition chain_ok (v : vdisk) (r : request) : Prop :=
  let '(i0, i1, i2) := q_idx r in
  desc_at v i0 = Desc (AOps i0) sizeof_blk_req VRING_DESC_F_NEXT i1 /\
  desc_at v i1 = Desc (AData (q_b r)) BSIZE (Z.lor (if q_write r then 0 else VRING_DESC_F_WRITE) VRING_DESC_F_NEXT) i2 /\
  desc_at v i2 = Desc (AStatus i0) 1 VRING_DESC_F_WRITE 0 /\
  op_at v i0 = Req (if q_write r then VIRTIO_BLK_T_OUT else VIRTIO_BLK_T_IN) (u32 (vb_blockno (buf_at v (q_b r)) * 2)) /\
  i_b (info_at v i0) = Some (q_b r) /\
  0 <= q_b r < Z.of_nat (length (v_bufs v)) /\ 0 <= vb_blockno (buf_at v (q_b r)) < 2 ^ 31.

Definition status_at (s : dsys) (r : request) : Z := i_status (info_at (y_v s) (q_head r)).

(** [U] are the requests in the used ring that the handler has not seen, [y_taken s]
    those the device works on and [A] those it has not taken. *)
Record dinv (s : dsys) (U A : list Z) : Prop := {
  iv_shape : shape (y_v s);
  iv_descs : NoDup (descs (y_reqs s));
  iv_range : Forall (fun i => 0 <= i < 8) (descs (y_reqs s));
  iv_free : forall i, 0 <= i < 8 -> free_at (y_v s) i = bool_decide (i ∉ descs (y_reqs s));
  iv_chain : Forall (chain_ok (y_v s)) (y_reqs s);
  iv_bufs : NoDup (q_b <$> y_reqs s);
  iv_blocks : NoDup (blockno_of s ∘ q_b <$> y_reqs s);
  iv_last : 0 <= y_last s < 2 ^ 16;
  iv_avail : segment (v_avail_ring (y_v s)) (y_last s) A;
  iv_avail_idx : v_avail_idx (y_v s) = u16 (y_last s + Z.of_nat (length A));
  iv_seen : 0 <= v_used_idx (y_v s) < 2 ^ 16;
  iv_used : segment (v_used_ring (y_v s)) (v_used_idx (y_v s)) U;
  iv_used_idx : v_used_idx_dev (y_v s) = u16 (v_used_idx (y_v s) + Z.of_nat (length U));
  iv_nodup : NoDup (U ++ y_taken s ++ A);
  iv_heads : Forall (fun h => h ∈ (q_head <$> y_reqs s)) (U ++ y_taken s ++ A);
  iv_flag : Forall (fun r => vb_disk (buf_at (y_v s) (q_b r)) = bool_decide (q_head r ∈ U ++ y_taken s ++ A)) (y_reqs s);
  iv_status : Forall (fun r => (q_head r ∈ y_taken s ++ A -> status_at s r = 255) /\ (q_head r ∉ y_taken s ++ A -> 0 <= status_at s r <= 2) /\
    (q_head r ∉ U ++ y_taken s ++ A -> status_at s r = 0)) (y_reqs s)
}.

(** A pending request of the specification: what it will return is on its way, unless
    the device has failed it. *)
Definition req_rel (s : dsys) (t : store) (A : list Z) (r : request) (p : pending) : Prop :=
  p_b p = q_b r /\ p_n p = blockno_of s (q_b r) /\ p_write p = q_write r /\
  (q_write r = true -> vb_data (buf_at (y_v s) (q_b r)) = p_data p) /\
  (if decide (q_head r ∈ y_taken s ++ A) then y_disk s (p_n p) = t_disk t (p_n p)
   else status_at s r = 0 -> if q_write r then y_disk s (p_n p) = p_data p
   else y_disk s (p_n p) = t_disk t (p_n p) /\ vb_data (buf_at (y_v s) (q_b r)) = t_disk t (p_n p)).

Inductive drel (s : dsys) (t : store) : Prop :=
| DRel U A : dinv s U A -> Forall2 (req_rel s t A) (y_reqs s) (t_pend t) ->
    (forall n, n ∉ (blockno_of s ∘ q_b <$> y_reqs s) -> y_disk s n = t_disk t n) -> drel s t.

Lemma descs_app l1 l2 : descs (l1 ++ l2) = descs l1 ++ descs l2.
Proof. apply bind_app. Qed.

Lemma descs_one r : descs [r] = q_descs r.
Proof. apply bind_singleton. Qed.

Lemma length_descs l : length (descs l) = (3 * length l)%nat.
Proof. induction l as [|[b w [[i0 i1] i2]] l IH]; [done|]; unfold descs in *; cbn in *; lia. Qed.

Lemma head_in_descs r : q_head r ∈ q_descs r.
Proof. destruct r as [b w [[i0 i1] i2]]; cbn; left. Qed.

Lemma descs_in r l i : r ∈ l -> i ∈ q_descs r -> i ∈ descs l.
Proof. intros Hr Hi; apply list_elem_of_bind; by exists r. Qed.

Lemma descs_disjoint l r r' i : NoDup (descs l) -> r ∈ l -> r' ∈ l -> i ∈ q_descs r -> i ∈ q_descs r' -> r = r'.
Proof.
  induction l as [|x l IH]; [by intros _ ?%not_elem_of_nil|]; unfold descs; rewrite bind_cons; intros (_ & Hd & Hl)%NoDup_app.
  intros [->|Hr]%elem_of_cons [->|Hr']%elem_of_cons Hi Hi'; [done| | |by apply IH].
  - destruct (Hd i Hi); by eapply descs_in.
  - destruct (Hd i Hi'); by eapply descs_in.
Qed.

Lemma head_inj l r r' : NoDup (descs l) -> r ∈ l -> r' ∈ l -> q_head r = q_head r' -> r = r'.
Proof. intros Hl Hr Hr' E; eapply (descs_disjoint l _ _ (q_head r)); auto using head_in_descs; rewrite E; apply head_in_descs. Qed.

Lemma nodup_incl {A} (l k : list A) : NoDup l -> Forall (fun x => x ∈ k) l -> (length l <= length k)%nat.
Proof. rewrite Forall_forall; intros H1 H2; by apply submseteq_length, NoDup_submseteq. Qed.

Lemma Forall2_impl_in {A B} (P Q : A -> B -> Prop) l k :
  Forall2 P l k -> (forall x y, x ∈ l -> P x y -> Q x y) -> Forall2 Q l k.
Proof. induction 1 as [|x y l k H _ IH]; intros HQ; constructor; [apply HQ; [left|done]|apply IH; intros; apply HQ; [by right|done]]. Qed.

Lemma few_requests s U A : dinv s U A -> (length (y_reqs s) <= 2)%nat.
Proof.
  intros H; assert (length (descs (y_reqs s)) <= 8)%nat; [|rewrite length_descs in *; lia].
  apply (nodup_incl _ (zrange 0 8)); [apply H|]; eapply Forall_impl; [apply H|]; intros i Hi; by apply elem_of_zrange.
Qed.

Lemma few_pending s U A : dinv s U A -> (length U + length (y_taken s) + length A <= 2)%nat.
Proof.
  intros H; pose proof (few_requests _ _ _ H); pose proof (nodup_incl _ _ (iv_nodup _ _ _ H) (iv_heads _ _ _ H)) as Hl.
  rewrite !length_app, length_fmap in Hl; lia.
Qed.

Lemma chain_frame v v' r : chain_ok v r ->
  (forall i, i ∈ q_descs r -> desc_at v' i = desc_at v i) -> op_at v' (q_head r) = op_at v (q_head r) ->
  i_b (info_at v' (q_head r)) = i_b (info_at v (q_head r)) -> vb_blockno (buf_at v' (q_b r)) = vb_blockno (buf_at v (q_b r)) ->
  length (v_bufs v') = length (v_bufs v) -> chain_ok v' r.
Proof.
  destruct r as [b w [[i0 i1] i2]]; unfold chain_ok, q_head; cbn [q_idx q_b q_write q_descs fst snd].
  intros (H1 & H2 & H3 & H4 & H5 & H6 & H7) Hd Ho Hi Hb Hl; rewrite Ho, Hi, Hb, Hl, !Hd by (rewrite !elem_of_cons; auto); tauto.
Qed.

(** ** Submitting a request *)

Record submitted (i0 i1 i2 b : Z) (write : bool) (v v' : vdisk) : Prop := {
  sb_shape : shape v';
  sb_chain : chain_ok v' (Rq b write (i0, i1, i2));
  sb_desc : forall j, 0 <= j -> j ∉ [i0; i1; i2] -> desc_at v' j = desc_at v j;
  sb_op : forall j, 0 <= j -> j <> i0 -> op_at v' j = op_at v j;
  sb_info : forall j, 0 <= j -> j <> i0 -> info_at v' j = info_at v j;
  sb_status : i_status (info_at v' i0) = 255;
  sb_buf : forall j, 0 <= j -> j <> b -> buf_at v' j = buf_at v j;
  sb_own : buf_at v' b = set_vdisk true (buf_at v b);
  sb_bufs : length (v_bufs v') = length (v_bufs v);
  sb_ring : v_avail_ring v' = aset (v_avail_ring v) (v_avail_idx v mod NUM) i0;
  sb_idx : v_avail_idx v' = u16 (v_avail_idx v + 1);
  sb_free : v_free v' = v_free v;
  sb_used : v_used_ring v' = v_used_ring v /\ v_used_idx v' = v_used_idx v /\ v_used_idx_dev v' = v_used_idx_dev v
}.

Lemma submit_spec i0 i1 i2 b write v c :
  shape v -> NoDup [i0; i1; i2] -> Forall (fun i => 0 <= i < 8) [i0; i1; i2] ->
  0 <= b < Z.of_nat (length (v_bufs v)) -> 0 <= vb_blockno (buf_at v b) < 2 ^ 31 ->
  wp (submit i0 i1 i2 b write) c v (fun _ c' v' => c' = c /\ submitted i0 i1 i2 b write v v').
Proof.
  intros Hs Hn Hr Hb Hk; unfold submit, wreg; wp_steps; apply wp_zoom; unfold io_write; wp_steps; split; [done|].
  set (w := if write then 0 else VRING_DESC_F_WRITE).
  apply NoDup_cons in Hn as [Hn0 Hn]; apply NoDup_cons in Hn as [Hn1 _]; rewrite !not_elem_of_cons in Hn0; rewrite !not_elem_of_cons in Hn1.
  rewrite !Forall_cons in Hr; destruct Hr as (Hr0 & Hr1 & Hr2 & _), Hn0 as (N1 & N2 & _), Hn1 as (N3 & _).
  set (v1 := put_op i0 _ v); set (v2 := put_desc i0 _ v1); set (v3 := put_desc i1 _ v2); set (v4 := put_info i0 _ v3).
  set (v5 := put_desc i2 _ v4); set (v6 := upd_buf b _ v5); set (v7 := put_info i0 _ v6).
  assert (shape v1 /\ shape v2 /\ shape v3 /\ shape v4 /\ shape v5) as (S1 & S2 & S3 & S4 & S5).
  { split_and!; repeat (unfold v1, v2, v3, v4, v5; auto 6 with virtio). }
  match goal with |- submitted _ _ _ _ _ _ ?x => set (F := x) end.
  assert (forall j, 0 <= j -> desc_at F j = if decide (j = i2) then Desc (AStatus i0) 1 VRING_DESC_F_WRITE 0 else
    if decide (j = i1) then Desc (AData b) BSIZE (Z.lor w VRING_DESC_F_NEXT) i2 else
    if decide (j = i0) then Desc (AOps i0) sizeof_blk_req VRING_DESC_F_NEXT i1 else desc_at v j) as Hd.
  { intros j Hj; change (desc_at F j) with (desc_at v5 j); unfold v5; rewrite desc_put by done.
    change (desc_at v4 j) with (desc_at v3 j); unfold v3; rewrite desc_put by done; unfold v2; by rewrite desc_put by done. }
  assert (forall j, 0 <= j -> info_at F j = if decide (j = i0) then Info (Some b) 255 else info_at v j) as Hinf.
  { intros j Hj; change (info_at F j) with (info_at v7 j); unfold v7; rewrite info_put by done.
    change (aget info0 (v_info v6) i0) with (info_at v4 i0); change (info_at v6 j) with (info_at v4 j); unfold v4.
    rewrite !info_put by (done || lia); rewrite (decide_True _ _ (eq_refl i0)); by case_decide. }
  assert (forall j, 0 <= j -> op_at F j = if decide (j = i0) then Req (if write then VIRTIO_BLK_T_OUT else VIRTIO_BLK_T_IN) (u32 (vb_blockno (buf_at v b) * 2)) else op_at v j) as Ho.
  { intros j Hj; change (op_at F j) with (op_at v1 j); unfold v1; by rewrite op_put by done. }
  assert (forall j, 0 <= j -> buf_at F j = if decide (j = b) then set_vdisk true (buf_at v b) else buf_at v j) as Hbuf.
  { intros j Hj; change (buf_at F j) with (buf_at v6 j); unfold v6; by rewrite buf_upd by done. }
  assert (length (v_bufs F) = length (v_bufs v)) as Hlen by (cbn; apply length_aset).
  assert (buf_at F b = set_vdisk true (buf_at v b)) as Hown by (by rewrite Hbuf, decide_True by lia).
  split; try done.
  - destruct Hs as (? & ? & ? & ? & ? & ?); unfold shape; cbn; by rewrite !length_aset.
  - unfold chain_ok; cbn [q_idx q_b q_write]; rewrite Hown, Hlen, !Hd, Hinf, Ho by lia.
    rewrite !(decide_True _ _ (eq_refl _)), !decide_False by congruence; unfold set_vdisk; cbn; tauto.
  - intros j Hj; rewrite !not_elem_of_cons; intros (? & ? & ? & _); by rewrite Hd, !decide_False.
  - intros j ? ?; by rewrite Ho, decide_False.
  - intros j ? ?; by rewrite Hinf, decide_False.
  - by rewrite Hinf, decide_True by lia.
  - intros j ? ?; by rewrite Hbuf, decide_False.
Qed.

(** Facts about the requests under way. *)
Lemma req_range s U A r i : dinv s U A -> r ∈ y_reqs s -> i ∈ q_descs r -> 0 <= i < 8.
Proof. intros H Hr Hi; pose proof (iv_range _ _ _ H) as Hf; rewrite Forall_forall in Hf; apply Hf; by eapply descs_in. Qed.

Lemma head_range s U A r : dinv s U A -> r ∈ y_reqs s -> 0 <= q_head r < 8.
Proof. intros H Hr; eapply (req_range s U A r); [done|done|apply head_in_descs]. Qed.

Lemma req_busy s U A r i : dinv s U A -> r ∈ y_reqs s -> i ∈ q_descs r -> free_at (y_v s) i = false.
Proof.
  intros H Hr Hi; rewrite (iv_free _ _ _ H) by (by eapply req_range); apply bool_decide_eq_false; intros Hn; apply Hn; by eapply descs_in.
Qed.

Lemma free_not_head s U A i : dinv s U A -> 0 <= i < 8 -> free_at (y_v s) i = true -> i ∉ U ++ y_taken s ++ A.
Proof.
  intros H Hi Hf Hin; pose proof (iv_heads _ _ _ H) as Hh; rewrite Forall_forall in Hh; specialize (Hh i Hin).
  apply list_elem_of_fmap in Hh as (r & -> & Hr); by rewrite (req_busy _ _ _ r _ H Hr (head_in_descs r)) in Hf.
Qed.

Lemma req_chain s U A r : dinv s U A -> r ∈ y_reqs s -> chain_ok (y_v s) r.
Proof. intros H Hr; pose proof (iv_chain _ _ _ H) as Hc; rewrite Forall_forall in Hc; auto. Qed.

Lemma chain_buf v r : chain_ok v r -> 0 <= q_b r < Z.of_nat (length (v_bufs v)).
Proof. destruct r as [b w [[i0 i1] i2]]; by intros (_ & _ & _ & _ & _ & H & _). Qed.

Lemma blocks_ext s s' (l : list request) : (forall r, r ∈ l -> blockno_of s' (q_b r) = blockno_of s (q_b r)) ->
  blockno_of s' ∘ q_b <$> l = blockno_of s ∘ q_b <$> l.
Proof. intros H; apply list_fmap_ext; intros k r Hr%list_elem_of_lookup_2; by apply H. Qed.

(** Emptying free descriptors changes nothing that matters. *)
Lemma cleared_rel s t v' : drel s t -> cleared (y_v s) v' -> drel (DSys v' (y_disk s) (y_last s) (y_taken s) (y_reqs s)) t.
Proof.
  intros [U A H Hp Hd] [Hrest Hdesc Hsh]; assert (v' = set_descs (v_desc v') (y_v s)) as E by (rewrite <- Hrest; by destruct v').
  revert Hdesc Hsh; rewrite E; generalize (v_desc v') as D; intros D Hdesc Hsh; apply (DRel _ _ U A); [|done|done].
  assert (Forall (chain_ok (set_descs D (y_v s))) (y_reqs s)) as Hch.
  { rewrite Forall_forall; intros r Hr; eapply chain_frame; [by eapply req_chain|..]; try done.
    intros i Hi; apply Hdesc; [by eapply req_range|by eapply req_busy]. }
  by destruct H; split.
Qed.

Section start.
Context (s : dsys) (U A : list Z) (H : dinv s U A).
Context (b : Z) (write : bool) (Hb : startable s b) (i0 i1 i2 : Z).
Context (Hnd : NoDup [i0; i1; i2]) (Hfree : Forall (fun i => 0 <= i < 8 /\ free_at (y_v s) i = true) [i0; i1; i2]).
Context (v' : vdisk) (Hv : submitted i0 i1 i2 b write (put_free i2 false (put_free i1 false (put_free i0 false (y_v s)))) v').

Let s' : dsys := DSys v' (y_disk s) (y_last s) (y_taken s) (y_reqs s ++ [Rq b write (i0, i1, i2)]).

Lemma new_fresh i : i ∈ [i0; i1; i2] -> 0 <= i < 8 /\ free_at (y_v s) i = true /\ i ∉ descs (y_reqs s).
Proof.
  rewrite Forall_forall in Hfree; intros Hi; destruct (Hfree i Hi) as [Hr Hf]; split_and!; [lia|lia|done|].
  rewrite (iv_free _ _ _ H) in Hf by done; by apply bool_decide_eq_true in Hf.
Qed.

Lemma new_head : 0 <= i0 < 8 /\ i0 ∉ U ++ y_taken s ++ A.
Proof. destruct (new_fresh i0) as (Hr & Hf & _); [left|]; split; [done|]; by eapply free_not_head. Qed.

Lemma old_head r : r ∈ y_reqs s -> 0 <= q_head r < 8 /\ q_head r <> i0.
Proof.
  intros Hr; split; [by apply (head_range s U A)|]; intros E; destruct (new_fresh i0) as (_ & _ & Hn); [left|].
  apply Hn; rewrite <- E; eapply descs_in; eauto using head_in_descs.
Qed.

Lemma old_buf r : r ∈ y_reqs s -> buf_at v' (q_b r) = buf_at (y_v s) (q_b r).
Proof.
  intros Hr; rewrite (sb_buf _ _ _ _ _ _ _ Hv); [done|apply (chain_buf (y_v s)); by eapply req_chain|].
  intros E; destruct Hb as [[_ Hn] _]; apply Hn; rewrite <- E; by apply list_elem_of_fmap_2.
Qed.

Lemma old_info r : r ∈ y_reqs s -> info_at v' (q_head r) = info_at (y_v s) (q_head r).
Proof. intros Hr; destruct (old_head r Hr); by rewrite (sb_info _ _ _ _ _ _ _ Hv) by lia. Qed.

Lemma old_status r : r ∈ y_reqs s -> status_at s' r = status_at s r.
Proof. intros Hr; unfold status_at; cbn [y_v s']; by rewrite old_info. Qed.

Lemma old_chain r : r ∈ y_reqs s -> chain_ok v' r.
Proof.
  intros Hr; destruct (old_head r Hr); eapply chain_frame; [by eapply req_chain|..].
  - intros i Hi; assert (0 <= i < 8) by by eapply req_range.
    rewrite (sb_desc _ _ _ _ _ _ _ Hv); [done|lia|]; intros Hin; destruct (new_fresh i Hin) as (_ & _ & Hn); apply Hn; by eapply descs_in.
  - by rewrite (sb_op _ _ _ _ _ _ _ Hv) by lia.
  - by rewrite old_info.
  - by rewrite old_buf.
  - by rewrite (sb_bufs _ _ _ _ _ _ _ Hv).
Qed.

Lemma new_blocks : blockno_of s' ∘ q_b <$> y_reqs s' = (blockno_of s ∘ q_b <$> y_reqs s) ++ [blockno_of s b].
Proof.
  cbn [y_reqs s']; rewrite fmap_app; f_equal.
  - apply blocks_ext; intros r Hr; unfold blockno_of; cbn [y_v s']; by rewrite old_buf.
  - cbn; unfold blockno_of; cbn [y_v s']; by rewrite (sb_own _ _ _ _ _ _ _ Hv).
Qed.

Lemma start_inv : dinv s' U (A ++ [i0]).
Proof.
  pose proof (iv_shape _ _ _ H) as Hs; destruct new_head as [Hr0 Hn0]; pose proof (few_pending _ _ _ H) as Hfew.
  pose proof (fun i Hi => proj1 (new_fresh i Hi)) as Hrng; pose proof Hfree as Hf3; rewrite !Forall_cons in Hf3; destruct Hf3 as ((R0 & F0) & (R1 & F1) & (R2 & F2) & _).
  assert (forall r, r ∈ y_reqs s -> q_head r <> i0) as Hne by (intros r Hr; by apply old_head).
  assert (U ++ y_taken s ++ A ++ [i0] = (U ++ y_taken s ++ A) ++ [i0]) as E1 by (by rewrite !app_assoc).
  assert (y_taken s ++ A ++ [i0] = (y_taken s ++ A) ++ [i0]) as E2 by (by rewrite !app_assoc).
  split; cbn [y_v y_reqs y_last y_taken s']; rewrite ?descs_app, ?E1, ?E2.
  - apply Hv.
  - apply NoDup_app; split_and!; [apply H| |by rewrite descs_one].
    intros i Hi Hi2; rewrite descs_one in Hi2; by destruct (new_fresh i Hi2) as (_ & _ & ?).
  - apply Forall_app; split; [apply H|]; rewrite descs_one, Forall_forall; exact Hrng.
  - intros i Hi; unfold free_at; rewrite (sb_free _ _ _ _ _ _ _ Hv).
    match goal with |- aget false (v_free ?x) i = _ => change (aget false (v_free x) i) with (free_at x i) end.
    rewrite !free_put, (iv_free _ _ _ H) by (auto with virtio || lia); rewrite descs_one; cbn [q_descs q_idx].
    repeat (case_decide; [subst; symmetry; apply bool_decide_eq_false; intros Hc; apply Hc; rewrite elem_of_app, !elem_of_cons; tauto|]).
    apply bool_decide_ext; rewrite elem_of_app, !elem_of_cons, elem_of_nil; tauto.
  - apply Forall_app; split; [rewrite Forall_forall; exact old_chain|]; apply Forall_singleton, Hv.
  - rewrite fmap_app; apply NoDup_app; split_and!; [apply H| |apply NoDup_singleton]; cbn; intros x Hx ->%list_elem_of_singleton; destruct Hb as [[_ Hn] _]; by apply Hn.
  - change (NoDup (blockno_of s' ∘ q_b <$> y_reqs s')); rewrite new_blocks; apply NoDup_app; split_and!; [apply H| |apply NoDup_singleton].
    intros x Hx ->%list_elem_of_singleton; destruct Hb as (_ & _ & Hn); by apply Hn.
  - apply H.
  - rewrite (sb_ring _ _ _ _ _ _ _ Hv); cbn [v_avail_ring v_avail_idx put_free set_frees]; rewrite (iv_avail_idx _ _ _ H), u16_mod_num.
    apply segment_push; [apply Hs|lia|apply H].
  - rewrite (sb_idx _ _ _ _ _ _ _ Hv); cbn [v_avail_idx put_free set_frees]; rewrite (iv_avail_idx _ _ _ H), length_app; cbn [length].
    unfold u16; rewrite Zplus_mod_idemp_l; f_equal; lia.
  - rewrite (proj1 (proj2 (sb_used _ _ _ _ _ _ _ Hv))); apply H.
  - destruct (sb_used _ _ _ _ _ _ _ Hv) as (-> & -> & _); apply H.
  - destruct (sb_used _ _ _ _ _ _ _ Hv) as (_ & -> & ->); apply H.
  - apply NoDup_app; split_and!; [apply H| |apply NoDup_singleton]; intros x Hx ->%list_elem_of_singleton; done.
  - rewrite fmap_app; apply Forall_app; split; [|apply Forall_singleton, elem_of_app; right; left].
    eapply Forall_impl; [apply H|]; intros x Hx; apply elem_of_app; by left.
  - apply Forall_app; split; [|apply Forall_singleton; cbn [q_b q_head q_idx fst]; rewrite (sb_own _ _ _ _ _ _ _ Hv)].
    + pose proof (iv_flag _ _ _ H) as Hf; rewrite Forall_forall in *; intros r Hr; rewrite old_buf, Hf by done.
      apply bool_decide_ext; rewrite !(elem_of_app _ [i0]), list_elem_of_singleton; specialize (Hne r Hr); tauto.
    + symmetry; apply bool_decide_eq_true; apply elem_of_app; right; left.
  - apply Forall_app; split; [|apply Forall_singleton; unfold status_at; cbn [q_head q_idx fst y_v s']; rewrite (sb_status _ _ _ _ _ _ _ Hv)].
    + pose proof (iv_status _ _ _ H) as Hf; rewrite Forall_forall in *; intros r Hr; specialize (Hf r Hr); specialize (Hne r Hr).
      rewrite old_status, !(elem_of_app _ [i0]), list_elem_of_singleton by done; tauto.
    + split_and!; [done|..]; intros Hn; destruct Hn; apply elem_of_app; right; left.
Qed.

Lemma start_rel t : Forall2 (req_rel s t A) (y_reqs s) (t_pend t) ->
  (forall n, n ∉ (blockno_of s ∘ q_b <$> y_reqs s) -> y_disk s n = t_disk t n) ->
  drel s' (Store (t_disk t) (t_pend t ++ [Pend b (blockno_of s b) write (vb_data (buf_at (y_v s) b))])).
Proof.
  intros Hp Hd; apply (DRel _ _ U (A ++ [i0])); [apply start_inv|cbn [y_reqs s' t_pend]; apply Forall2_app|].
  - eapply Forall2_impl_in; [exact Hp|]; intros r p Hr (H1 & H2 & H3 & H4 & H5); destruct (old_head r Hr) as [_ Hne].
    unfold req_rel, blockno_of in *; rewrite old_status by done; cbn [y_v y_disk y_taken s' t_disk]; rewrite old_buf by done; split_and!; auto.
    rewrite (decide_ext _ (q_head r ∈ y_taken s ++ A)); [done|].
    rewrite app_assoc, (elem_of_app _ [i0]), list_elem_of_singleton; tauto.
  - apply Forall2_cons; split; [|constructor]; unfold req_rel; cbn [p_b p_n p_write p_data q_b q_write q_head q_idx fst y_v y_disk y_taken s' t_disk].
    unfold blockno_of; cbn [y_v s']; rewrite (sb_own _ _ _ _ _ _ _ Hv); do 4 (split; [done|]).
    rewrite decide_True by (rewrite app_assoc; apply elem_of_app; right; left); apply Hd, Hb.
  - intros n Hn; change (y_disk s n = t_disk t n); apply Hd; rewrite new_blocks in Hn; intros Hc; apply Hn, elem_of_app; by left.
Qed.
End start.

Lemma start_spec s t b write pid : drel s t -> startable s b ->
  wpb (virtio_disk_start b write) (Ctx pid []) (y_v s)
    (fun idx c' v' => c' = Ctx pid [VDISK] /\ drel (DSys v' (y_disk s) (y_last s) (y_taken s) (y_reqs s ++ [Rq b write idx]))
      (Store (t_disk t) (t_pend t ++ [Pend b (blockno_of s b) write (vb_data (buf_at (y_v s) b))])))
    (fun ch c' v' => ch = ChDiskFree /\ length (y_reqs s) = 2%nat /\ drel (DSys v' (y_disk s) (y_last s) (y_taken s) (y_reqs s)) t).
Proof.
  intros Hrel Hb; destruct Hrel as [U A H Hp Hd]; unfold virtio_disk_start; apply wpb_bind, wp_acquire; [apply not_elem_of_nil|]; cbn [c_pid c_held].
  apply wpb_bind; eapply wp_mono; [apply alloc3_desc_spec, H|]; intros [[[i0 i1] i2]|] c' v' (-> & Hr).
  - destruct Hr as (Hnd & Hf & ->); apply wpb_bind; eapply wp_mono.
    { apply submit_spec; [repeat apply shape_put_free; apply H|done| |apply Hb|apply Hb]; eapply Forall_impl; [exact Hf|]; by intros i [? _]. }
    intros _ c' v' [-> Hv]; apply wpb_wp; wp_steps; split; [done|]; by apply (start_rel s U A).
  - destruct Hr as (Hc & l & Hl & Hall); unfold wpb, sleep, holding; cbn [c_held].
    rewrite bool_decide_eq_true_2 by left; rewrite bool_decide_eq_true_2 by done; split_and!; [done| |by apply cleared_rel; [apply (DRel _ _ U A)|]].
    pose proof (few_requests _ _ _ H); enough (8 <= length (descs (y_reqs s) ++ l))%nat by (rewrite length_app, length_descs in *; lia).
    apply (nodup_incl (zrange 0 8)); [apply NoDup_zrange|]; rewrite Forall_forall; intros i Hi%elem_of_zrange; apply elem_of_app.
    destruct (decide (i ∈ descs (y_reqs s))); [by left|right; apply Hall; [lia|]]; rewrite (iv_free _ _ _ H) by lia; by apply bool_decide_eq_true.
Qed.

(** ** The other users of the buffers, and the device *)

Lemma client_rel s t b n data : drel s t -> idle s b ->
  drel (DSys (upd_buf b (fun _ => VBuf n false data) (y_v s)) (y_disk s) (y_last s) (y_taken s) (y_reqs s)) t.
Proof.
  intros [U A H Hp Hd] [Hr Hn]; set (v' := upd_buf b _ _); set (s' := DSys v' _ _ _ _).
  assert (forall r, r ∈ y_reqs s -> buf_at v' (q_b r) = buf_at (y_v s) (q_b r)) as Hbuf.
  { intros r Hin; pose proof (chain_buf _ _ (req_chain _ _ _ _ H Hin)) as Hq; unfold v'; rewrite buf_upd, decide_False; [done| |done|lia].
    intros E; apply Hn; rewrite <- E; by apply list_elem_of_fmap_2. }
  assert (blockno_of s' ∘ q_b <$> y_reqs s = blockno_of s ∘ q_b <$> y_reqs s) as Eb.
  { apply blocks_ext; intros r Hin; unfold blockno_of; cbn [y_v s']; by rewrite Hbuf. }
  assert (Forall (chain_ok v') (y_reqs s)) as Hch.
  { rewrite Forall_forall; intros r Hin; eapply chain_frame; [by eapply req_chain|..]; try done; [by rewrite Hbuf|apply length_aset]. }
  apply (DRel _ _ U A); cbn [y_reqs y_disk s']; [|eapply Forall2_impl_in; [exact Hp|]; intros r p Hin (H1 & H2 & H3 & H4 & H5)|by rewrite Eb].
  - destruct H; split; try done; cbn [y_v y_reqs s']; [by rewrite Eb|].
    rewrite Forall_forall in *; intros r Hin; rewrite Hbuf by done; auto.
  - unfold req_rel, blockno_of in *; cbn [y_v y_disk y_taken s']; rewrite Hbuf by done; by split_and!.
Qed.

Lemma take_rel s t : drel s t -> y_last s <> v_avail_idx (y_v s) ->
  drel (DSys (y_v s) (y_disk s) (u16 (y_last s + 1)) (y_taken s ++ [aget 0 (v_avail_ring (y_v s)) (y_last s mod NUM)]) (y_reqs s)) t.
Proof.
  intros [U A H Hp Hd] Hne; destruct A as [|x A].
  { destruct Hne; rewrite (iv_avail_idx _ _ _ H); cbn; rewrite Z.add_0_r; symmetry; apply Z.mod_small, H. }
  destruct (segment_pop _ _ _ _ (iv_avail _ _ _ H)) as [-> Hseg].
  apply (DRel _ _ U A); [|eapply Forall2_impl; [exact Hp|]; intros r p (H1 & H2 & H3 & H4 & H5)|done].
  - destruct H; split; cbn [y_v y_reqs y_taken y_last]; rewrite <- ?app_assoc; try done.
    + apply Z.mod_pos_bound; lia.
    + rewrite iv_avail_idx0; cbn [length]; unfold u16; rewrite Zplus_mod_idemp_l; f_equal; lia.
  - unfold req_rel; cbn [y_v y_disk y_taken]; rewrite <- app_assoc; by split_and!.
Qed.

(** The device understands every chain the driver makes, and does what the call
    asked for or fails. *)
Definition served (r : request) (o : outcome) (v : vdisk) (f : image) : vdisk * image :=
  let n := vb_blockno (buf_at v (q_b r)) in
  let i := Info (Some (q_b r)) (status_of o) in
  if q_write r then (put_info (q_head r) i v, upd f n (moved o (vb_data (buf_at v (q_b r)))))
  else (put_info (q_head r) i (upd_buf (q_b r) (set_vdata (moved o (f n))) v), f).

Lemma serve_chain v f r o : chain_ok v r -> serve (q_head r) o v f = Some (served r o v f).
Proof.
  destruct r as [b w [[i0 i1] i2]]; unfold chain_ok, serve, served, q_head; cbn [q_idx q_b q_write fst].
  intros (E0 & E1 & E2 & E3 & E4 & _ & Hn); rewrite E0; cbn [d_next d_addr]; rewrite E1; cbn [d_next d_addr]; rewrite E2; cbn [d_addr d_flags d_len].
  rewrite E3, E4; cbn [r_sector r_type]; rewrite (u32_small (_ * 2)) by lia; rewrite Z_mod_mult, Z_div_mult by lia; by destruct w.
Qed.

Lemma served_frame r o v f : shape v -> 0 <= q_head r < 8 -> 0 <= q_b r < Z.of_nat (length (v_bufs v)) ->
  let v' := report (q_head r) (served r o v f).1 in
  shape v' /\ v_desc v' = v_desc v /\ v_free v' = v_free v /\ v_ops v' = v_ops v /\
  v_avail_idx v' = v_avail_idx v /\ v_avail_ring v' = v_avail_ring v /\ v_used_idx v' = v_used_idx v /\
  v_used_ring v' = aset (v_used_ring v) (v_used_idx_dev v mod NUM) (q_head r) /\ v_used_idx_dev v' = u16 (v_used_idx_dev v + 1) /\
  length (v_bufs v') = length (v_bufs v) /\
  (forall i, 0 <= i -> info_at v' i = if decide (i = q_head r) then Info (Some (q_b r)) (status_of o) else info_at v i) /\
  (forall b, 0 <= b -> buf_at v' b = if decide (b = q_b r) then
     (if q_write r then buf_at v b else set_vdata (moved o (f (vb_blockno (buf_at v b)))) (buf_at v b)) else buf_at v b).
Proof.
  intros Hs Hh Hb; cbv zeta; unfold served; set (x := Info (Some (q_b r)) (status_of o)); destruct (q_write r); cbn [fst]; split_and!; try done; auto with virtio.
  - intros i Hi; change (info_at (put_info (q_head r) x v) i = if decide (i = q_head r) then x else info_at v i); by rewrite info_put.
  - intros b H; by case_decide.
  - apply length_aset.
  - intros i Hi; change (info_at (put_info (q_head r) x (upd_buf (q_b r) (set_vdata (moved o (f (vb_blockno (buf_at v (q_b r)))))) v)) i =
      if decide (i = q_head r) then x else info_at v i); by rewrite info_put.
  - intros b H; change (buf_at (upd_buf (q_b r) (set_vdata (moved o (f (vb_blockno (buf_at v (q_b r)))))) v) b =
      if decide (b = q_b r) then set_vdata (moved o (f (vb_blockno (buf_at v b)))) (buf_at v b) else buf_at v b).
    rewrite buf_upd by done; case_decide; by subst.
Qed.

Lemma fmap_inj_in {A B} (f : A -> B) (l : list A) x y : NoDup (f <$> l) -> x ∈ l -> y ∈ l -> f x = f y -> x = y.
Proof.
  induction l as [|z l IH]; cbn [fmap list_fmap]; [by intros _ ?%not_elem_of_nil|]; intros [Hz Hl]%NoDup_cons [->|Hx]%elem_of_cons [->|Hy]%elem_of_cons E; auto.
  - destruct Hz; rewrite E; by apply list_elem_of_fmap_2.
  - destruct Hz; rewrite <- E; by apply list_elem_of_fmap_2.
Qed.

Section served.
Context (s : dsys) (U A : list Z) (H : dinv s U A).
Context (r : request) (o : outcome) (Hr : r ∈ y_reqs s) (t1 t2 : list Z) (HT : y_taken s = t1 ++ q_head r :: t2).

Let v' : vdisk := report (q_head r) (served r o (y_v s) (y_disk s)).1.
Let s' : dsys := DSys v' (served r o (y_v s) (y_disk s)).2 (y_last s) (t1 ++ t2) (y_reqs s).

Lemma served_perm : U ++ y_taken s ++ A ≡ₚ (U ++ [q_head r]) ++ (t1 ++ t2) ++ A.
Proof. rewrite HT, <- !app_assoc; apply Permutation_app_head; cbn; by rewrite <- Permutation_middle. Qed.

Lemma served_head : q_head r ∉ (t1 ++ t2) ++ A.
Proof.
  pose proof (iv_nodup _ _ _ H) as Hn; rewrite served_perm, <- app_assoc in Hn; apply NoDup_app in Hn as (_ & _ & Hn).
  by apply NoDup_cons in Hn as [Hn _].
Qed.

Lemma served_others r' : r' ∈ y_reqs s -> q_head r' ∈ (t1 ++ t2) ++ A <-> r' <> r /\ q_head r' ∈ y_taken s ++ A.
Proof.
  intros Hr'; rewrite HT, !elem_of_app, elem_of_cons; pose proof served_head as Hn; rewrite !elem_of_app in Hn.
  split; [intros Hin; split; [intros ->; tauto|tauto]|]; intros [Hne Hin].
  assert (q_head r' <> q_head r) by (intros E; apply Hne; by eapply head_inj; [apply H|..]); tauto.
Qed.

Lemma served_facts : shape v' /\ v_desc v' = v_desc (y_v s) /\ v_free v' = v_free (y_v s) /\ v_ops v' = v_ops (y_v s) /\
  v_avail_idx v' = v_avail_idx (y_v s) /\ v_avail_ring v' = v_avail_ring (y_v s) /\ v_used_idx v' = v_used_idx (y_v s) /\
  v_used_ring v' = aset (v_used_ring (y_v s)) (v_used_idx_dev (y_v s) mod NUM) (q_head r) /\ v_used_idx_dev v' = u16 (v_used_idx_dev (y_v s) + 1) /\
  length (v_bufs v') = length (v_bufs (y_v s)).
Proof.
  destruct (served_frame r o (y_v s) (y_disk s)) as (H1 & H2 & H3 & H4 & H5 & H6 & H7 & H8 & H9 & H10 & _);
    [apply H|by apply (head_range s U A)|apply chain_buf; by eapply req_chain|by split_and!].
Qed.

Lemma served_info r' : r' ∈ y_reqs s ->
  i_b (info_at v' (q_head r')) = i_b (info_at (y_v s) (q_head r')) /\
  i_status (info_at v' (q_head r')) = if decide (r' = r) then status_of o else i_status (info_at (y_v s) (q_head r')).
Proof.
  intros Hr'; assert (0 <= q_head r' < 8) by (by apply (head_range s U A)).
  destruct (served_frame r o (y_v s) (y_disk s)) as (H1 & H2 & H3 & H4 & H5 & H6 & H7 & H8 & H9 & H10 & Hi & Hb);
    [apply H|by apply (head_range s U A)|apply chain_buf; by eapply req_chain|].
  unfold v'; rewrite Hi by lia; destruct (decide (r' = r)) as [->|Hne].
  - rewrite decide_True by done; split; [|done]; pose proof (req_chain _ _ _ _ H Hr) as Hc; unfold chain_ok, q_head in *.
    destruct (q_idx r) as [[i0 i1] i2]; cbn [fst]; destruct Hc as (_ & _ & _ & _ & Hc & _); by rewrite Hc.
  - rewrite decide_False; [done|]; intros E; apply Hne; by eapply head_inj; [apply H|..].
Qed.

Lemma served_buf r' : r' ∈ y_reqs s ->
  buf_at v' (q_b r') = if decide (r' = r) then
    (if q_write r then buf_at (y_v s) (q_b r) else set_vdata (moved o (y_disk s (blockno_of s (q_b r)))) (buf_at (y_v s) (q_b r))) else buf_at (y_v s) (q_b r').
Proof.
  intros Hr'; pose proof (chain_buf _ _ (req_chain _ _ _ _ H Hr')).
  destruct (served_frame r o (y_v s) (y_disk s)) as (H1 & H2 & H3 & H4 & H5 & H6 & H7 & H8 & H9 & H10 & Hi & Hb);
    [apply H|by apply (head_range s U A)|apply chain_buf; by eapply req_chain|].
  unfold v'; rewrite Hb by lia; destruct (decide (r' = r)) as [->|Hne]; [by rewrite decide_True|].
  rewrite decide_False; [done|]; intros E; apply Hne; by eapply (fmap_inj_in q_b); [apply H|..].
Qed.

Lemma served_buf_fields r' : r' ∈ y_reqs s ->
  vb_blockno (buf_at v' (q_b r')) = vb_blockno (buf_at (y_v s) (q_b r')) /\ vb_disk (buf_at v' (q_b r')) = vb_disk (buf_at (y_v s) (q_b r')).
Proof. intros Hr'; rewrite served_buf by done; case_decide; [subst|done]; by destruct (q_write r). Qed.

Lemma served_inv : dinv s' (U ++ [q_head r]) A.
Proof.
  destruct served_facts as (H1 & H2 & H3 & H4 & H5 & H6 & H7 & H8 & H9 & H10).
  assert (blockno_of s' ∘ q_b <$> y_reqs s = blockno_of s ∘ q_b <$> y_reqs s) as Eb by (apply blocks_ext; intros r' Hr'; by apply served_buf_fields).
  pose proof served_perm as HP; pose proof (few_pending _ _ _ H) as Hfew.
  split; cbn [y_v y_reqs y_last y_taken s']; rewrite ?H5, ?H6, ?H7, ?H8, ?H9, <- ?HP; try apply H; try done.
  - intros i Hi; unfold free_at; rewrite H3; by apply H.
  - rewrite Forall_forall; intros r' Hr'; eapply chain_frame; [by eapply req_chain| | | | |done].
    + intros i _; unfold desc_at; by rewrite H2.
    + unfold op_at; by rewrite H4.
    + by apply served_info.
    + by apply served_buf_fields.
  - rewrite Eb; apply H.
  - rewrite (iv_used_idx _ _ _ H), u16_mod_num; apply segment_push; [apply (iv_shape _ _ _ H)|lia|apply H].
  - rewrite (iv_used_idx _ _ _ H), length_app; cbn [length]; unfold u16; rewrite Zplus_mod_idemp_l; f_equal; lia.
  - pose proof (iv_flag _ _ _ H) as Hf; rewrite Forall_forall in *; intros r' Hr'; rewrite (proj2 (served_buf_fields r' Hr')), Hf by done.
    apply bool_decide_ext; by rewrite HP.
  - pose proof (iv_status _ _ _ H) as Hf; rewrite Forall_forall in *; intros r' Hr'; specialize (Hf r' Hr'); unfold status_at in *; cbn [y_v s'].
    rewrite (proj2 (served_info r' Hr')), (served_others r' Hr'); destruct (decide (r' = r)) as [->|Hne]; [|by rewrite <- HP; tauto].
    split_and!; [tauto|intros _; by destruct o as [|[]]|]; intros Hn; destruct Hn; rewrite <- HP, HT, !elem_of_app, elem_of_cons; tauto.
Qed.

Lemma served_image n : (served r o (y_v s) (y_disk s)).2 n =
  if q_write r then upd (y_disk s) (blockno_of s (q_b r)) (moved o (vb_data (buf_at (y_v s) (q_b r)))) n else y_disk s n.
Proof. unfold served, blockno_of; by destruct (q_write r). Qed.

Lemma served_elsewhere n : n <> blockno_of s (q_b r) -> (served r o (y_v s) (y_disk s)).2 n = y_disk s n.
Proof. intros Hn; rewrite served_image; unfold upd; destruct (q_write r); [by rewrite decide_False|done]. Qed.

Lemma served_rel t : Forall2 (req_rel s t A) (y_reqs s) (t_pend t) ->
  (forall n, n ∉ (blockno_of s ∘ q_b <$> y_reqs s) -> y_disk s n = t_disk t n) -> drel s' t.
Proof.
  intros Hp Hd; apply (DRel _ _ (U ++ [q_head r]) A); [apply served_inv| |].
  - eapply Forall2_impl_in; [exact Hp|]; intros r' p Hr' (H1 & H2 & H3 & H4 & H5); destruct (served_buf_fields r' Hr') as [Eb _].
    unfold req_rel, blockno_of in *; cbn [y_v y_disk y_taken s']; rewrite Eb, served_buf by done; do 3 (split; [done|]).
    rewrite (decide_ext (q_head r' ∈ (t1 ++ t2) ++ A) _ _ _ (served_others r' Hr')); unfold status_at in *; cbn [y_v s']; rewrite (proj2 (served_info r' Hr')).
    destruct (decide (r' = r)) as [->|Hne].
    + rewrite decide_True in H5 by (rewrite HT, !elem_of_app, elem_of_cons; tauto); rewrite decide_False by tauto.
      split; [destruct (q_write r); by try apply H4|]; intros Ho; rewrite served_image; destruct o as [|[]]; try done; cbn [moved].
      unfold blockno_of in *; destruct (q_write r); rewrite H2 in *; [|done]; unfold upd; rewrite decide_True by done; auto.
    + split; [done|]; assert (p_n p <> blockno_of s (q_b r)) as Hn.
      { rewrite H2; intros E; apply Hne; by apply (fmap_inj_in (blockno_of s ∘ q_b) (y_reqs s)); [apply H|..]. }
      rewrite served_elsewhere by done; by rewrite (decide_ext _ (q_head r' ∈ y_taken s ++ A)) by tauto.
  - assert (blockno_of s' ∘ q_b <$> y_reqs s = blockno_of s ∘ q_b <$> y_reqs s) as Eb by (apply blocks_ext; intros r' Hr'; by apply served_buf_fields).
    intros n Hn; cbn [y_reqs y_disk s'] in *; rewrite Eb in Hn; rewrite served_elsewhere; [by apply Hd|].
    intros ->; apply Hn, (list_elem_of_fmap_2 (blockno_of s ∘ q_b) _ _ Hr).
Qed.
End served.

Lemma serve_spec s t t1 head t2 o : drel s t -> y_taken s = t1 ++ head :: t2 ->
  exists v' f', serve head o (y_v s) (y_disk s) = Some (v', f') /\ drel (DSys (report head v') f' (y_last s) (t1 ++ t2) (y_reqs s)) t.
Proof.
  intros [U A H Hp Hd] HT; pose proof (iv_heads _ _ _ H) as Hh; rewrite Forall_forall in Hh.
  assert (head ∈ U ++ y_taken s ++ A) as Hin by (rewrite HT, !elem_of_app, elem_of_cons; tauto).
  apply Hh in Hin as (r & -> & Hr)%list_elem_of_fmap; rewrite serve_chain by (by eapply req_chain).
  eexists _, _; split; [apply f_equal, surjective_pairing|]; by apply (served_rel s U A).
Qed.

(** ** The interrupt handler *)

Definition holds (s : dsys) (t : store) (U A : list Z) : Prop :=
  dinv s U A /\ Forall2 (req_rel s t A) (y_reqs s) (t_pend t) /\
  (forall n, n ∉ (blockno_of s ∘ q_b <$> y_reqs s) -> y_disk s n = t_disk t n).

Definition with_v (s : dsys) (v : vdisk) : dsys := DSys v (y_disk s) (y_last s) (y_taken s) (y_reqs s).

Lemma holds_rel s t U A : holds s t U A -> drel s t.
Proof. intros (H1 & H2 & H3); by apply (DRel _ _ U A). Qed.

Lemma holds_io s t U A io : holds s t U A -> holds (with_v s (set_io io (y_v s))) t U A.
Proof. intros (H1 & H2 & H3); split_and!; [by destruct H1; split|done|done]. Qed.

(** One entry of the used ring. *)
Definition seen (b : Z) (v : vdisk) : vdisk :=
  let v := upd_buf b (set_vdisk false) v in set_seen (u16 (v_used_idx v + 1)) v.

Lemma seen_holds s t r U A : r ∈ y_reqs s -> status_at s r = 0 -> holds s t (q_head r :: U) A -> holds (with_v s (seen (q_b r) (y_v s))) t U A.
Proof.
  intros Hr H0 (H & Hp & Hd); set (v' := seen _ _); set (s' := with_v s v').
  pose proof (chain_buf _ _ (req_chain _ _ _ _ H Hr)) as Hb.
  assert (forall r', r' ∈ y_reqs s -> buf_at v' (q_b r') = if decide (r' = r) then set_vdisk false (buf_at (y_v s) (q_b r)) else buf_at (y_v s) (q_b r')) as Hbuf.
  { intros r' Hr'; pose proof (chain_buf _ _ (req_chain _ _ _ _ H Hr')); change (buf_at v' (q_b r')) with (buf_at (upd_buf (q_b r) (set_vdisk false) (y_v s)) (q_b r')).
    rewrite buf_upd by lia; destruct (decide (r' = r)) as [->|Hne]; [by rewrite decide_True|].
    rewrite decide_False; [done|]; intros E; apply Hne; by eapply (fmap_inj_in q_b); [apply H|..]. }
  assert (forall r', r' ∈ y_reqs s -> vb_blockno (buf_at v' (q_b r')) = vb_blockno (buf_at (y_v s) (q_b r')) /\
    vb_data (buf_at v' (q_b r')) = vb_data (buf_at (y_v s) (q_b r'))) as Hfld.
  { intros r' Hr'; rewrite Hbuf by done; case_decide; by subst. }
  assert (blockno_of s' ∘ q_b <$> y_reqs s = blockno_of s ∘ q_b <$> y_reqs s) as Eb by (apply blocks_ext; intros r' Hr'; by apply Hfld).
  assert (Forall (chain_ok v') (y_reqs s)) as Hch.
  { rewrite Forall_forall; intros r' Hr'; eapply chain_frame; [by eapply req_chain|done|done|done|by apply Hfld|apply length_aset]. }
  split_and!.
  - pose proof (head_inj (y_reqs s)) as Hinj; destruct H; destruct (segment_pop _ _ _ _ iv_used0) as [_ Hseg].
    cbn [app] in *; apply NoDup_cons in iv_nodup0 as [Hnh iv_nodup0]; apply Forall_cons in iv_heads0 as [_ iv_heads0].
    split; try done; cbn [y_v y_reqs y_taken s' with_v]; [by rewrite Eb|apply Z.mod_pos_bound; lia| | |].
    + change (v_used_idx_dev v') with (v_used_idx_dev (y_v s)); change (v_used_idx v') with (u16 (v_used_idx (y_v s) + 1)); rewrite iv_used_idx0; cbn [length].
      unfold u16; rewrite Zplus_mod_idemp_l; f_equal; lia.
    + rewrite Forall_forall in *; intros r' Hr'; rewrite Hbuf by done; destruct (decide (r' = r)) as [->|Hne].
      * symmetry; by apply bool_decide_eq_false.
      * rewrite iv_flag0 by done; apply bool_decide_ext; rewrite elem_of_cons; split; [intros [E|]; [destruct Hne; by apply Hinj|done]|by right].
    + rewrite Forall_forall in *; intros r' Hr'; change (status_at s' r') with (status_at s r'); destruct (decide (r' = r)) as [->|Hne]; [rewrite elem_of_app in Hnh; split_and!; [tauto|lia|done]|].
      destruct (iv_status0 r' Hr') as (G1 & G2 & G3); split_and!; [done|done|]; intros Hn; apply G3; rewrite elem_of_cons; intros [E|]; [destruct Hne; by apply Hinj|done].
  - eapply Forall2_impl_in; [exact Hp|]; intros r' p Hr' (H1 & H2 & H3 & H4 & H5); destruct (Hfld r' Hr') as [E1 E2].
    unfold req_rel, blockno_of in *; cbn [y_v y_disk y_taken s' with_v]; rewrite E1, E2; by split_and!.
  - intros n Hn; cbn [y_reqs y_disk s' with_v] in *; rewrite Eb in Hn; by apply Hd.
Qed.

Lemma bind_run {T A B} (m : M T A) (k : A -> M T B) c s a c' s' w b c'' s'' w' :
  m c s = Ret a c' s' w -> k a c' s' = Ret b c'' s'' w' -> bind m k c s = Ret b c'' s'' (w ++ w').
Proof. unfold bind; by intros -> ->. Qed.

Lemma first_used s u U A : dinv s (u :: U) A -> exists r, r ∈ y_reqs s /\ u = q_head r /\
  aget 0 (v_used_ring (y_v s)) (v_used_idx (y_v s) mod NUM) = u /\ info_at (y_v s) u = Info (Some (q_b r)) (status_at s r) /\
  v_used_idx (y_v s) <> v_used_idx_dev (y_v s).
Proof.
  intros H; pose proof (few_pending _ _ _ H) as Hfew; pose proof (iv_heads _ _ _ H) as Hh; cbn [app] in Hh; apply Forall_cons in Hh as [Hu _].
  apply list_elem_of_fmap in Hu as (r & -> & Hr); exists r; split_and!; [done|done|by eapply segment_pop, H| |].
  - pose proof (req_chain _ _ _ _ H Hr) as Hc; unfold chain_ok in Hc; unfold status_at, q_head in *; destruct (q_idx r) as [[i0 i1] i2]; cbn [fst] in *.
    destruct Hc as (_ & _ & _ & _ & Hc & _); destruct (info_at (y_v s) i0); cbn in *; congruence.
  - rewrite (iv_used_idx _ _ _ H); cbn [length] in *; apply wrap_moves; [apply H|lia].
Qed.

(** One turn of the loop. *)
Lemma intr_turn s t r U A fuel c : holds s t (q_head r :: U) A -> r ∈ y_reqs s -> status_at s r = 0 ->
  intr_loop (S fuel) c (y_v s) = bind (wakeup (ChBuf (q_b r))) (fun _ _ _ => intr_loop fuel c (seen (q_b r) (y_v s))) c (y_v s).
Proof.
  intros Hh Hr H0; destruct (first_used s _ U A (proj1 Hh)) as (r' & Hr' & Eh & Eid & Ei & Hne).
  assert (r' = r) as -> by (eapply head_inj; [apply Hh|done|done|done]).
  cbn [intr_loop]; unfold bind at 1, get; apply Z.eqb_neq in Hne as ->; rewrite Eid; unfold info_at in Ei; rewrite Ei, H0; cbn [i_status i_b Z.eqb negb].
  unfold bind, modify, wakeup; cbn; by destruct (intr_loop _ _ _).
Qed.

Definition all_served (s : dsys) (U : list Z) : Prop := Forall (fun r => q_head r ∈ U -> status_at s r = 0) (y_reqs s).

Lemma intr_loop_run U fuel s t A c : holds s t U A -> (length U <= fuel)%nat -> all_served s U ->
  exists v' w, intr_loop fuel c (y_v s) = Ret tt c v' w /\ holds (with_v s v') t [] A /\
    forall r, r ∈ y_reqs s -> q_head r ∈ U -> ChBuf (q_b r) ∈ w.
Proof.
  unfold all_served; revert fuel s; induction U as [|u U IH]; intros fuel s Hh Hf Hall.
  - exists (y_v s), []; split_and!; [|by destruct s|by intros r _ ?%not_elem_of_nil]; destruct Hh as (H & _).
    assert (v_used_idx (y_v s) =? v_used_idx_dev (y_v s) = true) as E.
    { rewrite (iv_used_idx _ _ _ H); cbn; rewrite Z.add_0_r; apply Z.eqb_eq; symmetry; apply Z.mod_small, H. }
    destruct fuel; cbn [intr_loop]; unfold bind, get; cbn; by rewrite E.
  - destruct fuel as [|fuel]; [cbn in Hf; lia|]; destruct (first_used s u U A (proj1 Hh)) as (r & Hr & -> & _).
    rewrite Forall_forall in Hall; assert (status_at s r = 0) as H0 by (apply Hall; [done|left]).
    destruct (IH fuel _ (seen_holds s t r U A Hr H0 Hh)) as (v' & w & E & Hv & Hw); [cbn in Hf; lia|rewrite Forall_forall; intros r' Hr' Hin; apply Hall; [done|by right]|].
    exists v', (ChBuf (q_b r) :: w); rewrite (intr_turn s t r U A) by done; unfold bind, wakeup; change (y_v (with_v s (seen (q_b r) (y_v s)))) with (seen (q_b r) (y_v s)) in E.
    rewrite E; split_and!; [done|done|]; intros r' Hr' [Eh|Hin]%elem_of_cons; [|right; by apply Hw].
    assert (r' = r) as -> by (eapply head_inj; [apply Hh|done|done|done]); left.
Qed.

(** A request that the device has failed stops the handler. *)
Lemma intr_loop_panics U fuel s t A c r : holds s t U A -> (length U <= fuel)%nat -> r ∈ y_reqs s -> q_head r ∈ U -> status_at s r <> 0 ->
  intr_loop fuel c (y_v s) = Panic "virtio_disk_intr status".
Proof.
  revert fuel s; induction U as [|u U IH]; intros fuel s Hh Hf Hr Hin Hst; [by apply not_elem_of_nil in Hin|].
  destruct fuel as [|fuel]; [cbn in Hf; lia|]; destruct (first_used s u U A (proj1 Hh)) as (r1 & Hr1 & -> & Eid & Ei & Hne).
  destruct (decide (status_at s r1 = 0)) as [H0|Hn0].
  - assert (q_head r ∈ U) as Hin' by (apply elem_of_cons in Hin as [E|]; [|done]; assert (r = r1) as -> by (eapply head_inj; [apply Hh|done..]); done).
    pose proof (IH fuel _ (seen_holds s t r1 U A Hr1 H0 Hh) ltac:(cbn in Hf; lia) Hr Hin' Hst) as E.
    rewrite (intr_turn s t r1 U A) by done; unfold bind, wakeup; change (y_v (with_v s (seen (q_b r1) (y_v s)))) with (seen (q_b r1) (y_v s)) in E; by rewrite E.
  - cbn [intr_loop]; unfold bind at 1, get; apply Z.eqb_neq in Hne as ->; rewrite Eid; unfold info_at in Ei; rewrite Ei; cbn [i_status].
    by rewrite (proj2 (Z.eqb_neq _ _) Hn0).
Qed.

(** The handler around its loop. *)
Lemma intr_split pid h io v : VDISK ∉ h -> exists io1,
  virtio_disk_intr (Ctx pid h) (set_io io v) =
  bind (intr_loop (Z.to_nat NUM)) (fun _ => release VDISK) (Ctx pid (VDISK :: h)) (set_io io1 v).
Proof.
  intros Hn; exists (Mach (m_csr io) (tl (io_in io)) (io_out io ++ [(R VIRTIO_MMIO_INTERRUPT_ACK, u32 (Z.land (u32 (hd 0 (io_in io))) 3))])).
  unfold virtio_disk_intr; unfold bind at 1; rewrite (acquire_ret VDISK (Ctx pid h)) by done; cbn [c_pid c_held].
  unfold bind at 1 2, rreg, wreg, zoom, io_read, io_write, bind, modify; cbn.
  by destruct (intr_loop _ _ _) as [? ? ? w| | |]; [destruct (release _ _ _)|..].
Qed.

Lemma intr_spec s t U A pid h io : holds s t U A -> VDISK ∉ h -> all_served s U ->
  exists v' w, virtio_disk_intr (Ctx pid h) (set_io io (y_v s)) = Ret tt (Ctx pid h) v' w /\ holds (with_v s v') t [] A /\
    forall r, r ∈ y_reqs s -> q_head r ∈ U -> ChBuf (q_b r) ∈ w.
Proof.
  intros Hh Hn Hall; pose proof (few_pending _ _ _ (proj1 Hh)) as Hfew; destruct (intr_split pid h io (y_v s) Hn) as [io1 ->].
  destruct (intr_loop_run U (Z.to_nat NUM) _ t A (Ctx pid (VDISK :: h)) (holds_io _ _ _ _ io1 Hh)) as (v' & w & E & Hv & Hw); [change (Z.to_nat NUM) with 8%nat; lia|done|].
  exists v', w; split_and!; [|done|done]; rewrite <- (app_nil_r w); refine (bind_run _ _ _ _ _ _ _ w _ _ _ [] _ _); [exact E|].
  unfold release, holding; rewrite bool_decide_eq_true_2 by left; cbn [c_held c_pid]; by rewrite filter_head_lock.
Qed.

Lemma intr_panics s t U A pid h io r : holds s t U A -> VDISK ∉ h -> r ∈ y_reqs s -> q_head r ∈ U -> status_at s r <> 0 ->
  virtio_disk_intr (Ctx pid h) (set_io io (y_v s)) = Panic "virtio_disk_intr status".
Proof.
  intros Hh Hn Hr Hin Hst; pose proof (few_pending _ _ _ (proj1 Hh)) as Hfew; destruct (intr_split pid h io (y_v s) Hn) as [io1 ->].
  unfold bind; change (set_io io1 (y_v s)) with (y_v (with_v s (set_io io1 (y_v s)))).
  rewrite (intr_loop_panics U _ _ t A _ r (holds_io _ _ _ _ io1 Hh)); [done|change (Z.to_nat NUM) with 8%nat; lia|done..].
Qed.

(** A handler that returns has found no failed request. *)
Lemma intr_returns s t U A pid h io a c' v' w : holds s t U A -> VDISK ∉ h ->
  virtio_disk_intr (Ctx pid h) (set_io io (y_v s)) = Ret a c' v' w -> all_served s U.
Proof.
  intros Hh Hn E; unfold all_served; rewrite Forall_forall; intros r Hr Hin; destruct (decide (status_at s r = 0)) as [|Hst]; [done|].
  by rewrite (intr_panics s t U A pid h io r) in E.
Qed.

(** ** The end of a request *)

(** The descriptors of a request, without what its header and its entry of
    [info] hold. *)
Definition links_ok (v : vdisk) (r : request) : Prop :=
  let '(i0, i1, i2) := q_idx r in
  desc_at v i0 = Desc (AOps i0) sizeof_blk_req VRING_DESC_F_NEXT i1 /\
  desc_at v i1 = Desc (AData (q_b r)) BSIZE (Z.lor (if q_write r then 0 else VRING_DESC_F_WRITE) VRING_DESC_F_NEXT) i2 /\
  desc_at v i2 = Desc (AStatus i0) 1 VRING_DESC_F_WRITE 0.

Lemma chain_links v r : chain_ok v r -> links_ok v r.
Proof. unfold chain_ok, links_ok; destruct (q_idx r) as [[i0 i1] i2]; tauto. Qed.

Record freed (r : request) (v v' : vdisk) : Prop := {
  fr_shape : shape v';
  fr_desc : forall j, 0 <= j -> j ∉ q_descs r -> desc_at v' j = desc_at v j;
  fr_free : forall j, 0 <= j -> free_at v' j = if decide (j ∈ q_descs r) then true else free_at v j;
  fr_rest : set_descs (v_desc v) (set_frees (v_free v) v') = v
}.

Lemma free_chain_spec r v c : shape v -> links_ok v r -> NoDup (q_descs r) -> Forall (fun i => 0 <= i < 8 /\ free_at v i = false) (q_descs r) ->
  wp (free_chain (q_head r)) c v (fun _ c' v' => c' = c /\ freed r v v').
Proof.
  destruct r as [b w [[i0 i1] i2]]; unfold links_ok, q_head; cbn [q_idx q_descs fst q_b q_write]; intros Hs (E0 & E1 & E2) Hn Hf.
  rewrite !Forall_cons in Hf; destruct Hf as ((R0 & F0) & (R1 & F1) & (R2 & F2) & _).
  rewrite !NoDup_cons, !not_elem_of_cons in Hn; destruct Hn as ((N1 & N2 & _) & (N3 & _) & _).
  unfold free_chain; change (Z.to_nat NUM) with 8%nat; set (one := fun i v => put_free i true (put_desc i desc0 v)).
  assert (forall n i v d, shape v -> 0 <= i < 8 -> free_at v i = false -> desc_at v i = d ->
    forall Q, wp (if has_flag d VRING_DESC_F_NEXT then free_chain_loop n (d_next d) else ret tt) c (one i v) Q -> wp (free_chain_loop (S n) i) c v Q) as step.
  { clear; intros n i v d Hs Hi Hf Hd Q HQ; cbn [free_chain_loop]; wp_step; wp_step; change (aget desc0 (v_desc v) i) with (desc_at v i); rewrite Hd.
    wp_step; eapply wp_mono; [by apply free_desc_spec|]; intros _ ? ? [-> ->]; exact HQ. }
  assert (forall i v, shape v -> shape (one i v)) as Hone by (intros; by apply shape_put_free, shape_put_desc).
  assert (forall i j v, shape v -> 0 <= i < 8 -> 0 <= j -> desc_at (one i v) j = if decide (j = i) then desc0 else desc_at v j) as Hd1.
  { intros i j v1 ? ? ?; change (desc_at (one i v1) j) with (desc_at (put_desc i desc0 v1) j); by rewrite desc_put. }
  assert (forall i j v, shape v -> 0 <= i < 8 -> 0 <= j -> free_at (one i v) j = if decide (j = i) then true else free_at v j) as Hf1.
  { intros i j v1 ? ? ?; unfold one; rewrite free_put by (auto with virtio || lia); done. }
  eapply (step _ _ _ _ Hs R0 F0 E0); cbn [has_flag d_flags d_next]; change (has_flag _ _) with true; cbn match.
  eapply (step _ i1); [auto|done|by rewrite Hf1, decide_False by (done || lia)|by rewrite Hd1, decide_False by (done || lia)|].
  replace (has_flag _ VRING_DESC_F_NEXT) with true by (by destruct w); cbn [d_next].
  eapply (step _ i2); [auto|done|by rewrite !Hf1, !decide_False by (auto || lia)|by rewrite !Hd1, !decide_False by (auto || lia)|].
  change (has_flag _ _) with false; cbn match; wp_step; split; [done|]; split; [auto| | |by destruct v].
  - cbn [q_descs q_idx]; intros j Hj; rewrite !not_elem_of_cons; intros (? & ? & ? & _); by rewrite !Hd1, !decide_False by auto.
  - cbn [q_descs q_idx]; intros j Hj; rewrite !Hf1 by auto; destruct (decide (j ∈ [i0; i1; i2])) as [G|G]; rewrite !elem_of_cons, elem_of_nil in G.
    + repeat case_decide; tauto || done.
    + rewrite !decide_False by tauto; done.
Qed.

Lemma descs_perm l1 r l2 : descs (l1 ++ r :: l2) ≡ₚ q_descs r ++ descs (l1 ++ l2).
Proof. rewrite !descs_app; unfold descs at 2; rewrite bind_cons; apply Permutation_app_swap_app. Qed.

Section finish.
Context (s : dsys) (U A : list Z) (H : dinv s U A).
Context (l1 l2 : list request) (r : request) (Hl : y_reqs s = l1 ++ r :: l2).
Context (Hdone : q_head r ∉ U ++ y_taken s ++ A).
Context (v' : vdisk) (Hv : freed r (put_info (q_head r) (Info None (i_status (info_at (y_v s) (q_head r)))) (y_v s)) v').

Let s' : dsys := DSys v' (y_disk s) (y_last s) (y_taken s) (l1 ++ l2).

Lemma own_in : r ∈ y_reqs s.
Proof. rewrite Hl, elem_of_app; right; left. Qed.

Lemma rest_in r' : r' ∈ l1 ++ l2 -> r' ∈ y_reqs s.
Proof. rewrite Hl, !elem_of_app, elem_of_cons; tauto. Qed.

Lemma rest_nodup : NoDup (descs (l1 ++ l2)) /\ forall i, i ∈ descs (l1 ++ l2) -> i ∉ q_descs r.
Proof.
  pose proof (iv_descs _ _ _ H) as Hn; rewrite Hl, descs_perm in Hn; apply NoDup_app in Hn as (_ & Hn & Hr); split; [done|].
  intros i Hi Hi2; by apply (Hn i).
Qed.

Lemma rest_head r' : r' ∈ l1 ++ l2 -> q_head r' <> q_head r.
Proof. intros Hr' E; apply (proj2 rest_nodup (q_head r')); [eapply descs_in; eauto using head_in_descs|rewrite E; apply head_in_descs]. Qed.

Lemma finish_bufs : v_bufs v' = v_bufs (y_v s) /\ v_ops v' = v_ops (y_v s) /\
  v_info v' = aset (v_info (y_v s)) (q_head r) (Info None (i_status (info_at (y_v s) (q_head r)))) /\
  v_avail_idx v' = v_avail_idx (y_v s) /\ v_avail_ring v' = v_avail_ring (y_v s) /\ v_used_idx v' = v_used_idx (y_v s) /\
  v_used_idx_dev v' = v_used_idx_dev (y_v s) /\ v_used_ring v' = v_used_ring (y_v s).
Proof. pose proof (fr_rest _ _ _ Hv) as E; destruct v', (y_v s); cbn in E; injection E; intros; subst; by split_and!. Qed.

Lemma rest_info r' : r' ∈ l1 ++ l2 -> info_at v' (q_head r') = info_at (y_v s) (q_head r').
Proof.
  intros Hr'; destruct finish_bufs as (_ & _ & E & _); unfold info_at; rewrite E, aget_aset_ne; [done|..].
  - apply (head_range s U A); [done|apply own_in].
  - apply (head_range s U A); [done|by apply rest_in].
  - intros E2; by apply (rest_head r' Hr').
Qed.

Lemma rest_status r' : r' ∈ l1 ++ l2 -> status_at s' r' = status_at s r'.
Proof. intros Hr'; unfold status_at; cbn [y_v s']; by rewrite rest_info. Qed.

Lemma finish_inv : dinv s' U A.
Proof.
  destruct finish_bufs as (E1 & E2 & E3 & E4 & E5 & E6 & E7 & E8); pose proof own_in as Hr; destruct rest_nodup as [Hnd Hdis].
  assert (sublist (l1 ++ l2) (y_reqs s)) as Hsub by (rewrite Hl; apply sublist_app; [done|by apply sublist_cons]).
  assert (forall b, buf_at v' b = buf_at (y_v s) b) as Hbuf by (intros; unfold buf_at; by rewrite E1).
  assert (forall P, Forall P (y_reqs s) -> Forall P (l1 ++ l2)) as Hall.
  { intros P HP; rewrite Forall_forall in *; intros r' Hr'; by apply HP, rest_in. }
  split; cbn [y_v y_reqs y_last y_taken s']; rewrite ?E4, ?E5, ?E6, ?E7, ?E8; try apply H; try done.
  - apply Hv.
  - pose proof (iv_range _ _ _ H) as Hr1; rewrite Hl, descs_perm in Hr1; by apply Forall_app in Hr1 as [_ ?].
  - intros i Hi; rewrite (fr_free _ _ _ Hv) by lia; change (free_at (put_info _ _ (y_v s)) i) with (free_at (y_v s) i).
    rewrite (iv_free _ _ _ H) by done; rewrite Hl; case_decide as Hin.
    + symmetry; apply bool_decide_eq_true; intros Hc; by apply (Hdis i).
    + apply bool_decide_ext; rewrite descs_perm, elem_of_app; tauto.
  - rewrite Forall_forall; intros r' Hr'; eapply chain_frame; [eapply req_chain; [exact H|by apply rest_in]|..].
    + intros i Hi; assert (i ∈ descs (l1 ++ l2)) as Hin by (by eapply descs_in).
      rewrite (fr_desc _ _ _ Hv); [done|eapply req_range; [exact H|by apply rest_in|done]|by apply Hdis].
    + unfold op_at; by rewrite E2.
    + by rewrite rest_info.
    + by rewrite Hbuf.
    + by rewrite E1.
  - eapply sublist_NoDup; [exact (iv_bufs _ _ _ H)|]; by apply fmap_sublist.
  - assert (blockno_of s' ∘ q_b <$> l1 ++ l2 = blockno_of s ∘ q_b <$> l1 ++ l2) as -> by (apply blocks_ext; intros; unfold blockno_of; cbn; by rewrite Hbuf).
    eapply sublist_NoDup; [exact (iv_blocks _ _ _ H)|]; by apply fmap_sublist.
  - pose proof (iv_heads _ _ _ H) as Hh; rewrite Forall_forall in *; intros h Hh2; pose proof (Hh h Hh2) as Hm.
    rewrite Hl, fmap_app, fmap_cons, elem_of_app, elem_of_cons in Hm; rewrite fmap_app, elem_of_app; destruct Hm as [|[->|]]; tauto.
  - eapply Forall_impl; [apply Hall, (iv_flag _ _ _ H)|]; cbn beta; intros r' <-; by rewrite Hbuf.
  - pose proof (Hall _ (iv_status _ _ _ H)) as Hst; rewrite Forall_forall in *; intros r' Hr'; rewrite rest_status by done; auto.
Qed.

Lemma finish_buf b : buf_at v' b = buf_at (y_v s) b.
Proof. unfold buf_at; by rewrite (proj1 finish_bufs). Qed.

Lemma rest_block r' : r' ∈ l1 ++ l2 -> blockno_of s (q_b r') <> blockno_of s (q_b r).
Proof.
  intros Hr' E; apply (rest_head r' Hr'); f_equal.
  by apply (fmap_inj_in (blockno_of s ∘ q_b) (y_reqs s)); [apply H|apply rest_in|apply own_in|].
Qed.

Lemma finish_rel t : Forall2 (req_rel s t A) (y_reqs s) (t_pend t) ->
  (forall n, n ∉ (blockno_of s ∘ q_b <$> y_reqs s) -> y_disk s n = t_disk t n) ->
  exists t', sstep t (EFinish (q_b r) (vb_data (buf_at v' (q_b r)))) t' /\ drel s' t'.
Proof.
  intros Hp Hd; rewrite Hl in Hp; apply Forall2_app_inv_l in Hp as (p1 & pp & Hp1 & Hp2 & Et).
  apply Forall2_cons_inv_l in Hp2 as (p & p2 & (H1 & H2 & H3 & H4 & H5) & Hp2 & ->).
  assert (q_head r ∉ y_taken s ++ A) as Hn by (rewrite elem_of_app in Hdone; tauto); rewrite decide_False in H5 by done.
  assert (status_at s r = 0) as H0 by (pose proof (iv_status _ _ _ H) as Hst; rewrite Forall_forall in Hst; by apply (Hst r own_in)); specialize (H5 H0).
  eexists; split; [rewrite <- H1; eapply spec_finish; [exact Et|]|]; rewrite ?finish_buf, ?H1, ?H3.
  { destruct (q_write r); [by apply H4|by apply H5]. }
  apply (DRel _ _ U A); cbn [y_reqs y_disk s' t_pend t_disk]; [apply finish_inv| |].
  - assert (Forall2 (req_rel s t A) (l1 ++ l2) (p1 ++ p2)) as Hall by (by apply Forall2_app).
    eapply Forall2_impl_in; [exact Hall|]; intros r' p' Hr' (G1 & G2 & G3 & G4 & G5); assert (p_n p' <> p_n p) as Hnp by (rewrite G2, H2; by apply rest_block).
    unfold req_rel, blockno_of in *; rewrite rest_status by done; cbn [y_v y_disk y_taken s' t_disk]; rewrite finish_buf; do 4 (split; [done|]).
    destruct (q_write r); [|exact G5]; unfold upd; by rewrite (decide_False (P := p_n p' = p_n p)).
  - intros n Hn2; assert (blockno_of s' ∘ q_b <$> l1 ++ l2 = blockno_of s ∘ q_b <$> l1 ++ l2) as Eb.
    { apply blocks_ext; intros; unfold blockno_of; cbn [y_v s']; by rewrite finish_buf. }
    rewrite Eb in Hn2; unfold upd; destruct (decide (n = p_n p)) as [->|Hne]; [destruct (q_write r); [by rewrite decide_True|apply H5]|].
    assert (y_disk s n = t_disk t n) as E; [|by destruct (q_write r); [rewrite decide_False by done|]].
    apply Hd; rewrite Hl, fmap_app, fmap_cons, elem_of_app, elem_of_cons; rewrite fmap_app, elem_of_app in Hn2; cbn [compose]; rewrite <- H2; tauto.
Qed.
End finish.

(** What a woken caller of [virtio_disk_rw] finds. *)
Lemma finish_spec s t U A l1 r l2 pid : holds s t U A -> y_reqs s = l1 ++ r :: l2 ->
  wpb (virtio_disk_finish (q_b r) (q_idx r)) (Ctx pid [VDISK]) (y_v s)
    (fun _ c' v' => c' = Ctx pid [] /\ q_head r ∉ U ++ y_taken s ++ A /\
       exists t', sstep t (EFinish (q_b r) (vb_data (buf_at v' (q_b r)))) t' /\ drel (DSys v' (y_disk s) (y_last s) (y_taken s) (l1 ++ l2)) t')
    (fun ch c' v' => ch = ChBuf (q_b r) /\ v' = y_v s /\ q_head r ∈ U ++ y_taken s ++ A).
Proof.
  intros (H & Hp & Hd) Hl; assert (r ∈ y_reqs s) as Hr by (rewrite Hl, elem_of_app; right; left).
  pose proof (iv_flag _ _ _ H) as Hf; rewrite Forall_forall in Hf; specialize (Hf r Hr); unfold virtio_disk_finish; apply wpb_bind; wp_step.
  change (aget vbuf0 (v_bufs (y_v s)) (q_b r)) with (buf_at (y_v s) (q_b r)); rewrite Hf; case_bool_decide as Hdone.
  { unfold wpb, sleep, holding; cbn [c_held]; rewrite bool_decide_eq_true_2 by left; by rewrite bool_decide_eq_true_2. }
  apply wpb_wp; wp_step; wp_step; wp_step; change (q_idx r).1.1 with (q_head r); set (v1 := put_info _ _ _).
  eapply wp_mono; [apply free_chain_spec; [apply shape_put_info, H| | |]|].
  - eapply (chain_links (y_v s)); by eapply req_chain.
  - pose proof (iv_descs _ _ _ H) as Hn; rewrite Hl, descs_perm in Hn; by apply NoDup_app in Hn as (? & _).
  - rewrite Forall_forall; intros i Hi; split; [by eapply req_range|exact (req_busy _ _ _ _ _ H Hr Hi)].
  - intros _ ? v' [-> Hv]; eapply wp_release; [reflexivity|apply not_elem_of_nil|]; split; [done|]; split; [done|]; by eapply (finish_rel s U A).
Qed.

(** ** Runs *)

Lemma boot_rel bufs io f : drel (boot bufs io f) (Store f []).
Proof.
  apply (DRel _ _ [] []); [|constructor|done].
  split; try done; cbn [boot y_v y_reqs y_taken y_last y_disk app]; try constructor; try done.
  intros i Hi; assert (i ∈ zrange 0 8) as Hin by (by apply elem_of_zrange).
  cbn [zrange] in Hin; rewrite !elem_of_cons, elem_of_nil in Hin; destruct_or? Hin; by subst i.
Qed.

Lemma rel_holds s t : drel s t -> exists U A, holds s t U A.
Proof. intros [U A H1 H2 H3]; by exists U, A. Qed.

Lemma step_rel s t e s' : drel s t -> dstep s e s' -> exists t', ssteps t e t' /\ drel s' t'.
Proof.
  assert (forall t s', drel s' t -> exists t', ssteps t [] t' /\ drel s' t') as Hnone by (intros t0 s0 H; exists t0; split; [constructor|done]).
  assert (forall t t' ev, sstep t ev t' -> ssteps t [ev] t') as Hone by (intros t0 t1 ev He; apply (ssteps_snoc t0 [] t0); [constructor|done]).
  intros Hrel Hs; destruct Hs as [s b write pid idx c' v' w Hb E|s b write pid ch c' v' Hb E|s b n data Hb|s Hne|s t1 head t2 o v' f' HT E|s pid h io c' v' w Hn E|s l1 r l2 pid c' v' w Hl E].
  - pose proof (start_spec s t b write pid Hrel Hb) as Hw; unfold wpb in Hw; rewrite E in Hw; destruct Hw as [_ Hw].
    eexists; split; [apply Hone; constructor|exact Hw].
  - pose proof (start_spec s t b write pid Hrel Hb) as Hw; unfold wpb in Hw; rewrite E in Hw; apply Hnone, Hw.
  - apply Hnone; by apply client_rel.
  - apply Hnone; by apply take_rel.
  - destruct (serve_spec s t t1 head t2 o Hrel HT) as (v1 & f1 & E1 & Hr); rewrite E in E1; injection E1 as -> ->; by apply Hnone.
  - destruct (rel_holds _ _ Hrel) as (U & A & Hh); destruct (intr_spec s t U A pid h io Hh Hn) as (v1 & w1 & E1 & Hr & _); [by eapply intr_returns|].
    rewrite E in E1; injection E1 as _ -> _; apply Hnone; by eapply holds_rel.
  - destruct (rel_holds _ _ Hrel) as (U & A & Hh); pose proof (finish_spec s t U A l1 r l2 pid Hh Hl) as Hw; unfold wpb in Hw; rewrite E in Hw.
    destruct Hw as (_ & _ & t' & Hst & Hr); exists t'; auto.
Qed.

Lemma ssteps_app t tr1 t1 tr2 t2 : ssteps t tr1 t1 -> ssteps t1 tr2 t2 -> ssteps t (tr1 ++ tr2) t2.
Proof.
  intros H1 H2; induction H2 as [t1|t1 tr2 t2 e t3 _ IH He]; [by rewrite app_nil_r|].
  rewrite app_assoc; eapply ssteps_snoc; [by apply IH|done].
Qed.

Lemma run_rel s0 t0 tr s : drel s0 t0 -> dsteps s0 tr s -> exists t, ssteps t0 tr t /\ drel s t.
Proof.
  intros H0; induction 1 as [s|s tr s1 e s2 _ IH Hs]; [exists t0; split; [constructor|done]|].
  destruct (IH H0) as (t1 & Ht & Hr); destruct (step_rel _ _ _ _ Hr Hs) as (t2 & Ht2 & Hr2); exists t2; split; [by eapply ssteps_app|done].
Qed.

(** C6. The disk driver implements a block store.  In every interleaving of any
    number of threads in [virtio_disk_rw], of interrupts and of a device that
    completes requests in any order and may fail some, each read that returns has delivered the
    block's contents and each write that returns has stored the data its buffer
    had when the call was made, as if the transfer happened at that moment; and
    when no request is under way the disk holds the store. *)
Theorem disk_refines bufs io f tr s : dsteps (boot bufs io f) tr s ->
  exists t, ssteps (Store f []) tr t /\ (y_reqs s = [] -> forall n, y_disk s n = t_disk t n).
Proof.
  intros Hs; destruct (run_rel _ _ _ _ (boot_rel bufs io f) Hs) as (t & Ht & [U A _ _ Hd]); exists t; split; [done|].
  intros E n; apply Hd; rewrite E; apply not_elem_of_nil.
Qed.

Lemma avail_nonempty s u U A : dinv s U (u :: A) -> y_last s <> v_avail_idx (y_v s).
Proof.
  intros H; pose proof (few_pending _ _ _ H); rewrite (iv_avail_idx _ _ _ H); cbn [length] in *; apply wrap_moves; [apply H|lia].
Qed.

(** The device has failed the request. *)
Definition failed (s : dsys) (r : request) : Prop := status_at s r = VIRTIO_BLK_S_IOERR \/ status_at s r = VIRTIO_BLK_S_UNSUPP.

Lemma failed_used s U A r : dinv s U A -> r ∈ y_reqs s -> failed s r -> q_head r ∈ U /\ status_at s r <> 0.
Proof.
  intros H Hr Hf; pose proof (iv_status _ _ _ H) as Hs; rewrite Forall_forall in Hs; destruct (Hs r Hr) as (H1 & _ & H3).
  unfold failed, VIRTIO_BLK_S_IOERR, VIRTIO_BLK_S_UNSUPP in Hf; split; [|lia]; destruct (decide (q_head r ∈ U)) as [|Hu]; [done|].
  destruct (decide (q_head r ∈ y_taken s ++ A)) as [Hin|Hin]; [specialize (H1 Hin); lia|].
  assert (status_at s r = 0) by (apply H3; rewrite elem_of_app; tauto); lia.
Qed.

Lemma unfailed_served s U A : dinv s U A -> (forall r, r ∈ y_reqs s -> ~ failed s r) -> all_served s U.
Proof.
  intros H Hno; unfold all_served; rewrite Forall_forall; intros r Hr Hin; pose proof (iv_status _ _ _ H) as Hs; rewrite Forall_forall in Hs.
  destruct (Hs r Hr) as (_ & H2 & _); specialize (Hno r Hr); unfold failed, VIRTIO_BLK_S_IOERR, VIRTIO_BLK_S_UNSUPP in Hno.
  pose proof (iv_nodup _ _ _ H) as (_ & Hn & _)%NoDup_app; specialize (H2 (Hn _ Hin)); lia.
Qed.

(** C7. The disk driver does not get stuck, and panics only on a request the device
    has failed.  In every reachable state a new request is submitted, or sleeps for
    descriptors while two others are under way; the device understands every chain
    it takes, whatever it makes of the request; the interrupt handler returns when
    no request has failed, and wakes every caller whose request it marks as done,
    and panics with its message about the status when one has; and a caller that is
    woken returns, or sleeps on while its request is in the available ring, at the
    device, or in the used ring for the next interrupt. *)
Theorem driver_never_stuck bufs io f tr s pid h io' : dsteps (boot bufs io f) tr s -> VDISK ∉ h ->
  (forall b write, startable s b ->
     match virtio_disk_start b write (Ctx pid []) (y_v s) with
     | Ret _ c' _ _ => c' = Ctx pid [VDISK]
     | Block ch _ _ => ch = ChDiskFree /\ length (y_reqs s) = 2%nat
     | _ => False
     end) /\
  (forall head o, head ∈ y_taken s -> is_Some (serve head o (y_v s) (y_disk s))) /\
  ((forall r, r ∈ y_reqs s -> ~ failed s r) ->
   exists v' w, virtio_disk_intr (Ctx pid h) (set_io io' (y_v s)) = Ret tt (Ctx pid h) v' w /\ v_used_idx v' = v_used_idx_dev v' /\
     forall r, r ∈ y_reqs s -> vb_disk (buf_at (y_v s) (q_b r)) = true -> vb_disk (buf_at v' (q_b r)) = false -> ChBuf (q_b r) ∈ w) /\
  (forall r, r ∈ y_reqs s -> failed s r -> virtio_disk_intr (Ctx pid h) (set_io io' (y_v s)) = Panic "virtio_disk_intr status") /\
  (forall r, r ∈ y_reqs s ->
     match virtio_disk_finish (q_b r) (q_idx r) (Ctx pid [VDISK]) (y_v s) with
     | Ret _ c' _ _ => c' = Ctx pid []
     | Block ch _ v' => ch = ChBuf (q_b r) /\ v' = y_v s /\
         (y_last s <> v_avail_idx (y_v s) \/ q_head r ∈ y_taken s \/ v_used_idx (y_v s) <> v_used_idx_dev (y_v s))
     | _ => False
     end).
Proof.
  intros Hs Hh; destruct (run_rel _ _ _ _ (boot_rel bufs io f) Hs) as (t & _ & Hrel); destruct (rel_holds _ _ Hrel) as (U & A & Hold); pose proof Hold as (H & _).
  split_and!.
  - intros b write Hb; pose proof (start_spec s t b write pid Hrel Hb) as Hw; unfold wpb in Hw; destruct (virtio_disk_start _ _ _ _); tauto.
  - intros head o (t1 & t2 & E)%list_elem_of_split; destruct (serve_spec s t t1 head t2 o Hrel E) as (v' & f' & -> & _); eauto.
  - intros Hno; destruct (intr_spec s t U A pid h io' Hold Hh) as (v' & w & E & (H' & _) & Hw); [by eapply unfailed_served|]; exists v', w; split_and!; [done| |].
    + pose proof (iv_used_idx _ _ _ H') as Eu; cbn [with_v y_v] in Eu; rewrite Eu; cbn; rewrite Z.add_0_r; symmetry; apply Z.mod_small, H'.
    + intros r Hr F1 F2; apply Hw; [done|]; pose proof (iv_flag _ _ _ H) as G1; pose proof (iv_flag _ _ _ H') as G2; rewrite Forall_forall in G1, G2.
      specialize (G1 r Hr); specialize (G2 r Hr); cbn [with_v y_v y_taken app] in G2; rewrite F1 in G1; rewrite F2 in G2.
      symmetry in G1, G2; apply bool_decide_eq_true in G1; apply bool_decide_eq_false in G2; rewrite elem_of_app in G1; tauto.
  - intros r Hr Hf; destruct (failed_used s U A r H Hr Hf); by eapply intr_panics.
  - intros r (l1 & l2 & E)%list_elem_of_split; pose proof (finish_spec s t U A l1 r l2 pid Hold E) as Hw; unfold wpb in Hw.
    destruct (virtio_disk_finish _ _ _ _); try done; [tauto|]; destruct Hw as (-> & -> & Hin); split_and!; [done|done|].
    rewrite !elem_of_app in Hin; destruct Hin as [Hin|[Hin|Hin]]; [|by right; left|left].
    + right; right; destruct U as [|u U]; [by apply not_elem_of_nil in Hin|]; by destruct (first_used s u U A H) as (? & ? & ? & ? & ? & ?).
    + destruct A as [|u A]; [by apply not_elem_of_nil in Hin|]; by eapply avail_nonempty.
Qed.

#[global] Instance idle_dec s b : Decision (idle s b).
Proof. unfold idle; apply _. Defined.
#[global] Instance startable_dec s b : Decision (startable s b).
Proof. unfold startable; apply _. Defined.

(** Evaluating a run step by step. *)
Lemma step_event s e e' s' : dstep s e s' -> e = e' -> dstep s e' s'.
Proof. by intros ? <-. Qed.

Ltac run_start b write :=
  eapply step_event; [eapply (step_start _ b write 1); [refine (bool_decide_unpack (startable _ b) _); vm_compute; exact I|vm_compute; reflexivity]|reflexivity].
Ltac run_take := apply step_take; vm_compute; congruence.
Ltac run_serve o := eapply (step_serve _ [] _ [] o); [reflexivity|vm_compute; reflexivity].
Ltac run_intr := eapply (step_intr _ 1 [] (Mach (fun _ => 0) [1] [])); [apply not_elem_of_nil|vm_compute; reflexivity].
Ltac run_finish := eapply step_event; [eapply (step_finish _ [] _ [] 1); [reflexivity|vm_compute; reflexivity]|reflexivity].
Ltac silent3 tr := eapply (dsteps_snoc _ tr _ []); [eapply (dsteps_snoc _ tr _ []); [eapply (dsteps_snoc _ tr _ [])|]|].

(** Block 7 is written. *)
Definition ex_bufs : list vbuf := [VBuf 7 false [1; 2; 3]].
Definition ex_io : mach := Mach (fun _ => 0) [] [].

Lemma disk_refines_witness : exists s t,
  ssteps (Store (fun _ => [0]) []) [EStart 0 7 true [1; 2; 3]; EFinish 0 [1; 2; 3]] t /\
  (y_reqs s = [] -> forall n, y_disk s n = t_disk t n).
Proof.
  eexists; eapply (disk_refines ex_bufs ex_io (fun _ => [0])).
  pose (e1 := EStart 0 7 true [1; 2; 3]); pose (e2 := EFinish 0 [1; 2; 3]); eapply (dsteps_snoc _ [e1] _ [e2]); [silent3 [e1]|].
  { eapply (dsteps_snoc _ [] _ [e1]); [apply dsteps_refl|run_start 0 true]. }
  { run_take. }
  { run_serve Success. }
  { run_intr. }
  { run_finish. }
Defined.

(** After the write is submitted and failed by the device. *)
Lemma driver_never_stuck_witness : exists s r, y_reqs s = [r] /\ failed s r /\
  virtio_disk_intr (Ctx 1 []) (set_io ex_io (y_v s)) = Panic "virtio_disk_intr status".
Proof.
  assert (exists s, y_reqs s = [Rq 0 true (0, 1, 2)] /\ status_at s (Rq 0 true (0, 1, 2)) = 1 /\
    dsteps (boot ex_bufs ex_io (fun _ => [0])) [EStart 0 7 true [1; 2; 3]] s) as (s & E1 & E2 & Hs).
  { eexists; split; [|split]; [shelve|shelve|]; pose (e1 := EStart 0 7 true [1; 2; 3]).
    eapply (dsteps_snoc _ [e1] _ []); [eapply (dsteps_snoc _ [e1] _ []); [eapply (dsteps_snoc _ [] _ [e1]); [apply dsteps_refl|run_start 0 true]|run_take]|run_serve (Failure false [9])].
    Unshelve. all: reflexivity. }
  exists s, (Rq 0 true (0, 1, 2)); assert (failed s (Rq 0 true (0, 1, 2))) as Hf by (by left); split_and!; [done|done|].
  destruct (driver_never_stuck ex_bufs ex_io (fun _ => [0]) [EStart 0 7 true [1; 2; 3]] s 1 [] ex_io Hs) as (_ & _ & _ & H & _); [apply not_elem_of_nil|].
  apply (H (Rq 0 true (0, 1, 2))); [rewrite E1; left|exact Hf].
Defined.
