(* ===== verification/Kernel.v ===== *)
(** * The state of the kernel above the file system

    [struct proc], [struct file], [struct pipe] and the console's buffer, the
    tables they live in, and how the code below runs inside them.  Pointers are
    indices: of a process in [proc], of a file in [ftable.file], of an inode in
    [itable.inode]; -1 is the null pointer.  A pipe is named by the physical
    address of its page.  The fields of a trap frame are the words of its page,
    which the process's page table maps, so they are in [kmem].

    [me] is the running process, [myproc()].  [sleep] sets the state of [me] and
    ends the run with [Block]; what the calling loop does when woken is to test
    its condition again. *)

From S2P Require Import Prelude KMonad Memory Riscv Kalloc Vm Machine CString Sleeplock Bio Session FsLayout Log Fs Virtio.

Inductive procstate := UNUSED | USED | SLEEPING | RUNNABLE | RUNNING | ZOMBIE.

#[global] Instance procstate_eq_dec : EqDecision procstate.
Proof. solve_decision. Defined.

(** Saved registers for kernel context switches; [x_s] are [s0] to [s11]. *)
Record context := Context { x_ra : Z; x_sp : Z; x_s : list Z }.

Record proc := Proc {
  p_state : procstate;
  p_chan : option wchan;
  p_killed : Z;
  p_xstate : Z;
  p_pid : Z;
  p_parent : Z;
  p_kstack : Z;
  p_sz : Z;
  p_pagetable : Z;
  p_trapframe : Z;
  p_context : context;
  p_ofile : list Z;
  p_cwd : Z;
  p_name : list Z
}.

Inductive ftype := FD_NONE | FD_PIPE | FD_INODE | FD_DEVICE.

#[global] Instance ftype_eq_dec : EqDecision ftype.
Proof. solve_decision. Defined.

Record file := File {
  f_type : ftype;
  f_ref : Z;
  f_readable : bool;
  f_writable : bool;
  f_pipe : Z;
  f_ip : Z;
  f_off : Z;
  f_major : Z
}.

Definition PIPESIZE : Z := 512.

Record pipe := Pipe {
  pi_data : list Z;
  pi_nread : Z;
  pi_nwrite : Z;
  pi_readopen : bool;
  pi_writeopen : bool
}.

Definition INPUT_BUF_SIZE : Z := 128.

(** [cons]: input buffer with read, write and edit index. *)
Record cons := Cons { cons_buf : list Z; cons_r : Z; cons_w : Z; cons_e : Z }.

(** A device's functions in [devsw]; the console is the only device. *)
Inductive devfn := DevConsole.

Record ksys := KSys {
  y_fs : fsys;
  y_ftable : list file;
  y_pipes : gmap Z pipe;
  y_proc : list proc;
  y_initproc : Z;
  y_nextpid : Z;
  y_ticks : Z;
  y_devsw : list (option devfn * option devfn);
  y_cons : cons;
  y_txbusy : bool;
  y_vdisk : vdisk;
  y_mach : mach
}.

Definition NULL : Z := -1.

Definition context0 : context := Context 0 0 (replicate 12 0).
Definition proc0 : proc := Proc UNUSED None 0 0 0 NULL 0 0 0 0 context0 (replicate (Z.to_nat NOFILE) NULL) NULLI (replicate 16 0).
Definition file0 : file := File FD_NONE 0 false false 0 NULLI 0 0.
Definition pipe0 : pipe := Pipe [] 0 0 false false.

Definition set_fs (f : fsys) (s : ksys) : ksys :=
  KSys f (y_ftable s) (y_pipes s) (y_proc s) (y_initproc s) (y_nextpid s) (y_ticks s) (y_devsw s) (y_cons s) (y_txbusy s) (y_vdisk s) (y_mach s).
Definition set_ftable (t : list file) (s : ksys) : ksys :=
  KSys (y_fs s) t (y_pipes s) (y_proc s) (y_initproc s) (y_nextpid s) (y_ticks s) (y_devsw s) (y_cons s) (y_txbusy s) (y_vdisk s) (y_mach s).
Definition set_pipes (t : gmap Z pipe) (s : ksys) : ksys :=
  KSys (y_fs s) (y_ftable s) t (y_proc s) (y_initproc s) (y_nextpid s) (y_ticks s) (y_devsw s) (y_cons s) (y_txbusy s) (y_vdisk s) (y_mach s).
Definition set_procs (t : list proc) (s : ksys) : ksys :=
  KSys (y_fs s) (y_ftable s) (y_pipes s) t (y_initproc s) (y_nextpid s) (y_ticks s) (y_devsw s) (y_cons s) (y_txbusy s) (y_vdisk s) (y_mach s).
Definition set_initproc (i : Z) (s : ksys) : ksys :=
  KSys (y_fs s) (y_ftable s) (y_pipes s) (y_proc s) i (y_nextpid s) (y_ticks s) (y_devsw s) (y_cons s) (y_txbusy s) (y_vdisk s) (y_mach s).
Definition set_nextpid (n : Z) (s : ksys) : ksys :=
  KSys (y_fs s) (y_ftable s) (y_pipes s) (y_proc s) (y_initproc s) n (y_ticks s) (y_devsw s) (y_cons s) (y_txbusy s) (y_vdisk s) (y_mach s).
Definition set_ticks (n : Z) (s : ksys) : ksys :=
  KSys (y_fs s) (y_ftable s) (y_pipes s) (y_proc s) (y_initproc s) (y_nextpid s) n (y_devsw s) (y_cons s) (y_txbusy s) (y_vdisk s) (y_mach s).
Definition set_devsw (d : list (option devfn * option devfn)) (s : ksys) : ksys :=
  KSys (y_fs s) (y_ftable s) (y_pipes s) (y_proc s) (y_initproc s) (y_nextpid s) (y_ticks s) d (y_cons s) (y_txbusy s) (y_vdisk s) (y_mach s).
Definition set_cons (c : cons) (s : ksys) : ksys :=
  KSys (y_fs s) (y_ftable s) (y_pipes s) (y_proc s) (y_initproc s) (y_nextpid s) (y_ticks s) (y_devsw s) c (y_txbusy s) (y_vdisk s) (y_mach s).
Definition set_txbusy (b : bool) (s : ksys) : ksys :=
  KSys (y_fs s) (y_ftable s) (y_pipes s) (y_proc s) (y_initproc s) (y_nextpid s) (y_ticks s) (y_devsw s) (y_cons s) b (y_vdisk s) (y_mach s).
Definition set_mach (m : mach) (s : ksys) : ksys :=
  KSys (y_fs s) (y_ftable s) (y_pipes s) (y_proc s) (y_initproc s) (y_nextpid s) (y_ticks s) (y_devsw s) (y_cons s) (y_txbusy s) (y_vdisk s) m.

Definition set_vd (v : vdisk) (s : ksys) : ksys :=
  KSys (y_fs s) (y_ftable s) (y_pipes s) (y_proc s) (y_initproc s) (y_nextpid s) (y_ticks s) (y_devsw s) (y_cons s) (y_txbusy s) v (y_mach s).

#[global] Program Instance ksys_mach : Lens ksys mach := {| lget := y_mach; lset := set_mach |}.
Solve All Obligations with by intros; try destruct t.

(** ** Fields of the tables *)

Definition proc_at (s : ksys) (i : Z) : proc := aget proc0 (y_proc s) i.
Definition upd_proc (i : Z) (f : proc -> proc) (s : ksys) : ksys :=
  set_procs (aset (y_proc s) i (f (proc_at s i))) s.
Definition getp (i : Z) : M ksys proc := gets (fun s => proc_at s i).
Definition modp (i : Z) (f : proc -> proc) : M ksys unit := modify (upd_proc i f).

Definition file_at (s : ksys) (f : Z) : file := aget file0 (y_ftable s) f.
Definition upd_file (f : Z) (g : file -> file) (s : ksys) : ksys :=
  set_ftable (aset (y_ftable s) f (g (file_at s f))) s.
Definition getf (f : Z) : M ksys file := gets (fun s => file_at s f).
Definition modf (f : Z) (g : file -> file) : M ksys unit := modify (upd_file f g).

Definition pipe_at (s : ksys) (pi : Z) : pipe := default pipe0 (y_pipes s !! pi).
Definition getpi (pi : Z) : M ksys pipe := gets (fun s => pipe_at s pi).
Definition modpi (pi : Z) (g : pipe -> pipe) : M ksys unit :=
  modify (fun s => set_pipes (<[pi := g (pipe_at s pi)]> (y_pipes s)) s).

Definition set_state (x : procstate) (p : proc) : proc :=
  Proc x (p_chan p) (p_killed p) (p_xstate p) (p_pid p) (p_parent p) (p_kstack p) (p_sz p) (p_pagetable p) (p_trapframe p) (p_context p) (p_ofile p) (p_cwd p) (p_name p).
Definition set_chan (x : option wchan) (p : proc) : proc :=
  Proc (p_state p) x (p_killed p) (p_xstate p) (p_pid p) (p_parent p) (p_kstack p) (p_sz p) (p_pagetable p) (p_trapframe p) (p_context p) (p_ofile p) (p_cwd p) (p_name p).
Definition set_killed (x : Z) (p : proc) : proc :=
  Proc (p_state p) (p_chan p) x (p_xstate p) (p_pid p) (p_parent p) (p_kstack p) (p_sz p) (p_pagetable p) (p_trapframe p) (p_context p) (p_ofile p) (p_cwd p) (p_name p).
Definition set_xstate (x : Z) (p : proc) : proc :=
  Proc (p_state p) (p_chan p) (p_killed p) x (p_pid p) (p_parent p) (p_kstack p) (p_sz p) (p_pagetable p) (p_trapframe p) (p_context p) (p_ofile p) (p_cwd p) (p_name p).
Definition set_pid (x : Z) (p : proc) : proc :=
  Proc (p_state p) (p_chan p) (p_killed p) (p_xstate p) x (p_parent p) (p_kstack p) (p_sz p) (p_pagetable p) (p_trapframe p) (p_context p) (p_ofile p) (p_cwd p) (p_name p).
Definition set_parent (x : Z) (p : proc) : proc :=
  Proc (p_state p) (p_chan p) (p_killed p) (p_xstate p) (p_pid p) x (p_kstack p) (p_sz p) (p_pagetable p) (p_trapframe p) (p_context p) (p_ofile p) (p_cwd p) (p_name p).
Definition set_kstack (x : Z) (p : proc) : proc :=
  Proc (p_state p) (p_chan p) (p_killed p) (p_xstate p) (p_pid p) (p_parent p) x (p_sz p) (p_pagetable p) (p_trapframe p) (p_context p) (p_ofile p) (p_cwd p) (p_name p).
Definition set_sz (x : Z) (p : proc) : proc :=
  Proc (p_state p) (p_chan p) (p_killed p) (p_xstate p) (p_pid p) (p_parent p) (p_kstack p) x (p_pagetable p) (p_trapframe p) (p_context p) (p_ofile p) (p_cwd p) (p_name p).
Definition set_pagetable (x : Z) (p : proc) : proc :=
  Proc (p_state p) (p_chan p) (p_killed p) (p_xstate p) (p_pid p) (p_parent p) (p_kstack p) (p_sz p) x (p_trapframe p) (p_context p) (p_ofile p) (p_cwd p) (p_name p).
Definition set_trapframe (x : Z) (p : proc) : proc :=
  Proc (p_state p) (p_chan p) (p_killed p) (p_xstate p) (p_pid p) (p_parent p) (p_kstack p) (p_sz p) (p_pagetable p) x (p_context p) (p_ofile p) (p_cwd p) (p_name p).
Definition set_context (x : context) (p : proc) : proc :=
  Proc (p_state p) (p_chan p) (p_killed p) (p_xstate p) (p_pid p) (p_parent p) (p_kstack p) (p_sz p) (p_pagetable p) (p_trapframe p) x (p_ofile p) (p_cwd p) (p_name p).
Definition set_ofiles (x : list Z) (p : proc) : proc :=
  Proc (p_state p) (p_chan p) (p_killed p) (p_xstate p) (p_pid p) (p_parent p) (p_kstack p) (p_sz p) (p_pagetable p) (p_trapframe p) (p_context p) x (p_cwd p) (p_name p).
Definition set_ofile (fd f : Z) (p : proc) : proc := set_ofiles (aset (p_ofile p) fd f) p.
Definition set_cwd (x : Z) (p : proc) : proc :=
  Proc (p_state p) (p_chan p) (p_killed p) (p_xstate p) (p_pid p) (p_parent p) (p_kstack p) (p_sz p) (p_pagetable p) (p_trapframe p) (p_context p) (p_ofile p) x (p_name p).
Definition set_name (x : list Z) (p : proc) : proc :=
  Proc (p_state p) (p_chan p) (p_killed p) (p_xstate p) (p_pid p) (p_parent p) (p_kstack p) (p_sz p) (p_pagetable p) (p_trapframe p) (p_context p) (p_ofile p) (p_cwd p) x.

(** [p->name] is an array of 16 bytes; a copy overwrites its beginning. *)
Definition copy_name (bs : list Z) (p : proc) : proc := set_name (blit (p_name p) 0 bs) p.

(** What [vm.c] uses of the process. *)
Definition uproc_of (p : proc) : uproc := UProc (p_sz p) (p_pagetable p).

(** ** The trap frame, [struct trapframe] of [kernel/proc.h]

    Its fields in order, one 64-bit word each. *)

Inductive trapframe :=
| TF_kernel_satp | TF_kernel_sp | TF_kernel_trap | TF_epc | TF_kernel_hartid | TF_ra | TF_sp | TF_gp
| TF_tp | TF_t0 | TF_t1 | TF_t2 | TF_s0 | TF_s1 | TF_a0 | TF_a1 | TF_a2 | TF_a3 | TF_a4 | TF_a5
| TF_a6 | TF_a7 | TF_s2 | TF_s3 | TF_s4 | TF_s5 | TF_s6 | TF_s7 | TF_s8 | TF_s9 | TF_s10 | TF_s11
| TF_t3 | TF_t4 | TF_t5 | TF_t6.

Definition tf_off (f : trapframe) : Z :=
  8 * match f with
      | TF_kernel_satp => 0 | TF_kernel_sp => 1 | TF_kernel_trap => 2 | TF_epc => 3
      | TF_kernel_hartid => 4 | TF_ra => 5 | TF_sp => 6 | TF_gp => 7 | TF_tp => 8 | TF_t0 => 9
      | TF_t1 => 10 | TF_t2 => 11 | TF_s0 => 12 | TF_s1 => 13 | TF_a0 => 14 | TF_a1 => 15 | TF_a2 => 16
      | TF_a3 => 17 | TF_a4 => 18 | TF_a5 => 19 | TF_a6 => 20 | TF_a7 => 21 | TF_s2 => 22 | TF_s3 => 23
      | TF_s4 => 24 | TF_s5 => 25 | TF_s6 => 26 | TF_s7 => 27 | TF_s8 => 28 | TF_s9 => 29 | TF_s10 => 30
      | TF_s11 => 31 | TF_t3 => 32 | TF_t4 => 33 | TF_t5 => 34 | TF_t6 => 35
      end.

Definition tf_kernel_satp : Z := tf_off TF_kernel_satp.
Definition tf_kernel_sp : Z := tf_off TF_kernel_sp.
Definition tf_kernel_trap : Z := tf_off TF_kernel_trap.
Definition tf_epc : Z := tf_off TF_epc.
Definition tf_kernel_hartid : Z := tf_off TF_kernel_hartid.
Definition tf_sp : Z := tf_off TF_sp.
Definition tf_a0 : Z := tf_off TF_a0.
Definition tf_a1 : Z := tf_off TF_a1.
Definition tf_a2 : Z := tf_off TF_a2.
Definition tf_a3 : Z := tf_off TF_a3.
Definition tf_a4 : Z := tf_off TF_a4.
Definition tf_a5 : Z := tf_off TF_a5.
Definition tf_a7 : Z := tf_off TF_a7.
Definition sizeof_trapframe : Z := 288.

(** ** Sleeping and waking, [kernel/proc.c] *)

(** The effect of [wakeup] on the process table. *)
Definition wake (me : Z) (ch : wchan) (i : Z) (p : proc) : proc :=
  if negb (i =? me) && bool_decide (p_state p = SLEEPING) && bool_decide (p_chan p = Some ch)
  then set_state RUNNABLE p else p.
Definition wake_all (me : Z) (ch : wchan) (ps : list proc) : list proc :=
  imap (fun i p => wake me ch (Z.of_nat i) p) ps.

(** The memory code below wakes nobody and never sleeps. *)
#[global] Program Instance ksys_kmem : Lens ksys kmem := {|
  lget := fun s => fs_mem (y_fs s);
  lset := fun m s => set_fs (Fsys m (fs_log (y_fs s)) (fs_sb (y_fs s)) (fs_itable (y_fs s))) s |}.
Solve All Obligations with by intros; try destruct t as [[] ? ? ? ? ? ? ? ? ? ? ?].

Definition liftm {A} (m : M kmem A) : M ksys A := zoom m.

Section kernel.
Context (me : Z).

Definition wakeup (ch : wchan) : M ksys unit :=
  for_each (zrange 0 (Z.to_nat NPROC)) (fun i =>
    if negb (i =? me) then
      do! acquire (PROCLOCK i);
      let! p := getp i in
      do! (if bool_decide (p_state p = SLEEPING) && bool_decide (p_chan p = Some ch)
           then modp i (set_state RUNNABLE) else ret tt);
      release (PROCLOCK i)
    else ret tt).

(** [sched] tests that only [p->lock] is held and that the state has changed,
    and leaves for the scheduler; [ch] is what the process waits for. *)
Definition sched {A} (ch : wchan) : M ksys A :=
  fun c s =>
    if negb (holding (PROCLOCK me) c) then Panic "sched p->lock"
    else if negb (bool_decide (c_held c = [PROCLOCK me])) then Panic "sched locks"
    else if bool_decide (p_state (proc_at s me) = RUNNING) then Panic "sched RUNNING"
    else Block ch c s.

Definition sleep {A} (ch : wchan) (lk : lockid) : M ksys A :=
  do! acquire (PROCLOCK me);
  do! release lk;
  do! modp me (fun p => set_state SLEEPING (set_chan (Some ch) p));
  sched ch.

(** A computation of the file system below, run by [me]: its
    wakeups reach the process table, and a sleep puts [me] to sleep. *)
Definition lift {A} (m : M fsys A) : M ksys A :=
  fun c s =>
    match m c (y_fs s) with
    | Ret a c' f w =>
        Ret a c' (set_procs (foldl (fun ps ch => wake_all me ch ps) (y_proc s) w) (set_fs f s)) []
    | Panic e => Panic e
    | Block ch c' f =>
        Block ch c' (upd_proc me (fun p => set_state SLEEPING (set_chan (Some ch) p)) (set_fs f s))
    | Diverge => Diverge
    end.
Definition liftl {A} (m : M lstate A) : M ksys A := lift (zoom m).

(** The same for the disk driver. *)
Definition liftv {A} (m : M vdisk A) : M ksys A :=
  fun c s =>
    match m c (y_vdisk s) with
    | Ret a c' v w =>
        Ret a c' (set_procs (foldl (fun ps ch => wake_all me ch ps) (y_proc s) w) (set_vd v s)) []
    | Panic e => Panic e
    | Block ch c' v =>
        Block ch c' (upd_proc me (fun p => set_state SLEEPING (set_chan (Some ch) p)) (set_vd v s))
    | Diverge => Diverge
    end.

Definition setkilled (i : Z) : M ksys unit :=
  do! acquire (PROCLOCK i);
  do! modp i (set_killed 1);
  release (PROCLOCK i).

Definition killed (i : Z) : M ksys bool :=
  do! acquire (PROCLOCK i);
  let! p := getp i in
  do! release (PROCLOCK i);
  ret (negb (p_killed p =? 0)).

End kernel.

(** Words of a trap frame page. *)
Definition tf_get (tf off : Z) : M ksys Z := liftm (gets (fun s => rd64 (k_mem s) (tf + off))).
Definition tf_set (tf off v : Z) : M ksys unit := liftm (mod_mem (fun m => wr64 m (tf + off) v)).
