(* ===== verification/Spaces.v ===== *)
(** * Ownership of physical pages

    Every allocatable page is free, part of one user address space (a page of its
    table or a page it maps), or held by somebody else ([R]: trap frames, pipes,
    kernel buffers).  An operation on one address space keeps the others, and
    what their processes see, as they were. *)

From S2P Require Import Prelude KMonad Memory Riscv Kalloc Vm VmProofs UserVm UserMem UserLife CString Sleeplock Bio Session FsLayout Log Fs Kernel.

Definition space_pages (x : ptree * umap) : list Z := pt_pages x.1 ++ upages x.2.
Definition all_pages (A : gmap Z (ptree * umap)) : list Z := map_to_list A ≫= (fun x => space_pages x.2).

Lemma all_pages_insert A i x : A !! i = None -> all_pages (<[i := x]> A) ≡ₚ space_pages x ++ all_pages A.
Proof. intros Hi; unfold all_pages; by rewrite map_to_list_insert. Qed.
Lemma all_pages_delete A i x : A !! i = Some x -> all_pages A ≡ₚ space_pages x ++ all_pages (delete i A).
Proof. intros Hi; unfold all_pages; by rewrite <- (map_to_list_delete _ _ _ Hi). Qed.
Lemma all_pages_replace A i x y :
  A !! i = Some x -> all_pages (<[i := y]> A) ≡ₚ space_pages y ++ all_pages (delete i A).
Proof. intros Hi; rewrite <- insert_delete_eq; apply all_pages_insert, lookup_delete_eq. Qed.
Lemma elem_of_all_pages A i x p : A !! i = Some x -> p ∈ space_pages x -> p ∈ all_pages A.
Proof. intros Hi Hp; rewrite (all_pages_delete _ _ _ Hi), elem_of_app; auto. Qed.

Lemma NoDup_exchange {B} (P P' D R f f' : list B) :
  P' ++ f' ≡ₚ P ++ f -> NoDup (P ++ D ++ R ++ f) -> NoDup (P' ++ D ++ R ++ f').
Proof.
  intros Hp; rewrite !(app_assoc D), !(Permutation_app_comm (D ++ R)), !(app_assoc P), !(app_assoc P').
  by rewrite Hp.
Qed.

Section spaces.
Context {L : KernelLayout}.

Record spaces (s : kmem) (free : list Z) (A : gmap Z (ptree * umap)) (R : list Z) : Prop := {
  sp_kalloc : kalloc_inv s free;
  sp_space i t U : A !! i = Some (t, U) -> uspace s free t U;
  sp_other : Forall page_ok R;
  sp_nodup : NoDup (all_pages A ++ R ++ free)
}.

Lemma space_pages_ok s free t U : uspace s free t U -> Forall page_ok (pt_pages t ++ upages U ++ free).
Proof.
  intros Hn; apply Forall_app; split; [apply Hn|]; apply Forall_app; split; [|apply Hn].
  apply Forall_forall; intros p; unfold upages; rewrite list_elem_of_fmap; intros ([pa pm] & -> & Hin).
  apply list_elem_of_fmap in Hin as ([v [pa' pm']] & [= -> ->] & Hin); apply elem_of_map_to_list in Hin.
  by apply (us_dom _ _ _ _ Hn) in Hin as (_ & ? & _).
Qed.

(** The pages of two address spaces, of the others and the free ones are apart. *)
Lemma spaces_apart s free A R i x p :
  spaces s free A R -> A !! i = Some x -> p ∈ space_pages x ++ free ->
  (p ∉ R) /\ forall j y, j <> i -> A !! j = Some y -> p ∉ space_pages y.
Proof.
  intros [_ _ _ Hn] Hi Hp; rewrite (all_pages_delete _ _ _ Hi), <- app_assoc in Hn.
  assert (forall q, q ∈ all_pages (delete i A) ++ R -> p <> q) as Hd.
  { intros q Hq ->; apply NoDup_app in Hn as (_ & H1 & H2); rewrite app_assoc in H2; apply NoDup_app in H2 as (_ & H2 & _).
    apply elem_of_app in Hp as [Hp|Hp]; [apply (H1 _ Hp); rewrite !elem_of_app in *; tauto|].
    by apply (H2 q). }
  split.
  - intros HR; apply (Hd p); [rewrite elem_of_app; auto|done].
  - intros j y Hj Hy Hin; apply (Hd p); [|done]; rewrite elem_of_app; left.
    eapply (elem_of_all_pages _ j y); [by rewrite lookup_delete_ne|done].
Qed.

(** A step of address space [i] that exchanges pages only with the free list and
    writes only its own and free pages. *)
Lemma spaces_step s s' free free' A R i t U t' U' :
  spaces s free A R -> A !! i = Some (t, U) -> uspace s' free' t' U' ->
  pt_pages t' ++ upages U' ++ free' ≡ₚ pt_pages t ++ upages U ++ free ->
  same_except (pt_pages t ++ upages U ++ free) (k_mem s) (k_mem s') ->
  spaces s' free' (<[i := (t', U')]> A) R /\
  (forall j tj Uj, j <> i -> A !! j = Some (tj, Uj) -> forall va, uview (k_mem s') Uj va = uview (k_mem s) Uj va).
Proof.
  intros Hs Hi Hu' Hp Hm; pose proof (sp_space _ _ _ _ Hs _ _ _ Hi) as Hu.
  pose proof (space_pages_ok _ _ _ _ Hu) as HF.
  assert (forall j tj Uj p, j <> i -> A !! j = Some (tj, Uj) -> p ∈ pt_pages t ++ upages U ++ free ->
            p ∉ pt_pages tj ++ upages Uj) as Hd.
  { intros j tj Uj p Hj Hy Hin; apply (proj2 (spaces_apart _ _ _ _ _ (t, U) p Hs Hi ltac:(unfold space_pages; by rewrite <- app_assoc)) j (tj, Uj)); done. }
  split; [|intros j tj Uj Hj Hy; eapply (view_frame s free tj Uj); eauto;
           [by apply Hs in Hy|intros p Hin Hu2; apply (Hd j tj Uj p Hj Hy Hin); elt]].
  assert (NoDup (all_pages (<[i := (t', U')]> A) ++ R ++ free')) as Hn.
  { destruct Hs as [_ _ _ Hn]; rewrite (all_pages_delete _ _ _ Hi), <- app_assoc in Hn.
    rewrite (all_pages_replace _ _ (t, U)), <- app_assoc by done; eapply NoDup_exchange; [|exact Hn].
    unfold space_pages; cbn [fst snd]; by rewrite <- !app_assoc. }
  split; [apply Hu'| |apply Hs|done].
  intros j tj Uj Hj; destruct (decide (j = i)) as [->|Hne]; [rewrite lookup_insert_eq in Hj; by simplify_eq|].
  rewrite lookup_insert_ne in Hj by done; pose proof (sp_space _ _ _ _ Hs _ _ _ Hj) as Huj.
  eapply (uspace_frame s s' free free' tj Uj (pt_pages t ++ upages U ++ free)); eauto.
  - intros p Hin Hpt; apply (Hd j tj Uj p Hne Hj Hin); elt.
  - apply Hu'.
  - assert (<[i := (t', U')]> A !! j = Some (tj, Uj)) as Hj' by (by rewrite lookup_insert_ne).
    rewrite (all_pages_delete _ _ _ Hj') in Hn; unfold space_pages in Hn; cbn [fst snd] in Hn; rewrite <- !app_assoc in Hn.
    rewrite app_assoc in Hn; apply NoDup_app in Hn as (H1 & H2 & H3); rewrite app_assoc; apply NoDup_app; split_and!; auto.
    + intros p Hin Hf; apply (H2 p Hin); elt.
    + apply NoDup_app in H3 as (_ & _ & H3); by apply NoDup_app in H3 as (_ & _ & ?).
Qed.

(** A step that writes only free pages and pages held by others, and exchanges
    pages between the two. *)
Lemma spaces_move s s' free free' A R R' :
  spaces s free A R -> kalloc_inv s' free' -> same_except (R ++ free) (k_mem s) (k_mem s') -> R' ++ free' ≡ₚ R ++ free ->
  spaces s' free' A R'.
Proof.
  intros [Hk Hs HR Hn] Hk' Hm Hp.
  assert (Forall page_ok (R ++ free)) as HF by (apply Forall_app; split; [done|apply Hk]).
  assert (NoDup (all_pages A ++ R' ++ free')) as Hn' by (by rewrite Hp).
  split; [done| |rewrite <- Hp in HF; by apply Forall_app in HF as [? _]|done].
  intros i t U Hi; rewrite (all_pages_delete _ _ _ Hi) in Hn, Hn'; unfold space_pages in Hn, Hn'; cbn [fst snd] in Hn, Hn'.
  rewrite <- !app_assoc in Hn, Hn'; eapply (uspace_frame s s' free free' t U (R ++ free)); eauto.
  - intros p Hin Hpt; apply NoDup_app in Hn as (_ & Hn & _); apply (Hn p Hpt); rewrite !elem_of_app in *; tauto.
  - rewrite app_assoc in Hn'; rewrite app_assoc; apply NoDup_app in Hn' as (H1 & H2 & H3); apply NoDup_app; split_and!; auto.
    + intros p Hin Hf; apply (H2 p Hin); elt.
    + apply NoDup_app in H3 as (_ & _ & H3); by apply NoDup_app in H3 as (_ & _ & ?).
Qed.

(** An address space appears, or goes to its owner. *)
Lemma spaces_add s free A R R' i t U :
  spaces s free A R -> A !! i = None -> uspace s free t U -> R ≡ₚ space_pages (t, U) ++ R' -> spaces s free (<[i := (t, U)]> A) R'.
Proof.
  intros [Hk Hs HR Hn] Hi Hu Hp; split; [done| | |].
  - intros j tj Uj; rewrite lookup_insert_Some; intros [[<- [= <- <-]]|[_ Hj]]; eauto.
  - rewrite Hp in HR; by apply Forall_app in HR as [_ ?].
  - rewrite all_pages_insert by done; rewrite Hp in Hn; rewrite <- app_assoc, !(app_assoc _ (all_pages A)) in *.
    by rewrite (Permutation_app_comm (space_pages (t, U))), <- app_assoc.
Qed.

Lemma spaces_del s free A R i t U :
  spaces s free A R -> A !! i = Some (t, U) -> spaces s free (delete i A) (space_pages (t, U) ++ R).
Proof.
  intros [Hk Hs HR Hn] Hi; split; [done| | |].
  - intros j tj Uj [_ Hj]%lookup_delete_Some; eauto.
  - apply Forall_app; split; [|done]; pose proof (space_pages_ok _ _ _ _ (Hs _ _ _ Hi)) as H.
    rewrite app_assoc in H; by apply Forall_app in H as [? _].
  - rewrite (all_pages_delete _ _ _ Hi), (Permutation_app_comm (space_pages (t, U)) (all_pages _)) in Hn.
    by rewrite <- !app_assoc in *.
Qed.

Lemma spaces_perm s free A R R' : spaces s free A R -> R ≡ₚ R' -> spaces s free A R'.
Proof. intros [Hk Hs HR Hn] Hp; split; [done|done|by rewrite <- Hp|by rewrite <- Hp]. Qed.
End spaces.

(** ** The kernel state *)

Definition kmem_of (s : ksys) : kmem := fs_mem (y_fs s).
Definition set_kmem (m : kmem) (s : ksys) : ksys := lset m s.

(** What process [i] sees at user address [va]. *)
Definition sees (m : kmem) (A : gmap Z (ptree * umap)) (i va : Z) : Z :=
  match A !! i with Some (_, U) => uview (k_mem m) U va | None => 0 end.

Section kernelmem.
Context {L : KernelLayout}.

Record mem_inv (s : ksys) (A : gmap Z (ptree * umap)) (R : list Z) : Prop := {
  mi_spaces : exists free, spaces (kmem_of s) free A R;
  mi_proc i t U : A !! i = Some (t, U) ->
    0 <= i < NPROC /\ p_pagetable (proc_at s i) = pt_root t /\ p_sz (proc_at s i) <= ulimit * 4096
}.

(** Memory steps keep the process table. *)
Lemma proc_at_set_kmem m s i : proc_at (set_kmem m s) i = proc_at s i.
Proof. done. Qed.

(** A step of the address space of [me] that keeps its size and root. *)
Lemma mem_inv_step s A R me t U k' free free' t' U' :
  mem_inv s A R -> spaces (kmem_of s) free A R -> A !! me = Some (t, U) -> uspace k' free' t' U' -> pt_root t' = pt_root t ->
  pt_pages t' ++ upages U' ++ free' ≡ₚ pt_pages t ++ upages U ++ free ->
  same_except (pt_pages t ++ upages U ++ free) (k_mem (kmem_of s)) (k_mem k') ->
  mem_inv (set_kmem k' s) (<[me := (t', U')]> A) R /\
  (forall j va, j <> me -> sees k' (<[me := (t', U')]> A) j va = sees (kmem_of s) A j va).
Proof.
  intros [_ Hp] Hs Hme Hu' Hr Hperm Hm.
  destruct (spaces_step _ k' free free' A R me t U t' U' Hs Hme Hu' Hperm Hm) as [Hs' Hv]; split; [split|].
  - by exists free'.
  - intros i ti Ui Hi; rewrite proc_at_set_kmem; destruct (decide (i = me)) as [->|Hne].
    + rewrite lookup_insert_eq in Hi; simplify_eq; rewrite Hr; by eapply Hp.
    + rewrite lookup_insert_ne in Hi by done; by eapply Hp.
  - intros j va Hj; unfold sees; rewrite lookup_insert_ne by done.
    destruct (A !! j) as [[tj Uj]|] eqn:E; [|done]; by eapply Hv.
Qed.

(** [copyin] by process [me] on any user address: it changes nobody's view. *)
Lemma kcopyin_spec me s A R va len c :
  mem_inv s A R -> is_Some (A !! me) -> KMEM ∉ c_held c -> 0 <= va < 2 ^ 64 -> 0 <= len ->
  wp (liftm (copyin (uproc_of (proc_at s me)) (p_pagetable (proc_at s me)) va len)) c s (fun r c' s' =>
    c' = c /\ exists k' A', s' = set_kmem k' s /\ mem_inv s' A' R /\ dom A' = dom A /\
    (forall j a, sees k' A' j a = sees (kmem_of s) A j a) /\
    (r = (0, map (sees (kmem_of s) A me) (zrange va (Z.to_nat len))) \/ r.1 = -1)).
Proof.
  intros Hi [[t U] Hme] Hk Hva Hlen; destruct (mi_spaces _ _ _ Hi) as [free Hs].
  destruct (mi_proc _ _ _ Hi _ _ _ Hme) as (Hr & Hpt & Hsz); pose proof (sp_space _ _ _ _ Hs _ _ _ Hme) as Hu.
  apply wp_zoom; rewrite Hpt; eapply wp_mono; [by apply (copyin_spec _ _ free t U)|].
  intros r c' k' (-> & f' & t' & U' & He & Hres); split; [done|].
  destruct (mem_inv_step s A R me t U k' free f' t' U') as [Hi' Ho]; auto; try apply He.
  { eapply same_except_mono; [|apply He]; intros p; elt. }
  exists k', (<[me := (t', U')]> A); split_and!; [done|done|apply dom_insert_lookup_L; by rewrite Hme|..].
  - intros j a; destruct (decide (j = me)) as [->|]; [|auto]; unfold sees; rewrite lookup_insert_eq, Hme; apply He.
  - unfold sees; rewrite Hme; destruct Hres as [[-> _]|[? _]]; auto.
Qed.

(** [copyout] by process [me]: the bytes sent become visible to [me]; nothing else
    changes for anybody. *)
Lemma kcopyout_spec me s A R va src c :
  mem_inv s A R -> is_Some (A !! me) -> KMEM ∉ c_held c -> 0 <= va < 2 ^ 64 -> Forall byte_ok src ->
  wp (liftm (copyout (uproc_of (proc_at s me)) (p_pagetable (proc_at s me)) va src)) c s (fun r c' s' =>
    c' = c /\ exists k' A' sent, s' = set_kmem k' s /\ mem_inv s' A' R /\ dom A' = dom A /\
    (forall j a, j <> me -> sees k' A' j a = sees (kmem_of s) A j a) /\
    (forall a, sees k' A' me a =
       if decide (va <= a < va + Z.of_nat (length sent)) then aget 0 sent (a - va) else sees (kmem_of s) A me a) /\
    ((r = 0 /\ sent = src) \/ (r = -1 /\ sent = take (length sent) src))).
Proof.
  intros Hi [[t U] Hme] Hk Hva Hsrc; destruct (mi_spaces _ _ _ Hi) as [free Hs].
  destruct (mi_proc _ _ _ Hi _ _ _ Hme) as (Hr & Hpt & Hsz); pose proof (sp_space _ _ _ _ Hs _ _ _ Hme) as Hu.
  apply wp_zoom; rewrite Hpt; eapply wp_mono; [by apply (copyout_spec _ _ free t U)|].
  intros r c' k' (-> & f' & t' & U' & sent & [C1 C2 C3 C4 C5 C6 C7] & Hres); split; [done|].
  destruct (mem_inv_step s A R me t U k' free f' t' U') as [Hi' Ho]; auto.
  exists k', (<[me := (t', U')]> A), sent; split_and!; [done|done|apply dom_insert_lookup_L; by rewrite Hme|auto|..].
  - intros a; unfold sees; rewrite lookup_insert_eq, Hme; apply C6.
  - destruct Hres as [?|(? & ? & _)]; auto.
Qed.
End kernelmem.

(** ** Waking processes *)

Lemma aset_lookup_ext {B} (d : B) (l l' : list B) :
  length l = length l' -> (forall i, 0 <= i < Z.of_nat (length l) -> aget d l i = aget d l' i) -> l = l'.
Proof.
  intros Hl H; apply list_eq; intros i; destruct (decide (i < length l)%nat) as [Hi|Hi].
  - specialize (H (Z.of_nat i) ltac:(lia)); unfold aget in H; rewrite Nat2Z.id, !nth_lookup in H.
    destruct (l !! i) eqn:E1; [|apply lookup_ge_None in E1; lia].
    destruct (l' !! i) eqn:E2; [|apply lookup_ge_None in E2; lia]; simpl in H; by f_equal.
  - rewrite !lookup_ge_None_2 by lia; done.
Qed.

Lemma aget_wake_all me ch ps i :
  0 <= i < Z.of_nat (length ps) -> aget proc0 (wake_all me ch ps) i = wake me ch i (aget proc0 ps i).
Proof.
  intros Hi; unfold aget, wake_all; rewrite !nth_lookup, list_lookup_imap.
  destruct (ps !! Z.to_nat i) eqn:E; [|apply lookup_ge_None in E; lia]; simpl; by rewrite Z2Nat.id by lia.
Qed.

(** [wakeup], by a thread that holds no process lock. *)
Lemma kwakeup_spec me ch c s :
  (forall i, PROCLOCK i ∉ c_held c) -> length (y_proc s) = Z.to_nat NPROC ->
  wp (wakeup me ch) c s (fun _ c' s' => c' = c /\ s' = set_procs (wake_all me ch (y_proc s)) s).
Proof.
  intros Hk Hl; unfold wakeup.
  apply (wp_for_range NPROC _ (fun k c' s' => c' = c /\ exists ps, s' = set_procs ps s /\ length ps = Z.to_nat NPROC /\
    forall j, 0 <= j < NPROC -> aget proc0 ps j = if decide (j < k) then wake me ch j (proc_at s j) else proc_at s j));
    [done| | |].
  - split; [done|]; exists (y_proc s); split_and!; [by destruct s|done|]; intros j Hj; by rewrite decide_False by lia.
  - intros k c' s' Hkr (-> & ps & -> & Hps & Hj).
    assert (Hk' := Hj k Hkr); rewrite decide_False in Hk' by lia.
    destruct (Z.eqb_spec k me) as [->|Hne]; cbn [negb].
    + wp_steps; split; [done|]; exists ps; split_and!; [done|done|]; intros j Hjr; rewrite Hj by done.
      destruct (decide (j < me)), (decide (j < me + 1)); try done; try lia.
      replace j with me by lia; unfold wake; by rewrite Z.eqb_refl.
    + do 3 wp_step; unfold getp, modp; wp_step.
      change (proc_at (set_procs ps s) k) with (aget proc0 ps k); rewrite Hk'.
      set (p := proc_at s k) in *; set (b := bool_decide _ && bool_decide _).
      assert (wake me ch k p = if b then set_state RUNNABLE p else p) as Hw.
      { unfold wake, b; destruct (Z.eqb_spec k me); [done|]; by rewrite <- andb_assoc. }
      assert (forall j, 0 <= j < NPROC -> aget proc0 (aset ps k (wake me ch k p)) j =
                if decide (j < k + 1) then wake me ch j (proc_at s j) else proc_at s j) as Hnew.
      { intros j Hjr; destruct (decide (j = k)) as [->|].
        - rewrite aget_aset_eq, decide_True by lia; done.
        - rewrite aget_aset_ne, Hj by lia; by destruct (decide (j < k)), (decide (j < k + 1)); try lia. }
      destruct b; wp_steps; (split; [by destruct c|]).
      * exists (aset ps k (set_state RUNNABLE p)); unfold upd_proc, proc_at; cbn [y_proc set_procs]; rewrite Hk', <- Hw.
        split_and!; [done|by rewrite length_aset|done].
      * exists ps; split_and!; [done|done|]; intros j Hjr; rewrite <- Hnew by done; rewrite Hw.
        rewrite <- Hk' at 1; by rewrite aset_id.
  - intros c' s' (-> & ps & -> & Hps & Hj); split; [done|]; f_equal.
    apply (aset_lookup_ext proc0); [unfold wake_all; by rewrite length_imap, Hps|].
    intros i Hi; rewrite aget_wake_all by lia; rewrite Hps in Hi; change (Z.of_nat (Z.to_nat NPROC)) with NPROC in Hi.
    rewrite Hj by done; by rewrite decide_True by lia.
Qed.

Lemma killed_spec i c s :
  PROCLOCK i ∉ c_held c ->
  wp (killed i) c s (fun k c' s' => c' = c /\ s' = s /\ k = negb (p_killed (proc_at s i) =? 0)).
Proof. intros Hk; unfold killed, getp; wp_steps; by destruct c. Qed.

(** [sleep] with the condition lock as the only lock held. *)
Lemma ksleep_spec {B} me ch lk c s (Φ : B -> ctx -> ksys -> Prop) (Ψ : wchan -> ctx -> ksys -> Prop) :
  c_held c = [lk] -> lk <> PROCLOCK me -> 0 <= me < Z.of_nat (length (y_proc s)) ->
  Ψ ch (Ctx (c_pid c) [PROCLOCK me]) (upd_proc me (fun p => set_state SLEEPING (set_chan (Some ch) p)) s) ->
  wpb (sleep me ch lk) c s Φ Ψ.
Proof.
  intros Hc Hne Hme HΨ; unfold sleep; apply wpb_bind, wp_acquire; [rewrite Hc; intros ?%list_elem_of_singleton; done|].
  apply wpb_bind; unfold wp, release, holding; cbn [c_held c_pid]; rewrite Hc.
  rewrite bool_decide_eq_true_2 by (right; left); rewrite filter_cons_True, filter_cons_False, filter_nil by (congruence || auto).
  apply wpb_bind; unfold modp; apply wp_modify; unfold wpb, sched, holding; cbn [c_held].
  rewrite bool_decide_eq_true_2 by left; cbn [negb]; rewrite bool_decide_eq_true_2 by done; cbn [negb].
  rewrite bool_decide_eq_false_2; [done|].
  unfold upd_proc, proc_at at 1; cbn [y_proc set_procs]; by rewrite aget_aset_eq by lia.
Qed.
