(* ===== verification/Sched.v ===== *)
(** * The scheduler, [sleep] and [wakeup] on several CPUs, [kernel/proc.c]

    Every CPU runs [scheduler] or, after [swtch], the kernel thread of a process,
    one lock operation or assignment at a time, in any interleaving with the
    others.  Spin locks are taken and given back in one step each, which
    [Spinlock.v] justifies; a CPU that finds a lock taken does not move.
    Everything is under the lock of the process ([p->lock]) or under the
    condition lock of a wait channel; the lock of a process is handed from its
    thread to the CPU's scheduler and back across [swtch].

    What a thread does between these calls is up to it, within the rules of
    [sleep] and [wakeup]: a channel has a condition lock and a condition, a
    thread sleeps only when the condition is false, and one that makes it true
    calls [wakeup] before it releases the lock.  Without a lock it may switch
    interrupts on and off, as the trap code does, and give up the CPU at any time,
    as a timer interrupt makes it do.  Interrupt handlers that run on a CPU without
    a process are left out, and the [wfi] of an idle CPU is a pause. *)

From stdpp Require Import functions.
From S2P Require Import Prelude Riscv Kernel.

(** Where a thread stands.  The argument of [TSched], [TBack] and [TRelP] is the
    channel when the call came from [sleep]. *)
Inductive tpc :=
| TRun (held : option nat)
| TWake (ch k : nat)
| TWakeIn (ch k : nat)
| TWakeRel (ch k : nat)
| TSleepAcq (ch : nat)
| TSleepRel (ch : nat)
| TSleepSet (ch : nat)
| TYieldAcq
| TYieldSet
| TSched (r : option nat)
| TBack (r : option nat)
| TRelP (r : option nat)
| TReacq (ch : nat).

(** The fields of [struct proc] that scheduling uses; [q_lock] is the CPU that
    holds [p->lock].  [q_intena] is the local variable of [sched], none for a thread
    that has not been there. *)
Record sproc := SProc { q_state : procstate; q_chan : option nat; q_lock : option nat; q_pc : tpc; q_intena : option bool }.

(** Where a CPU stands: in the loop of [scheduler], running a process, stopped, or
    before [intr_on] or [intr_off] at the head of the loop. *)
Inductive cpc :=
| CScan (k : nat)
| CGot (k : nat)
| CRun (i : nat)
| CBack (i : nat)
| CRel (k : nat)
| CPanic (msg : string)
| CTop
| COn.

#[global] Instance cpc_eq_dec : EqDecision cpc.
Proof. solve_decision. Defined.

(** [z_lk ch] is the CPU that holds the condition lock of [ch], [z_cond ch] the
    condition; [z_noff c] and [z_intena c] are fields of [struct cpu] of CPU [c], and
    [z_intr c] tells whether its interrupts are enabled.  There are any number of
    CPUs; the scheduler and [wakeup] look at the first [NPROC] processes. *)
Record sched_state := SchedState {
  z_procs : nat -> sproc;
  z_cpus : nat -> cpc;
  z_lk : nat -> option nat;
  z_cond : nat -> bool;
  z_noff : nat -> nat;
  z_intr : nat -> bool;
  z_intena : nat -> bool
}.

Definition set_q (i : nat) (p : sproc) (s : sched_state) : sched_state :=
  SchedState (<[i := p]> (z_procs s)) (z_cpus s) (z_lk s) (z_cond s) (z_noff s) (z_intr s) (z_intena s).
Definition set_cpu (c : nat) (x : cpc) (s : sched_state) : sched_state :=
  SchedState (z_procs s) (<[c := x]> (z_cpus s)) (z_lk s) (z_cond s) (z_noff s) (z_intr s) (z_intena s).
Definition set_lk (ch : nat) (o : option nat) (s : sched_state) : sched_state :=
  SchedState (z_procs s) (z_cpus s) (<[ch := o]> (z_lk s)) (z_cond s) (z_noff s) (z_intr s) (z_intena s).
Definition set_cond (ch : nat) (b : bool) (s : sched_state) : sched_state :=
  SchedState (z_procs s) (z_cpus s) (z_lk s) (<[ch := b]> (z_cond s)) (z_noff s) (z_intr s) (z_intena s).
Definition set_intr (c : nat) (b : bool) (s : sched_state) : sched_state :=
  SchedState (z_procs s) (z_cpus s) (z_lk s) (z_cond s) (z_noff s) (<[c := b]> (z_intr s)) (z_intena s).
Definition restore_intena (c : nat) (o : option bool) (s : sched_state) : sched_state :=
  SchedState (z_procs s) (z_cpus s) (z_lk s) (z_cond s) (z_noff s) (z_intr s)
    (match o with Some b => <[c := b]> (z_intena s) | None => z_intena s end).

Definition with_pc (x : tpc) (p : sproc) : sproc := SProc (q_state p) (q_chan p) (q_lock p) x (q_intena p).
Definition with_lock (o : option nat) (p : sproc) : sproc := SProc (q_state p) (q_chan p) o (q_pc p) (q_intena p).
Definition with_state (x : procstate) (p : sproc) : sproc := SProc x (q_chan p) (q_lock p) (q_pc p) (q_intena p).
Definition with_chan (o : option nat) (p : sproc) : sproc := SProc (q_state p) o (q_lock p) (q_pc p) (q_intena p).
Definition with_intena (o : option bool) (p : sproc) : sproc := SProc (q_state p) (q_chan p) (q_lock p) (q_pc p) o.

Definition upd_q (i : nat) (f : sproc -> sproc) (s : sched_state) : sched_state := set_q i (f (z_procs s i)) s.
Definition goto (i : nat) (x : tpc) (s : sched_state) : sched_state := upd_q i (with_pc x) s.

Definition stop (c : nat) (msg : string) (s : sched_state) : sched_state := set_cpu c (CPanic msg) s.

(** [push_off] on CPU [c]; [pop_off], with its tests before [next]. *)
Definition push_off (c : nat) (s : sched_state) : sched_state :=
  SchedState (z_procs s) (z_cpus s) (z_lk s) (z_cond s) (<[c := S (z_noff s c)]> (z_noff s)) (<[c := false]> (z_intr s))
    (if bool_decide (z_noff s c = 0%nat) then <[c := z_intr s c]> (z_intena s) else z_intena s).
Definition popped (c : nat) (s : sched_state) : sched_state :=
  let n := pred (z_noff s c) in
  SchedState (z_procs s) (z_cpus s) (z_lk s) (z_cond s) (<[c := n]> (z_noff s))
    (if bool_decide (n = 0%nat) && z_intena s c then <[c := true]> (z_intr s) else z_intr s) (z_intena s).
Definition pop_off (c : nat) (next : sched_state -> sched_state) (s : sched_state) : sched_state :=
  if z_intr s c then stop c "pop_off - interruptible" s
  else if bool_decide (z_noff s c < 1)%nat then stop c "pop_off" s
  else next (popped c s).

(** [acquire] by CPU [c], which waits for the lock, and [release], before [next]: of
    the lock of process [k], and of the condition lock of [ch]. *)
Definition take_q (c k : nat) (next : sched_state -> sched_state) (s : sched_state) : option sched_state :=
  match q_lock (z_procs s k) with
  | None => Some (next (push_off c (upd_q k (with_lock (Some c)) s)))
  | Some d => if bool_decide (d = c) then Some (stop c "acquire" (push_off c s)) else None
  end.
Definition drop_q (c k : nat) (next : sched_state -> sched_state) (s : sched_state) : sched_state :=
  if negb (bool_decide (q_lock (z_procs s k) = Some c)) then stop c "release" s
  else pop_off c next (upd_q k (with_lock None) s).
Definition take_lk (c ch : nat) (next : sched_state -> sched_state) (s : sched_state) : option sched_state :=
  match z_lk s ch with
  | None => Some (next (push_off c (set_lk ch (Some c) s)))
  | Some d => if bool_decide (d = c) then Some (stop c "acquire" (push_off c s)) else None
  end.
Definition drop_lk (c ch : nat) (next : sched_state -> sched_state) (s : sched_state) : sched_state :=
  if negb (bool_decide (z_lk s ch = Some c)) then stop c "release" s
  else pop_off c next (set_lk ch None s).

Definition nproc : nat := Z.to_nat NPROC.

(** What the code of a thread chooses to do. *)
Inductive action := AAcquire (ch : nat) | ARelease | AConsume | ANotify | ASleep | AYield | AIntr (b : bool).

(** The code between the calls, by the thread of process [i] on CPU [c]. *)
Definition client_step (c i : nat) (held : option nat) (a : action) (s : sched_state) : option sched_state :=
  match a, held with
  | AAcquire ch, None => take_lk c ch (goto i (TRun (Some ch))) s
  | ARelease, Some ch => Some (drop_lk c ch (goto i (TRun None)) s)
  | AConsume, Some ch => Some (set_cond ch false s)
  | ANotify, Some ch => Some (goto i (TWake ch 0) (set_cond ch true s))
  | ASleep, Some ch => if z_cond s ch then None else Some (goto i (TSleepAcq ch) s)
  | AYield, None => Some (goto i TYieldAcq s)
  | AIntr b, None => Some (goto i (TRun None) (set_intr c b s))
  | _, _ => None
  end.

(** [wakeup(ch)] by process [i]; [wake_one] is what it does to a process whose
    lock it holds. *)
Definition wake_one (ch : nat) (p : sproc) : sproc :=
  if bool_decide (q_state p = SLEEPING /\ q_chan p = Some ch) then with_state RUNNABLE p else p.
Definition wakeup_step (c i : nat) (x : tpc) (s : sched_state) : option sched_state :=
  match x with
  | TWake ch k =>
      if bool_decide (nproc <= k)%nat then Some (goto i (TRun (Some ch)) s)
      else if bool_decide (k = i) then Some (goto i (TWake ch (S k)) s)
      else take_q c k (goto i (TWakeIn ch k)) s
  | TWakeIn ch k => Some (goto i (TWakeRel ch k) (upd_q k (wake_one ch) s))
  | TWakeRel ch k => Some (drop_q c k (goto i (TWake ch (S k))) s)
  | _ => None
  end.

(** [sleep(ch, lk)] by process [i], up to [sched]. *)
Definition sleep_step (c i : nat) (x : tpc) (s : sched_state) : option sched_state :=
  match x with
  | TSleepAcq ch => take_q c i (goto i (TSleepRel ch)) s
  | TSleepRel ch => Some (drop_lk c ch (goto i (TSleepSet ch)) s)
  | TSleepSet ch => Some (upd_q i (fun p => SProc SLEEPING (Some ch) (q_lock p) (TSched (Some ch)) (q_intena p)) s)
  | _ => None
  end.

(** [yield()] by process [i], up to [sched]. *)
Definition yield_step (c i : nat) (x : tpc) (s : sched_state) : option sched_state :=
  match x with
  | TYieldAcq => take_q c i (goto i TYieldSet) s
  | TYieldSet => Some (upd_q i (fun p => with_pc (TSched None) (with_state RUNNABLE p)) s)
  | _ => None
  end.

(** [sched()]: its tests, and [swtch] to the CPU's scheduler; the thread keeps
    [intena]. *)
Definition sched_step (c i : nat) (r : option nat) (s : sched_state) : sched_state :=
  let p := z_procs s i in
  if negb (bool_decide (q_lock p = Some c)) then stop c "sched p->lock" s
  else if negb (bool_decide (z_noff s c = 1%nat)) then stop c "sched locks" s
  else if bool_decide (q_state p = RUNNING) then stop c "sched RUNNING" s
  else if z_intr s c then stop c "sched interruptible" s
  else set_cpu c (CBack i) (upd_q i (fun p => with_intena (Some (z_intena s c)) (with_pc (TBack r) p)) s).

(** After [swtch] has returned: the end of [sched], and the rest of [sleep] or of
    [yield]; a new thread comes here from [forkret], without [sched]. *)
Definition resume_step (c i : nat) (x : tpc) (s : sched_state) : option sched_state :=
  match x with
  | TBack (Some ch) =>
      Some (upd_q i (fun p => with_pc (TRelP (Some ch)) (with_chan None p)) (restore_intena c (q_intena (z_procs s i)) s))
  | TBack None => Some (goto i (TRelP None) (restore_intena c (q_intena (z_procs s i)) s))
  | TRelP (Some ch) => Some (drop_q c i (goto i (TReacq ch)) s)
  | TRelP None => Some (drop_q c i (goto i (TRun None)) s)
  | TReacq ch => take_lk c ch (goto i (TRun (Some ch))) s
  | _ => None
  end.

(** The loop of [scheduler]. *)
Definition scheduler_step (c : nat) (x : cpc) (s : sched_state) : option sched_state :=
  match x with
  | CTop => Some (set_cpu c COn (set_intr c true s))
  | COn => Some (set_cpu c (CScan 0) (set_intr c false s))
  | CScan k =>
      if bool_decide (nproc <= k)%nat then Some (set_cpu c CTop s)
      else take_q c k (set_cpu c (CGot k)) s
  | CGot k =>
      if bool_decide (q_state (z_procs s k) = RUNNABLE)
      then Some (set_cpu c (CRun k) (upd_q k (with_state RUNNING) s))
      else Some (set_cpu c (CRel k) s)
  | CBack i => Some (set_cpu c (CRel i) s)
  | CRel k => Some (drop_q c k (set_cpu c (CScan (S k))) s)
  | _ => None
  end.

(** One step of the thread of process [i] on CPU [c]. *)
Definition thread_step (c i : nat) (a : action) (s : sched_state) : option sched_state :=
  let x := q_pc (z_procs s i) in
  match x with
  | TRun held => client_step c i held a s
  | TWake _ _ | TWakeIn _ _ | TWakeRel _ _ => wakeup_step c i x s
  | TSleepAcq _ | TSleepRel _ | TSleepSet _ => sleep_step c i x s
  | TYieldAcq | TYieldSet => yield_step c i x s
  | TSched r => Some (sched_step c i r s)
  | TBack _ | TRelP _ | TReacq _ => resume_step c i x s
  end.

Definition cpu_step (c : nat) (a : action) (s : sched_state) : option sched_state :=
  match z_cpus s c with
  | CRun i => thread_step c i a s
  | x => scheduler_step c x s
  end.

Inductive mstep : sched_state -> sched_state -> Prop :=
| mstep_cpu c a s s' : cpu_step c a s = Some s' -> mstep s s'.

(** At boot every process is unused or new: its thread starts in [forkret], as if
    [sched] had just returned. *)
Definition sched_boot (s : sched_state) : Prop :=
  (forall c, z_cpus s c = CTop) /\
  (forall i, (q_state (z_procs s i) = UNUSED \/ q_state (z_procs s i) = RUNNABLE) /\ q_chan (z_procs s i) = None /\
     q_lock (z_procs s i) = None /\ q_pc (z_procs s i) = TBack None /\ q_intena (z_procs s i) = None) /\
  (forall ch, z_lk s ch = None) /\ (forall c, z_noff s c = 0%nat).

(** ** Locks and who holds them *)

Inductive res := RQ (k : nat) | RL (ch : nat).

#[global] Instance res_eq_dec : EqDecision res.
Proof. solve_decision. Defined.

Definition holder (s : sched_state) (r : res) : option nat :=
  match r with RQ k => q_lock (z_procs s k) | RL ch => z_lk s ch end.

(** What the code at this point holds. *)
Definition thread_owns (i : nat) (x : tpc) (r : res) : Prop :=
  match x, r with
  | TRun (Some ch), RL ch' | TWake ch _, RL ch' | TSleepAcq ch, RL ch' => ch' = ch
  | (TWakeIn ch k | TWakeRel ch k), RL ch' => ch' = ch
  | (TWakeIn ch k | TWakeRel ch k), RQ k' => k' = k
  | TSleepRel ch, RL ch' => ch' = ch
  | (TSleepRel _ | TSleepSet _ | TYieldSet | TSched _ | TBack _ | TRelP _), RQ k' => k' = i
  | _, _ => False
  end.
Definition owns (s : sched_state) (c : nat) (r : res) : Prop :=
  match z_cpus s c, r with
  | CRun i, _ => thread_owns i (q_pc (z_procs s i)) r
  | (CGot k | CBack k | CRel k), RQ k' => k' = k
  | _, _ => False
  end.

(** How many locks that is. *)
Definition thread_depth (x : tpc) : nat :=
  match x with
  | TRun None | TYieldAcq | TReacq _ => 0
  | TWakeIn _ _ | TWakeRel _ _ | TSleepRel _ => 2
  | _ => 1
  end.
Definition cpu_depth (s : sched_state) (c : nat) : nat :=
  match z_cpus s c with
  | CRun i => thread_depth (q_pc (z_procs s i))
  | CGot _ | CBack _ | CRel _ => 1
  | _ => 0
  end.

(** A CPU that holds a lock counts it. *)
Lemma owns_depth s c r : owns s c r -> cpu_depth s c <> 0%nat.
Proof.
  unfold owns, cpu_depth; destruct (z_cpus s c) as [| |i| | | | |], r; try done; destruct (q_pc (z_procs s i)) as [[]| | | | | | | | | | | |]; done.
Qed.

(** A thread is run by one CPU at a time, in the state its position tells. *)
Definition running_ok (p : sproc) : Prop :=
  match q_pc p with
  | TSched (Some ch) => q_state p = SLEEPING /\ q_chan p = Some ch
  | TSched None => q_state p = RUNNABLE
  | _ => q_state p = RUNNING
  end.
Definition parked_ok (p : sproc) : Prop :=
  exists r, q_pc p = TBack r /\ q_state p <> RUNNING /\ (q_state p = SLEEPING -> is_Some r /\ q_chan p = r).

(** A [wakeup(ch)] that has still to come to process [i]. *)
Definition wakes_later (x : tpc) (ch i : nat) : Prop :=
  match x with
  | TWake ch' k | TWakeIn ch' k => ch' = ch /\ (k <= i)%nat
  | TWakeRel ch' k => ch' = ch /\ (k < i)%nat
  | _ => False
  end.

(** Asleep on [ch], or about to be. *)
Definition will_sleep (p : sproc) (ch : nat) : Prop :=
  (q_state p = SLEEPING /\ q_chan p = Some ch) \/ q_pc p = TSleepSet ch.

(** Interrupts are off while a CPU is between [push_off] and [pop_off]. *)
Definition flags_ok (s : sched_state) : Prop := forall c, z_noff s c <> 0%nat -> z_intr s c = false.

Record sched_ok (s : sched_state) : Prop := {
  so_locks r c : holder s r = Some c <-> owns s c r;
  so_one c c' i : z_cpus s c = CRun i -> z_cpus s c' = CRun i -> c = c';
  so_run c i : z_cpus s c = CRun i -> running_ok (z_procs s i);
  so_park i : (forall c, z_cpus s c <> CRun i) -> parked_ok (z_procs s i);
  so_entry c i ch : z_cpus s c = CRun i -> q_pc (z_procs s i) = TSleepAcq ch \/ q_pc (z_procs s i) = TSleepRel ch -> z_cond s ch = false;
  so_wake i ch : (i < nproc)%nat -> will_sleep (z_procs s i) ch -> z_cond s ch = true ->
    exists c j, z_cpus s c = CRun j /\ wakes_later (q_pc (z_procs s j)) ch i;
  so_noff c : z_noff s c = cpu_depth s c;
  so_panic c m : z_cpus s c <> CPanic m;
  so_flags : flags_ok s
}.

(** CPU [c], which held [O], holds [O'] after the step; nothing changes for the others. *)
Record locks_move (s s' : sched_state) (c : nat) (O' : res -> Prop) : Prop := {
  lm_own r : holder s' r = Some c <-> O' r;
  lm_other r c' : c' <> c -> holder s' r = Some c' <-> holder s r = Some c'
}.

Section moves.
Context (s s' : sched_state) (c : nat) (O O' : res -> Prop) (HO : forall r, holder s r = Some c <-> O r).

Lemma locks_same : (forall r, holder s' r = holder s r) -> (forall r, O' r <-> O r) -> locks_move s s' c O'.
Proof. intros Hh Ho; split; intros r; [rewrite Hh, Ho; apply HO|by intros c' _; rewrite Hh]. Qed.

Lemma locks_take r0 :
  holder s r0 = None -> holder s' r0 = Some c -> (forall r, r <> r0 -> holder s' r = holder s r) ->
  (forall r, O' r <-> r = r0 \/ O r) -> locks_move s s' c O'.
Proof.
  intros H0 H0' Hr Ho; split; intros r; destruct (decide (r = r0)) as [->|Hne].
  - rewrite Ho; tauto.
  - rewrite Ho, Hr, HO by done; tauto.
  - intros c' Hc; rewrite H0, H0'; split; [congruence|done].
  - by rewrite Hr.
Qed.

Lemma locks_drop r0 :
  O r0 -> holder s' r0 = None -> (forall r, r <> r0 -> holder s' r = holder s r) ->
  (forall r, O' r <-> O r /\ r <> r0) -> locks_move s s' c O'.
Proof.
  intros H0 H0' Hr Ho; apply HO in H0; split; intros r; destruct (decide (r = r0)) as [->|Hne].
  - rewrite Ho, H0'; split; [done|tauto].
  - rewrite Ho, Hr, HO by done; tauto.
  - intros c' Hc; rewrite H0, H0'; split; congruence.
  - by rewrite Hr.
Qed.
End moves.

(** The flags after the operations on them; other operations keep them. *)
Section flags.
Context (s s' : sched_state) (c : nat) (Hf : flags_ok s).

Lemma flags_push : z_noff s' = z_noff (push_off c s) -> z_intr s' = z_intr (push_off c s) -> flags_ok s'.
Proof.
  intros E1 E2 d; rewrite E1, E2; cbn; destruct (decide (c = d)) as [->|Hd]; [by rewrite !fn_lookup_insert|].
  rewrite !fn_lookup_insert_ne by done; apply Hf.
Qed.

Lemma flags_pop : z_noff s' = z_noff (popped c s) -> z_intr s' = z_intr (popped c s) -> flags_ok s'.
Proof.
  intros E1 E2 d; rewrite E1, E2; cbn; destruct (decide (c = d)) as [->|Hd].
  - rewrite fn_lookup_insert; intros Hn; rewrite bool_decide_eq_false_2 by done; apply Hf; lia.
  - rewrite fn_lookup_insert_ne by done; case_match; rewrite ?fn_lookup_insert_ne by done; apply Hf.
Qed.

Lemma flags_intr b : z_noff s c = 0%nat -> z_noff s' = z_noff s -> z_intr s' = <[c := b]> (z_intr s) -> flags_ok s'.
Proof.
  intros E0 E1 E2 d; rewrite E1, E2; destruct (decide (c = d)) as [->|Hd]; [lia|].
  rewrite fn_lookup_insert_ne by done; apply Hf.
Qed.
End flags.

(** A step of the thread of [i] on [c] that stays on the CPU. *)
Lemma thread_keeps s s' c i :
  sched_ok s -> z_cpus s c = CRun i -> z_cpus s' = z_cpus s ->
  (forall j, j <> i -> q_pc (z_procs s' j) = q_pc (z_procs s j)) ->
  locks_move s s' c (thread_owns i (q_pc (z_procs s' i))) ->
  (forall d, z_noff s' d = if decide (d = c) then thread_depth (q_pc (z_procs s' i)) else z_noff s d) ->
  running_ok (z_procs s' i) ->
  (forall j, j <> i -> (forall d, z_cpus s d = CRun j -> running_ok (z_procs s' j)) /\ (parked_ok (z_procs s j) -> parked_ok (z_procs s' j))) ->
  (forall d j ch, z_cpus s d = CRun j -> q_pc (z_procs s' j) = TSleepAcq ch \/ q_pc (z_procs s' j) = TSleepRel ch -> z_cond s' ch = false) ->
  (forall k ch, (k < nproc)%nat -> will_sleep (z_procs s' k) ch -> z_cond s' ch = true ->
     exists d j, z_cpus s d = CRun j /\ wakes_later (q_pc (z_procs s' j)) ch k) ->
  flags_ok s' -> sched_ok s'.
Proof.
  intros [S1 S2 S3 S4 S5 S6 S7 S8 S9] Hc Hcpu Hpc [Hl1 Hl2] Hn Hrun Hoth Hent Hw Hfl; split; rewrite ?Hcpu; auto.
  - intros r d; destruct (decide (d = c)) as [->|Hd]; [unfold owns; by rewrite Hcpu, Hc|].
    rewrite Hl2, S1 by done; unfold owns; rewrite Hcpu; destruct (z_cpus s d) as [| |j| | | | |] eqn:E; try done.
    rewrite Hpc; [done|]; intros ->; by apply Hd, (S2 d c i).
  - intros d j Hj; destruct (decide (j = i)) as [->|Hne]; [done|]; by apply (proj1 (Hoth j Hne) d).
  - intros j Hj; destruct (decide (j = i)) as [->|Hne]; [by destruct (Hj c)|]; apply (Hoth j Hne), S4, Hj.
  - intros d; rewrite Hn; unfold cpu_depth; rewrite Hcpu; case_decide as Hd; [by subst d; rewrite Hc|].
    rewrite S7; unfold cpu_depth; destruct (z_cpus s d) as [| |j| | | | |] eqn:E; try done.
    rewrite Hpc; [done|]; intros ->; by apply Hd, (S2 d c i).
Qed.

(** Processes that differ at most in the holder of their lock. *)
Definition same_q (p p' : sproc) : Prop := q_state p' = q_state p /\ q_chan p' = q_chan p /\ q_pc p' = q_pc p.

Lemma same_q_ok p p' : same_q p p' ->
  (running_ok p' <-> running_ok p) /\ (parked_ok p' <-> parked_ok p) /\ (forall ch, will_sleep p' ch <-> will_sleep p ch).
Proof. intros (E1 & E2 & E3); unfold running_ok, parked_ok, will_sleep; by rewrite E1, E2, E3. Qed.

(** The common case: only the thread of [i] moves, and no condition changes. *)
Lemma local_keeps s s' c i :
  sched_ok s -> z_cpus s c = CRun i -> z_cpus s' = z_cpus s -> z_cond s' = z_cond s ->
  (forall j, j <> i -> same_q (z_procs s j) (z_procs s' j)) ->
  locks_move s s' c (thread_owns i (q_pc (z_procs s' i))) ->
  (forall d, z_noff s' d = if decide (d = c) then thread_depth (q_pc (z_procs s' i)) else z_noff s d) ->
  running_ok (z_procs s' i) ->
  (forall ch, q_pc (z_procs s' i) = TSleepAcq ch \/ q_pc (z_procs s' i) = TSleepRel ch -> z_cond s ch = false) ->
  (forall ch k, (k < nproc)%nat -> k <> i -> wakes_later (q_pc (z_procs s i)) ch k -> wakes_later (q_pc (z_procs s' i)) ch k) ->
  (forall ch, will_sleep (z_procs s' i) ch -> z_cond s ch = true -> will_sleep (z_procs s i) ch) ->
  flags_ok s' -> sched_ok s'.
Proof.
  intros Hs Hc Hcpu Hcond Hoth Hl Hn Hrun Hent Hwl Hws Hfl.
  assert (forall j ch k, wakes_later (q_pc (z_procs s j)) ch k -> (k < nproc)%nat -> k <> i -> wakes_later (q_pc (z_procs s' j)) ch k) as Hkeep.
  { intros j ch k Hj Hk Hki; destruct (decide (j = i)) as [->|Hne]; [by apply Hwl|]; by rewrite (proj2 (proj2 (Hoth j Hne))). }
  apply (thread_keeps s s' c i); auto.
  - intros j Hne; apply (Hoth j Hne).
  - intros j Hne; destruct (same_q_ok _ _ (Hoth j Hne)) as (E1 & E2 & _); split; [|by rewrite E2].
    intros d Hd; rewrite E1; by eapply so_run.
  - intros d j ch Hd; rewrite Hcond; destruct (decide (j = i)) as [->|Hne]; [apply Hent|].
    rewrite (proj2 (proj2 (Hoth j Hne))); by eapply so_entry.
  - intros k ch Hk; rewrite Hcond; destruct (decide (k = i)) as [->|Hne]; intros Hw Hct.
    + pose proof (Hws ch Hw Hct) as Hw0; destruct (so_wake s Hs i ch Hk Hw0 Hct) as (d & j & Hd & Hj); exists d, j; split; [done|].
      destruct (decide (j = i)) as [->|Hji]; [|by rewrite (proj2 (proj2 (Hoth j Hji)))].
      exfalso; pose proof (so_run s Hs c i Hc) as Hr; unfold running_ok in Hr; unfold will_sleep in Hw0.
      destruct (q_pc (z_procs s i)); try done; destruct Hw0 as [[E _]|E]; congruence.
    + apply (same_q_ok _ _ (Hoth k Hne)) in Hw; destruct (so_wake s Hs k ch Hk Hw Hct) as (d & j & Hd & Hj); eauto.
Qed.

(** A step that moves CPU [c] to [x]: it leaves the thread it ran, or it enters
    one that no CPU runs, or neither. *)
Section cpu.
Context (s s' : sched_state) (c : nat) (x : cpc) (Hs : sched_ok s).
Hypothesis Hcpu : forall d, z_cpus s' d = if decide (d = c) then x else z_cpus s d.
Hypothesis Hcond : z_cond s' = z_cond s.
Hypothesis Hpanic : forall m, x <> CPanic m.
Hypothesis Hsame : forall j, z_cpus s c <> CRun j -> x <> CRun j -> same_q (z_procs s j) (z_procs s' j).
Hypothesis Henter : forall j, x = CRun j ->
  (forall d, z_cpus s d <> CRun j) /\ (exists r, q_pc (z_procs s' j) = TBack r) /\ q_state (z_procs s' j) = RUNNING.
Hypothesis Hleave : forall j, z_cpus s c = CRun j -> x <> CRun j ->
  parked_ok (z_procs s' j) /\ (forall ch, will_sleep (z_procs s' j) ch -> will_sleep (z_procs s j) ch) /\
  (forall ch k, ~ wakes_later (q_pc (z_procs s j)) ch k).
Hypothesis Hlocks : locks_move s s' c (owns s' c).
Hypothesis Hnoff : forall d, z_noff s' d = if decide (d = c) then cpu_depth s' c else z_noff s d.
Hypothesis Hflags : flags_ok s'.

Lemma other_cpu d j : d <> c -> z_cpus s d = CRun j -> same_q (z_procs s j) (z_procs s' j).
Proof.
  intros Hd Hj; apply Hsame; [intros Hc; by apply Hd, (so_one s Hs d c j)|].
  intros Hx; by destruct (Henter j Hx) as [Hno _]; apply (Hno d).
Qed.

Lemma cpu_at d j : z_cpus s' d = CRun j -> (d = c /\ x = CRun j) \/ (d <> c /\ z_cpus s d = CRun j).
Proof. rewrite Hcpu; case_decide; auto. Qed.

Lemma sleeps_before k ch : will_sleep (z_procs s' k) ch -> will_sleep (z_procs s k) ch.
Proof.
  destruct (decide (x = CRun k)) as [Hx|Hx].
  { destruct (Henter k Hx) as (_ & (r & Er) & Est); intros [[E _]|E]; congruence. }
  destruct (decide (z_cpus s c = CRun k)) as [Hc|Hc]; [apply (Hleave k Hc Hx)|].
  apply (same_q_ok _ _ (Hsame k Hc Hx)).
Qed.

Lemma cpu_keeps : sched_ok s'.
Proof.
  destruct Hlocks as [L1 L2]; split.
  - intros r d; destruct (decide (d = c)) as [->|Hd]; [apply L1|]; rewrite L2, (so_locks s Hs) by done.
    unfold owns; rewrite Hcpu, decide_False by done; destruct (z_cpus s d) as [| |j| | | | |] eqn:E; try done.
    by rewrite (proj2 (proj2 (other_cpu d j Hd E))).
  - intros d d' j [[-> Hx]|[Hd Hj]]%cpu_at [[-> Hx']|[Hd' Hj']]%cpu_at; try done.
    + by destruct (Henter j Hx) as [Hno _]; destruct (Hno d').
    + by destruct (Henter j Hx') as [Hno _]; destruct (Hno d).
    + by apply (so_one s Hs d d' j).
  - intros d j [[-> Hx]|[Hd Hj]]%cpu_at.
    + destruct (Henter j Hx) as (_ & (r & Er) & Est); unfold running_ok; by rewrite Er.
    + apply (same_q_ok _ _ (other_cpu d j Hd Hj)); by apply (so_run s Hs d).
  - intros j Hj; assert (x <> CRun j) as Hx by (specialize (Hj c); rewrite Hcpu, decide_True in Hj; done).
    destruct (decide (z_cpus s c = CRun j)) as [Hc|Hc]; [by apply Hleave|].
    apply (same_q_ok _ _ (Hsame j Hc Hx)), (so_park s Hs); intros d; destruct (decide (d = c)) as [->|Hd]; [done|].
    specialize (Hj d); by rewrite Hcpu, decide_False in Hj.
  - intros d j ch [[-> Hx]|[Hd Hj]]%cpu_at; rewrite Hcond.
    + destruct (Henter j Hx) as (_ & (r & Er) & _); rewrite Er; naive_solver.
    + rewrite (proj2 (proj2 (other_cpu d j Hd Hj))); by apply (so_entry s Hs d).
  - intros k ch Hk Hw Hct; rewrite Hcond in Hct; destruct (so_wake s Hs k ch Hk (sleeps_before k ch Hw) Hct) as (d & j & Hd & Hj).
    assert (d <> c) as Hdc.
    { intros ->; destruct (decide (x = CRun j)) as [Hx|Hx]; [by destruct (Henter j Hx) as [Hno _]; destruct (Hno c)|].
      by destruct (Hleave j Hd Hx) as (_ & _ & Hnw); apply (Hnw ch k). }
    exists d, j; by rewrite Hcpu, decide_False, (proj2 (proj2 (other_cpu d j Hdc Hd))).
  - intros d; rewrite Hnoff; case_decide as Hd; [by subst|]; rewrite (so_noff s Hs); unfold cpu_depth; rewrite Hcpu, decide_False by done.
    destruct (z_cpus s d) as [| |j| | | | |] eqn:E; try done; by rewrite (proj2 (proj2 (other_cpu d j Hd E))).
  - intros d m; rewrite Hcpu; case_decide; [apply Hpanic|apply (so_panic s Hs)].
  - exact Hflags.
Qed.

End cpu.

(** A thread that runs owns what its position says. *)
Lemma thread_holds s c i : sched_ok s -> z_cpus s c = CRun i -> forall r, holder s r = Some c <-> thread_owns i (q_pc (z_procs s i)) r.
Proof. intros Hs Hc r; rewrite (so_locks s Hs); unfold owns; by rewrite Hc. Qed.

(** Evaluate updates. *)
Ltac fn_cases :=
  repeat match goal with
  | H : ?i <> ?j |- context [(<[?i := ?x]> ?f) ?j] => rewrite (fn_lookup_insert_ne f i j x H)
  | H : ?j <> ?i |- context [(<[?i := ?x]> ?f) ?j] => rewrite (fn_lookup_insert_ne f i j x (not_eq_sym H))
  | |- context [(<[?i := ?x]> ?f) ?i] => rewrite (fn_lookup_insert f i x)
  | |- context [(<[?i := ?x]> ?f) ?j] => destruct (decide (i = j)) as [->|?]
  end.
Ltac run_step :=
  unfold goto, push_off, popped, upd_q, set_q, set_cpu, set_lk, set_cond, set_intr, restore_intena,
    with_pc, with_lock, with_state, with_chan, with_intena, same_q, running_ok, will_sleep, holder, owns, cpu_depth;
  cbn [z_procs z_cpus z_lk z_cond z_noff z_intr z_intena q_state q_chan q_lock q_pc q_intena].
Ltac fields := cbn [z_procs z_cpus z_lk z_cond z_noff z_intr z_intena q_state q_chan q_lock q_pc q_intena thread_owns wakes_later thread_depth pred] in *.
Ltac evaluate := run_step; repeat (progress fn_cases || intros ?); fields; try done.

Ltac settle := try solve [repeat case_match; destruct_or?; destruct_and?; simplify_eq; first [done|congruence|split_and?; lia|naive_solver]].

(** The tests of [release] and [pop_off], by a CPU that owns the lock. *)
Section tests.
Context (s : sched_state) (c : nat) (next : sched_state -> sched_state) (Hs : sched_ok s).

Lemma pop_tests s' r : owns s c r -> z_noff s' = z_noff s -> z_intr s' = z_intr s -> pop_off c next s' = next (popped c s').
Proof.
  intros Ho En Ei; apply owns_depth in Ho; rewrite <- (so_noff s Hs) in Ho; unfold pop_off.
  rewrite En, Ei, (so_flags s Hs) by done; by rewrite bool_decide_eq_false_2 by lia.
Qed.

Lemma drop_q_tests k : holder s (RQ k) = Some c -> drop_q c k next s = next (popped c (upd_q k (with_lock None) s)).
Proof.
  intros Hl; unfold drop_q; cbn [holder] in Hl; rewrite bool_decide_eq_true_2 by done; cbn [negb].
  apply (pop_tests _ (RQ k)); [by apply (so_locks s Hs)|done|done].
Qed.

Lemma drop_lk_tests ch : holder s (RL ch) = Some c -> drop_lk c ch next s = next (popped c (set_lk ch None s)).
Proof.
  intros Hl; unfold drop_lk; cbn [holder] in Hl; rewrite bool_decide_eq_true_2 by done; cbn [negb].
  apply (pop_tests _ (RL ch)); [by apply (so_locks s Hs)|done|done].
Qed.
End tests.

(** [acquire] succeeds, or waits for another CPU. *)
Lemma take_q_some s c k next s' : take_q c k next s = Some s' -> holder s (RQ k) <> Some c ->
  q_lock (z_procs s k) = None /\ s' = next (push_off c (upd_q k (with_lock (Some c)) s)).
Proof. unfold take_q; cbn [holder]; destruct (q_lock (z_procs s k)) as [d|]; [case_bool_decide; congruence|]; by intros [= <-] _. Qed.
Lemma take_lk_some s c ch next s' : take_lk c ch next s = Some s' -> holder s (RL ch) <> Some c ->
  z_lk s ch = None /\ s' = next (push_off c (set_lk ch (Some c) s)).
Proof. unfold take_lk; cbn [holder]; destruct (z_lk s ch) as [d|]; [case_bool_decide; congruence|]; by intros [= <-] _. Qed.

(** [flags_kept Hs c] proves [flags_ok] after one operation on the flags of [c], or none. *)
Ltac flags_kept Hs c :=
  let Hf := fresh "Hf" in pose proof (so_flags _ Hs) as Hf;
  first [exact Hf|apply (flags_push _ _ c Hf); reflexivity|apply (flags_pop _ _ c Hf); reflexivity|eapply (flags_intr _ _ c Hf); [eassumption|reflexivity|reflexivity]].

(** [moved c i E] proves the conditions of [local_keeps] that hold by evaluation,
    where [E] gives the position of the thread. *)
Ltac moved c i E :=
  match goal with Hs : sched_ok ?s, Hc : z_cpus ?s c = CRun i |- sched_ok ?s' =>
    let Hr := fresh "Hr" in let Hn := fresh "Hn" in
    pose proof (so_run s Hs c i Hc) as Hr; unfold running_ok in Hr; rewrite E in Hr;
    pose proof (so_noff s Hs c) as Hn; unfold cpu_depth in Hn; rewrite Hc, E in Hn; cbn [thread_depth] in Hn;
    apply (local_keeps s s' c i Hs Hc eq_refl eq_refl); rewrite ?E;
      [evaluate| |evaluate; case_decide; subst; fn_cases; fields; rewrite ?Hn; try done|evaluate|evaluate; settle|evaluate; settle|evaluate; settle|flags_kept Hs c]
  end.

Lemma wake_one_spec ch p :
  q_pc (wake_one ch p) = q_pc p /\ q_chan (wake_one ch p) = q_chan p /\ q_lock (wake_one ch p) = q_lock p /\
  (q_state p <> SLEEPING -> q_state (wake_one ch p) = q_state p) /\
  (q_state (wake_one ch p) = RUNNING -> q_state p = RUNNING) /\
  (q_state (wake_one ch p) = SLEEPING -> q_state p = SLEEPING /\ q_chan p <> Some ch).
Proof. unfold wake_one; case_bool_decide; repeat split; naive_solver. Qed.

(** What becomes of the locks: none taken, [r] taken, [r] given back. *)
Ltac by_owner := intros [?|?]; evaluate; naive_solver.
Ltac holds Hh := eapply (locks_same _ _ _ _ _ Hh); [by_owner|by_owner].
Ltac takes Hh r := eapply (locks_take _ _ _ _ _ Hh r); [evaluate|evaluate|by_owner|by_owner].
Ltac drops Hh r := eapply (locks_drop _ _ _ _ _ Hh r); [evaluate|evaluate|by_owner|by_owner].

Section thread.
Context (s : sched_state) (c i : nat) (Hs : sched_ok s) (Hc : z_cpus s c = CRun i).

Lemma yield_keeps x s' : q_pc (z_procs s i) = x -> yield_step c i x s = Some s' -> sched_ok s'.
Proof.
  intros E; pose proof (thread_holds s c i Hs Hc) as Hh; rewrite E in Hh.
  destruct x; cbn [yield_step]; try done.
  - intros [El ->]%take_q_some; [|by intros ?%Hh]; moved c i E; takes Hh (RQ i).
  - intros [= <-]; moved c i E; holds Hh.
Qed.

Lemma sleep_keeps x s' : q_pc (z_procs s i) = x -> sleep_step c i x s = Some s' -> sched_ok s'.
Proof.
  intros E; pose proof (thread_holds s c i Hs Hc) as Hh; rewrite E in Hh.
  pose proof (fun ch => so_entry s Hs c i ch Hc) as He; rewrite E in He.
  destruct x; cbn [sleep_step]; try done.
  - intros [El ->]%take_q_some; [|by intros ?%Hh]; moved c i E; takes Hh (RQ i).
  - intros [= <-]; rewrite (drop_lk_tests s c _ Hs) by (by apply Hh).
    assert (z_cond s ch = false) by (apply He; auto); clear He; moved c i E; drops Hh (RL ch).
  - intros [= <-]; moved c i E; holds Hh.
Qed.

Lemma resume_keeps x s' : q_pc (z_procs s i) = x -> resume_step c i x s = Some s' -> sched_ok s'.
Proof.
  intros E; pose proof (thread_holds s c i Hs Hc) as Hh; rewrite E in Hh.
  destruct x as [| | | | | | | | | |[ch|]|[ch|]|ch]; cbn [resume_step]; try done.
  - intros [= <-]; moved c i E; holds Hh.
  - intros [= <-]; moved c i E; holds Hh.
  - intros [= <-]; rewrite (drop_q_tests s c _ Hs) by (by apply Hh); moved c i E; drops Hh (RQ i).
  - intros [= <-]; rewrite (drop_q_tests s c _ Hs) by (by apply Hh); moved c i E; drops Hh (RQ i).
  - intros [El ->]%take_lk_some; [|by intros ?%Hh]; moved c i E; takes Hh (RL ch).
Qed.

(** [wakeup] at process [k]: the one place where a process changes the state of another. *)
Lemma wake_one_keeps ch k : q_pc (z_procs s i) = TWakeIn ch k -> sched_ok (goto i (TWakeRel ch k) (upd_q k (wake_one ch) s)).
Proof.
  intros E; pose proof (thread_holds s c i Hs Hc) as Hh; rewrite E in Hh.
  pose proof (so_run s Hs c i Hc) as Hr; unfold running_ok in Hr; rewrite E in Hr.
  destruct (wake_one_spec ch (z_procs s k)) as (W1 & W2 & W3 & W4 & W6 & W5).
  assert (forall d, z_cpus s d = CRun k -> k <> i -> thread_owns k (q_pc (z_procs s k)) (RQ k) -> False) as Hk.
  { intros d Hd Hki Ho; apply (thread_holds s d k Hs Hd) in Ho; assert (holder s (RQ k) = Some c) as Ho' by by apply Hh.
    congruence. }
  assert (forall ch', q_pc (z_procs s k) <> TSleepSet ch') as Hset.
  { intros ch' Ek; destruct (decide (k = i)) as [->|Hki]; [congruence|].
    destruct (so_park s Hs k) as (r & Er & _); [|congruence]; intros d Hd; apply (Hk d Hd Hki); by rewrite Ek. }
  eapply (thread_keeps s _ c i Hs Hc); [done|..].
  - evaluate.
  - holds Hh.
  - pose proof (so_noff s Hs c) as Hn; unfold cpu_depth in Hn; rewrite Hc, E in Hn.
    evaluate; case_decide; by subst.
  - evaluate; rewrite W4; congruence.
  - intros j Hj; destruct (decide (j = k)) as [->|Hjk]; [|evaluate; split; [intros d Hd; by apply (so_run s Hs d j)|done]].
    evaluate; split; [intros d Hd|intros (r & P1 & P2 & P3)].
    + pose proof (so_run s Hs d k Hd) as Hrk; unfold running_ok in *; rewrite W1.
      destruct (q_pc (z_procs s k)) as [| | | | | | | | |[?|]| | |] eqn:Ek; try (rewrite W4; congruence); by destruct (Hk d Hd Hj).
    + exists r; rewrite W1, W2; split_and!; [done|intros E'; by apply P2, W6|intros Esl; by destruct (P3 (proj1 (W5 Esl)))].
  - intros d j ch' Hd; pose proof (so_entry s Hs d j ch' Hd) as He.
    destruct (decide (j = i)) as [->|]; [evaluate; naive_solver|destruct (decide (j = k)) as [->|]; evaluate; [|by apply He]].
    apply He; by rewrite <- W1.
  - intros j ch' Hj Hws Hct; assert (will_sleep (z_procs s j) ch' /\ (j = k -> ch' <> ch)) as [Hws' Hne].
    { revert Hws; unfold will_sleep; destruct (decide (j = i)) as [->|]; [evaluate|destruct (decide (j = k)) as [->|]]; evaluate; rewrite ?W1, ?W2 in *.
      - destruct Hws as [[H1 H2]|]; [destruct (W5 H1); congruence|done].
      - destruct Hws as [[H1 H2]|]; [congruence|done].
      - destruct Hws as [[H1 H2]|H1]; [destruct (W5 H1); split; [by left|congruence]|by destruct (Hset ch')]. }
    destruct (so_wake s Hs j ch' Hj Hws' Hct) as (d & j' & Hd & Hw); exists d, j'; split; [done|].
    destruct (decide (j' = i)) as [->|]; [|destruct (decide (j' = k)) as [->|]; evaluate; by rewrite W1].
    rewrite E in Hw; destruct Hw as [-> Hw]; assert (j <> k) by (intros ->; by apply Hne).
    evaluate; lia.
  - flags_kept Hs c.
Qed.

Lemma wakeup_keeps x s' : q_pc (z_procs s i) = x -> wakeup_step c i x s = Some s' -> sched_ok s'.
Proof.
  intros E; pose proof (thread_holds s c i Hs Hc) as Hh; rewrite E in Hh.
  destruct x as [|ch k|ch k|ch k| | | | | | | | |]; cbn [wakeup_step]; try done; repeat case_bool_decide.
  - intros [= <-]; moved c i E; holds Hh.
  - intros [= <-]; moved c i E; holds Hh.
  - intros [El ->]%take_q_some; [|by intros ?%Hh]; moved c i E; takes Hh (RQ k).
  - intros [= <-]; by apply wake_one_keeps.
  - intros [= <-]; rewrite (drop_q_tests s c _ Hs) by (by apply Hh); moved c i E; drops Hh (RQ k).
Qed.

(** Changes of a condition, under its lock. *)
Lemma consume_keeps ch : q_pc (z_procs s i) = TRun (Some ch) -> sched_ok (set_cond ch false s).
Proof.
  intros E; pose proof (thread_holds s c i Hs Hc) as Hh; pose proof (so_run s Hs c i Hc) as Hr.
  pose proof (so_noff s Hs c) as Hn; unfold cpu_depth in Hn; rewrite Hc in Hn.
  eapply (thread_keeps s _ c i Hs Hc); [done|done|holds Hh| |done| | | |flags_kept Hs c]; fields.
  - intros d; case_decide; by subst.
  - intros j Hj; split; [intros d Hd; by apply (so_run s Hs d j)|done].
  - intros d j ch' Hd Hp; pose proof (so_entry s Hs d j ch' Hd Hp); evaluate.
  - intros k ch' Hk Hw; evaluate; by apply (so_wake s Hs).
Qed.

Lemma notify_keeps ch : q_pc (z_procs s i) = TRun (Some ch) -> sched_ok (goto i (TWake ch 0) (set_cond ch true s)).
Proof.
  intros E; pose proof (thread_holds s c i Hs Hc) as Hh; rewrite E in Hh; pose proof (so_run s Hs c i Hc) as Hr.
  pose proof (so_noff s Hs c) as Hn; unfold cpu_depth in Hn; rewrite Hc, E in Hn; unfold running_ok in Hr; rewrite E in Hr.
  eapply (thread_keeps s _ c i Hs Hc); [done|evaluate|holds Hh| |evaluate| | | |flags_kept Hs c].
  - evaluate; case_decide; by subst.
  - intros j Hj; split; [intros d Hd; pose proof (so_run s Hs d j Hd); evaluate|evaluate].
  - intros d j ch' Hd; destruct (decide (j = i)) as [->|Hj]; [evaluate; naive_solver|]; evaluate; [|by apply (so_entry s Hs d j)].
    exfalso; assert (holder s (RL ch') = Some c) as Hl by by apply Hh.
    assert (holder s (RL ch') = Some d) by (apply (thread_holds s d j Hs Hd); destruct_or?; by rewrite H); congruence.
  - intros k ch' Hk Hw Hct; destruct (decide (ch' = ch)) as [->|Hne]; [exists c, i; split; [done|]; evaluate; lia|].
    destruct (so_wake s Hs k ch' Hk) as (d & j & Hd & Hj); [revert Hw; evaluate; naive_solver|revert Hct; evaluate|].
    exists d, j; split; [done|]; destruct (decide (j = i)) as [->|]; [by rewrite E in Hj|evaluate].
Qed.

Lemma client_keeps held a s' : q_pc (z_procs s i) = TRun held -> client_step c i held a s = Some s' -> sched_ok s'.
Proof.
  intros E; pose proof (thread_holds s c i Hs Hc) as Hh; rewrite E in Hh.
  destruct a as [ch| | | | | |b], held as [ch0|]; cbn [client_step]; try done.
  - intros [El ->]%take_lk_some; [|by intros ?%Hh]; moved c i E; takes Hh (RL ch).
  - intros [= <-]; rewrite (drop_lk_tests s c _ Hs) by (by apply Hh); moved c i E; drops Hh (RL ch0).
  - intros [= <-]; by apply consume_keeps.
  - intros [= <-]; by apply notify_keeps.
  - destruct (z_cond s ch0) eqn:Ec; [done|]; intros [= <-]; moved c i E; holds Hh.
  - intros [= <-]; moved c i E; holds Hh.
  - intros [= <-]; moved c i E; holds Hh.
Qed.

(** [sched]: the tests do not fail, and the thread is left with its lock held. *)
Lemma sched_keeps r : q_pc (z_procs s i) = TSched r -> sched_ok (sched_step c i r s).
Proof.
  intros E; pose proof (thread_holds s c i Hs Hc) as Hh; rewrite E in Hh.
  pose proof (so_run s Hs c i Hc) as Hr; unfold running_ok in Hr; rewrite E in Hr.
  pose proof (so_noff s Hs c) as Hn; unfold cpu_depth in Hn; rewrite Hc, E in Hn.
  assert (q_lock (z_procs s i) = Some c) as Hl by by apply (Hh (RQ i)).
  assert (q_state (z_procs s i) <> RUNNING) as Hnr by (destruct r; [destruct Hr|]; congruence).
  assert (z_intr s c = false) as Hni by (apply (so_flags s Hs); by rewrite Hn).
  unfold sched_step; rewrite !bool_decide_eq_true_2 by done; rewrite bool_decide_eq_false_2, Hni by done; cbn [negb].
  apply (cpu_keeps s _ c (CBack i) Hs); try done.
  - evaluate; case_decide; by subst; fn_cases.
  - intros j Hj _; assert (j <> i) by congruence; evaluate.
  - intros j Hj _; assert (j = i) as -> by congruence; rewrite E; split_and!; [|evaluate; settle|naive_solver].
    exists r; evaluate; split_and!; [done|done|]; destruct r; [intros _; split; [done|apply Hr]|congruence].
  - holds Hh.
  - evaluate; case_decide; by subst.
  - flags_kept Hs c.
Qed.
End thread.

(** The loop of the scheduler. *)
Section loop.
Context (s : sched_state) (c : nat) (Hs : sched_ok s).

(** Neither leaves nor enters a thread. *)
Ltac idle Hn x :=
  apply (cpu_keeps s _ c x Hs); try done;
    try solve [flags_kept Hs c]; try solve [evaluate; try congruence; try case_decide; subst; fn_cases; fields; by rewrite ?Hn].

(** The process it picks is run by no other CPU, and stopped in [sched]. *)
Lemma picked_parked k : z_cpus s c = CGot k -> q_state (z_procs s k) = RUNNABLE ->
  (forall d, z_cpus s d <> CRun k) /\ (exists r, q_pc (z_procs s k) = TBack r).
Proof.
  intros Hc Hst; assert (holder s (RQ k) = Some c) as Hl by (apply (so_locks s Hs); unfold owns; by rewrite Hc).
  assert (forall d, z_cpus s d <> CRun k) as Hno; [|by destruct (so_park s Hs k Hno) as (r & E & _); eauto].
  intros d Hd; pose proof (so_run s Hs d k Hd) as Hr; unfold running_ok in Hr.
  destruct (q_pc (z_procs s k)) as [| | | | | | | | |[]| | |] eqn:E; destruct_and?; try congruence.
  assert (holder s (RQ k) = Some d) by (apply (thread_holds s d k Hs Hd); by rewrite E); congruence.
Qed.

Lemma scheduler_keeps x s' : z_cpus s c = x -> scheduler_step c x s = Some s' -> sched_ok s'.
Proof.
  intros Hc; assert (forall r, holder s r = Some c <-> match x, r with (CGot k | CBack k | CRel k), RQ k' => k' = k | CRun i, _ => thread_owns i (q_pc (z_procs s i)) r | _, _ => False end) as Hh.
  { intros r; rewrite (so_locks s Hs); unfold owns; by rewrite Hc. }
  pose proof (so_noff s Hs c) as Hn; unfold cpu_depth in Hn; rewrite Hc in Hn.
  destruct x as [k|k| |k|k| | |]; cbn [scheduler_step]; try done; repeat case_bool_decide.
  - intros [= <-]; idle Hn CTop; holds Hh.
  - intros [El ->]%take_q_some; [|by intros ?%Hh]; idle Hn (CGot k); takes Hh (RQ k).
  - intros [= <-]; destruct (picked_parked k Hc) as (Hno & r & Er); [done|]; apply (cpu_keeps s _ c (CRun k) Hs); try done.
    + evaluate; case_decide; by subst; fn_cases.
    + intros j _ Hj; assert (j <> k) by congruence; evaluate.
    + intros j [= ->]; evaluate; eauto.
    + intros j Hj; congruence.
    + eapply (locks_same _ _ _ _ _ Hh); [by_owner|]; intros [?|?]; evaluate; by rewrite Er.
    + evaluate; case_decide; subst; fn_cases; fields; by rewrite ?Er.
    + flags_kept Hs c.
  - intros [= <-]; idle Hn (CRel k); holds Hh.
  - intros [= <-]; idle Hn (CRel k); holds Hh.
  - intros [= <-]; rewrite (drop_q_tests s c _ Hs) by (by apply Hh); idle Hn (CScan (S k)); drops Hh (RQ k).
  - intros [= <-]; idle Hn COn; holds Hh.
  - intros [= <-]; idle Hn (CScan 0); holds Hh.
Qed.
End loop.

(** ** Every reachable state *)

Lemma sched_boot_ok s : sched_boot s -> sched_ok s.
Proof.
  intros (B1 & B2 & B3 & B4); split.
  - intros [k|ch] c; unfold owns; cbn [holder]; rewrite B1; [by rewrite (proj1 (proj2 (proj2 (B2 k))))|by rewrite B3].
  - intros c c' i; by rewrite B1.
  - intros c i; by rewrite B1.
  - intros i _; destruct (B2 i) as (St & Ch & _ & Pc & _); exists None; split_and!; [done| |]; destruct St; congruence.
  - intros c i ch; by rewrite B1.
  - intros i ch _ [[E _]|E]; destruct (B2 i) as (St & _ & _ & Pc & _); [destruct St|]; congruence.
  - intros c; unfold cpu_depth; by rewrite B1, B4.
  - intros c m; by rewrite B1.
  - intros c Hn; by rewrite B4 in Hn.
Qed.

Lemma mstep_ok s s' : sched_ok s -> mstep s s' -> sched_ok s'.
Proof.
  intros Hs Hm; revert Hs; destruct Hm as [c a s1 s2 H]; intros Hs; unfold cpu_step in H; destruct (z_cpus s1 c) as [| |i| | | | |] eqn:Hc; try exact (scheduler_keeps s1 c Hs _ s2 Hc H).
  unfold thread_step in H; destruct (q_pc (z_procs s1 i)) eqn:E;
    first [exact (client_keeps s1 c i Hs Hc _ a s2 E H)|exact (wakeup_keeps s1 c i Hs Hc _ s2 E H)|exact (sleep_keeps s1 c i Hs Hc _ s2 E H)
      |exact (yield_keeps s1 c i Hs Hc _ s2 E H)|exact (resume_keeps s1 c i Hs Hc _ s2 E H)|injection H as <-; exact (sched_keeps s1 c i Hs Hc _ E)].
Qed.

Lemma sched_reachable_ok s0 s : sched_boot s0 -> rtc mstep s0 s -> sched_ok s.
Proof. intros Hb%sched_boot_ok Hr; induction Hr as [|x y z Hxy _ IH]; [done|]; by apply IH, (mstep_ok x y). Qed.

(** C5. Scheduling keeps processes apart on any number of CPUs, in any
    interleaving, from any boot state: a process runs on at most one CPU, a
    process whose state is [RUNNING] does run on one (and conversely outside
    [sched]), a lock has exactly the holder the code positions say, interrupts are
    off on a CPU that holds a lock, and no CPU panics: the four tests of [sched] and
    those of [acquire], [release] and [pop_off] never fail. *)
Theorem scheduler_exclusive s0 s :
  sched_boot s0 -> rtc mstep s0 s ->
  (forall c c' i, z_cpus s c = CRun i -> z_cpus s c' = CRun i -> c = c') /\
  (forall c i, z_cpus s c = CRun i -> q_state (z_procs s i) = RUNNING \/ (exists r, q_pc (z_procs s i) = TSched r /\ q_lock (z_procs s i) = Some c)) /\
  (forall i, q_state (z_procs s i) = RUNNING -> ~ forall c, z_cpus s c <> CRun i) /\
  (forall r c, holder s r = Some c <-> owns s c r) /\
  (forall r c, holder s r = Some c -> z_intr s c = false) /\
  (forall c m, z_cpus s c <> CPanic m).
Proof.
  intros Hb Hr; pose proof (sched_reachable_ok s0 s Hb Hr) as Hs; split_and!; try apply Hs.
  - intros c i Hc; pose proof (so_run s Hs c i Hc) as Ho; unfold running_ok in Ho.
    destruct (q_pc (z_procs s i)) eqn:E; auto; right; exists r; split; [done|].
    apply (thread_holds s c i Hs Hc (RQ i)); by rewrite E.
  - intros i Hi Hno; by destruct (so_park s Hs i Hno) as (r & _ & Hn & _).
  - intros r c Hl; apply (so_flags s Hs); rewrite (so_noff s Hs); by apply (owns_depth s c r), (so_locks s Hs).
Qed.

(** C4. No wakeup is lost, on any number of CPUs, in any interleaving: when a
    process sleeps on a channel whose condition is true, some CPU is inside
    [wakeup] of that channel, holds the condition lock, and has still to come to
    that process.  So whenever the condition lock is free, nobody sleeps on a
    condition that is true. *)
Theorem no_lost_wakeup s0 s :
  sched_boot s0 -> rtc mstep s0 s ->
  forall i ch, (i < nproc)%nat -> q_state (z_procs s i) = SLEEPING -> q_chan (z_procs s i) = Some ch -> z_cond s ch = true ->
  z_lk s ch <> None /\
  exists c j, z_lk s ch = Some c /\ z_cpus s c = CRun j /\ wakes_later (q_pc (z_procs s j)) ch i.
Proof.
  intros Hb Hr i ch Hi Hst Hch Hct; pose proof (sched_reachable_ok s0 s Hb Hr) as Hs.
  destruct (so_wake s Hs i ch Hi (or_introl (conj Hst Hch)) Hct) as (c & j & Hc & Hw).
  assert (z_lk s ch = Some c) as Hl.
  { apply (thread_holds s c j Hs Hc (RL ch)); destruct (q_pc (z_procs s j)); try done; by destruct Hw as [-> _]. }
  split; [congruence|]; by exists c, j.
Qed.

(** ** An execution *)

Fixpoint run_cpus (l : list (nat * action)) (s : sched_state) : option sched_state :=
  match l with
  | [] => Some s
  | (c, a) :: l => s ← cpu_step c a s; run_cpus l s
  end.

Lemma run_cpus_rtc l s s' : run_cpus l s = Some s' -> rtc mstep s s'.
Proof.
  revert s; induction l as [|[c a] l IH]; intros s; cbn [run_cpus]; [by intros [= ->]|].
  destruct (cpu_step c a s) as [s1|] eqn:E; cbn; [|done]; intros H; apply (rtc_l _ _ s1); [by econstructor|by apply IH].
Qed.

(** Two processes.  Process 0 goes to sleep on channel 7 and leaves its CPU; CPU 1
    runs process 1, which makes the condition true and calls [wakeup]. *)
Definition ex_boot : sched_state :=
  SchedState (fun i => SProc (if bool_decide (i < 2)%nat then RUNNABLE else UNUSED) None None (TBack None) None)
    (fun _ => CTop) (fun _ => None) (fun _ => false) (fun _ => 0%nat) (fun _ => false) (fun _ => false).
Definition ex_schedule : list (nat * action) :=
  let on c l := map (pair c) l in
  on 0%nat (replicate 6 AYield ++ [AIntr true; AAcquire 7; ASleep] ++ replicate 6 AYield) ++
  on 1%nat (replicate 9 AYield ++ [AAcquire 7; ANotify]).
Definition ex_state : sched_state := default ex_boot (run_cpus ex_schedule ex_boot).

Lemma ex_booted : sched_boot ex_boot.
Proof. repeat split; cbn; case_bool_decide; auto. Qed.

Lemma ex_reached : rtc mstep ex_boot ex_state.
Proof.
  assert ((if run_cpus ex_schedule ex_boot then true else false) = true) as H by by vm_compute.
  apply (run_cpus_rtc ex_schedule); unfold ex_state; by destruct (run_cpus ex_schedule ex_boot).
Qed.

Lemma scheduler_exclusive_witness :
  z_cpus ex_state 1%nat = CRun 1 /\
  (q_state (z_procs ex_state 1%nat) = RUNNING \/ exists r, q_pc (z_procs ex_state 1%nat) = TSched r /\ q_lock (z_procs ex_state 1%nat) = Some 1%nat).
Proof. split; [by vm_compute|]; refine (proj1 (proj2 (scheduler_exclusive ex_boot ex_state ex_booted ex_reached)) 1%nat 1%nat _); by vm_compute. Defined.

Lemma no_lost_wakeup_witness : z_cond ex_state 7 = true /\ q_state (z_procs ex_state 0%nat) = SLEEPING /\ z_lk ex_state 7%nat <> None.
Proof.
  split; [by vm_compute|]; split; [by vm_compute|].
  refine (proj1 (no_lost_wakeup ex_boot ex_state ex_booted ex_reached 0 7 _ _ _ _)); [apply Nat.ltb_lt| | |]; by vm_compute.
Defined.
