(* ===== verification/Pipe.v ===== *)
(** * Pipes, [kernel/pipe.c]

    A pipe is a ring of [PIPESIZE] bytes between two counters that only grow, in
    32-bit arithmetic.  [pipewrite] may sleep in the middle of a transfer, with
    [i] bytes done: the loop is a definition of its own that says where it stops,
    so that a woken writer resumes at [i].  [pipealloc] is in [File.v], with the
    file table it allocates from. *)

From S2P Require Import Prelude KMonad Memory Riscv Kalloc Vm Fs Kernel.

Definition set_nread (n : Z) (p : pipe) : pipe := Pipe (pi_data p) n (pi_nwrite p) (pi_readopen p) (pi_writeopen p).
Definition set_readopen (b : bool) (p : pipe) : pipe := Pipe (pi_data p) (pi_nread p) (pi_nwrite p) b (pi_writeopen p).
Definition set_writeopen (b : bool) (p : pipe) : pipe := Pipe (pi_data p) (pi_nread p) (pi_nwrite p) (pi_readopen p) b.

(** [pi->data[pi->nwrite++ % PIPESIZE] = ch] *)
Definition pipe_put (ch : Z) (p : pipe) : pipe :=
  Pipe (aset (pi_data p) (pi_nwrite p mod PIPESIZE) ch) (pi_nread p) (u32 (pi_nwrite p + 1)) (pi_readopen p) (pi_writeopen p).
(** [pi->data[pi->nread % PIPESIZE]] *)
Definition pipe_head (p : pipe) : Z := aget 0 (pi_data p) (pi_nread p mod PIPESIZE).
Definition pipe_full (p : pipe) : bool := pi_nwrite p =? u32 (pi_nread p + PIPESIZE).
Definition pipe_empty (p : pipe) : bool := pi_nread p =? pi_nwrite p.

Section pipe.
Context {L : KernelLayout} (me : Z).

(** Once its page is freed there is no pipe any more. *)
Definition pipeclose (pi : Z) (writable : bool) : M ksys unit :=
  do! acquire (PIPELOCK pi);
  do! (if writable then
         do! modpi pi (set_writeopen false);
         wakeup me (ChPipeRead pi)
       else
         do! modpi pi (set_readopen false);
         wakeup me (ChPipeWrite pi));
  let! p := getpi pi in
  if negb (pi_readopen p) && negb (pi_writeopen p) then
    do! release (PIPELOCK pi);
    do! liftm (kfree pi);
    modify (fun s => set_pipes (delete pi (y_pipes s)) s)
  else release (PIPELOCK pi).

(** How the loop of [pipewrite] stops: at its end or the [break] with [i] bytes
    done, at the [return -1], or about to sleep. *)
Inductive write_stop := WriteEnd (i : Z) | WriteFail | WriteWait (i : Z).

Fixpoint pipewrite_loop (fuel : nat) (pi addr n i : Z) : M ksys write_stop :=
  if negb (i <? n) then ret (WriteEnd i) else
  match fuel with
  | O => diverge
  | S fuel =>
      let! p := getpi pi in
      let! dead := (if negb (pi_readopen p) then ret true else killed me) in
      if dead then
        do! release (PIPELOCK pi);
        ret WriteFail
      else if pipe_full p then
        do! wakeup me (ChPipeRead pi);
        ret (WriteWait i)
      else
        let! pr := getp me in
        let! r := liftm (copyin (uproc_of pr) (p_pagetable pr) (u64 (addr + i)) 1) in
        if r.1 =? -1 then ret (WriteEnd i) else
        do! modpi pi (pipe_put (hd 0 r.2));
        pipewrite_loop fuel pi addr n (i + 1)
  end.

(** From [i] bytes done, with the lock held. *)
Definition pipewrite_from (pi addr n i : Z) : M ksys Z :=
  let! st := pipewrite_loop (Z.to_nat (n - i)) pi addr n i in
  match st with
  | WriteEnd i =>
      do! wakeup me (ChPipeRead pi);
      do! release (PIPELOCK pi);
      ret i
  | WriteFail => ret (-1)
  | WriteWait i => sleep me (ChPipeWrite pi) (PIPELOCK pi)
  end.

Definition pipewrite (pi addr n : Z) : M ksys Z :=
  do! acquire (PIPELOCK pi);
  pipewrite_from pi addr n 0.

(** The copying loop of [piperead]. *)
Fixpoint piperead_loop (fuel : nat) (pi addr n i : Z) : M ksys Z :=
  if negb (i <? n) then ret i else
  match fuel with
  | O => diverge
  | S fuel =>
      let! p := getpi pi in
      if pipe_empty p then ret i else
      let ch := pipe_head p in
      do! modpi pi (set_nread (u32 (pi_nread p + 1)));
      let! pr := getp me in
      let! r := liftm (copyout (uproc_of pr) (p_pagetable pr) (u64 (addr + i)) [ch]) in
      if r =? -1 then ret i
      else piperead_loop fuel pi addr n (i + 1)
  end.

(** A reader that finds the pipe empty and open sleeps and tests again. *)
Definition piperead (pi addr n : Z) : M ksys Z :=
  do! acquire (PIPELOCK pi);
  let! p := getpi pi in
  if pipe_empty p && pi_writeopen p then
    let! k := killed me in
    if k then
      do! release (PIPELOCK pi);
      ret (-1)
    else sleep me (ChPipeRead pi) (PIPELOCK pi)
  else
    let! i := piperead_loop (Z.to_nat n) pi addr n 0 in
    do! wakeup me (ChPipeWrite pi);
    do! release (PIPELOCK pi);
    ret i.
End pipe.
