(* ===== verification/PipeProofs.v ===== *)
(** * Pipes are bounded byte queues

    A pipe denotes the list of bytes between its counters.  Writers append, readers
    take from the front, in any interleaving of any processes; the counters may
    wrap around. *)

From S2P Require Import Prelude KMonad Memory Riscv Kalloc Vm VmProofs UserVm UserMem UserLife Fs Kernel Spaces Pipe.

(** ** The ring *)

Definition pipe_count (p : pipe) : Z := u32 (pi_nwrite p - pi_nread p).

Record pipe_ok (p : pipe) : Prop := {
  pk_len : length (pi_data p) = Z.to_nat PIPESIZE;
  pk_bytes : Forall byte_ok (pi_data p);
  pk_nread : 0 <= pi_nread p < 2 ^ 32;
  pk_nwrite : 0 <= pi_nwrite p < 2 ^ 32;
  pk_count : pipe_count p <= PIPESIZE
}.

(** The queue: [count] bytes from [nread] on. *)
Definition pipe_bytes (p : pipe) : list Z :=
  map (fun k => aget 0 (pi_data p) ((pi_nread p + k) mod PIPESIZE)) (zrange 0 (Z.to_nat (pipe_count p))).

Lemma count_range p : 0 <= pipe_count p < 2 ^ 32.
Proof. apply u32_range. Qed.

Lemma length_pipe_bytes p : Z.of_nat (length (pipe_bytes p)) = pipe_count p.
Proof. pose proof (count_range p); unfold pipe_bytes; rewrite length_map, length_zrange; lia. Qed.

(** The counters differ by [count], up to a wrap. *)
Lemma nwrite_eq p : pipe_ok p -> exists z, pi_nwrite p = pi_nread p + pipe_count p - z * 2 ^ 32 /\ (z = 0 \/ z = 1).
Proof.
  intros [_ _ Hr Hw _]; unfold pipe_count, u32; set (d := pi_nwrite p - pi_nread p).
  destruct (decide (0 <= d)).
  - exists 0; rewrite Z.mod_small by lia; lia.
  - exists 1; replace (d mod 2 ^ 32) with (d + 2 ^ 32) by (apply Z.mod_unique with (-1); lia); lia.
Qed.

Lemma mod_wrap x z : (x - z * 2 ^ 32) mod PIPESIZE = x mod PIPESIZE.
Proof.
  unfold PIPESIZE; replace (x - z * 2 ^ 32) with (x + (- z * 8388608) * 512) by lia; apply Z_mod_plus_full.
Qed.

Lemma u32_wrap x : exists z, u32 x = x - z * 2 ^ 32.
Proof. exists (x / 2 ^ 32); unfold u32; pose proof (Z.div_mod x (2 ^ 32) ltac:(lia)); lia. Qed.

Lemma pipe_full_iff p : pipe_ok p -> pipe_full p = true <-> pipe_count p = PIPESIZE.
Proof.
  intros Hp; unfold pipe_full; rewrite Z.eqb_eq; destruct (nwrite_eq p Hp) as (z & Hz & Hzz).
  destruct (u32_wrap (pi_nread p + PIPESIZE)) as [y Hy]; pose proof (u32_range (pi_nread p + PIPESIZE)).
  destruct Hp as [_ _ Hr Hw Hc]; pose proof (count_range p); unfold PIPESIZE in *; rewrite Hy in *; lia.
Qed.

Lemma pipe_empty_iff p : pipe_ok p -> pipe_empty p = true <-> pipe_count p = 0.
Proof.
  intros Hp; unfold pipe_empty; rewrite Z.eqb_eq; destruct (nwrite_eq p Hp) as (z & Hz & Hzz).
  destruct Hp as [_ _ Hr Hw Hc]; pose proof (count_range p); unfold PIPESIZE in *; lia.
Qed.

Lemma pipe_empty_bytes p : pipe_ok p -> pipe_empty p = true <-> pipe_bytes p = [].
Proof.
  intros Hp; rewrite (pipe_empty_iff p Hp), <- length_pipe_bytes; destruct (pipe_bytes p); cbn; [done|].
  split; [lia|done].
Qed.

Lemma map_zrange_ext {B} (f g : Z -> B) a n :
  (forall k, a <= k < a + Z.of_nat n -> f k = g k) -> map f (zrange a n) = map g (zrange a n).
Proof. intros H; apply map_ext_in; intros k Hk; apply H; by apply elem_of_zrange, list_elem_of_In. Qed.

Lemma count_put p ch : pipe_ok p -> pipe_full p = false -> pipe_count (pipe_put ch p) = pipe_count p + 1.
Proof.
  intros Hp Hf; assert (pipe_count p <> PIPESIZE) by (intros E; apply (pipe_full_iff p Hp) in E; congruence).
  pose proof (pk_count p Hp); pose proof (count_range p); destruct (nwrite_eq p Hp) as (z & Hz & Hzz).
  unfold pipe_count at 1; cbn [pipe_put pi_nwrite pi_nread].
  destruct (u32_wrap (pi_nwrite p + 1)) as [y ->]; rewrite Hz.
  replace (pi_nread p + pipe_count p - z * 2 ^ 32 + 1 - y * 2 ^ 32 - pi_nread p)
    with (pipe_count p + 1 + (- z - y) * 2 ^ 32) by lia.
  unfold u32; rewrite Z_mod_plus_full; apply Z.mod_small; unfold PIPESIZE in *; lia.
Qed.

Lemma pipe_put_spec p ch :
  pipe_ok p -> pipe_full p = false -> byte_ok ch ->
  pipe_ok (pipe_put ch p) /\ pipe_bytes (pipe_put ch p) = pipe_bytes p ++ [ch].
Proof.
  intros Hp Hf Hb; pose proof (count_put p ch Hp Hf) as Hc; pose proof (count_range p) as Hcr.
  assert (pipe_count p < PIPESIZE) as Hlt.
  { pose proof (pk_count p Hp); assert (pipe_count p <> PIPESIZE); [|lia].
    intros E; apply (pipe_full_iff p Hp) in E; congruence. }
  pose proof (Z.mod_pos_bound (pi_nwrite p) PIPESIZE ltac:(done)) as Hm; split.
  - destruct Hp as [H1 H2 H3 H4 H5]; split; cbn [pipe_put pi_data pi_nread pi_nwrite]; auto; [..|lia].
    + by rewrite length_aset.
    + by apply Forall_insert.
    + apply u32_range.
  - unfold pipe_bytes; rewrite Hc, Z2Nat.inj_add, Nat.add_1_r, zrange_snoc, map_app by lia; cbn [map pipe_put pi_data pi_nread].
    destruct (nwrite_eq p Hp) as (z & Hz & _); assert (pi_nwrite p mod PIPESIZE = (pi_nread p + pipe_count p) mod PIPESIZE) as Hi
      by (rewrite Hz; apply mod_wrap).
    assert (length (pi_data p) = 512%nat) as Hl by apply Hp; unfold PIPESIZE in *; f_equal.
    + apply map_zrange_ext; intros k Hk; apply aget_aset_ne; [lia|apply Z.mod_pos_bound; lia|].
      rewrite Hi; intros E; pose proof (Z.div_mod (pi_nread p + pipe_count p) 512 ltac:(lia)).
      pose proof (Z.div_mod (pi_nread p + k) 512 ltac:(lia)); lia.
    + rewrite Z2Nat.id, Z.add_0_l, <- Hi by lia; f_equal; apply aget_aset_eq; lia.
Qed.

Lemma pipe_take_spec p :
  pipe_ok p -> pipe_empty p = false ->
  let p' := set_nread (u32 (pi_nread p + 1)) p in
  pipe_ok p' /\ pipe_bytes p = pipe_head p :: pipe_bytes p' /\ byte_ok (pipe_head p).
Proof.
  intros Hp He p'; pose proof (count_range p) as Hcr.
  assert (0 < pipe_count p) as Hpos.
  { assert (pipe_count p <> 0); [|lia]; intros E; apply (pipe_empty_iff p Hp) in E; congruence. }
  destruct (u32_wrap (pi_nread p + 1)) as [y Hy].
  assert (pipe_count p' = pipe_count p - 1) as Hc.
  { destruct (nwrite_eq p Hp) as (z & Hz & _); unfold pipe_count at 1; cbn [p' set_nread pi_nwrite pi_nread].
    rewrite Hy, Hz; replace (_ - _ - _) with (pipe_count p - 1 + (y - z) * 2 ^ 32) by lia.
    unfold u32; rewrite Z_mod_plus_full; apply Z.mod_small; lia. }
  pose proof (pk_count p Hp); split_and!.
  - destruct Hp as [H1 H2 H3 H4 H5]; split; cbn [p' set_nread pi_data pi_nread pi_nwrite]; auto; [apply u32_range|].
    change (pipe_count p' <= PIPESIZE); lia.
  - unfold pipe_bytes; rewrite Hc; replace (Z.to_nat (pipe_count p)) with (S (Z.to_nat (pipe_count p - 1))) by lia.
    cbn [zrange map]; f_equal; [unfold pipe_head; by rewrite Z.add_0_r|].
    replace (zrange (0 + 1) (Z.to_nat (pipe_count p - 1))) with (map (Z.add 1) (zrange 0 (Z.to_nat (pipe_count p - 1)))).
    + rewrite map_map; apply map_ext; intros k; cbn [p' set_nread pi_data pi_nread]; f_equal; rewrite Hy.
      replace (pi_nread p + 1 - y * 2 ^ 32 + k) with (pi_nread p + (1 + k) - y * 2 ^ 32) by lia; symmetry; apply mod_wrap.
    + generalize (Z.to_nat (pipe_count p - 1)) as n, 0; induction n as [|n IH]; intros a; cbn; [done|].
      f_equal; [lia|]; rewrite IH; f_equal; lia.
  - pose proof (Z.mod_pos_bound (pi_nread p) PIPESIZE ltac:(done)); unfold pipe_head.
    pose proof (pk_len p Hp) as Hl; destruct (lookup_lt_is_Some_2 (pi_data p) (Z.to_nat (pi_nread p mod PIPESIZE))) as [b Hb].
    { rewrite Hl; unfold PIPESIZE in *; lia. }
    rewrite (aget_lookup 0 _ _ b) by (done || lia); exact (Forall_lookup_1 _ _ _ _ (pk_bytes p Hp) Hb).
Qed.

(** ** Operations *)

(** The bytes process [me] sees at [addr + i], [addr + i + 1], ... *)
Definition user_bytes (m : kmem) (A : gmap Z (ptree * umap)) (me addr i : Z) (n : nat) : list Z :=
  map (fun k => sees m A me (u64 (addr + k))) (zrange i n).

Lemma user_bytes_S m A me addr i n :
  user_bytes m A me addr i (S n) = sees m A me (u64 (addr + i)) :: user_bytes m A me addr (i + 1) n.
Proof. done. Qed.

Lemma user_bytes_ext m m' A A' me addr i n :
  (forall a, sees m' A' me a = sees m A me a) -> user_bytes m' A' me addr i n = user_bytes m A me addr i n.
Proof. intros H; unfold user_bytes; apply map_ext; auto. Qed.

(** Steps that change at most memory and pipe [pi]. *)
Definition only_pipe (pi : Z) (s s' : ksys) : Prop :=
  exists k P, s' = set_pipes P (set_kmem k s) /\ forall q, q <> pi -> P !! q = y_pipes s !! q.

Lemma only_pipe_refl pi s : only_pipe pi s s.
Proof. exists (kmem_of s), (y_pipes s); split; [by destruct s as [[]]|done]. Qed.
Lemma only_pipe_mem pi s k : only_pipe pi s (set_kmem k s).
Proof. exists k, (y_pipes s); done. Qed.
Lemma only_pipe_trans pi s1 s2 s3 : only_pipe pi s1 s2 -> only_pipe pi s2 s3 -> only_pipe pi s1 s3.
Proof.
  intros (k & P & -> & H) (k' & P' & -> & H'); exists k', P'; split; [done|].
  intros q Hq; rewrite H' by done; by apply H.
Qed.
Lemma only_pipe_set pi s p : only_pipe pi s (set_pipes (<[pi := p]> (y_pipes s)) s).
Proof. exists (kmem_of s), (<[pi := p]> (y_pipes s)); split; [by destruct s as [[]]|]; intros; by rewrite lookup_insert_ne. Qed.
Lemma only_pipe_proc pi s s' i : only_pipe pi s s' -> proc_at s' i = proc_at s i.
Proof. by intros (k & P & -> & _). Qed.
Lemma only_pipe_procs pi s s' : only_pipe pi s s' -> y_proc s' = y_proc s.
Proof. by intros (k & P & -> & _). Qed.

Lemma dom_some {B} (A A' : gmap Z B) i : dom A' = dom A -> is_Some (A !! i) -> is_Some (A' !! i).
Proof. intros E; rewrite <- !elem_of_dom; by rewrite E. Qed.

Section pipes.
Context {L : KernelLayout} (me pi : Z).

Lemma mem_inv_pipes s A R P : mem_inv s A R -> mem_inv (set_pipes P s) A R.
Proof. intros [H1 H2]; by split. Qed.
Lemma mem_inv_procs s A R ps :
  mem_inv s A R -> (forall i, 0 <= i < NPROC -> p_pagetable (aget proc0 ps i) = p_pagetable (proc_at s i) /\ p_sz (aget proc0 ps i) = p_sz (proc_at s i)) ->
  mem_inv (set_procs ps s) A R.
Proof.
  intros [H1 H2] Hp; split; [done|]; intros i t U Hi; destruct (H2 i t U Hi) as (? & ? & ?).
  destruct (Hp i ltac:(done)) as [E1 E2]; unfold proc_at; cbn [y_proc set_procs]; by rewrite E1, E2.
Qed.

(** A pipe of the kernel, and process [me] to work with it. *)
Record pipe_user (s : ksys) (A : gmap Z (ptree * umap)) (R : list Z) : Prop := {
  pu_mem : mem_inv s A R;
  pu_me : is_Some (A !! me);
  pu_procs : length (y_proc s) = Z.to_nat NPROC;
  pu_pipe : pipe_ok (pipe_at s pi)
}.

Lemma sees_byte s A R i a : mem_inv s A R -> byte_ok (sees (kmem_of s) A i a).
Proof.
  intros [[free Hs] _]; unfold sees; destruct (A !! i) as [[t U]|] eqn:E; [|unfold byte_ok; lia].
  unfold uview; destruct (U !! _) as [[pa pm]|]; [|unfold byte_ok; lia].
  apply (ki_mem _ _ (sp_kalloc _ _ _ _ Hs)).
Qed.

Definition locks_free (c : ctx) : Prop := (KMEM ∉ c_held c) /\ (forall i, PROCLOCK i ∉ c_held c).

(** What the loop of [pipewrite] has done when it stops. *)
Record wrote (s s' : ksys) (A A' : gmap Z (ptree * umap)) (R : list Z) (addr i : Z) (bs : list Z) : Prop := {
  wr_user : pipe_user s' A' R;
  wr_dom : dom A' = dom A;
  wr_only : only_pipe pi s s';
  wr_sees : forall j a, sees (kmem_of s') A' j a = sees (kmem_of s) A j a;
  wr_open : pi_readopen (pipe_at s' pi) = pi_readopen (pipe_at s pi) /\ pi_writeopen (pipe_at s' pi) = pi_writeopen (pipe_at s pi);
  wr_queue : pipe_bytes (pipe_at s' pi) = pipe_bytes (pipe_at s pi) ++ bs;
  wr_bytes : bs = user_bytes (kmem_of s) A me addr i (length bs)
}.

Lemma pipe_wrote_nil s A R addr i : pipe_user s A R -> wrote s s A A R addr i [].
Proof. intros H; split; auto; [apply only_pipe_refl|by rewrite app_nil_r]. Qed.

Lemma wrote_trans s1 s2 s3 A1 A2 A3 R addr i b bs :
  wrote s1 s2 A1 A2 R addr i [b] -> wrote s2 s3 A2 A3 R addr (i + 1) bs -> wrote s1 s3 A1 A3 R addr i (b :: bs).
Proof.
  intros [U1 D1 O1 S1 P1 Q1 B1] [U2 D2 O2 S2 P2 Q2 B2]; split; auto.
  - congruence.
  - by eapply only_pipe_trans.
  - intros j a; by rewrite S2.
  - destruct P1, P2; split; congruence.
  - by rewrite Q2, Q1, <- app_assoc.
  - cbn [length]; rewrite user_bytes_S; f_equal; [by injection B1|].
    rewrite B2 at 1; by apply user_bytes_ext.
Qed.

(** The turn of the loop that stores a byte. *)
Lemma wrote_put s A R addr i k' A' :
  pipe_user s A R -> pipe_full (pipe_at s pi) = false ->
  mem_inv (set_kmem k' s) A' R -> dom A' = dom A -> (forall j a, sees k' A' j a = sees (kmem_of s) A j a) ->
  let s1 := set_kmem k' s in
  let b := sees (kmem_of s) A me (u64 (addr + i)) in
  wrote s (set_pipes (<[pi := pipe_put b (pipe_at s1 pi)]> (y_pipes s1)) s1) A A' R addr i [b].
Proof.
  intros [H1 H2 H3 H4] Hf Hi Hme Hs s1 b; assert (byte_ok b) by by eapply sees_byte.
  change (pipe_at s1 pi) with (pipe_at s pi); destruct (pipe_put_spec _ b H4 Hf) as [Hok Hq]; [done|].
  set (s2 := set_pipes _ _); assert (pipe_at s2 pi = pipe_put b (pipe_at s pi)) as Hat.
  { unfold pipe_at, s2; cbn [y_pipes set_pipes]; by rewrite lookup_insert_eq. }
  split.
  - split; [by apply mem_inv_pipes|by apply (dom_some _ _ _ Hme)|done|by rewrite Hat].
  - done.
  - eapply only_pipe_trans; [apply (only_pipe_mem _ _ k')|apply only_pipe_set].
  - exact Hs.
  - by rewrite Hat.
  - by rewrite Hat, Hq.
  - done.
Qed.

Lemma pipewrite_loop_spec fuel s A R addr n i c h :
  pipe_user s A R -> locks_free c -> c_held c = PIPELOCK pi :: h -> PIPELOCK pi ∉ h -> 0 <= i -> n - i <= Z.of_nat fuel ->
  wp (pipewrite_loop me fuel pi addr n i) c s (fun st c' s' => exists s1 A' bs, wrote s s1 A A' R addr i bs /\
    match st with
    | WriteEnd i' => c' = c /\ s' = s1 /\ i' = i + Z.of_nat (length bs)
    | WriteFail => c' = Ctx (c_pid c) h /\ s' = s1 /\ bs = [] /\ i < n /\
        (pi_readopen (pipe_at s pi) = false \/ p_killed (proc_at s me) <> 0)
    | WriteWait i' => c' = c /\ s' = set_procs (wake_all me (ChPipeRead pi) (y_proc s1)) s1 /\
        i' = i + Z.of_nat (length bs) /\ i' < n /\ pipe_count (pipe_at s1 pi) = PIPESIZE /\
        pi_readopen (pipe_at s pi) = true /\ p_killed (proc_at s me) = 0
    end).
Proof.
  revert s A i; induction fuel as [|fuel IH]; intros s A i Hu [Hk Hpl] Hh Hn Hi Hf; cbn [pipewrite_loop];
    (destruct (Z.ltb_spec i n) as [Hin|Hin]; cbn [negb];
      [|wp_steps; exists s, A, []; split; [by apply pipe_wrote_nil|split_and!; cbn; auto; lia]]).
  { lia. }
  unfold getpi; wp_step; wp_step.
  assert (wp (if negb (pi_readopen (pipe_at s pi)) then ret true else killed me) c s (fun b c' s' =>
            c' = c /\ s' = s /\ b = negb (pi_readopen (pipe_at s pi)) || negb (p_killed (proc_at s me) =? 0))) as Hdead.
  { destruct (pi_readopen (pipe_at s pi)); cbn [negb orb]; [|by wp_steps]; by apply killed_spec. }
  wp_step; eapply wp_mono; [exact Hdead|]; intros dead c' s' (-> & -> & ->).
  destruct (negb (pi_readopen (pipe_at s pi)) || negb (p_killed (proc_at s me) =? 0)) eqn:Ed.
  { wp_step; eapply wp_release; [exact Hh|done|]; wp_steps; exists s, A, []; split; [by apply pipe_wrote_nil|].
    split_and!; auto; apply orb_true_iff in Ed as [E|E]; [left; by apply negb_true_iff|right].
    by apply negb_true_iff, Z.eqb_neq in E. }
  apply orb_false_iff in Ed as [Ero%negb_false_iff Ek%negb_false_iff%Z.eqb_eq].
  destruct (pipe_full (pipe_at s pi)) eqn:Ef.
  { wp_step; eapply wp_mono; [apply kwakeup_spec; [done|apply Hu]|]; intros _ c' s' (-> & ->); wp_steps.
    exists s, A, []; split; [by apply pipe_wrote_nil|]; split_and!; auto; [cbn; lia|]; by apply pipe_full_iff; [apply Hu|]. }
  unfold getp, modpi; do 2 wp_step; wp_step.
  eapply wp_mono; [apply (kcopyin_spec me s A R); auto; [apply Hu|apply Hu|apply u64_range|lia]|].
  intros r c' s' (-> & k' & A' & -> & Hi' & Hme' & Hs & Hr).
  destruct Hr as [->|Hr]; [|rewrite Hr; cbn; wp_steps].
  - cbn [fst snd Z.eqb map zrange hd]; wp_step; wp_step.
    pose proof (wrote_put s A R addr i k' A' Hu Ef Hi' Hme' Hs) as Hw; cbv zeta in Hw.
    eapply wp_mono; [apply IH; [apply Hw|done|exact Hh|done|lia|lia]|].
    intros st c' s' (s1 & A1 & bs & Hw1 & Hst); exists s1, A1, (sees (kmem_of s) A me (u64 (addr + i)) :: bs).
    pose proof (wr_open _ _ _ _ _ _ _ _ Hw) as [Ho _]; pose proof (only_pipe_proc _ _ _ me (wr_only _ _ _ _ _ _ _ _ Hw)) as Hpe.
    split; [by eapply wrote_trans|]; cbn [length]; destruct st; cbn iota in Hst.
    + destruct Hst as (-> & -> & ->); split_and!; auto; lia.
    + destruct Hst as (_ & _ & _ & _ & [E|E]); exfalso;
        [assert (true = false) by (rewrite <- Ero, <- Ho; exact E); done|apply E; rewrite <- Ek, <- Hpe; done].
    + destruct Hst as (-> & -> & -> & ? & ? & _ & _); split_and!; auto; lia.
  - exists (set_kmem k' s), A', []; split; [|split_and!; cbn; auto; lia].
    destruct Hu as [U1 U2 U3 U4]; split; auto; [split; auto; by apply (dom_some _ _ _ Hme')|apply only_pipe_mem|by rewrite app_nil_r].
Qed.
(** What the loop of [piperead] has done: bytes [ds] left the queue and are in the
    reader's memory at [addr + i], ...; [lost] left the queue and are nowhere. *)
Record took (s s' : ksys) (A A' : gmap Z (ptree * umap)) (R : list Z) (addr i n : Z) (ds lost : list Z) : Prop := {
  tk_user : pipe_user s' A' R;
  tk_dom : dom A' = dom A;
  tk_only : only_pipe pi s s';
  tk_open : pi_readopen (pipe_at s' pi) = pi_readopen (pipe_at s pi) /\ pi_writeopen (pipe_at s' pi) = pi_writeopen (pipe_at s pi);
  tk_queue : pipe_bytes (pipe_at s pi) = ds ++ lost ++ pipe_bytes (pipe_at s' pi);
  tk_mine k b : ds !! k = Some b -> sees (kmem_of s') A' me (u64 (addr + i + Z.of_nat k)) = b;
  tk_rest a : (forall k, i <= k < n -> a <> u64 (addr + k)) -> sees (kmem_of s') A' me a = sees (kmem_of s) A me a;
  tk_others j a : j <> me -> sees (kmem_of s') A' j a = sees (kmem_of s) A j a
}.

Lemma took_nil s A R addr i n : pipe_user s A R -> took s s A A R addr i n [] [].
Proof. intros H; split; auto; [apply only_pipe_refl|done]. Qed.

Lemma u64_distinct a j k : 0 <= j - k < 2 ^ 64 -> u64 (a + j) = u64 (a + k) -> j = k.
Proof.
  unfold u64; intros Hd E; pose proof (Z.div_mod (a + j) (2 ^ 64) ltac:(lia)); pose proof (Z.div_mod (a + k) (2 ^ 64) ltac:(lia)).
  assert ((a + j) / 2 ^ 64 = (a + k) / 2 ^ 64 \/ (a + j) / 2 ^ 64 > (a + k) / 2 ^ 64 \/ (a + j) / 2 ^ 64 < (a + k) / 2 ^ 64) by lia; nia.
Qed.

Lemma took_cons s1 s2 s3 A1 A2 A3 R addr i n b ds lost :
  took s1 s2 A1 A2 R addr i (i + 1) [b] [] -> took s2 s3 A2 A3 R addr (i + 1) n ds lost -> i < n -> n - i < 2 ^ 64 ->
  took s1 s3 A1 A3 R addr i n (b :: ds) lost.
Proof.
  intros [U1 D1 O1 P1 Q1 M1 R1 H1] [U2 D2 O2 P2 Q2 M2 R2 H2] Hin Hlt; split; auto.
  - congruence.
  - by eapply only_pipe_trans.
  - destruct P1, P2; split; congruence.
  - by rewrite Q1, Q2.
  - intros [|k] x Hk; cbn in Hk.
    + injection Hk as <-; rewrite R2; [by apply M1|].
      intros k Hk E; symmetry in E; rewrite <- Z.add_assoc in E; apply u64_distinct in E; cbn in *; lia.
    + rewrite <- (M2 _ _ Hk); do 2 f_equal; lia.
  - intros a Ha; rewrite R2 by (intros; apply Ha; lia); apply R1; intros; apply Ha; lia.
  - intros j a Hj; by rewrite H2, H1.
Qed.

(** The turn that takes a byte and delivers it, or loses it when the destination
    is not writable. *)
Lemma took_one s A R addr i c :
  pipe_user s A R -> KMEM ∉ c_held c -> pipe_empty (pipe_at s pi) = false ->
  let p := pipe_at s pi in
  let s1 := set_pipes (<[pi := set_nread (u32 (pi_nread p + 1)) p]> (y_pipes s)) s in
  wp (liftm (copyout (uproc_of (proc_at s1 me)) (p_pagetable (proc_at s1 me)) (u64 (addr + i)) [pipe_head p])) c s1
    (fun r c' s' => c' = c /\ exists A',
       (r = 0 /\ took s s' A A' R addr i (i + 1) [pipe_head p] []) \/
       (r = -1 /\ took s s' A A' R addr i (i + 1) [] [pipe_head p])).
Proof.
  intros [H1 H2 H3 H4] Hk He p s1; destruct (pipe_take_spec p H4 He) as (Hok & Hq & Hb).
  assert (mem_inv s1 A R) as Hi1 by by apply mem_inv_pipes.
  eapply wp_mono; [apply (kcopyout_spec me s1 A R); auto; apply u64_range|].
  intros r c' s' (-> & k' & A' & sent & -> & Hi' & Hme' & Ho & Hm & Hr); split; [done|]; exists A'.
  assert (pipe_at (set_kmem k' s1) pi = set_nread (u32 (pi_nread p + 1)) p) as Hat.
  { unfold pipe_at, s1; cbn [y_pipes set_pipes set_kmem]; cbn; by rewrite lookup_insert_eq. }
  assert (pipe_user (set_kmem k' s1) A' R) as Hu' by (split; auto; [by apply (dom_some _ _ _ Hme')|by rewrite Hat]).
  assert (only_pipe pi s (set_kmem k' s1)) as Hon by (eapply only_pipe_trans; [apply only_pipe_set|apply only_pipe_mem]).
  assert (Z.of_nat (length sent) <= 1) as Hs1.
  { destruct Hr as [[_ ->]|[_ E]]; [done|]; rewrite E, length_take; cbn; lia. }
  assert (forall a, (forall k, i <= k < i + 1 -> a <> u64 (addr + k)) -> sees k' A' me a = sees (kmem_of s) A me a) as Hrest.
  { intros a Ha; rewrite Hm, decide_False; [done|]; specialize (Ha i ltac:(lia)); lia. }
  destruct Hr as [[-> ->]|[-> _]]; [left|right]; split; auto; split; rewrite ?Hat; auto.
  - intros [|k] b Hkb; cbn in Hkb; [|done]; injection Hkb as <-; change (kmem_of (set_kmem k' s1)) with k'.
    rewrite Z.add_0_r, Hm, decide_True by (cbn; lia); by rewrite Z.sub_diag.
  - done.
Qed.

Lemma piperead_loop_spec fuel s A R addr n i c :
  pipe_user s A R -> KMEM ∉ c_held c -> 0 <= i -> n < 2 ^ 64 -> n - i <= Z.of_nat fuel ->
  wp (piperead_loop me fuel pi addr n i) c s (fun r c' s' => c' = c /\ exists A' ds lost, took s s' A A' R addr i n ds lost /\
    r = i + Z.of_nat (length ds) /\
    ((lost = [] /\ (n <= r \/ pipe_bytes (pipe_at s' pi) = [])) \/ (r < n /\ exists b, lost = [b]))).
Proof.
  revert s A i; induction fuel as [|fuel IH]; intros s A i Hu Hk Hi Hn Hf; cbn [piperead_loop];
    (destruct (Z.ltb_spec i n) as [Hin|Hin]; cbn [negb];
      [|wp_steps; split; [done|]; exists A, [], []; split; [by apply took_nil|split; cbn; [lia|left; auto with lia]]]).
  { lia. }
  unfold getpi, modpi, getp; wp_step; wp_step; pose proof (pu_pipe _ _ _ Hu) as Hp.
  destruct (pipe_empty (pipe_at s pi)) eqn:Ee.
  { wp_steps; split; [done|]; exists A, [], []; split; [by apply took_nil|split; cbn; [lia|left; split; [done|right]]].
    by apply pipe_empty_bytes. }
  do 4 wp_step; wp_step; eapply wp_mono; [apply (took_one s A R addr i c Hu Hk Ee)|].
  intros r c' s' (-> & A' & [(-> & Ht)|(-> & Ht)]); cbn [Z.eqb].
  - eapply wp_mono; [apply IH; [apply Ht|done|lia|lia|lia]|].
    intros r c' s2 (-> & A2 & ds & lost & Ht2 & -> & Hr); split; [done|].
    exists A2, (pipe_head (pipe_at s pi) :: ds), lost; split; [by eapply took_cons; [exact Ht|exact Ht2|lia|lia]|].
    split; cbn [length]; [lia|]; destruct Hr as [[? [?|?]]|[? ?]]; [left; auto with lia|left; auto|right; auto with lia].
  - wp_steps; split; [done|]; exists A', [], [pipe_head (pipe_at s pi)]; split; [|split; cbn; [lia|right; eauto with lia]].
    destruct Ht as [T1 T1' T2 T3 T4 T5 T6 T7]; split; auto; intros a Ha; apply T6; intros; apply Ha; lia.
Qed.
End pipes.

(** ** Sleepers

    A writer sleeps only on a full pipe with a reader, a reader only on an empty
    pipe with a writer: no wakeup is lost. *)

Definition sleeping_on (s : ksys) (i : Z) (ch : wchan) : Prop :=
  0 <= i < NPROC /\ p_state (proc_at s i) = SLEEPING /\ p_chan (proc_at s i) = Some ch.

Definition sleepers_ok (pi : Z) (s : ksys) : Prop :=
  forall i,
    (sleeping_on s i (ChPipeWrite pi) -> pipe_count (pipe_at s pi) = PIPESIZE /\ pi_readopen (pipe_at s pi) = true) /\
    (sleeping_on s i (ChPipeRead pi) -> pipe_count (pipe_at s pi) = 0 /\ pi_writeopen (pipe_at s pi) = true).

Definition awake (s : ksys) (me : Z) : Prop := 0 <= me < NPROC /\ p_state (proc_at s me) <> SLEEPING.

(** Waking the sleepers of [ch] leaves those of the other channels. *)
Lemma sleeping_wake s me ch i ch' :
  length (y_proc s) = Z.to_nat NPROC ->
  sleeping_on (set_procs (wake_all me ch (y_proc s)) s) i ch' -> sleeping_on s i ch' /\ (ch' = ch -> i = me).
Proof.
  intros Hl (Hi & Hst & Hch); unfold sleeping_on, proc_at in *; cbn [y_proc set_procs] in *.
  change (NPROC) with 64 in *; rewrite aget_wake_all in * by lia; unfold wake in *.
  destruct (Z.eqb_spec i me) as [->|Hne]; cbn [negb andb] in *; [auto|].
  destruct (bool_decide_reflect (p_state (aget proc0 (y_proc s) i) = SLEEPING)); cbn [andb] in *; [|done].
  destruct (bool_decide_reflect (p_chan (aget proc0 (y_proc s) i) = Some ch)); cbn in *; [done|].
  split; [auto|]; intros ->; done.
Qed.

Lemma sleeping_only_pipe pi s s' i ch : only_pipe pi s s' -> sleeping_on s' i ch <-> sleeping_on s i ch.
Proof. intros H; unfold sleeping_on; by rewrite (only_pipe_proc _ _ _ i H). Qed.

Lemma sleeping_upd s me ch i ch' :
  length (y_proc s) = Z.to_nat NPROC -> 0 <= me < NPROC ->
  sleeping_on (upd_proc me (fun p => set_state SLEEPING (set_chan (Some ch) p)) s) i ch' ->
  (i = me /\ ch' = ch) \/ sleeping_on s i ch'.
Proof.
  intros Hl Hme (Hi & Hst & Hch); unfold sleeping_on, upd_proc, proc_at in *; cbn [y_proc set_procs] in *.
  change NPROC with 64 in *; destruct (decide (i = me)) as [->|Hne].
  - rewrite aget_aset_eq in Hch by lia; cbn in Hch; left; by simplify_eq.
  - rewrite aget_aset_ne in * by lia; auto.
Qed.

Section protocol.
Context {L : KernelLayout} (pi : Z).

(** The state of the kernel as pipe [pi] sees it. *)
Record pipe_state (s : ksys) (A : gmap Z (ptree * umap)) (R : list Z) : Prop := {
  ps_mem : mem_inv s A R;
  ps_procs : length (y_proc s) = Z.to_nat NPROC;
  ps_pipe : pipe_ok (pipe_at s pi);
  ps_sleep : sleepers_ok pi s
}.

Lemma pipe_user_of me s A R : pipe_state s A R -> is_Some (A !! me) -> pipe_user me pi s A R.
Proof. intros [H1 H2 H3 H4] Hme; by split. Qed.

Lemma wake_field {B} (f : proc -> B) me ch ps i :
  (forall p, f (set_state RUNNABLE p) = f p) -> f (aget proc0 (wake_all me ch ps) i) = f (aget proc0 ps i).
Proof.
  intros Hf; unfold aget, wake_all; rewrite !nth_lookup, list_lookup_imap.
  destruct (ps !! Z.to_nat i); [|done]; simpl; unfold wake; by destruct (_ && _ && _).
Qed.

Lemma mem_inv_wake s A R me ch : mem_inv s A R -> mem_inv (set_procs (wake_all me ch (y_proc s)) s) A R.
Proof. intros H; apply mem_inv_procs; [done|]; intros i _; unfold proc_at; by rewrite !wake_field. Qed.

Lemma length_wake_all me ch ps : length (wake_all me ch ps) = length ps.
Proof. apply length_imap. Qed.

Lemma mem_inv_sleep s A R me ch :
  mem_inv s A R -> length (y_proc s) = Z.to_nat NPROC -> 0 <= me < NPROC ->
  mem_inv (upd_proc me (fun p => set_state SLEEPING (set_chan (Some ch) p)) s) A R.
Proof.
  intros H Hl Hme; apply mem_inv_procs; [done|]; intros i Hi; change NPROC with 64 in *.
  destruct (decide (i = me)) as [->|]; [rewrite aget_aset_eq by lia|rewrite aget_aset_ne by lia]; done.
Qed.

(** A writer stopped after [bs]: when it wakes the readers nobody is left asleep
    without reason. *)
Lemma wrote_state me s s1 A A' R addr i bs :
  pipe_state s A R -> awake s me -> wrote me pi s s1 A A' R addr i bs ->
  pipe_state (set_procs (wake_all me (ChPipeRead pi) (y_proc s1)) s1) A' R /\
  (bs = [] -> pipe_state s1 A' R).
Proof.
  intros [H1 H2 H3 H4] [_ Haw] [[U1 U2 U3 U4] W1 W2 W3 [W4 W4'] W5 W6].
  assert (bs = [] -> pipe_bytes (pipe_at s1 pi) = pipe_bytes (pipe_at s pi)) as Hb by (intros ->; by rewrite W5, app_nil_r).
  assert (Z.of_nat (length (pipe_bytes (pipe_at s1 pi))) = pipe_count (pipe_at s pi) + Z.of_nat (length bs)) as Hc.
  { rewrite W5, length_app, Nat2Z.inj_add, length_pipe_bytes; done. }
  rewrite length_pipe_bytes in Hc; pose proof (pk_count _ U4).
  split; [split; auto|intros ->; split; auto].
  - by apply mem_inv_wake.
  - cbn; by rewrite length_wake_all.
  - intros j; split; intros Hs; apply sleeping_wake in Hs as [Hs Hme]; auto; rewrite (sleeping_only_pipe pi s) in Hs by done;
      change (pipe_at (set_procs _ s1) pi) with (pipe_at s1 pi).
    + destruct (proj1 (H4 j) Hs) as [E1 E2]; split; [lia|congruence].
    + exfalso; apply Haw; rewrite <- (Hme eq_refl); apply Hs.
  - intros j; split; intros Hs; rewrite (sleeping_only_pipe pi s) in Hs by done; cbn [length] in Hc.
    + destruct (proj1 (H4 j) Hs) as [E1 E2]; split; [lia|congruence].
    + destruct (proj2 (H4 j) Hs) as [E1 E2]; split; [lia|congruence].
Qed.

Lemma took_state me s s1 A A' R addr i n ds lost :
  pipe_state s A R -> awake s me -> took me pi s s1 A A' R addr i n ds lost ->
  pipe_state (set_procs (wake_all me (ChPipeWrite pi) (y_proc s1)) s1) A' R.
Proof.
  intros [H1 H2 H3 H4] [_ Haw] [[U1 U2 U3 U4] T1 T2 [T3 T3'] T4 T5 T6 T7].
  assert (pipe_count (pipe_at s pi) = Z.of_nat (length ds + length lost) + pipe_count (pipe_at s1 pi)) as Hc.
  { rewrite <- !length_pipe_bytes, T4, !length_app; lia. }
  pose proof (count_range (pipe_at s1 pi)); split; auto.
  - by apply mem_inv_wake.
  - cbn; by rewrite length_wake_all.
  - intros j; split; intros Hs; apply sleeping_wake in Hs as [Hs Hme]; auto; rewrite (sleeping_only_pipe pi s) in Hs by done;
      change (pipe_at (set_procs _ s1) pi) with (pipe_at s1 pi).
    + exfalso; apply Haw; rewrite <- (Hme eq_refl); apply Hs.
    + destruct (proj2 (H4 j) Hs) as [E1 E2]; split; [lia|congruence].
Qed.

(** A process that goes to sleep for a reason. *)
Lemma slept_state me s A R ch :
  pipe_state s A R -> 0 <= me < NPROC ->
  (ch = ChPipeWrite pi /\ pipe_count (pipe_at s pi) = PIPESIZE /\ pi_readopen (pipe_at s pi) = true \/
   ch = ChPipeRead pi /\ pipe_count (pipe_at s pi) = 0 /\ pi_writeopen (pipe_at s pi) = true) ->
  pipe_state (upd_proc me (fun p => set_state SLEEPING (set_chan (Some ch) p)) s) A R.
Proof.
  intros [H1 H2 H3 H4] Hme Hch; split; auto.
  - by apply mem_inv_sleep.
  - cbn; by rewrite length_aset.
  - intros j; change (pipe_at (upd_proc me _ s) pi) with (pipe_at s pi);
      split; intros Hs; apply sleeping_upd in Hs as [[-> E]|Hs]; auto; try (by apply (H4 j));
      destruct Hch as [(-> & ? & ?)|(-> & ? & ?)]; auto; congruence.
Qed.
End protocol.
