(* ===== verification/PipeSystem.v ===== *)
(** * A pipe shared by any processes

    Any number of processes write to, read from and close the ends of one pipe,
    in any order; a process that goes to sleep continues its call when it is
    woken.  Every call returns or sleeps, the bytes come out in the order they
    went in, and nobody sleeps without a reason. *)

From S2P Require Import Prelude KMonad Memory Riscv Kalloc Vm VmProofs UserVm UserMem UserLife Fs Kernel Spaces Pipe PipeProofs.

(** A call, or for [OpWrite] the rest of one that has [i] bytes done. *)
Inductive pipe_op :=
| OpWrite (me addr n i : Z)
| OpRead (me addr n : Z)
| OpClose (me : Z) (writable : bool).

Definition op_proc (o : pipe_op) : Z := match o with OpWrite me _ _ _ | OpRead me _ _ | OpClose me _ => me end.

Section system.
Context {L : KernelLayout} (pi : Z).

(** The call, from a process that holds no locks. *)
Definition op_code (o : pipe_op) : M ksys Z :=
  match o with
  | OpWrite me addr n i => do! acquire (PIPELOCK pi); pipewrite_from me pi addr n i
  | OpRead me addr n => piperead me pi addr n
  | OpClose me w => do! pipeclose me pi w; ret 0
  end.

(** The state when the call has returned or gone to sleep. *)
Definition run_op (o : pipe_op) (s : ksys) : option ksys :=
  match op_code o (Ctx (p_pid (proc_at s (op_proc o))) []) s with
  | Ret _ _ s' _ | Block _ _ s' => Some s'
  | _ => None
  end.

(** A call can be made by a user process that is awake.  The last close, which
    frees the pipe, ends the pipe's life. *)
Definition enabled (users : gset Z) (s : ksys) (o : pipe_op) : Prop :=
  awake s (op_proc o) /\ op_proc o ∈ users /\
  match o with
  | OpWrite _ _ n i => 0 <= i
  | OpRead _ _ n => n < 2 ^ 31
  | OpClose _ w => pi_readopen (pipe_at s pi) = true /\ pi_writeopen (pipe_at s pi) = true
  end.

#[local] Instance enabled_dec users s o : Decision (enabled users s o).
Proof. unfold enabled, awake; destruct o; apply _. Defined.

(** [W] are the bytes of the writer's memory the call took, [D] the bytes it
    removed: those delivered to the reader's memory and, when a destination was
    not writable, one that is lost. *)
Definition op_io (o : pipe_op) (s : ksys) (A : gmap Z (ptree * umap)) (s' : ksys) (A' : gmap Z (ptree * umap)) (W D : list Z) : Prop :=
  match o with
  | OpWrite me addr n i => W = user_bytes (kmem_of s) A me addr i (length W) /\ D = []
  | OpRead me addr n => W = [] /\ exists ds lost, D = ds ++ lost /\ (length lost <= 1)%nat /\
      forall k b, ds !! k = Some b -> sees (kmem_of s') A' me (u64 (addr + Z.of_nat k)) = b
  | OpClose _ _ => W = [] /\ D = []
  end.

Definition step_ok (o : pipe_op) (s : ksys) (A : gmap Z (ptree * umap)) (R : list Z) (s' : ksys) : Prop :=
  exists A' W D, pipe_state pi s' A' R /\ op_io o s A s' A' W D /\ dom A' = dom A /\
    pipe_bytes (pipe_at s pi) ++ W = D ++ pipe_bytes (pipe_at s' pi).

Lemma run_op_wpb o s (P : ksys -> Prop) :
  wpb (op_code o) (Ctx (p_pid (proc_at s (op_proc o))) []) s (fun _ _ s' => P s') (fun _ _ s' => P s') ->
  exists s', run_op o s = Some s' /\ P s'.
Proof. unfold wpb, run_op; destruct (op_code o _ s); try done; eauto. Qed.

Lemma free_locks pid : locks_free (Ctx pid [PIPELOCK pi]).
Proof. split; [|intros i]; intros ?%list_elem_of_singleton; done. Qed.

Lemma write_step me addr n i s A R :
  pipe_state pi s A R -> enabled (dom A) s (OpWrite me addr n i) ->
  exists s', run_op (OpWrite me addr n i) s = Some s' /\ step_ok (OpWrite me addr n i) s A R s'.
Proof.
  intros Hs (Haw & Hme%elem_of_dom & Hi); cbn [op_proc] in *; apply run_op_wpb; cbn [op_code op_proc].
  apply wpb_bind, wp_acquire; [apply not_elem_of_nil|]; cbn [c_pid c_held].
  unfold pipewrite_from; apply wpb_bind; eapply wp_mono.
  { eapply pipewrite_loop_spec; [by apply pipe_user_of|apply free_locks|reflexivity|apply not_elem_of_nil|done|lia]. }
  intros st c' s' (s1 & A' & bs & Hw & Hst); destruct (wrote_state pi me s s1 A A' R addr i bs Hs Haw Hw) as [Hs1 Hnil].
  assert (forall s2 R', pipe_at s2 pi = pipe_at s1 pi -> pipe_state pi s2 A' R' -> step_ok (OpWrite me addr n i) s A R' s2) as Hok.
  { intros s2 R' E Hs2; exists A', bs, []; destruct Hw as [W1 W2 W3 W4 W5 W6 W7]; split_and!; auto.
    - by split.
    - by rewrite E, W6. }
  destruct st as [i'| |i']; cbn in Hst.
  - destruct Hst as (-> & -> & ->); apply wpb_bind; eapply wp_mono; [apply kwakeup_spec; [apply free_locks|apply Hw]|].
    intros _ c' s' (-> & ->); apply wpb_wp; wp_step; eapply wp_release; [reflexivity|apply not_elem_of_nil|].
    wp_steps; by apply Hok.
  - destruct Hst as (-> & -> & -> & _); apply wpb_wp; wp_steps; apply Hok; auto.
  - destruct Hst as (-> & -> & -> & Hlt & Hfull & Hro & _); pose proof (ps_procs _ _ _ _ Hs1) as Hl; destruct Haw as [Hr _].
    apply ksleep_spec; [done|done|rewrite Hl; change NPROC with 64 in *; lia|].
    apply Hok; [done|]; apply slept_state; auto; left; split_and!; auto.
    by rewrite <- Hro, <- (proj1 (wr_open _ _ _ _ _ _ _ _ _ _ Hw)).
Qed.

Lemma read_step me addr n s A R :
  pipe_state pi s A R -> enabled (dom A) s (OpRead me addr n) ->
  exists s', run_op (OpRead me addr n) s = Some s' /\ step_ok (OpRead me addr n) s A R s'.
Proof.
  intros Hs (Haw & Hme%elem_of_dom & Hi); cbn [op_proc] in *; apply run_op_wpb; cbn [op_code op_proc]; unfold piperead, getpi.
  assert (forall s2, pipe_at s2 pi = pipe_at s pi -> pipe_state pi s2 A R -> step_ok (OpRead me addr n) s A R s2) as Hidle.
  { intros s2 E Hs2; exists A, [], []; split_and!; auto; [|by rewrite E, app_nil_r].
    split; [done|]; exists [], []; split_and!; [done|cbn; lia|done]. }
  apply wpb_bind, wp_acquire; [apply not_elem_of_nil|]; cbn [c_pid c_held].
  apply wpb_bind; wp_step; destruct (pipe_empty (pipe_at s pi) && pi_writeopen (pipe_at s pi)) eqn:Ee.
  - apply andb_true_iff in Ee as [Ee Ew]; apply wpb_bind; eapply wp_mono; [apply killed_spec, free_locks|].
    intros k c' s' (-> & -> & ->); destruct (negb _).
    + apply wpb_wp; wp_step; eapply wp_release; [reflexivity|apply not_elem_of_nil|]; wp_steps; by apply Hidle.
    + pose proof (ps_procs _ _ _ _ Hs) as Hl; destruct Haw as [Hr _].
      apply ksleep_spec; [done|done|rewrite Hl; change NPROC with 64 in *; lia|].
      apply Hidle; [done|]; apply slept_state; auto; right; split_and!; auto.
      by apply pipe_empty_iff; [apply Hs|].
  - apply wpb_bind; eapply wp_mono.
    { apply (piperead_loop_spec me pi (Z.to_nat n) s A R addr n 0); [by apply pipe_user_of|apply free_locks|lia|lia|lia]. }
    intros r c' s1 (-> & A' & ds & lost & Ht & -> & Hr); apply wpb_bind; eapply wp_mono;
      [apply kwakeup_spec; [apply free_locks|apply Ht]|].
    intros _ c' s' (-> & ->); apply wpb_wp; wp_step; eapply wp_release; [reflexivity|apply not_elem_of_nil|]; wp_steps.
    pose proof (took_state pi me s s1 A A' R addr 0 n ds lost Hs Haw Ht) as Hs1.
    exists A', [], (ds ++ lost); destruct Ht as [T1 T1' T2 T3 T4 T5 T6 T7]; split_and!; auto.
    + split; [done|]; exists ds, lost; split_and!; [done| |].
      * destruct Hr as [[-> _]|[_ [b ->]]]; cbn; lia.
      * intros k b Hk; specialize (T5 k b Hk); by rewrite Z.add_0_r in T5.
    + by rewrite app_nil_r, T4, app_assoc.
Qed.

Lemma close_step me w s A R :
  pipe_state pi s A R -> enabled (dom A) s (OpClose me w) ->
  exists s', run_op (OpClose me w) s = Some s' /\ step_ok (OpClose me w) s A R s'.
Proof.
  intros Hs (Haw & Hme & Hro & Hwo); cbn [op_proc] in *; apply run_op_wpb, wpb_wp; cbn [op_code op_proc].
  unfold pipeclose, modpi, getpi; wp_step; wp_step; wp_step.
  set (ch := if w then ChPipeRead pi else ChPipeWrite pi).
  set (p1 := if w then set_writeopen false (pipe_at s pi) else set_readopen false (pipe_at s pi)).
  set (s1 := set_pipes (<[pi := p1]> (y_pipes s)) s).
  assert (pipe_at s1 pi = p1) as Hat by (unfold pipe_at, s1; cbn; by rewrite lookup_insert_eq).
  wp_step; eapply (wp_mono _ _ _ (fun _ c' s' => c' = Ctx (p_pid (proc_at s me)) [PIPELOCK pi] /\
    s' = set_procs (wake_all me ch (y_proc s1)) s1)).
  { destruct w; wp_step; wp_step; apply kwakeup_spec; try apply free_locks; apply Hs. }
  intros _ c' s' (-> & ->); do 2 wp_step; change (pipe_at (set_procs _ s1) pi) with (pipe_at s1 pi); rewrite Hat.
  replace (negb (pi_readopen p1) && negb (pi_writeopen p1)) with false
    by (unfold p1; destruct w; cbn; by rewrite ?Hro, ?Hwo, ?andb_false_r).
  eapply wp_release; [reflexivity|apply not_elem_of_nil|]; wp_steps.
  destruct Hs as [H1 H2 H3 H4], Haw as [Hr Haw]; exists A, [], []; split_and!; auto.
  - split; [by apply mem_inv_wake, mem_inv_pipes|cbn [y_proc set_procs]; by rewrite length_wake_all| |].
    + change (pipe_at (set_procs _ s1) pi) with (pipe_at s1 pi); rewrite Hat; unfold p1; destruct H3, w; by split.
    + intros j; change (pipe_at (set_procs _ s1) pi) with (pipe_at s1 pi); rewrite Hat.
      split; intros Hj; apply sleeping_wake in Hj as [Hj Hch]; auto; change (sleeping_on s1 j) with (sleeping_on s j) in Hj.
      * destruct (proj1 (H4 j) Hj) as [E1 E2]; unfold p1, ch in *; destruct w; [by rewrite <- E1|].
        exfalso; apply Haw; rewrite <- (Hch eq_refl); apply Hj.
      * destruct (proj2 (H4 j) Hj) as [E1 E2]; unfold p1, ch in *; destruct w; [|by rewrite <- E1].
        exfalso; apply Haw; rewrite <- (Hch eq_refl); apply Hj.
  - done.
  - rewrite app_nil_r; change (pipe_at (set_procs _ s1) pi) with (pipe_at s1 pi); rewrite Hat; unfold p1; by destruct w.
Qed.

Lemma op_step o s A R :
  pipe_state pi s A R -> enabled (dom A) s o -> exists s', run_op o s = Some s' /\ step_ok o s A R s'.
Proof. destruct o; [apply write_step|apply read_step|apply close_step]. Qed.

(** A sequence of calls; those of processes that are asleep do not happen. *)
Fixpoint run_ops (users : gset Z) (os : list pipe_op) (s : ksys) : option ksys :=
  match os with
  | [] => Some s
  | o :: os =>
      if decide (enabled users s o) then
        match run_op o s with Some s' => run_ops users os s' | None => None end
      else run_ops users os s
  end.

(** The bytes the calls of a run took and removed. *)
Inductive run_io (users : gset Z) : list pipe_op -> ksys -> gmap Z (ptree * umap) -> list Z -> list Z -> ksys -> Prop :=
| io_nil s A : run_io users [] s A [] [] s
| io_skip o os s A W D s' : ~ enabled users s o -> run_io users os s A W D s' -> run_io users (o :: os) s A W D s'
| io_step o os s A s1 A1 W1 D1 W D s' :
    enabled users s o -> run_op o s = Some s1 -> op_io o s A s1 A1 W1 D1 -> run_io users os s1 A1 W D s' ->
    run_io users (o :: os) s A (W1 ++ W) (D1 ++ D) s'.

Lemma run_ops_spec os s A R :
  pipe_state pi s A R ->
  exists s' A' W D, run_ops (dom A) os s = Some s' /\ run_io (dom A) os s A W D s' /\ pipe_state pi s' A' R /\
    pipe_bytes (pipe_at s pi) ++ W = D ++ pipe_bytes (pipe_at s' pi).
Proof.
  revert s A; induction os as [|o os IH]; intros s A Hs; cbn [run_ops].
  - exists s, A, [], []; split_and!; auto; [constructor|by rewrite app_nil_r].
  - destruct (decide (enabled (dom A) s o)) as [He|He].
    + destruct (op_step o s A R Hs He) as (s1 & Hr & A1 & W1 & D1 & Hs1 & Hio & Hd & Hq); rewrite Hr.
      destruct (IH s1 A1 Hs1) as (s' & A' & W & D & Hrun & Hios & Hs' & Hq'); rewrite Hd in *.
      exists s', A', (W1 ++ W), (D1 ++ D); split_and!; [done|by eapply io_step|done|].
      by rewrite app_assoc, Hq, <- !app_assoc, Hq'.
    + destruct (IH s A Hs) as (s' & A' & W & D & Hrun & Hios & Hs' & Hq).
      exists s', A', W, D; split_and!; auto; by apply io_skip.
Qed.

(** C25. A pipe is a first-in first-out queue of at most [PIPESIZE] bytes.  Any
    processes may call [pipewrite], [piperead] and [pipeclose] on it in any order,
    and continue calls that slept: no call panics or runs forever, and the bytes
    taken from the writers' memory are, in order, the bytes removed by readers
    followed by the bytes still in the pipe.  The removed bytes are in the
    readers' memory, except one byte for each read whose destination was not
    writable. *)
Theorem pipe_fifo os s A R :
  pipe_state pi s A R -> pipe_bytes (pipe_at s pi) = [] ->
  exists s' W D, run_ops (dom A) os s = Some s' /\ run_io (dom A) os s A W D s' /\
    W = D ++ pipe_bytes (pipe_at s' pi) /\ Z.of_nat (length (pipe_bytes (pipe_at s' pi))) <= PIPESIZE.
Proof.
  intros Hs Hq; destruct (run_ops_spec os s A R Hs) as (s' & A' & W & D & Hr & Hio & Hs' & E).
  exists s', W, D; split_and!; auto; [by rewrite Hq in E|]; rewrite length_pipe_bytes; apply (pk_count _ (ps_pipe _ _ _ _ Hs')).
Qed.

(** C26. No wakeup is lost: after any sequence of calls, a process sleeping in
    [piperead] sleeps on an empty pipe whose write end is open, one sleeping in
    [pipewrite] on a full pipe whose read end is open.  So a reader and a writer
    never both sleep. *)
Theorem pipe_no_lost_wakeup os s A R s' :
  pipe_state pi s A R -> run_ops (dom A) os s = Some s' ->
  (forall i, sleeping_on s' i (ChPipeRead pi) -> pipe_bytes (pipe_at s' pi) = [] /\ pi_writeopen (pipe_at s' pi) = true) /\
  (forall i, sleeping_on s' i (ChPipeWrite pi) ->
     Z.of_nat (length (pipe_bytes (pipe_at s' pi))) = PIPESIZE /\ pi_readopen (pipe_at s' pi) = true) /\
  (forall i j, ~ (sleeping_on s' i (ChPipeRead pi) /\ sleeping_on s' j (ChPipeWrite pi))).
Proof.
  intros Hs Hr; destruct (run_ops_spec os s A R Hs) as (s2 & A' & W & D & Hr2 & _ & Hs' & _).
  rewrite Hr2 in Hr; injection Hr as ->; destruct Hs' as [_ _ Hok Hsl]; split_and!.
  - intros i Hi; destruct (proj2 (Hsl i) Hi) as [Hc Hw]; split; [|done].
    apply pipe_empty_bytes; [done|]; by apply pipe_empty_iff.
  - intros i Hi; rewrite length_pipe_bytes; by apply (Hsl i).
  - intros i j [Hi Hj]; destruct (proj2 (Hsl i) Hi) as [Hc _], (proj1 (Hsl j) Hj) as [Hc' _]; rewrite Hc in Hc'; done.
Qed.
End system.
