(* ===== verification/Ulib.v ===== *)
(** * The user library's string routines, [user/ulib.c]

    Strings as in [CString.v]: a list is followed by a null byte, [hd0 p] is [*p].
    [gets] reads the bytes of standard input one at a time; the list of bytes that
    are still to come is its argument, empty at end of file. *)

From S2P Require Import Prelude Memory CString.

(** The bytes stored at [s]. *)
Fixpoint strcpy (t : list Z) : list Z :=
  match t with
  | [] => [0]
  | c :: t => c :: (if c =? 0 then [] else strcpy t)
  end.

Fixpoint strcmp (p q : list Z) : Z :=
  match p with
  | [] => u8 0 - u8 (hd0 q)
  | c :: p => if negb (c =? 0) && (c =? hd0 q) then strcmp p (tl q) else u8 c - u8 (hd0 q)
  end.

(** [s + n] for the least [n] with [s[n] == c], as [n]. *)
Fixpoint strchr (s : list Z) (c : Z) : option nat :=
  match s with
  | [] => None
  | x :: s => if x =? 0 then None else if x =? c then Some 0%nat else S <$> strchr s c
  end.

(** The [int] accumulator wraps. *)
Fixpoint atoi_loop (n : Z) (s : list Z) : Z :=
  match s with
  | [] => n
  | c :: s => if (48 <=? c) && (c <=? 57) then atoi_loop (s32 (n * 10 + c - 48)) s else n
  end.
Definition atoi (s : list Z) : Z := atoi_loop 0 s.

(** [gets(buf, max)]: the bytes before the null byte it stores, and what is left
    of the input.  The argument of the loop is [max - 1 - i]. *)
Fixpoint gets_loop (room : nat) (input : list Z) : list Z * list Z :=
  match room, input with
  | S room, c :: input =>
      if (c =? 10) || (c =? 13) then ([c], input)
      else let '(l, rest) := gets_loop room input in (c :: l, rest)
  | _, _ => ([], input)
  end.
Definition gets (max : Z) (input : list Z) : list Z * list Z :=
  let '(l, rest) := gets_loop (Z.to_nat (max - 1)) input in (l ++ [0], rest).

(** [n] is an [int]: a negative count copies nothing. *)
Definition umemmove (vdst vsrc n : Z) (m : mem) : mem :=
  if vdst <? vsrc then copy_forward vdst vsrc (Z.to_nat n) m
  else copy_backward (vdst + n) (vsrc + n) (Z.to_nat n) m.

(** [memcpy] passes its [uint] count on as an [int]. *)
Definition umemcpy (dst src n : Z) (m : mem) : mem := umemmove dst src (s32 n) m.

(** The same loops as the kernel's; [strlen] counts in an [int] and returns a [uint]. *)
Definition umemset (dst c n : Z) (m : mem) : mem := memset_loop dst c 0 (Z.to_nat n) m.
Definition umemcmp (s1 s2 : list Z) (n : nat) : Z := memcmp s1 s2 n.
Definition ustrlen (s : list Z) : Z := u32 (strlen s).

(** ** Lemmas *)

Lemma strcpy_cstr t : strcpy t = cstr t ++ [0].
Proof. induction t as [|c t IH]; simpl; [done|]; destruct (Z.eqb_spec c 0) as [->|]; [done|]; by rewrite IH. Qed.

Lemma strcmp_zero p q : Forall byte_ok p -> Forall byte_ok q -> strcmp p q = 0 <-> cstr p = cstr q.
Proof.
  revert q; induction p as [|c p IH]; intros q Hp Hq; pose proof (byte_hd q Hq) as Hb; unfold byte_ok in Hb;
    rewrite (cstr_step q); cbn [strcmp cstr].
  - rewrite !u8_small by lia; destruct (Z.eqb_spec (hd0 q) 0); split; intros; done || lia.
  - apply Forall_cons in Hp as [Hc Hp]; unfold byte_ok in Hc; destruct (Z.eqb_spec c 0) as [->|Hne]; cbn [negb andb].
    + rewrite !u8_small by lia; destruct (Z.eqb_spec (hd0 q) 0); split; intros; done || lia.
    + destruct (Z.eqb_spec c (hd0 q)) as [->|Hd].
      * rewrite IH by auto using byte_tl; destruct (Z.eqb_spec (hd0 q) 0); [done|]; split; [by intros ->|by intros [= ->]].
      * rewrite !u8_small by lia; destruct (Z.eqb_spec (hd0 q) 0); split; intros; simplify_eq; lia.
Qed.

(** [strchr] cuts the string at the first occurrence. *)
Lemma strchr_some s c n : strchr s c = Some n ->
  s = take n s ++ c :: drop (S n) s /\ Forall (fun x => x <> 0 /\ x <> c) (take n s).
Proof.
  revert n; induction s as [|x s IH]; intros n; cbn [strchr]; [done|].
  destruct (Z.eqb_spec x 0); [done|]; destruct (Z.eqb_spec x c) as [->|Hne]; [by intros [= <-]|].
  destruct (strchr s c) as [k|] eqn:E; cbn; [|done]; intros [= <-]; destruct (IH k eq_refl) as [H1 H2].
  split; [cbn; by rewrite <- H1|]; cbn; by constructor.
Qed.

Lemma strchr_split s c t : Forall (fun x => x <> 0 /\ x <> c) s -> c <> 0 -> strchr (s ++ c :: t) c = Some (length s).
Proof.
  intros Hs Hc; induction Hs as [|x s [Hx Hxc] _ IH]; cbn [app strchr length].
  - by rewrite (proj2 (Z.eqb_neq c 0)), Z.eqb_refl.
  - by rewrite (proj2 (Z.eqb_neq x 0)), (proj2 (Z.eqb_neq x c)), IH.
Qed.

Lemma strchr_none s c : Forall (fun x => x <> c) s -> strchr s c = None.
Proof.
  induction 1 as [|x s Hx _ IH]; cbn [strchr]; [done|]; destruct (x =? 0); [done|].
  by rewrite (proj2 (Z.eqb_neq x c)), IH.
Qed.

Lemma strchr_absent s c : strchr s c = None -> Forall (fun x => x <> 0) s -> Forall (fun x => x <> c) s.
Proof.
  intros H Hs; induction Hs as [|x s Hx _ IH]; [done|]; cbn [strchr] in H.
  rewrite (proj2 (Z.eqb_neq x 0) Hx) in H; destruct (Z.eqb_spec x c); [done|].
  constructor; [done|]; apply IH; by destruct (strchr s c).
Qed.

(** [gets] never stores more than [max] bytes. *)
Lemma gets_fits max input : 0 < max -> Z.of_nat (length (gets max input).1) <= max.
Proof.
  intros Hm; unfold gets; assert (forall k i, (length (gets_loop k i).1 <= k)%nat) as Hl.
  { induction k as [|k IH]; intros [|c i]; cbn [gets_loop]; [simpl; lia..|].
    destruct (_ || _); [simpl; lia|]; specialize (IH i); destruct (gets_loop k i); simpl in *; lia. }
  specialize (Hl (Z.to_nat (max - 1)) input); destruct (gets_loop _ _); simpl in *; rewrite length_app; simpl; lia.
Qed.

(** The two [memmove]s agree, overlapping ranges included. *)
Lemma rd_umemmove dst src n m x : mem_ok m -> 0 <= n ->
  rd (umemmove dst src n m) x = rd (memmove dst src n m) x.
Proof.
  intros Hm Hn; rewrite rd_memmove by done; unfold umemmove; destruct (Z.ltb_spec dst src).
  - rewrite rd_copy_forward by (auto; lia); repeat case_decide; try lia; f_equal; lia.
  - rewrite rd_copy_backward by (auto; lia); repeat case_decide; try lia; f_equal; lia.
Qed.
