(* ===== verification/Grep.v ===== *)
(** * The pattern matcher and [grep], [user/grep.c]

    Patterns and lines are the characters before the null byte.  [matchstar]
    takes the matcher for the rest of the pattern as a function, so that the
    recursion of [matchhere] is on the pattern.

    [read] is a parameter of [grep]: how many bytes it returns is up to the file,
    within what [read] promises ([read_ok]).  The reference is a set of strings for
    a pattern ([lang]) and the lines of the whole input ([lines]). *)

From S2P Require Import Prelude CString Ulib.

Definition CARET : Z := 94.
Definition DOLLAR : Z := 36.
Definition DOT : Z := 46.
Definition STAR : Z := 42.
Definition NEWLINE : Z := 10.

Fixpoint matchstar (matchhere : list Z -> bool) (c : Z) (text : list Z) : bool :=
  if matchhere text then true
  else match text with
       | [] => false
       | t :: text => if (t =? c) || (c =? DOT) then matchstar matchhere c text else false
       end.

Definition is_nil (l : list Z) : bool := match l with [] => true | _ => false end.

Fixpoint matchhere (re text : list Z) : bool :=
  match re with
  | [] => true
  | c :: re1 =>
      let next :=
        if (c =? DOLLAR) && is_nil re1 then is_nil text
        else match text with
             | [] => false
             | t :: text => if (c =? DOT) || (c =? t) then matchhere re1 text else false
             end in
      match re1 with
      | d :: re2 => if d =? STAR then matchstar (matchhere re2) c text else next
      | [] => next
      end
  end.

(** The [do] loop over the suffixes of the text, the empty one included. *)
Fixpoint match_from (re text : list Z) : bool :=
  if matchhere re text then true
  else match text with [] => false | _ :: text => match_from re text end.
Definition match_ (re text : list Z) : bool :=
  match re with
  | c :: re1 => if c =? CARET then matchhere re1 text else match_from re text
  | [] => match_from re text
  end.

(** The inner loop of [grep] over the lines of the buffer: what it writes, and the
    bytes [memmove] moves to the front.  Every turn consumes a byte. *)
Fixpoint scan_lines (fuel : nat) (pattern data : list Z) : list Z * list Z :=
  match fuel with
  | O => ([], data)
  | S fuel =>
      match strchr data NEWLINE with
      | None => ([], data)
      | Some q =>
          let line := take q data in
          let '(out, rest) := scan_lines fuel pattern (drop (S q) data) in
          ((if match_ pattern line then line ++ [NEWLINE] else []) ++ out, rest)
      end
  end.

Definition GREPBUF : Z := 1024.

Section grep.
(** How many of the bytes [input] a [read] with room for [room] returns. *)
Variable amount : list Z -> Z -> Z.

(** What [grep] writes, with [held] in the buffer. *)
Fixpoint grep_loop (fuel : nat) (pattern held input : list Z) : list Z :=
  match fuel with
  | O => []
  | S fuel =>
      let n := amount input (GREPBUF - Z.of_nat (length held) - 1) in
      if n <=? 0 then []
      else
        let data := held ++ take (Z.to_nat n) input in
        let '(out, held) := scan_lines (length data) pattern data in
        out ++ grep_loop fuel pattern held (drop (Z.to_nat n) input)
  end.

(** Every turn of the outer loop consumes input. *)
Definition grep (pattern input : list Z) : list Z := grep_loop (S (length input)) (cstr pattern) [] input.

(** What [read] promises: nothing at end of file, otherwise at least one byte and
    no more than it was asked for. *)
Definition read_ok : Prop :=
  forall input room, 0 < room ->
  (input = [] -> amount input room <= 0) /\ (input <> [] -> 1 <= amount input room <= Z.min room (Z.of_nat (length input))).
End grep.

(** ** The language of a pattern *)

Inductive item := One (c : Z) | Many (c : Z).

(** [c*], [$] at the end, and single characters. *)
Fixpoint parse (re : list Z) : list item * bool :=
  match re with
  | [] => ([], false)
  | c :: re1 =>
      let next := if (c =? DOLLAR) && is_nil re1 then ([], true) else let '(l, e) := parse re1 in (One c :: l, e) in
      match re1 with
      | d :: re2 => if d =? STAR then let '(l, e) := parse re2 in (Many c :: l, e) else next
      | [] => next
      end
  end.

Definition fits (c t : Z) : Prop := c = DOT \/ c = t.

Fixpoint lang (l : list item) (s : list Z) : Prop :=
  match l with
  | [] => s = []
  | One c :: l => exists t s', s = t :: s' /\ fits c t /\ lang l s'
  | Many c :: l => exists s1 s2, s = s1 ++ s2 /\ Forall (fits c) s1 /\ lang l s2
  end.

(** A match of the items at the beginning of [text]. *)
Definition prefix_match (p : list item * bool) (text : list Z) : Prop :=
  exists mid post, text = mid ++ post /\ lang p.1 mid /\ (p.2 = true -> post = []).

(** The complete lines of the input, and what follows the last of them. *)
Fixpoint lines_from (cur l : list Z) : list (list Z) * list Z :=
  match l with
  | [] => ([], cur)
  | c :: l =>
      if c =? NEWLINE then let '(ls, r) := lines_from [] l in (cur :: ls, r)
      else lines_from (cur ++ [c]) l
  end.
Definition lines (l : list Z) : list (list Z) * list Z := lines_from [] l.

Definition printed (pattern line : list Z) : list Z := if match_ pattern line then line ++ [NEWLINE] else [].

(** ** The matcher *)

Lemma fits_bool c t : ((c =? DOT) || (c =? t)) = true <-> fits c t.
Proof. unfold fits; rewrite orb_true_iff, !Z.eqb_eq; done. Qed.
Lemma fits_bool' c t : ((t =? c) || (c =? DOT)) = true <-> fits c t.
Proof. unfold fits; rewrite orb_true_iff, !Z.eqb_eq; naive_solver. Qed.

Lemma matchstar_iff mh c text :
  matchstar mh c text = true <-> exists s1 s2, text = s1 ++ s2 /\ Forall (fits c) s1 /\ mh s2 = true.
Proof.
  induction text as [|t text IH]; cbn [matchstar].
  - destruct (mh []) eqn:E; [split; [exists [], []; auto|done]|]; split; [done|].
    intros (s1 & s2 & [-> ->]%eq_sym%app_nil & _ & H); congruence.
  - destruct (mh (t :: text)) eqn:E; [split; [exists [], (t :: text); auto|done]|].
    destruct ((t =? c) || (c =? DOT)) eqn:Ef.
    + rewrite IH; apply fits_bool' in Ef; split.
      * intros (s1 & s2 & -> & H1 & H2); exists (t :: s1), s2; auto.
      * intros ([|t' s1] & s2 & Ht & H1 & H2); [cbn in Ht; congruence|]; injection Ht as -> ->; inversion H1; eauto.
    + split; [done|]; intros ([|t' s1] & s2 & Ht & H1 & H2); [cbn in Ht; congruence|]; injection Ht as -> ->.
      inversion H1 as [|? ? Hf]; apply fits_bool' in Hf; congruence.
Qed.

Lemma prefix_many c p text :
  prefix_match (Many c :: p.1, p.2) text <-> exists s1 s2, text = s1 ++ s2 /\ Forall (fits c) s1 /\ prefix_match p s2.
Proof.
  split.
  - intros (mid & post & -> & (s1 & s2 & -> & H1 & H2) & He); exists s1, (s2 ++ post); rewrite app_assoc; split_and!; auto; by exists s2, post.
  - intros (s1 & s2 & -> & H1 & (mid & post & -> & H2 & He)); exists (s1 ++ mid), post; rewrite app_assoc; split_and!; auto; by exists s1, mid.
Qed.

Lemma prefix_one c p text :
  prefix_match (One c :: p.1, p.2) text <-> exists t s, text = t :: s /\ fits c t /\ prefix_match p s.
Proof.
  split.
  - intros (mid & post & -> & (t & s & -> & H1 & H2) & He); exists t, (s ++ post); split_and!; auto; by exists s, post.
  - intros (t & s & -> & H1 & (mid & post & -> & H2 & He)); exists (t :: mid), post; split_and!; auto; by exists t, mid.
Qed.

(** [matchhere] without the star. *)
Lemma matchhere_next c re1 text (p := parse re1) :
  (forall text, matchhere re1 text = true <-> prefix_match p text) ->
  (if (c =? DOLLAR) && is_nil re1 then is_nil text
   else match text with [] => false | t :: text => if (c =? DOT) || (c =? t) then matchhere re1 text else false end) = true <->
  prefix_match (if (c =? DOLLAR) && is_nil re1 then ([], true) else let '(l, e) := parse re1 in (One c :: l, e)) text.
Proof.
  intros IH; destruct ((c =? DOLLAR) && is_nil re1).
  - split.
    + intros Ht; exists [], []; by destruct text.
    + intros (mid & post & -> & -> & ->); done.
  - assert ((let '(l, e) := parse re1 in (One c :: l, e)) = (One c :: p.1, p.2)) as -> by (unfold p; by destruct (parse re1)).
    rewrite prefix_one; destruct text as [|t text]; [split; [done|naive_solver]|].
    destruct ((c =? DOT) || (c =? t)) eqn:Ef; [apply fits_bool in Ef; rewrite IH; split; [eauto|naive_solver]|].
    split; [done|]; intros (t' & s & [= <- <-] & Hf & _); apply fits_bool in Hf; congruence.
Qed.

Lemma matchhere_iff re text : matchhere re text = true <-> prefix_match (parse re) text.
Proof.
  revert text; induction re as [re IH] using (induction_ltof1 _ (@length Z)); unfold ltof in IH; intros text.
  destruct re as [|c re1]; cbn [matchhere parse]; [split; [intros _; by exists [], text|done]|].
  pose proof (matchhere_next c re1 text (IH re1 ltac:(simpl; lia))) as Hn; destruct re1 as [|d re2]; [exact Hn|].
  destruct (d =? STAR); [|exact Hn].
  assert ((let '(l, e) := parse re2 in (Many c :: l, e)) = (Many c :: (parse re2).1, (parse re2).2)) as -> by by destruct (parse re2).
  rewrite prefix_many, matchstar_iff.
  split; intros (s1 & s2 & H1 & H2 & H3); exists s1, s2; split_and!; auto; apply (IH re2); simpl; auto; lia.
Qed.

Lemma match_from_iff re text : match_from re text = true <-> exists pre rest, text = pre ++ rest /\ matchhere re rest = true.
Proof.
  induction text as [|t text IH]; cbn [match_from]; destruct (matchhere re _) eqn:E.
  - split; [exists [], []; auto|done].
  - split; [done|]; intros (pre & rest & [-> ->]%eq_sym%app_nil & H); congruence.
  - split; [exists [], (t :: text); auto|done].
  - rewrite IH; split.
    + intros (pre & rest & -> & H); by exists (t :: pre), rest.
    + intros ([|t' pre] & rest & Ht & H); [cbn in Ht; congruence|]; injection Ht as -> ->; eauto.
Qed.

(** C37. The matcher decides the language of the pattern: [match] answers yes
    exactly when the text is [pre ++ mid ++ post] with [mid] in the language of the
    pattern's items ([.] any character, [c*] any number of them), [pre] empty when
    the pattern begins with [^] and [post] empty when it ends with [$].  In
    particular the recursion through [matchhere] and [matchstar] ends on every
    pattern and text. *)
Theorem match_iff re text (anchored := bool_decide (head re = Some CARET)) (p := parse (if anchored then tail re else re)) :
  match_ re text = true <->
  exists pre mid post, text = pre ++ mid ++ post /\ (anchored = true -> pre = []) /\ lang p.1 mid /\ (p.2 = true -> post = []).
Proof.
  assert (match_ re text = true <-> exists pre rest, text = pre ++ rest /\ (anchored = true -> pre = []) /\ prefix_match p rest) as ->.
  - unfold p, anchored; case_bool_decide as Ha.
    + destruct re as [|c re]; [done|]; injection Ha as ->; cbn [match_ tail]; rewrite Z.eqb_refl, matchhere_iff; split.
      * intros H; by exists [], text.
      * intros (pre & rest & -> & -> & H); [done|done].
    + assert (match_ re text = match_from re text) as ->.
      { destruct re as [|c re]; [done|]; cbn [match_]; by destruct (Z.eqb_spec c CARET) as [->|]. }
      rewrite match_from_iff; split; intros (pre & rest & -> & H); exists pre, rest; rewrite matchhere_iff in *; [done|by destruct H].
  - split.
    + intros (pre & rest & -> & Hp & (mid & post & -> & H)); by exists pre, mid, post.
    + intros (pre & mid & post & -> & Hp & H); exists pre, (mid ++ post); split_and!; auto; by exists mid, post.
Qed.

(** ** Lines *)

Lemma lines_from_app cur a b :
  lines_from cur (a ++ b) =
  ((lines_from cur a).1 ++ (lines_from (lines_from cur a).2 b).1, (lines_from (lines_from cur a).2 b).2).
Proof.
  revert cur; induction a as [|c a IH]; intros cur; cbn [app lines_from fst snd]; [by destruct (lines_from cur b)|].
  destruct (c =? NEWLINE); [|apply IH]; rewrite IH; destruct (lines_from [] a) as [ls r]; cbn [fst snd]; by destruct (lines_from r b).
Qed.

Lemma lines_from_none cur l : Forall (fun x => x <> NEWLINE) l -> lines_from cur l = ([], cur ++ l).
Proof.
  intros Hl; revert cur; induction Hl as [|c l Hc _ IH]; intros cur; cbn [lines_from]; [by rewrite app_nil_r|].
  by rewrite (proj2 (Z.eqb_neq c NEWLINE) Hc), IH, <- app_assoc.
Qed.

Lemma lines_line l rest : Forall (fun x => x <> NEWLINE) l -> lines (l ++ NEWLINE :: rest) = (l :: (lines rest).1, (lines rest).2).
Proof.
  intros Hl; unfold lines; rewrite lines_from_app, lines_from_none by done; cbn [fst snd app lines_from].
  rewrite Z.eqb_refl; by destruct (lines_from [] rest).
Qed.

(** What is left over has no line end. *)
Lemma lines_rest cur l : Forall (fun x => x <> NEWLINE) cur -> Forall (fun x => x <> NEWLINE) (lines_from cur l).2.
Proof.
  revert cur; induction l as [|c l IH]; intros cur Hc; cbn [lines_from]; [done|].
  destruct (Z.eqb_spec c NEWLINE); [|apply IH, Forall_app; auto].
  specialize (IH [] (Forall_nil_2 _)); by destruct (lines_from [] l).
Qed.

Lemma lines_rest_all (P : Z -> Prop) cur l : Forall P cur -> Forall P l -> Forall P (lines_from cur l).2.
Proof.
  intros Hc Hl; revert cur Hc; induction Hl as [|c l Hx _ IH]; intros cur Hc; cbn [lines_from]; [done|].
  destruct (c =? NEWLINE); [|apply IH, Forall_app; auto].
  specialize (IH [] (Forall_nil_2 _)); by destruct (lines_from [] l).
Qed.

(** The inner loop prints the matching lines of the buffer and keeps the rest. *)
Lemma scan_lines_spec fuel pattern data :
  (length data <= fuel)%nat -> Forall (fun x => x <> 0) data ->
  scan_lines fuel pattern data = (concat (printed pattern <$> (lines data).1), (lines data).2).
Proof.
  revert data; induction fuel as [|fuel IH]; intros data Hf Hz; cbn [scan_lines].
  { destruct data; [done|simpl in Hf; lia]. }
  destruct (strchr data NEWLINE) as [q|] eqn:E.
  - apply strchr_some in E as [E Hq].
    assert (Forall (fun x => x <> NEWLINE) (take q data)) as Hn by (eapply Forall_impl; [exact Hq|]; by intros ? []).
    assert (lines data = (take q data :: (lines (drop (S q) data)).1, (lines (drop (S q) data)).2)) as ->.
    { rewrite E at 1; by apply lines_line. }
    assert (length data = length (take q data) + S (length (drop (S q) data)))%nat as Hlen.
    { rewrite E at 1; by rewrite length_app. }
    rewrite IH by (lia || by apply Forall_drop); done.
  - unfold lines; by rewrite lines_from_none by by apply strchr_absent.
Qed.

Definition short (p : list (list Z) * list Z) : Prop :=
  Forall (fun l => Z.of_nat (length l) < GREPBUF - 1) p.1 /\ Z.of_nat (length p.2) < GREPBUF - 1.

(** A line is at least as long as what has been read of it. *)
Lemma short_held held input : Forall (fun x => x <> NEWLINE) held -> short (lines (held ++ input)) -> Z.of_nat (length held) < GREPBUF - 1.
Proof.
  intros Hh; unfold lines, short; rewrite lines_from_app, lines_from_none by done; cbn [fst snd app].
  revert held Hh; induction input as [|c input IH]; intros held Hh; cbn [lines_from]; [naive_solver|].
  destruct (Z.eqb_spec c NEWLINE).
  - destruct (lines_from [] input); cbn [fst snd]; intros [[H _]%Forall_cons _]; done.
  - intros H; specialize (IH (held ++ [c])); rewrite length_app in IH; cbn [length] in IH.
    enough (Z.of_nat (length held + 1) < GREPBUF - 1) by lia; apply IH; [by apply Forall_app; auto|done].
Qed.

(** Text that [grep] is meant for, with [held] in the buffer: no null byte, and every
    line fits the buffer. *)
Definition grep_ok (held l : list Z) : Prop :=
  Forall (fun x => x <> NEWLINE) held /\ Forall (fun x => x <> 0) (held ++ l) /\ short (lines (held ++ l)).

Lemma grep_room held l : grep_ok held l -> 0 < GREPBUF - Z.of_nat (length held) - 1.
Proof. intros (Hh & _ & Hs); apply short_held in Hs; [lia|done]. Qed.

Lemma grep_held held : Forall (fun x => x <> NEWLINE) held -> (lines held).1 = [].
Proof. intros H; unfold lines; by rewrite lines_from_none. Qed.

(** One turn of the outer loop. *)
Lemma scan_step pattern held l1 l2 (data := held ++ l1) (r := scan_lines (length data) pattern data) : grep_ok held (l1 ++ l2) ->
  grep_ok r.2 l2 /\ concat (printed pattern <$> (lines (held ++ l1 ++ l2)).1) = r.1 ++ concat (printed pattern <$> (lines (r.2 ++ l2)).1).
Proof.
  intros (Hh & Hz & Hs); rewrite app_assoc in *; fold data in Hz, Hs |- *; pose proof Hz as [Hz1 Hz2]%Forall_app.
  unfold r; rewrite scan_lines_spec by done; cbn [fst snd].
  pose proof (lines_from_app [] data l2) as Hl; fold (lines data) in Hl; fold (lines (data ++ l2)) in Hl.
  assert (Forall (fun x => x <> NEWLINE) (lines data).2) as Hr by (apply lines_rest; done).
  assert (lines ((lines data).2 ++ l2) = lines_from (lines data).2 l2) as Hl'.
  { unfold lines at 1; rewrite lines_from_app, lines_from_none by done; cbn [fst snd app]; by destruct (lines_from _ l2). }
  rewrite Hl in *; rewrite <- Hl' in *; cbn [fst snd] in *; split; [|by rewrite fmap_app, concat_app].
  split_and!; [done|apply Forall_app; split; [by apply lines_rest_all|done]|].
  destruct Hs as [Hs1 Hs2]; cbn [fst snd] in *; by apply Forall_app in Hs1 as [_ Hs1].
Qed.

Lemma grep_loop_spec amount pattern fuel held input : read_ok amount -> (length input < fuel)%nat -> grep_ok held input ->
  grep_loop amount fuel pattern held input = concat (printed pattern <$> (lines (held ++ input)).1).
Proof.
  intros Hread; revert held input; induction fuel as [|fuel IH]; intros held input Hf Hok; [lia|]; cbn [grep_loop].
  pose proof (grep_room held input Hok) as Hroom; set (room := GREPBUF - _ - 1) in *; set (n := amount input room).
  destruct (Hread input room Hroom) as [Hend Hsome]; destruct (decide (input = [])) as [->|Hne].
  { destruct (Z.leb_spec n 0); [|by specialize (Hend eq_refl); lia]; by rewrite app_nil_r, grep_held by apply Hok. }
  specialize (Hsome Hne); fold n in Hsome; destruct (Z.leb_spec n 0); [lia|].
  rewrite <- (take_drop (Z.to_nat n) input) in Hok; destruct (scan_step pattern held _ _ Hok) as [Hok' E]; rewrite take_drop in E; rewrite E.
  destruct (scan_lines _ _ _) as [o rest]; cbn [fst snd] in *; f_equal; apply IH; [|done].
  rewrite length_drop; destruct input; [done|]; cbn [length] in *; lia.
Qed.

(** [grep] prints exactly the lines of its input that match the pattern, each
    with its newline and in order, however [read] cuts the input into pieces,
    when no byte is null and every line fits the buffer.  A last line without a
    newline is not printed. *)
Theorem grep_prints_matches (amount : list Z -> Z -> Z) pattern input :
  read_ok amount -> Forall (fun x => x <> 0) input -> short (lines input) ->
  grep amount pattern input =
  concat ((fun line => line ++ [NEWLINE]) <$> filter (fun line => match_ (cstr pattern) line = true) (lines input).1).
Proof.
  intros Hr Hz Hs; unfold grep; rewrite grep_loop_spec by (done || lia || by split_and!); cbn [app].
  induction (lines input).1 as [|l ls IH]; cbn [fmap list_fmap concat]; [done|].
  rewrite filter_cons; unfold printed at 1; rewrite IH; destruct (match_ (cstr pattern) l); [|done].
  by rewrite decide_True.
Qed.

(** "a*b$" on the lines "xaab", "ba" and an unfinished "b", two bytes at a time. *)
Lemma grep_prints_matches_witness :
  grep (fun input room => Z.min 2 (Z.min room (Z.of_nat (length input)))) [97; 42; 98; 36] [120; 97; 97; 98; 10; 98; 97; 10; 98] = [120; 97; 97; 98; 10].
Proof.
  rewrite (grep_prints_matches (fun input room => Z.min 2 (Z.min room (Z.of_nat (length input))))); [by vm_compute| | |].
  - intros [|x input] room Hroom; cbn [length]; split; intros; done || lia.
  - repeat constructor; done.
  - split; cbn; repeat constructor; done.
Defined.
