(* ===== verification/Printf.v ===== *)
(** * Formatted output, [kernel/printf.c]

    The characters [printf] passes to [consputc], as a list.  A variable argument
    is the value of its argument slot: a number, or a string or null pointer.  A
    format that asks for more arguments than there are reads zeros. *)

From S2P Require Import Prelude CString.

Inductive varg := VNum (x : Z) | VStr (s : option (list Z)).

(** [va_arg(ap, T)] and the remaining arguments. *)
Definition arg_num (ap : list varg) : Z := match ap with VNum x :: _ => x | _ => 0 end.
Definition arg_str (ap : list varg) : option (list Z) := match ap with VStr s :: _ => s | _ => None end.

Fixpoint bytes_of (s : string) : list Z :=
  match s with
  | EmptyString => []
  | String c s => Z.of_N (Ascii.N_of_ascii c) :: bytes_of s
  end.
Definition chr (s : string) : Z := hd 0 (bytes_of s).

Definition digits : list Z := bytes_of "0123456789abcdef".

(** The [do ... while] loop: the digits of [x] in a table, lowest first.  A number
    below [2 ^ fuel] has at most [fuel] of them. *)
Fixpoint print_digits (table : list Z) (base : Z) (fuel : nat) (x : Z) : list Z :=
  match fuel with
  | O => []
  | S fuel => aget 0 table (x mod base) :: (if x / base =? 0 then [] else print_digits table base fuel (x / base))
  end.

(** [xx] is a [long long]; the buffer is printed from its end. *)
Definition printint (xx base : Z) (sign : bool) : list Z :=
  let neg := sign && (xx <? 0) in
  let x := if neg then u64 (- xx) else u64 xx in
  let buf := print_digits digits base 64 x in
  rev (if neg then buf ++ [chr "-"] else buf).

(** [x <<= 4] at every turn; the digit is the top four bits. *)
Fixpoint printptr_loop (n : nat) (x : Z) : list Z :=
  match n with
  | O => []
  | S n => aget 0 digits (Z.shiftr x 60) :: printptr_loop n (u64 (Z.shiftl x 4))
  end.
Definition printptr (x : Z) : list Z := chr "0" :: chr "x" :: printptr_loop 16 x.

Definition s64 (x : Z) : Z := (x + 2 ^ 63) mod 2 ^ 64 - 2 ^ 63.

(** What one [%] sequence prints, with [c0], [c1], [c2] the characters after the
    [%]: the output, how many of them it consumes and whether it takes an
    argument; [None] for the [break]. *)
Definition conversion (c0 c1 c2 : Z) (ap : list varg) : option (list Z * nat * bool) :=
  let num := arg_num ap in
  if c0 =? chr "d" then Some (printint (s32 num) 10 true, 1%nat, true)
  else if (c0 =? chr "l") && (c1 =? chr "d") then Some (printint (s64 num) 10 true, 2%nat, true)
  else if (c0 =? chr "l") && (c1 =? chr "l") && (c2 =? chr "d") then Some (printint (s64 num) 10 true, 3%nat, true)
  else if c0 =? chr "u" then Some (printint (u32 num) 10 false, 1%nat, true)
  else if (c0 =? chr "l") && (c1 =? chr "u") then Some (printint (s64 num) 10 false, 2%nat, true)
  else if (c0 =? chr "l") && (c1 =? chr "l") && (c2 =? chr "u") then Some (printint (s64 num) 10 false, 3%nat, true)
  else if c0 =? chr "x" then Some (printint (u32 num) 16 false, 1%nat, true)
  else if (c0 =? chr "l") && (c1 =? chr "x") then Some (printint (s64 num) 16 false, 2%nat, true)
  else if (c0 =? chr "l") && (c1 =? chr "l") && (c2 =? chr "x") then Some (printint (s64 num) 16 false, 3%nat, true)
  else if c0 =? chr "p" then Some (printptr (u64 num), 1%nat, true)
  else if c0 =? chr "c" then Some ([u32 num], 1%nat, true)
  else if c0 =? chr "s" then Some (cstr (default (bytes_of "(null)") (arg_str ap)), 1%nat, true)
  else if c0 =? chr "%" then Some ([chr "%"], 1%nat, false)
  else if c0 =? 0 then None
  else Some ([chr "%"; c0], 1%nat, false).

(** The loop over the format.  Every turn consumes a character. *)
Fixpoint vprintf (fuel : nat) (fmt : list Z) (ap : list varg) : list Z :=
  match fuel with
  | O => []
  | S fuel =>
      match fmt with
      | [] => []
      | cx :: fmt =>
          if cx =? 0 then [] else
          if negb (cx =? chr "%") then cx :: vprintf fuel fmt ap else
          let c0 := hd0 fmt in
          let c1 := if negb (c0 =? 0) then hd0 (tl fmt) else 0 in
          let c2 := if negb (c1 =? 0) then hd0 (tl (tl fmt)) else 0 in
          match conversion c0 c1 c2 ap with
          | None => []
          | Some (out, k, takes) => out ++ vprintf fuel (drop k fmt) (if takes then tl ap else ap)
          end
      end
  end.

Definition printf_chars (fmt : list Z) (ap : list varg) : list Z := vprintf (length fmt) fmt ap.

(** ** Numbers read back

    The number a digit string denotes, with an optional minus sign. *)
Definition digit_val (c : Z) : Z := if c <=? 57 then c - 48 else if c <=? 70 then c - 55 else c - 87.
Definition read_num (base : Z) (l : list Z) : Z := foldl (fun acc c => acc * base + digit_val c) 0 l.
Definition read_int (base : Z) (l : list Z) : Z :=
  match l with
  | c :: l' => if c =? chr "-" then - read_num base l' else read_num base l
  | [] => 0
  end.

(** A table of sixteen digits, lower or upper case. *)
Class Digits (table : list Z) := digits_ok d : 0 <= d < 16 -> digit_val (aget 0 table d) = d /\ 48 <= aget 0 table d.

Ltac by_digit d :=
  let H := fresh in
  assert (d ∈ zrange 0 16) as H by (apply elem_of_zrange; simpl; lia);
  cbn [zrange] in H; rewrite !elem_of_cons, elem_of_nil in H; destruct_or? H; subst d; (split; [reflexivity|by vm_compute]) || done.

#[export] Instance digits_lower : Digits digits.
Proof. intros d Hd; by_digit d. Qed.

Section digits.
Context (table : list Z) `{!Digits table} (base : Z) (Hbase : 2 <= base <= 16).

Lemma digit_range x : 0 <= x mod base < 16.
Proof. pose proof (Z.mod_pos_bound x base); lia. Qed.

Lemma read_digits fuel x : 0 <= x < 2 ^ Z.of_nat fuel -> read_num base (rev (print_digits table base fuel x)) = x.
Proof.
  revert x; induction fuel as [|fuel IH]; intros x Hx; cbn [print_digits rev]; [cbn in *; lia|].
  unfold read_num in *; rewrite foldl_snoc, (proj1 (digits_ok _ (digit_range x))).
  destruct (Z.eqb_spec (x / base) 0) as [E|Hne]; cbn [rev foldl].
  - pose proof (Z_div_mod_eq_full x base); lia.
  - rewrite IH; [pose proof (Z_div_mod_eq_full x base); lia|].
    rewrite Nat2Z.inj_succ, Z.pow_succ_r in Hx by lia; split; [apply Z.div_pos; lia|].
    apply Z.le_lt_trans with (x / 2); [apply Z.div_le_compat_l; lia|apply Z.div_lt_upper_bound; lia].
Qed.

Lemma digits_length k fuel x : 0 <= x < base ^ Z.of_nat (S k) -> (length (print_digits table base fuel x) <= S k)%nat.
Proof.
  revert fuel x; induction k as [|k IH]; intros [|fuel] x Hx; cbn [print_digits length]; [lia| |lia|].
  - rewrite Z.div_small by (rewrite Z.pow_1_r in Hx; lia); simpl; lia.
  - destruct (x / base =? 0); [simpl; lia|]; enough (length (print_digits table base fuel (x / base)) <= S k)%nat by lia.
    apply IH; rewrite (Nat2Z.inj_succ (S k)), Z.pow_succ_r in Hx by lia; split; [apply Z.div_pos; lia|apply Z.div_lt_upper_bound; lia].
Qed.

Lemma digits_not_sign fuel x : Forall (fun c => c <> chr "-") (print_digits table base fuel x).
Proof.
  revert x; induction fuel as [|fuel IH]; intros x; cbn [print_digits]; constructor.
  - pose proof (proj2 (digits_ok _ (digit_range x))); change (chr "-") with 45; lia.
  - destruct (_ =? 0); auto.
Qed.

(** Reading the digits, with the sign appended before the buffer is reversed. *)
Lemma read_int_digits fuel x (neg : bool) : 0 <= x < 2 ^ Z.of_nat (S fuel) ->
  read_int base (rev (if neg then print_digits table base (S fuel) x ++ [chr "-"] else print_digits table base (S fuel) x)) = if neg then - x else x.
Proof.
  intros Hx; pose proof (read_digits (S fuel) x Hx) as Hr; destruct neg.
  - rewrite rev_app_distr; cbn [rev app read_int]; by rewrite Z.eqb_refl, Hr.
  - destruct (rev (print_digits table base (S fuel) x)) as [|c l] eqn:E; [cbn in *; by rewrite <- Hr|].
    assert (c <> chr "-").
    { pose proof (digits_not_sign (S fuel) x) as Hd; rewrite <- (rev_involutive (print_digits table base (S fuel) x)), E in Hd.
      cbn [rev] in Hd; apply Forall_app in Hd as [_ [Hc _]%Forall_cons]; done. }
    cbn [read_int]; by destruct (Z.eqb_spec c (chr "-")).
Qed.
End digits.

(** What the kernel's [printint] prints reads back as the number, at every
    value of [long long], signed or not, in base 10 and 16; and the [char buf[20]]
    it is built in is large enough. *)
Theorem printint_reads_back xx base sign :
  - 2 ^ 63 <= xx < 2 ^ 63 -> base = 10 \/ base = 16 ->
  read_int base (printint xx base sign) = (if sign then xx else u64 xx) /\ (length (printint xx base sign) <= 20)%nat.
Proof.
  intros Hx Hb; unfold printint; set (neg := sign && (xx <? 0)); set (x := if neg then u64 (- xx) else u64 xx).
  assert (0 <= x < 2 ^ 64 /\ (neg = true -> x <= 2 ^ 63) /\ (if neg then - x else x) = (if sign then xx else u64 xx)) as (H1 & H2 & H3).
  { unfold x, neg; destruct sign; cbn [andb]; [destruct (Z.ltb_spec xx 0)|]; split_and!; try done; try apply u64_range;
      rewrite ?u64_small by lia; lia. }
  assert (2 <= base <= 16) as Hr by lia; rewrite length_rev; split.
  - rewrite <- H3; change 64%nat with (S 63); apply read_int_digits; [exact _|done|exact H1].
  - destruct neg; rewrite ?length_app; cbn [length].
    + enough (length (print_digits digits base 64 x) <= 19)%nat by lia; apply (digits_length digits base Hr 18).
      specialize (H2 eq_refl); destruct Hb as [-> | ->]; cbn; lia.
    + apply (digits_length digits base Hr 19); destruct Hb as [-> | ->]; cbn; lia.
Qed.

Lemma printint_reads_back_witness :
  printint (- 2 ^ 63) 10 true = bytes_of "-9223372036854775808" /\
  read_int 10 (printint (- 2 ^ 63) 10 true) = - 2 ^ 63 /\ (length (printint (- 2 ^ 63) 10 true) <= 20)%nat.
Proof. split; [by vm_compute|]; apply (printint_reads_back (- 2 ^ 63) 10 true); [lia|by left]. Defined.
