(* ===== verification/UPrintf.v ===== *)
(** * The user library's formatted output, [user/printf.c]

    The characters [vprintf] passes to [putc], as a list; arguments as in
    [Printf.v].  The number printer keeps its value in a [uint]. *)

From S2P Require Import Prelude CString Ulib Printf.

Definition udigits : list Z := bytes_of "0123456789ABCDEF".

(** [xx] is a [long long], [x] a [uint]. *)
Definition uprintint (xx base : Z) (sgn : bool) : list Z :=
  let neg := sgn && (xx <? 0) in
  let x := if neg then u32 (- xx) else u32 xx in
  let buf := print_digits udigits base 32 x in
  rev (if neg then buf ++ [chr "-"] else buf).

Fixpoint uprintptr_loop (n : nat) (x : Z) : list Z :=
  match n with
  | O => []
  | S n => aget 0 udigits (Z.shiftr x 60) :: uprintptr_loop n (u64 (Z.shiftl x 4))
  end.
Definition uprintptr (x : Z) : list Z := chr "0" :: chr "x" :: uprintptr_loop 16 x.

(** The branch of state ['%'], with [c0], [c1], [c2] the characters after the [%]:
    the output, how many of them it consumes and whether it takes an argument. *)
Definition uconversion (c0 c1 c2 : Z) (ap : list varg) : list Z * nat * bool :=
  let num := arg_num ap in
  if c0 =? chr "d" then (uprintint (s32 num) 10 true, 1%nat, true)
  else if (c0 =? chr "l") && (c1 =? chr "d") then (uprintint (s64 num) 10 true, 2%nat, true)
  else if (c0 =? chr "l") && (c1 =? chr "l") && (c2 =? chr "d") then (uprintint (s64 num) 10 true, 3%nat, true)
  else if c0 =? chr "u" then (uprintint (u32 num) 10 false, 1%nat, true)
  else if (c0 =? chr "l") && (c1 =? chr "u") then (uprintint (s64 num) 10 false, 2%nat, true)
  else if (c0 =? chr "l") && (c1 =? chr "l") && (c2 =? chr "u") then (uprintint (s64 num) 10 false, 3%nat, true)
  else if c0 =? chr "x" then (uprintint (u32 num) 16 false, 1%nat, true)
  else if (c0 =? chr "l") && (c1 =? chr "x") then (uprintint (s64 num) 16 false, 2%nat, true)
  else if (c0 =? chr "l") && (c1 =? chr "l") && (c2 =? chr "x") then (uprintint (s64 num) 16 false, 3%nat, true)
  else if c0 =? chr "p" then (uprintptr (u64 num), 1%nat, true)
  else if c0 =? chr "c" then ([u8 num], 1%nat, true)
  else if c0 =? chr "s" then (cstr (default (bytes_of "(null)") (arg_str ap)), 1%nat, true)
  else if c0 =? chr "%" then ([chr "%"], 1%nat, false)
  else ([chr "%"; c0], 1%nat, false).

(** The loop over the format; a [%] at the end prints nothing. *)
Fixpoint uvprintf (fuel : nat) (fmt : list Z) (ap : list varg) : list Z :=
  match fuel with
  | O => []
  | S fuel =>
      if hd0 fmt =? 0 then [] else
      if negb (hd0 fmt =? chr "%") then hd0 fmt :: uvprintf fuel (tl fmt) ap else
      let fmt := tl fmt in
      let c0 := hd0 fmt in
      if c0 =? 0 then [] else
      let c1 := hd0 (tl fmt) in
      let c2 := if negb (c1 =? 0) then hd0 (tl (tl fmt)) else 0 in
      let '(out, k, takes) := uconversion c0 c1 c2 ap in
      out ++ uvprintf fuel (drop k fmt) (if takes then tl ap else ap)
  end.

Definition fprintf (fmt : string) (ap : list varg) : list Z := uvprintf (String.length fmt) (bytes_of fmt) ap.

(** ** Lemmas *)

#[export] Instance digits_upper : Digits udigits.
Proof. intros d Hd; by_digit d. Qed.

Lemma decimal_digit d : 0 <= d < 10 -> aget 0 udigits d = 48 + d.
Proof.
  intros Hd; assert (d ∈ zrange 0 10) as H by (apply elem_of_zrange; simpl; lia).
  cbn [zrange] in H; rewrite !elem_of_cons, elem_of_nil in H; destruct_or? H; by subst d.
Qed.

Lemma decimal_digits fuel x : Forall (fun c => 48 <= c <= 57) (print_digits udigits 10 fuel x).
Proof.
  revert x; induction fuel as [|fuel IH]; intros x; cbn [print_digits]; constructor.
  - pose proof (Z.mod_pos_bound x 10); rewrite decimal_digit; lia.
  - destruct (_ =? 0); auto.
Qed.

(** What [uprintint] prints reads back as the low 32 bits. *)
Lemma uprintint_reads xx base sgn : base = 10 \/ base = 16 ->
  read_int base (uprintint xx base sgn) = if sgn && (xx <? 0) then - u32 (- xx) else u32 xx.
Proof.
  intros Hb; unfold uprintint; set (neg := sgn && (xx <? 0)); change 32%nat with (S 31).
  rewrite (read_int_digits udigits base ltac:(lia) 31 (if neg then u32 (- xx) else u32 xx) neg); [by destruct neg|].
  destruct neg; apply u32_range.
Qed.

(** [atoi] of decimal digits whose value is an [int]. *)
Lemma atoi_digits l n :
  Forall (fun c => 48 <= c <= 57) l -> 0 <= n ->
  let v := foldl (fun acc c => acc * 10 + digit_val c) n l in n <= v /\ (v < 2 ^ 31 -> atoi_loop n l = v).
Proof.
  intros Hl; revert n; induction Hl as [|c l Hc _ IH]; intros n Hn; cbn [foldl atoi_loop]; [lia|].
  assert (digit_val c = c - 48) as Hd by (unfold digit_val; destruct (Z.leb_spec c 57); lia).
  rewrite Hd; destruct (IH (n * 10 + (c - 48)) ltac:(lia)) as [H1 H2]; cbn zeta in *; split; [lia|]; intros Hv.
  rewrite (proj2 (Z.leb_le 48 c)), (proj2 (Z.leb_le c 57)) by lia; cbn [andb].
  rewrite s32_small by lia; replace (n * 10 + c - 48) with (n * 10 + (c - 48)) by lia; auto.
Qed.

Lemma decimal_read x : 0 <= x -> x < 2 ^ 31 -> atoi (uprintint x 10 true) = x.
Proof.
  intros H0 H1; unfold uprintint; rewrite (proj2 (Z.ltb_ge x 0)) by lia; cbn [andb]; rewrite u32_small by lia.
  pose proof (read_digits udigits 10 ltac:(lia) 32 x ltac:(lia)) as Hr; unfold read_num in Hr.
  destruct (atoi_digits (rev (print_digits udigits 10 32 x)) 0) as [_ H]; [apply Forall_rev, decimal_digits|lia|].
  rewrite Hr in H; by apply H.
Qed.

(** A user program's ["%d"] prints an [int] exactly: the output reads back as
    the argument, and [atoi] of it is the argument when it is not negative.  *)
Theorem printf_d_exact x :
  - 2 ^ 31 <= x < 2 ^ 31 ->
  read_int 10 (fprintf "%d" [VNum x]) = x /\ (0 <= x -> atoi (fprintf "%d" [VNum x]) = x).
Proof.
  intros Hx; assert (fprintf "%d" [VNum x] = uprintint x 10 true) as ->.
  { change (fprintf "%d" [VNum x]) with (uprintint (s32 x) 10 true ++ []); by rewrite app_nil_r, s32_small. }
  split; [|intros Hx0; apply decimal_read; [exact Hx0|apply Hx]].
  rewrite uprintint_reads by lia; cbn [andb]; destruct (Z.ltb_spec x 0); rewrite u32_small; lia.
Qed.

Lemma printf_d_exact_witness : read_int 10 (fprintf "%d" [VNum 2025]) = 2025 /\ atoi (fprintf "%d" [VNum 2025]) = 2025.
Proof. destruct (printf_d_exact 2025) as [H1 H2]; [lia|]; split; [exact H1|apply H2; lia]. Defined.

(** The 64-bit conversions of a user program's [printf] lose the upper half of
    their argument: ["%lu"] and ["%lx"] print the number modulo [2 ^ 32].  The
    kernel's [printf] prints all of it. *)
Theorem printf_l_truncates x :
  0 <= x < 2 ^ 64 ->
  read_int 10 (fprintf "%lu" [VNum x]) = x mod 2 ^ 32 /\ read_int 16 (fprintf "%lx" [VNum x]) = x mod 2 ^ 32.
Proof.
  intros Hx; assert (u32 (s64 x) = x mod 2 ^ 32) as Hu.
  { unfold u32, s64; rewrite Zminus_mod, <- Znumtheory.Zmod_div_mod by (lia || (exists (2 ^ 32); lia)).
    rewrite <- Zminus_mod; f_equal; lia. }
  change (fprintf "%lu" [VNum x]) with (uprintint (s64 x) 10 false ++ []).
  change (fprintf "%lx" [VNum x]) with (uprintint (s64 x) 16 false ++ []).
  rewrite !app_nil_r, !uprintint_reads by lia; cbn [andb]; done.
Qed.

Lemma printf_l_truncates_witness : fprintf "%lu" [VNum (2 ^ 32)] = bytes_of "0" /\ read_int 10 (fprintf "%lu" [VNum (2 ^ 32)]) = 2 ^ 32 mod 2 ^ 32.
Proof. split; [by vm_compute|]; apply (printf_l_truncates (2 ^ 32)); lia. Defined.
