(* ===== verification/Sh.v ===== *)
(** * The shell's parser, [user/sh.c]

    A pointer into the command line is the part of the line from there to [es]:
    [*s] is [hd0 s], [s < es] says that it is not empty.  The line has no null byte
    before [es], since [es] is [s + strlen(s)].  A parsed command holds positions in
    the line, as the code does; [nulterminate] then stores the null bytes that end
    the strings in the line itself.

    A parser returns a command and the rest of the line, or ends in [panic]; [PFuel]
    marks a loop that did not end, which the theorems exclude. *)

From S2P Require Import Prelude CString Ulib Printf.

Definition MAXARGS : nat := 10.
Definition O_RDONLY : Z := 0.
Definition O_WRONLY : Z := 1.
Definition O_CREATE : Z := 512.
Definition O_TRUNC : Z := 1024.

(** A string of the line: [q] and [eq]. *)
Definition span : Type := nat * nat.

(** [struct cmd] and its five variants, with strings of type [A]. *)
Inductive command (A : Type) :=
| EXEC (argv : list A)
| REDIR (c : command A) (file : A) (mode fd : Z)
| PIPE (left right : command A)
| LIST (left right : command A)
| BACK (c : command A).
Arguments EXEC {A}.
Arguments REDIR {A}.
Arguments PIPE {A}.
Arguments LIST {A}.
Arguments BACK {A}.

Definition cmd : Type := command span.

(** The constructors; [malloc] succeeds. *)
Definition execcmd : cmd := EXEC [].
Definition redircmd (subcmd : cmd) (file : span) (mode fd : Z) : cmd := REDIR subcmd file mode fd.
Definition pipecmd (left right : cmd) : cmd := PIPE left right.
Definition listcmd (left right : cmd) : cmd := LIST left right.
Definition backcmd (subcmd : cmd) : cmd := BACK subcmd.

Inductive pres (A : Type) :=
| PRet (a : A) (rest : list Z)
| PPanic (msg : string)
| PFuel.
Arguments PRet {A}.
Arguments PPanic {A}.
Arguments PFuel {A}.

Definition pbind {A B} (r : pres A) (f : A -> list Z -> pres B) : pres B :=
  match r with PRet a l => f a l | PPanic m => PPanic m | PFuel => PFuel end.

Definition whitespace : list Z := [32; 9; 13; 10; 11].
Definition symbols : list Z := bytes_of "<|>&;()".

(** [strchr(set, c)] as a condition. *)
Definition in_set (set : list Z) (c : Z) : bool := match strchr set c with Some _ => true | None => false end.

Fixpoint skip_space (s : list Z) : list Z :=
  match s with
  | [] => []
  | c :: s' => if in_set whitespace c then skip_space s' else s
  end.
Fixpoint skip_word (s : list Z) : list Z :=
  match s with
  | [] => []
  | c :: s' => if negb (in_set whitespace c) && negb (in_set symbols c) then skip_word s' else s
  end.

(** The result is the token, [*q], [*eq] and [*ps]. *)
Definition gettoken (s : list Z) : Z * list Z * list Z * list Z :=
  let q := skip_space s in
  let c := hd0 q in
  let '(ret, eq) :=
    if c =? 0 then (0, q)
    else if in_set (bytes_of "|();&<") c then (c, tl q)
    else if c =? chr ">" then (if hd0 (tl q) =? chr ">" then (chr "+", tl (tl q)) else (c, tl q))
    else (chr "a", skip_word q) in
  (ret, q, eq, skip_space eq).

Definition peek (s : list Z) (toks : string) : bool * list Z :=
  let s := skip_space s in (negb (hd0 s =? 0) && in_set (bytes_of toks) (hd0 s), s).

(** [cmd->argv[argc] = q; cmd->eargv[argc] = eq] in the node [execcmd()] returned,
    which the redirections parsed so far are wrapped around. *)
Fixpoint add_arg {A} (c : command A) (a : A) : command A :=
  match c with
  | EXEC argv => EXEC (argv ++ [a])
  | REDIR c f m d => REDIR (add_arg c a) f m d
  | c => c
  end.

Section parser.
(** The length of the line. *)
Context (es : nat).

Definition pos (s : list Z) : nat := es - length s.

Fixpoint parseredirs (fuel : nat) (c : cmd) (s : list Z) : pres cmd :=
  match fuel with
  | O => PFuel
  | S fuel =>
      let '(more, s) := peek s "<>" in
      if negb more then PRet c s else
      let '(tok, _, _, s) := gettoken s in
      let '(tok2, q, eq, s) := gettoken s in
      if negb (tok2 =? chr "a") then PPanic "missing file for redirection" else
      let file := (pos q, pos eq) in
      let c :=
        if tok =? chr "<" then redircmd c file O_RDONLY 0
        else if tok =? chr ">" then redircmd c file (Z.lor (Z.lor O_WRONLY O_CREATE) O_TRUNC) 1
        else if tok =? chr "+" then redircmd c file (Z.lor O_WRONLY O_CREATE) 1
        else c in
      parseredirs fuel c s
  end.

(** The recursive calls of [parseline] are those of its argument. *)
Section line.
Context (parseline : list Z -> pres cmd).

Definition parseblock (s : list Z) : pres cmd :=
  let '(open, s) := peek s "(" in
  if negb open then PPanic "parseblock" else
  let '(_, _, _, s) := gettoken s in
  pbind (parseline s) (fun c s =>
  let '(close, s) := peek s ")" in
  if negb close then PPanic "syntax - missing )" else
  let '(_, _, _, s) := gettoken s in
  parseredirs (S (length s)) c s).

(** The loop of [parseexec] over the arguments. *)
Fixpoint parse_args (fuel argc : nat) (ret : cmd) (s : list Z) : pres cmd :=
  match fuel with
  | O => PFuel
  | S fuel =>
      let '(stop, s) := peek s "|)&;" in
      if stop then PRet ret s else
      let '(tok, q, eq, s) := gettoken s in
      if tok =? 0 then PRet ret s else
      if negb (tok =? chr "a") then PPanic "syntax" else
      let ret := add_arg ret (pos q, pos eq) in
      let argc := S argc in
      if bool_decide (MAXARGS <= argc)%nat then PPanic "too many args" else
      pbind (parseredirs (S (length s)) ret s) (fun ret s => parse_args fuel argc ret s)
  end.

Definition parseexec (s : list Z) : pres cmd :=
  let '(block, s) := peek s "(" in
  if block then parseblock s else
  pbind (parseredirs (S (length s)) execcmd s) (fun ret s => parse_args (S (length s)) 0 ret s).

Fixpoint parsepipe (fuel : nat) (s : list Z) : pres cmd :=
  match fuel with
  | O => PFuel
  | S fuel =>
      pbind (parseexec s) (fun c s =>
      let '(more, s) := peek s "|" in
      if more then
        let '(_, _, _, s) := gettoken s in
        pbind (parsepipe fuel s) (fun r s => PRet (pipecmd c r) s)
      else PRet c s)
  end.
End line.

(** The [&] loop of [parseline]. *)
Fixpoint parse_back (fuel : nat) (c : cmd) (s : list Z) : pres cmd :=
  match fuel with
  | O => PFuel
  | S fuel =>
      let '(more, s) := peek s "&" in
      if more then let '(_, _, _, s) := gettoken s in parse_back fuel (backcmd c) s else PRet c s
  end.

Fixpoint parseline (fuel : nat) (s : list Z) : pres cmd :=
  match fuel with
  | O => PFuel
  | S fuel =>
      pbind (parsepipe (parseline fuel) (S (length s)) s) (fun c s =>
      pbind (parse_back (S (length s)) c s) (fun c s =>
      let '(more, s) := peek s ";" in
      if more then
        let '(_, _, _, s) := gettoken s in
        pbind (parseline fuel s) (fun r s => PRet (listcmd c r) s)
      else PRet c s))
  end.
End parser.

(** [*eq = 0]. *)
Definition put_nul (buf : list Z) (a : span) : list Z := <[a.2 := 0]> buf.

(** [nulterminate]: the buffer that holds the line, after the stores. *)
Fixpoint nulterminate (c : cmd) (buf : list Z) : list Z :=
  match c with
  | EXEC argv => foldl put_nul buf argv
  | REDIR c f _ _ => put_nul (nulterminate c buf) f
  | PIPE l r | LIST l r => nulterminate r (nulterminate l buf)
  | BACK c => nulterminate c buf
  end.

(** The command, with what the line's buffer holds after [nulterminate]. *)
Definition parsecmd (s : list Z) : pres cmd * list Z :=
  match parseline (length s) (S (length s)) s with
  | PRet c rest =>
      let '(_, rest) := peek rest "" in
      if negb (bool_decide (rest = [])) then (PPanic "syntax", s ++ [0])
      else (PRet c rest, nulterminate c (s ++ [0]))
  | PPanic m => (PPanic m, s ++ [0])
  | PFuel => (PFuel, s ++ [0])
  end.

(** ** Tokens *)

Definition wordc (c : Z) : Prop := c <> 0 /\ in_set whitespace c = false /\ in_set symbols c = false.

#[global] Instance wordc_dec c : Decision (wordc c).
Proof. unfold wordc; apply _. Defined.

Lemma in_set_elem set c : c <> 0 -> Forall (fun x => x <> 0) set -> in_set set c = true <-> c ∈ set.
Proof.
  intros Hc Hs; unfold in_set; destruct (strchr set c) as [n|] eqn:E.
  - apply strchr_some in E as [-> _]; split; [|done]; intros _; apply elem_of_app; right; left.
  - apply strchr_absent in E; [|done]; split; [done|]; intros Hin; rewrite Forall_forall in E; by destruct (E c Hin).
Qed.

Lemma skip_space_suffix s : skip_space s `suffix_of` s.
Proof. induction s as [|c s IH]; cbn [skip_space]; [done|]; destruct (in_set _ _); [by apply suffix_cons_r|done]. Qed.

Lemma skip_space_hd s : in_set whitespace (hd0 (skip_space s)) = false.
Proof. induction s as [|c s IH]; cbn [skip_space]; [done|]; by destruct (in_set whitespace c) eqn:E. Qed.

Lemma skip_space_id s : in_set whitespace (hd0 s) = false -> skip_space s = s.
Proof. destruct s as [|c s]; [done|]; cbn [skip_space hd0 hd]; by intros ->. Qed.

Lemma skip_space_idem s : skip_space (skip_space s) = skip_space s.
Proof. apply skip_space_id, skip_space_hd. Qed.

(** The word at the beginning of a string. *)
Lemma skip_word_spec s : Forall (fun x => x <> 0) s ->
  exists w, s = w ++ skip_word s /\ Forall wordc w /\ ~ wordc (hd0 (skip_word s)).
Proof.
  induction 1 as [|c s Hc _ IH]; cbn [skip_word]; [exists []; split_and!; [done|done|by intros []]|].
  destruct (in_set whitespace c) eqn:E1; cbn [negb andb]; [exists []; split_and!; [done|done|intros (? & ? & ?); simplify_eq/=; congruence]|].
  destruct (in_set symbols c) eqn:E2; cbn [negb]; [exists []; split_and!; [done|done|intros (? & ? & ?); simplify_eq/=; congruence]|].
  destruct IH as (w & E & Hw & He); exists (c :: w); split_and!; [cbn; congruence|by repeat constructor|done].
Qed.

Lemma nonzero_suffix (l s : list Z) : l `suffix_of` s -> Forall (fun x => x <> 0) s -> Forall (fun x => x <> 0) l.
Proof. intros [k ->] [_ H]%Forall_app; done. Qed.

Lemma tl_suffix (s : list Z) : tl s `suffix_of` s.
Proof. destruct s; [done|by apply suffix_cons_r]. Qed.

(** The symbols are what the cases of [gettoken]'s switch cover. *)
Lemma symbols_cases c : c <> 0 -> in_set symbols c = in_set (bytes_of "|();&<") c || (c =? chr ">").
Proof.
  intros Hc; apply eq_true_iff_eq; rewrite orb_true_iff, Z.eqb_eq, !in_set_elem by (first [done|repeat constructor; done]).
  unfold symbols; cbn [bytes_of]; rewrite !elem_of_cons, elem_of_nil; naive_solver.
Qed.

Lemma gettoken_spec s tok q eq r :
  Forall (fun x => x <> 0) s -> gettoken s = (tok, q, eq, r) ->
  q `suffix_of` s /\ eq `suffix_of` q /\ r `suffix_of` eq /\
  (tok = 0 -> r = []) /\ (tok <> 0 -> (length eq < length q)%nat) /\
  (tok = chr "a" -> exists w, q = w ++ eq /\ w <> [] /\ Forall wordc w /\ ~ wordc (hd0 eq)).
Proof.
  intros Hs; unfold gettoken; set (q0 := skip_space s); pose proof (skip_space_suffix s) as Hq; fold q0 in Hq.
  pose proof (nonzero_suffix q0 s Hq Hs) as Hz; pose proof (skip_space_hd s) as Hsp; fold q0 in Hsp.
  destruct (Z.eqb_spec (hd0 q0) 0) as [E0|E0].
  { intros [= <- <- <- <-]; destruct q0 as [|c q0]; [|by apply Forall_cons in Hz as [? _]]; by split_and!. }
  assert (length (tl q0) < length q0)%nat as Hlt by (destruct q0; simpl; [done|lia]).
  destruct (in_set (bytes_of "|();&<") (hd0 q0)) eqn:E1.
  { intros [= <- <- <- <-]; split_and!; auto using tl_suffix, skip_space_suffix; [done|].
    intros E; by rewrite E in E1. }
  destruct (Z.eqb_spec (hd0 q0) (chr ">")) as [E2|E2].
  { destruct (hd0 (tl q0) =? chr ">"); intros [= <- <- <- <-]; split_and!; auto using tl_suffix, skip_space_suffix; try done.
    - by etrans; apply tl_suffix.
    - intros _; destruct q0 as [|? [|? ?]]; simpl in *; lia.
    - by rewrite E2. }
  intros [= <- <- <- <-]; destruct (skip_word_spec q0 Hz) as (w & Ew & Hw & He).
  assert (w <> []) as Hne.
  { intros ->; cbn [app] in Ew; rewrite <- Ew in He; apply He; split_and!; [done|done|].
    rewrite symbols_cases, E1 by done; by apply Z.eqb_neq in E2 as ->. }
  split_and!; auto using skip_space_suffix; [by exists w|done| |by exists w].
  intros _; rewrite Ew at 2; rewrite length_app; destruct w; [done|simpl; lia].
Qed.

(** ** Well-formed commands *)

(** A span is a word of the line: nonempty, maximal, without white space or symbols. *)
Definition word_span (buf : list Z) (a : span) : Prop :=
  exists pre w post, buf = pre ++ w ++ post /\ a = (length pre, length pre + length w)%nat /\
    w <> [] /\ Forall wordc w /\ ~ wordc (hd0 post).

(** The modes and descriptors of [<], [>] and [>>]. *)
Definition redir_ok (mode fd : Z) : Prop :=
  (mode = O_RDONLY /\ fd = 0) \/ (mode = Z.lor (Z.lor O_WRONLY O_CREATE) O_TRUNC /\ fd = 1) \/ (mode = Z.lor O_WRONLY O_CREATE /\ fd = 1).

(** [argv] leaves room for the null pointer that ends it. *)
Fixpoint cmd_wf (buf : list Z) (c : cmd) : Prop :=
  match c with
  | EXEC argv => Forall (word_span buf) argv /\ (length argv < MAXARGS)%nat
  | REDIR c f m d => cmd_wf buf c /\ word_span buf f /\ redir_ok m d
  | PIPE l r | LIST l r => cmd_wf buf l /\ cmd_wf buf r
  | BACK c => cmd_wf buf c
  end.

(** A node of [execcmd] with [n] arguments, in redirections. *)
Fixpoint simple (n : nat) (c : cmd) : Prop :=
  match c with
  | EXEC argv => length argv = n
  | REDIR c _ _ _ => simple n c
  | _ => False
  end.

(** The run ends, and in [Q] unless it panics. *)
Definition pwp {A} (r : pres A) (Q : A -> list Z -> Prop) : Prop :=
  match r with PRet a s => Q a s | PPanic _ => True | PFuel => False end.

Lemma pwp_bind {A B} (r : pres A) (f : A -> list Z -> pres B) Q R :
  pwp r R -> (forall a s, R a s -> pwp (f a s) Q) -> pwp (pbind r f) Q.
Proof. destruct r; simpl; auto. Qed.

Lemma pwp_mono {A} (r : pres A) (Q R : A -> list Z -> Prop) : pwp r R -> (forall a s, R a s -> Q a s) -> pwp r Q.
Proof. destruct r; simpl; auto. Qed.

Section wf.
Context (buf : list Z) (Hbuf : Forall (fun x => x <> 0) buf).

(** A position in the line. *)
Definition inside (s : list Z) : Prop := s `suffix_of` buf.

Lemma inside_sub s s' : inside s -> s' `suffix_of` s -> inside s'.
Proof. unfold inside; intros H1 H2; by etrans. Qed.

Lemma inside_nonzero s : inside s -> Forall (fun x => x <> 0) s.
Proof. intros H; by eapply nonzero_suffix. Qed.

Lemma peek_spec s toks b s' : peek s toks = (b, s') ->
  s' = skip_space s /\ s' `suffix_of` s /\ (length s' <= length s)%nat /\ (b = true -> s' <> []).
Proof.
  unfold peek; intros [= <- <-]; pose proof (skip_space_suffix s) as H; split_and!; auto.
  - by apply suffix_length.
  - by destruct (skip_space s).
Qed.

(** What [gettoken] leaves when there is a token. *)
Lemma token_shrinks s tok q eq r :
  inside s -> s <> [] -> skip_space s = s -> gettoken s = (tok, q, eq, r) -> inside r /\ (length r < length s)%nat.
Proof.
  intros Hi Hne Hsp Ht; pose proof (inside_nonzero s Hi) as Hz.
  destruct (gettoken_spec _ _ _ _ _ Hz Ht) as (H1 & H2 & H3 & H4 & H5 & _).
  assert (r `suffix_of` s) as Hr by (etrans; [exact H3|etrans; eassumption]); split; [by eapply inside_sub|].
  apply suffix_length in H1, H3; destruct (decide (tok = 0)) as [E|E]; [rewrite (H4 E); destruct s; [done|simpl; lia]|].
  specialize (H5 E); lia.
Qed.

Lemma token_word s q eq r :
  inside s -> gettoken s = (chr "a", q, eq, r) ->
  inside r /\ (length r < length s)%nat /\ word_span buf (pos (length buf) q, pos (length buf) eq).
Proof.
  intros Hi Ht; pose proof (inside_nonzero s Hi) as Hz.
  destruct (gettoken_spec _ _ _ _ _ Hz Ht) as (H1 & H2 & H3 & _ & H5 & H6).
  assert (r `suffix_of` s) as Hr by (etrans; [exact H3|etrans; eassumption]); split_and!; [by eapply inside_sub| |].
  - apply suffix_length in H1, H3; specialize (H5 ltac:(done)); lia.
  - destruct (H6 eq_refl) as (w & -> & Hw & Hc & He); destruct (inside_sub _ _ Hi H1) as [pre E].
    exists pre, w, eq; split_and!; auto; unfold pos; rewrite E, !length_app; f_equal; lia.
Qed.

Lemma add_arg_wf n c a : simple n c -> cmd_wf buf c -> word_span buf a -> (S n < MAXARGS)%nat ->
  simple (S n) (add_arg c a) /\ cmd_wf buf (add_arg c a).
Proof.
  induction c as [argv|c IH f m d| | |]; cbn [simple add_arg cmd_wf]; try done.
  - intros Hn [H1 H2] Ha Hm; rewrite length_app; cbn [length]; split_and!; [lia|apply Forall_app; auto|lia].
  - intros Hn (H1 & H2 & H3) Ha Hm; destruct (IH Hn H1 Ha Hm); auto.
Qed.

Lemma parseredirs_wf fuel c s n :
  (length s < fuel)%nat -> inside s -> cmd_wf buf c ->
  pwp (parseredirs (length buf) fuel c s) (fun c' r => cmd_wf buf c' /\ (simple n c -> simple n c') /\ inside r /\ (length r <= length s)%nat).
Proof.
  revert c s; induction fuel as [|fuel IH]; intros c s Hf Hi Hc; [lia|]; cbn [parseredirs].
  destruct (peek s "<>") as [more s1] eqn:Ep; destruct (peek_spec _ _ _ _ Ep) as (E1 & Hsub & Hlen & Hne).
  assert (inside s1) as Hi1 by by eapply inside_sub.
  destruct more; cbn [negb]; [|cbn; auto]; specialize (Hne eq_refl).
  destruct (gettoken s1) as [[[tok ?] ?] s2] eqn:Et; destruct (token_shrinks s1 _ _ _ s2 Hi1 Hne ltac:(subst; apply skip_space_idem) Et) as [Hi2 Hl2].
  destruct (gettoken s2) as [[[tok2 q] eq] s3] eqn:Et2; destruct (Z.eqb_spec tok2 (chr "a")) as [->|]; [|done]; cbn [negb].
  destruct (token_word s2 q eq s3 Hi2 Et2) as (Hi3 & Hl3 & Hw).
  eapply pwp_mono; [apply (IH _ s3); [lia|done|]|].
  - repeat case_match; cbn [cmd_wf redircmd]; unfold redir_ok; auto 6.
  - cbn beta; intros c' r (H1 & H2 & H3 & H4); split_and!; auto; [|lia]; intros Hsi; apply H2; by repeat case_match.
Qed.

Lemma parse_args_wf fuel n c s :
  (length s < fuel)%nat -> inside s -> simple n c -> cmd_wf buf c ->
  pwp (parse_args (length buf) fuel n c s) (fun c' r => cmd_wf buf c' /\ inside r /\ (length r <= length s)%nat).
Proof.
  revert n c s; induction fuel as [|fuel IH]; intros n c s Hf Hi Hn Hc; [lia|]; cbn [parse_args].
  destruct (peek s "|)&;") as [stop s1] eqn:Ep; destruct (peek_spec _ _ _ _ Ep) as (E1 & Hsub & Hlen & _).
  assert (inside s1) as Hi1 by by eapply inside_sub.
  destruct stop; [cbn; auto|]; destruct (gettoken s1) as [[[tok q] eq] s2] eqn:Et.
  destruct (Z.eqb_spec tok 0) as [->|]; [cbn; split_and!; auto|].
  { destruct (gettoken_spec _ _ _ _ _ (inside_nonzero _ Hi1) Et) as (_ & _ & _ & H4 & _); rewrite H4 by done; apply suffix_nil. }
  { destruct (gettoken_spec _ _ _ _ _ (inside_nonzero _ Hi1) Et) as (_ & _ & _ & H4 & _); rewrite H4 by done; simpl; lia. }
  destruct (Z.eqb_spec tok (chr "a")) as [->|]; [|done]; cbn [negb].
  destruct (token_word s1 q eq s2 Hi1 Et) as (Hi2 & Hl2 & Hw); case_bool_decide as Hmax; [done|].
  destruct (add_arg_wf n c _ Hn Hc Hw ltac:(lia)) as [Hn' Hc'].
  eapply pwp_bind; [apply (parseredirs_wf _ _ _ (S n)); [lia|done|done]|]; cbn beta.
  intros c' r (H1 & H2 & H3 & H4); eapply pwp_mono; [apply IH; [lia|done|auto|done]|]; cbn beta.
  intros c'' r' (? & ? & ?); split_and!; auto; lia.
Qed.

Definition parses (p : list Z -> pres cmd) (s : list Z) : Prop :=
  pwp (p s) (fun c r => cmd_wf buf c /\ inside r /\ (length r <= length s)%nat).

Lemma parses_from p (s s' : list Z) : parses p s' -> (length s' <= length s)%nat ->
  pwp (p s') (fun c r => cmd_wf buf c /\ inside r /\ (length r <= length s)%nat).
Proof. intros H Hl; eapply pwp_mono; [exact H|]; cbn beta; intros c r (? & ? & ?); split_and!; auto; lia. Qed.

(** After a successful [peek], [gettoken] consumes. *)
Lemma peek_token s toks s1 tok q eq s2 :
  inside s -> peek s toks = (true, s1) -> gettoken s1 = (tok, q, eq, s2) -> inside s2 /\ (length s2 < length s)%nat.
Proof.
  intros Hi Hp Ht; destruct (peek_spec _ _ _ _ Hp) as (E1 & Hsub & Hlen & Hne).
  destruct (token_shrinks s1 tok q eq s2) as [H1 H2]; [by eapply inside_sub|by apply Hne|subst; apply skip_space_idem|done|].
  split; [done|lia].
Qed.

Lemma peek_inside s toks b s1 : inside s -> peek s toks = (b, s1) -> inside s1 /\ (length s1 <= length s)%nat.
Proof. intros Hi Hp; destruct (peek_spec _ _ _ _ Hp) as (_ & Hsub & Hlen & _); split; [by eapply inside_sub|done]. Qed.

Section sub.
Context (line : list Z -> pres cmd) (bound : nat).
Hypothesis Hline : forall s, inside s -> (length s < bound)%nat -> parses line s.

Lemma parseblock_wf s : inside s -> (length s <= bound)%nat -> parses (parseblock (length buf) line) s.
Proof.
  intros Hi Hb; unfold parses, parseblock; destruct (peek s "(") as [open s1] eqn:Ep; destruct open; [|done]; cbn [negb].
  destruct (gettoken s1) as [[[? ?] ?] s2] eqn:Et; destruct (peek_token _ _ _ _ _ _ _ Hi Ep Et) as [Hi2 Hl2].
  eapply pwp_bind; [apply (Hline s2 Hi2); lia|]; cbn beta; intros c r (Hc & Hr & Hlr).
  destruct (peek r ")") as [close s3] eqn:Ep3; destruct close; [|done]; cbn [negb].
  destruct (gettoken s3) as [[[? ?] ?] s4] eqn:Et4; destruct (peek_token _ _ _ _ _ _ _ Hr Ep3 Et4) as [Hi4 Hl4].
  eapply pwp_mono; [apply (parseredirs_wf _ _ _ 0); auto|]; cbn beta; intros c' r' (? & ? & ? & ?); split_and!; auto; lia.
Qed.

Lemma parseexec_wf s : inside s -> (length s <= bound)%nat -> parses (parseexec (length buf) line) s.
Proof.
  intros Hi Hb; unfold parses, parseexec; destruct (peek s "(") as [open s1] eqn:Ep.
  destruct (peek_inside _ _ _ _ Hi Ep) as [Hi1 Hl1]; destruct open.
  - apply parses_from; [apply parseblock_wf; [done|lia]|done].
  - eapply pwp_bind; [apply (parseredirs_wf _ _ _ 0); [lia|done|split; [done|unfold MAXARGS; simpl; lia]]|]; cbn beta.
    intros c r (Hc & Hsi & Hr & Hlr); eapply pwp_mono; [apply (parse_args_wf _ 0); auto|]; cbn beta.
    + by apply Hsi.
    + intros c' r' (? & ? & ?); split_and!; auto; lia.
Qed.

Lemma parsepipe_wf fuel s : (length s < fuel)%nat -> inside s -> (length s <= bound)%nat -> parses (parsepipe (length buf) line fuel) s.
Proof.
  revert s; induction fuel as [|fuel IH]; intros s Hf Hi Hb; [lia|]; unfold parses; cbn [parsepipe].
  eapply pwp_bind; [by apply parseexec_wf|]; cbn beta; intros c r (Hc & Hr & Hlr).
  destruct (peek r "|") as [more s1] eqn:Ep; destruct (peek_inside _ _ _ _ Hr Ep) as [Hi1 Hl1].
  destruct more; [|cbn; split_and!; auto; lia].
  destruct (gettoken s1) as [[[? ?] ?] s2] eqn:Et; destruct (peek_token _ _ _ _ _ _ _ Hr Ep Et) as [Hi2 Hl2].
  eapply pwp_bind; [apply (IH s2); [lia|done|lia]|]; cbn beta; intros c' r' (? & ? & ?); cbn; split_and!; auto; lia.
Qed.
End sub.

Lemma parse_back_wf fuel c s : (length s < fuel)%nat -> inside s -> cmd_wf buf c -> parses (parse_back fuel c) s.
Proof.
  revert c s; induction fuel as [|fuel IH]; intros c s Hf Hi Hc; [lia|]; unfold parses; cbn [parse_back].
  destruct (peek s "&") as [more s1] eqn:Ep; destruct (peek_inside _ _ _ _ Hi Ep) as [Hi1 Hl1].
  destruct more; [|cbn; split_and!; auto; lia].
  destruct (gettoken s1) as [[[? ?] ?] s2] eqn:Et; destruct (peek_token _ _ _ _ _ _ _ Hi Ep Et) as [Hi2 Hl2].
  apply parses_from; [apply IH; [lia|done|done]|lia].
Qed.

Lemma parseline_wf fuel s : (length s < fuel)%nat -> inside s -> parses (parseline (length buf) fuel) s.
Proof.
  revert s; induction fuel as [|fuel IH]; intros s Hf Hi; [lia|]; unfold parses; cbn [parseline].
  eapply pwp_bind; [apply (parsepipe_wf _ fuel); [intros; apply IH; [lia|done]|lia|done|lia]|]; cbn beta; intros c r (Hc & Hr & Hlr).
  eapply pwp_bind; [apply parse_back_wf; [lia|done|done]|]; cbn beta; intros c' r' (Hc' & Hr' & Hlr').
  destruct (peek r' ";") as [more s1] eqn:Ep; destruct (peek_inside _ _ _ _ Hr' Ep) as [Hi1 Hl1].
  destruct more; [|cbn; split_and!; auto; lia].
  destruct (gettoken s1) as [[[? ?] ?] s2] eqn:Et; destruct (peek_token _ _ _ _ _ _ _ Hr' Ep Et) as [Hi2 Hl2].
  eapply pwp_bind; [apply (IH s2); [lia|done]|]; cbn beta; intros c2 r2 (? & ? & ?); cbn; split_and!; auto; lia.
Qed.
End wf.

(** ** The strings of a command *)

Fixpoint map_strings {A B} (f : A -> B) (c : command A) : command B :=
  match c with
  | EXEC argv => EXEC (f <$> argv)
  | REDIR c a m d => REDIR (map_strings f c) (f a) m d
  | PIPE l r => PIPE (map_strings f l) (map_strings f r)
  | LIST l r => LIST (map_strings f l) (map_strings f r)
  | BACK c => BACK (map_strings f c)
  end.

Fixpoint strings {A} (c : command A) : list A :=
  match c with
  | EXEC argv => argv
  | REDIR c a _ _ => a :: strings c
  | PIPE l r | LIST l r => strings l ++ strings r
  | BACK c => strings c
  end.

Lemma map_strings_ext {A B} (f g : A -> B) c : (forall a, a ∈ strings c -> f a = g a) -> map_strings f c = map_strings g c.
Proof.
  induction c as [argv|c IH a m d|l IHl r IHr|l IHl r IHr|c IH]; cbn [map_strings strings]; intros H; f_equal.
  - by apply list_fmap_ext; intros i a Ha%list_elem_of_lookup_2; apply H.
  - apply IH; intros; apply H; by right.
  - apply H; by left.
  - apply IHl; intros; apply H, elem_of_app; by left.
  - apply IHr; intros; apply H, elem_of_app; by right.
  - apply IHl; intros; apply H, elem_of_app; by left.
  - apply IHr; intros; apply H, elem_of_app; by right.
  - by apply IH.
Qed.

(** The characters between [q] and [eq], and the string [q] points to. *)
Definition word_of (line : list Z) (a : span) : list Z := take (a.2 - a.1) (drop a.1 line).
Definition string_at (buf : list Z) (a : span) : list Z := cstr (drop a.1 buf).

Lemma wf_strings line c a : cmd_wf line c -> a ∈ strings c -> word_span line a.
Proof.
  induction c as [argv|c IH f m d|l IHl r IHr|l IHl r IHr|c IH]; cbn [cmd_wf strings].
  - intros [H _]; by rewrite Forall_forall in H; apply H.
  - intros (H1 & H2 & _) [->|]%elem_of_cons; auto.
  - intros [H1 H2] [|]%elem_of_app; auto.
  - intros [H1 H2] [|]%elem_of_app; auto.
  - auto.
Qed.

(** [nulterminate] stores a null byte at the end of every string, and nowhere else. *)
Lemma lookup_zeros (l : list span) buf i :
  foldl put_nul buf l !! i = if decide (i ∈ l.*2) then (fun _ => 0) <$> buf !! i else buf !! i.
Proof.
  revert buf; induction l as [|a l IH]; intros buf; cbn [foldl fmap list_fmap]; [done|].
  rewrite IH; unfold put_nul; destruct (decide (i = a.2)) as [->|Hne].
  - rewrite (decide_True _ _ (list_elem_of_here _ _)); destruct (decide (a.2 < length buf)%nat) as [Hl|Hl].
    + rewrite list_lookup_insert_eq by done; destruct (lookup_lt_is_Some_2 buf a.2 Hl) as [x ->]; by case_decide.
    + rewrite list_insert_ge by lia; rewrite lookup_ge_None_2 by lia; by case_decide.
  - rewrite list_lookup_insert_ne by done; destruct (decide (i ∈ l.*2)) as [Hin|Hin]; case_decide as H; try done.
    + by destruct H; right.
    + apply elem_of_cons in H as [|]; done.
Qed.

Lemma zeros_twice (l r : list nat) i (x : option Z) :
  (if decide (i ∈ r) then (fun _ => 0) <$> (if decide (i ∈ l) then (fun _ => 0) <$> x else x)
   else if decide (i ∈ l) then (fun _ => 0) <$> x else x) = if decide (i ∈ l ++ r) then (fun _ => 0) <$> x else x.
Proof.
  destruct (decide (i ∈ l ++ r)) as [H|H]; rewrite elem_of_app in H.
  - repeat case_decide; try (by destruct x); tauto.
  - repeat case_decide; tauto.
Qed.

Lemma nulterminate_zeros c buf i :
  nulterminate c buf !! i = if decide (i ∈ (strings c).*2) then (fun _ => 0) <$> buf !! i else buf !! i.
Proof.
  revert buf; induction c as [argv|c IH f m d|l IHl r IHr|l IHl r IHr|c IH]; intros buf; cbn [nulterminate strings].
  - apply lookup_zeros.
  - pose proof (lookup_zeros [f] (nulterminate c buf) i) as H; cbn [foldl fmap list_fmap] in H; rewrite H, IH, zeros_twice.
    rewrite (decide_ext _ (i ∈ (f :: strings c).*2)); [done|]; cbn [fmap list_fmap]; rewrite elem_of_app, !elem_of_cons, elem_of_nil; tauto.
  - by rewrite IHr, IHl, zeros_twice, fmap_app.
  - by rewrite IHr, IHl, zeros_twice, fmap_app.
  - apply IH.
Qed.

Lemma length_nulterminate c buf : length (nulterminate c buf) = length buf.
Proof.
  revert buf; induction c as [argv|c IH f m d|l IHl r IHr|l IHl r IHr|c IH]; intros buf; cbn [nulterminate]; auto.
  - revert buf; induction argv as [|a argv IH]; intros buf; cbn [foldl]; [done|]; rewrite IH; apply length_insert.
  - unfold put_nul; by rewrite length_insert, IH.
  - by rewrite IHr, IHl.
  - by rewrite IHr, IHl.
Qed.

(** The end of a word is no position inside a word. *)
Lemma word_end line pre w post a i :
  line = pre ++ w ++ post -> Forall wordc w -> word_span line a -> (length pre <= i < length pre + length w)%nat -> a.2 <> i.
Proof.
  intros E Hw (pre' & w' & post' & E' & -> & _ & _ & Hend) Hi; cbn [snd]; intros <-.
  assert (line !! (length pre' + length w')%nat = w !! (length pre' + length w' - length pre)%nat) as H1.
  { rewrite E, lookup_app_r, lookup_app_l by lia; done. }
  assert (line !! (length pre' + length w')%nat = head post') as H2.
  { rewrite E', lookup_app_r, lookup_app_r by lia; replace (_ - _ - _)%nat with 0%nat by lia; by destruct post'. }
  destruct (lookup_lt_is_Some_2 w (length pre' + length w' - length pre)%nat) as [x Hx]; [lia|].
  rewrite Hx in H1; rewrite H1 in H2; destruct post' as [|y post']; [done|]; injection H2 as ->.
  apply Hend; cbn; rewrite Forall_lookup in Hw; by eapply Hw.
Qed.

Lemma string_at_word line c a :
  Forall (fun x => x <> 0) line -> cmd_wf line c -> a ∈ strings c -> string_at (nulterminate c (line ++ [0])) a = word_of line a.
Proof.
  intros Hz Hwf Ha; destruct (wf_strings _ _ _ Hwf Ha) as (pre & w & post & E & Ea & Hne & Hw & Hend).
  set (buf := nulterminate c (line ++ [0])).
  assert (word_of line a = w) as ->.
  { unfold word_of; rewrite Ea, E; cbn [fst snd]; rewrite drop_app_length.
    by replace (length pre + length w - length pre)%nat with (length w) by lia; rewrite take_app_length. }
  assert (forall i, (length pre <= i < length pre + length w)%nat -> buf !! i = w !! (i - length pre)%nat) as Hin.
  { intros i Hi; unfold buf; rewrite nulterminate_zeros, decide_False.
    - rewrite E, <- app_assoc, lookup_app_r, <- app_assoc, lookup_app_l by lia; done.
    - intros (a' & -> & Ha')%list_elem_of_fmap; by apply (word_end line pre w post a' _ E Hw (wf_strings _ _ _ Hwf Ha') Hi). }
  assert (buf !! (length pre + length w)%nat = Some 0) as Hzero.
  { unfold buf; rewrite nulterminate_zeros, decide_True by (apply list_elem_of_fmap; exists a; split; [by rewrite Ea|done]).
    destruct (lookup_lt_is_Some_2 (line ++ [0]) (length pre + length w)) as [x ->]; [|done].
    rewrite E, !length_app; simpl; lia. }
  unfold string_at; rewrite Ea; cbn [fst]; rewrite <- (take_drop (length w) (drop (length pre) buf)), drop_drop, (drop_S _ _ _ Hzero).
  assert (take (length w) (drop (length pre) buf) = w) as ->.
  { apply list_eq; intros i; destruct (decide (i < length w)%nat) as [Hi|Hi].
    - rewrite lookup_take_lt, lookup_drop, Hin by lia; f_equal; lia.
    - by rewrite lookup_take_ge, lookup_ge_None_2 by lia. }
  generalize (drop (S (length pre + length w)) buf) as rest; clear - Hw; intros rest; induction Hw as [|x w [Hx _] _ IH]; cbn [app cstr]; [done|]; apply Z.eqb_neq in Hx as ->; by rewrite IH.
Qed.

(** C30. Parsing a command line always ends, and its result is well formed: for any
    line the loops and the recursion of the parser stop, in one of its panics or
    with the whole line consumed and a command whose argument vectors leave room
    for their null pointer, whose redirections open with the mode and descriptor
    of their symbol, and whose strings, after [nulterminate] has cut the line in
    place, are exactly the words they were parsed from. *)
Theorem parsecmd_wf s : Forall (fun x => x <> 0) s ->
  match parsecmd s with
  | (PRet c rest, buf) =>
      rest = [] /\ cmd_wf s c /\ length buf = S (length s) /\
      (forall i, i ∉ (strings c).*2 -> buf !! i = (s ++ [0]) !! i) /\
      map_strings (string_at buf) c = map_strings (word_of s) c
  | (PPanic _, _) => True
  | (PFuel, _) => False
  end.
Proof.
  intros Hs; unfold parsecmd; pose proof (parseline_wf s Hs (S (length s)) s ltac:(lia) ltac:(unfold inside; done)) as H.
  unfold parses in H; destruct (parseline _ _ _) as [c rest|m|]; cbn [pwp] in H; [|done|done]; destruct H as (Hc & _ & _).
  destruct (peek rest "") as [b rest'] eqn:Ep; case_bool_decide as Hr; cbn [negb]; [|done]; split_and!; auto.
  - rewrite length_nulterminate, length_app; simpl; lia.
  - intros i Hi; by rewrite nulterminate_zeros, decide_False.
  - apply map_strings_ext; intros a Ha; by apply string_at_word.
Qed.

(** The line "cat <in | (wc; ls >>out) &". *)
Definition ex_line : list Z := bytes_of "cat <in | (wc; ls >>out) &".
Lemma parsecmd_wf_witness :
  map_strings (word_of ex_line) <$> (match (parsecmd ex_line).1 with PRet c _ => Some c | _ => None end) =
    Some (BACK (PIPE (REDIR (EXEC [bytes_of "cat"]) (bytes_of "in") 0 0)
      (LIST (EXEC [bytes_of "wc"]) (REDIR (EXEC [bytes_of "ls"]) (bytes_of "out") 513 1)))) /\
  (match parsecmd ex_line with
   | (PRet c rest, buf) =>
      rest = [] /\ cmd_wf ex_line c /\ length buf = S (length ex_line) /\
      (forall i, i ∉ (strings c).*2 -> buf !! i = (ex_line ++ [0]) !! i) /\
      map_strings (string_at buf) c = map_strings (word_of ex_line) c
   | (PPanic _, _) => True
   | (PFuel, _) => False
   end).
Proof. split; [by vm_compute|]; apply (parsecmd_wf ex_line); repeat constructor; done. Defined.
