(* ===== verification/ShPrint.v ===== *)
(** * Printing and parsing command lines

    A printer for the commands of [sh.c], with parentheses where the grammar needs
    them, and the proof that [parsecmd] reads back what it prints. *)

From S2P Require Import Prelude CString Ulib Printf Sh.

Definition ast : Type := command (list Z).

Definition print_redir (file : list Z) (mode : Z) : list Z :=
  (if mode =? O_RDONLY then bytes_of "<" else if mode =? Z.lor O_WRONLY O_CREATE then bytes_of ">>" else bytes_of ">") ++ 32 :: file.

(** How loosely a command binds; what stands at a tighter place gets parentheses. *)
Definition prec (c : ast) : nat := match c with EXEC _ | REDIR _ _ _ _ => 0 | PIPE _ _ => 1 | BACK _ => 2 | LIST _ _ => 3 end.
Definition paren (k : nat) (c : ast) (s : list Z) : list Z := if bool_decide (k < prec c)%nat then chr "(" :: s ++ [chr ")"] else s.

Fixpoint print (c : ast) : list Z :=
  match c with
  | EXEC argv => concat ((fun w => 32 :: w) <$> argv)
  | REDIR c f m _ => paren 0 c (print c) ++ print_redir f m
  | PIPE l r => paren 0 l (print l) ++ chr "|" :: paren 1 r (print r)
  | BACK c => paren 2 c (print c) ++ [chr "&"]
  | LIST l r => paren 2 l (print l) ++ chr ";" :: print r
  end.

Definition word (w : list Z) : Prop := w <> [] /\ Forall wordc w.

Fixpoint ast_wf (c : ast) : Prop :=
  match c with
  | EXEC argv => Forall word argv /\ (length argv < MAXARGS)%nat
  | REDIR c f m d => ast_wf c /\ word f /\ redir_ok m d
  | PIPE l r | LIST l r => ast_wf l /\ ast_wf r
  | BACK c => ast_wf c
  end.

(** What ends the arguments of a command. *)
Definition STOPS : string := "|)&;".

(** What may follow: nothing, or one of these characters. *)
Definition stop (l : string) (k : list Z) : Prop := k = [] \/ exists c t, k = c :: t /\ c ∈ bytes_of l.

(** ** Tokens of printed text *)

Lemma hd_word w : word w -> exists c w', w = c :: w' /\ wordc c.
Proof. intros [Hw Hc]; destruct w as [|c w]; [done|]; apply Forall_cons in Hc as [Hc _]; eauto. Qed.

Lemma skip_space_word w t : word w -> skip_space (w ++ t) = w ++ t.
Proof. intros Hw; destruct (hd_word w Hw) as (c & w' & -> & (_ & H & _)); by apply skip_space_id. Qed.

Lemma skip_word_word w t : Forall wordc w -> ~ wordc (hd0 t) -> Forall (fun x => x <> 0) t -> skip_word (w ++ t) = t.
Proof.
  induction 1 as [|c w (H0 & H1 & H2) _ IH]; intros Ht Hz; cbn [app skip_word].
  - destruct t as [|c t]; [done|]; cbn [skip_word]; apply Forall_cons in Hz as [Hc _].
    destruct (in_set whitespace c) eqn:E1; cbn [negb andb]; [done|]; destruct (in_set symbols c) eqn:E2; cbn [negb]; [done|].
    by destruct Ht.
  - rewrite H1, H2; cbn [negb andb]; auto.
Qed.

(** No token set holds a character of a word. *)
Lemma word_not_in toks c : wordc c -> bytes_of toks ⊆ symbols -> Forall (fun x => x <> 0) (bytes_of toks) -> in_set (bytes_of toks) c = false.
Proof.
  intros (H0 & _ & H2) Hsub Hz; destruct (in_set (bytes_of toks) c) eqn:E; [|done].
  apply in_set_elem in E; [|done|done]; apply Hsub in E; apply in_set_elem in E; [congruence|done|repeat constructor; done].
Qed.

Ltac tokens := first [done | repeat constructor; done | intros x; unfold symbols, STOPS; cbn [bytes_of]; rewrite !elem_of_cons, ?elem_of_nil; tauto].

Lemma gettoken_word w t : word w -> ~ wordc (hd0 t) -> Forall (fun x => x <> 0) t ->
  gettoken (w ++ t) = (chr "a", w ++ t, t, skip_space t).
Proof.
  intros Hw Ht Hz; unfold gettoken; rewrite skip_space_word by done.
  destruct (hd_word w Hw) as (c & w' & E & Hc); assert (hd0 (w ++ t) = c) as -> by by rewrite E.
  pose proof Hc as (H0 & H1 & H2); rewrite (proj2 (Z.eqb_neq c 0) H0), word_not_in by (first [done|tokens]).
  assert (c <> chr ">") as Hgt by (intros ->; done); rewrite (proj2 (Z.eqb_neq c (chr ">")) Hgt).
  rewrite skip_word_word by (first [done|apply Hw]); done.
Qed.

Lemma peek_word w t toks : word w -> bytes_of toks ⊆ symbols -> Forall (fun x => x <> 0) (bytes_of toks) -> peek (w ++ t) toks = (false, w ++ t).
Proof.
  intros Hw Hs Hz; unfold peek; rewrite skip_space_word by done; destruct (hd_word w Hw) as (c & w' & E & Hc).
  rewrite E; cbn [app hd0 hd]; by rewrite word_not_in, andb_false_r.
Qed.

(** A leading space changes nothing. *)
Lemma peek_space s toks : peek (32 :: s) toks = peek s toks.
Proof. done. Qed.

Lemma map_add_arg {A B} (f : A -> B) c a : map_strings f (add_arg c a) = add_arg (map_strings f c) (f a).
Proof. induction c; cbn [add_arg map_strings]; try done; [by rewrite fmap_app|by rewrite IHc]. Qed.

Definition redirection : Type := list Z * Z * Z.
Definition redir (c : ast) (r : redirection) : ast := REDIR c r.1.1 r.1.2 r.2.
Definition print_redirs (rs : list redirection) : list Z := concat ((fun r : redirection => print_redir r.1.1 r.1.2) <$> rs).
Definition print_args (ws : list (list Z)) : list Z := concat ((fun w => 32 :: w) <$> ws).
Definition redirs_wf (rs : list redirection) : Prop := Forall (fun r : redirection => word r.1.1 /\ redir_ok r.1.2 r.2) rs.

Lemma paren_text n c s t : (n < prec c)%nat -> paren n c s ++ t = chr "(" :: s ++ chr ")" :: t.
Proof. intros H; unfold paren; rewrite bool_decide_eq_true_2 by done; cbn [app]; by rewrite <- app_assoc. Qed.
Lemma paren_none n c s : (prec c <= n)%nat -> paren n c s = s.
Proof. intros H; unfold paren; by rewrite bool_decide_eq_false_2 by lia. Qed.

(** Every command is a core in redirections. *)
Lemma decompose c : ast_wf c -> exists core rs,
  c = foldl redir core rs /\ ast_wf core /\ redirs_wf rs /\ (forall d f m x, core <> REDIR d f m x) /\
  paren 0 c (print c) = paren 0 core (print core) ++ print_redirs rs.
Proof.
  induction c as [argv|c IH f m d|l _ r _|l _ r _|c _]; intros Hc; try by (eexists _, []; rewrite app_nil_r; split_and!; [done|done|constructor|done|done]).
  destruct Hc as (Hc & Hf & Hr); destruct (IH Hc) as (core & rs & -> & H1 & H2 & H3 & H4); exists core, (rs ++ [(f, m, d)]).
  split_and!; auto; [by rewrite foldl_app|apply Forall_app; split; [done|by constructor]|].
  unfold print_redirs in *; rewrite fmap_app, concat_app, app_assoc, <- H4; cbn [fmap list_fmap concat]; by rewrite app_nil_r.
Qed.

Section printed.
Context (buf : list Z) (Hbuf : Forall (fun x => x <> 0) buf).

Definition gives (r : pres cmd) (c : ast) (k : list Z) : Prop :=
  exists c', r = PRet c' k /\ map_strings (word_of buf) c' = c.

(** The text at [s], up to leading white space. *)
Definition at_text (s t : list Z) : Prop := skip_space s = skip_space t.

Lemma stop_text l k : bytes_of l ⊆ symbols -> stop l k -> skip_space k = k /\ ~ wordc (hd0 k).
Proof.
  intros Hl [->|(c & t & -> & Hc%Hl)]; [split; [done|by intros []]|].
  unfold symbols in Hc; cbn [bytes_of] in Hc; rewrite !elem_of_cons, elem_of_nil in Hc.
  destruct_or? Hc; subst c; (split; [done|by intros (_ & _ & H)]).
Qed.

Lemma word_of_pos s w t : inside buf s -> s = w ++ t -> word_of buf (pos (length buf) s, pos (length buf) t) = w.
Proof.
  intros [pre ->] ->; unfold word_of, pos; cbn [fst snd]; rewrite !length_app.
  replace (_ - (length w + length t))%nat with (length pre) by lia; rewrite drop_app_length.
  replace (_ - length pre)%nat with (length w) by lia; by rewrite take_app_length.
Qed.

Lemma inside_skip s : inside buf s -> inside buf (skip_space s).
Proof. intros H; eapply inside_sub; [exact H|apply skip_space_suffix]. Qed.

Lemma length_skip s : (length (skip_space s) <= length s)%nat.
Proof. apply suffix_length, skip_space_suffix. Qed.

(** ** Redirections *)

Lemma redir_token f m d t : redir_ok m d -> word f -> ~ wordc (hd0 t) -> Forall (fun x => x <> 0) t ->
  exists tok q eq, peek (print_redir f m ++ t) "<>" = (true, print_redir f m ++ t) /\
    gettoken (print_redir f m ++ t) = (tok, q, eq, f ++ t) /\
    forall c file, (if tok =? chr "<" then REDIR c file O_RDONLY 0
      else if tok =? chr ">" then REDIR c file (Z.lor (Z.lor O_WRONLY O_CREATE) O_TRUNC) 1
      else if tok =? chr "+" then REDIR c file (Z.lor O_WRONLY O_CREATE) 1 else c) = REDIR (A := span) c file m d.
Proof.
  intros Hm Hf Ht Hz; pose proof (skip_space_word f t Hf) as Hs.
  destruct Hm as [[-> ->]|[[-> ->]|[-> ->]]].
  - exists (chr "<"), (print_redir f O_RDONLY ++ t), (32 :: f ++ t); rewrite <- Hs at 2; done.
  - exists (chr ">"), (print_redir f (Z.lor (Z.lor O_WRONLY O_CREATE) O_TRUNC) ++ t), (32 :: f ++ t); rewrite <- Hs at 2; done.
  - exists (chr "+"), (print_redir f (Z.lor O_WRONLY O_CREATE) ++ t), (32 :: f ++ t); rewrite <- Hs at 2; done.
Qed.

Lemma redirs_hd rs k : redirs_wf rs -> stop STOPS k ->
  skip_space (print_redirs rs ++ k) = print_redirs rs ++ k /\ ~ wordc (hd0 (print_redirs rs ++ k)).
Proof.
  intros Hr Hk; destruct rs as [|[[f m] d] rs]; [apply (stop_text STOPS); [tokens|done]|].
  apply Forall_cons in Hr as [[_ Hm] _]; cbn [fst snd] in Hm; destruct Hm as [[-> ->]|[[-> ->]|[-> ->]]]; (split; [reflexivity|intros (_ & _ & H); vm_compute in H; discriminate H]).
Qed.

(** [peek] at a stop character. *)
Lemma peek_stop l k toks : bytes_of l ⊆ symbols -> stop l k ->
  peek k toks = (negb (hd0 k =? 0) && in_set (bytes_of toks) (hd0 k), k).
Proof. intros Hl Hk; unfold peek; by rewrite (proj1 (stop_text l k Hl Hk)). Qed.

Lemma parseredirs_none fuel c s k : stop STOPS k -> at_text s k -> parseredirs (length buf) (S fuel) c s = PRet c k.
Proof.
  intros Hk Hs; cbn [parseredirs]; assert (peek s "<>" = (false, k)) as ->; [|done].
  unfold peek; rewrite Hs, (proj1 (stop_text STOPS k ltac:(tokens) Hk)).
  destruct Hk as [->|(c0 & t & -> & Hc)]; [done|]; unfold STOPS in Hc; cbn [bytes_of] in Hc; rewrite !elem_of_cons, elem_of_nil in Hc.
  by destruct_or? Hc; subst c0.
Qed.

Lemma parseredirs_print rs : forall fuel c s k,
  redirs_wf rs -> stop STOPS k -> (length s < fuel)%nat -> inside buf s -> at_text s (print_redirs rs ++ k) ->
  gives (parseredirs (length buf) fuel c s) (foldl redir (map_strings (word_of buf) c) rs) k.
Proof.
  induction rs as [|[[f m] d] rs IH]; intros fuel c s k Hr Hk Hf Hi Hs; (destruct fuel as [|fuel]; [lia|]).
  { exists c; split; [by apply parseredirs_none|done]. }
  pose proof (proj1 (redirs_hd ((f, m, d) :: rs) k Hr Hk)) as Hskip; apply Forall_cons in Hr as [[Hw Hm] Hr]; cbn [fst snd] in Hw, Hm.
  assert (print_redirs ((f, m, d) :: rs) ++ k = print_redir f m ++ (print_redirs rs ++ k)) as E by (unfold print_redirs; cbn; by rewrite <- app_assoc).
  set (t := print_redirs rs ++ k) in *; destruct (redirs_hd rs k Hr Hk) as [Ht1 Ht2]; fold t in Ht1, Ht2.
  assert (skip_space s = print_redir f m ++ t) as Htext by (rewrite <- E, <- Hskip; exact Hs).
  assert (inside buf (print_redir f m ++ t)) as Hi1 by (rewrite <- Htext; by apply inside_skip).
  assert (length (print_redir f m ++ t) <= length s)%nat as Hl1 by (rewrite <- Htext; apply length_skip).
  assert (Forall (fun x => x <> 0) t) as Hz by (eapply nonzero_suffix; [|exact Hbuf]; eapply inside_sub; [exact Hi1|by exists (print_redir f m)]).
  destruct (redir_token f m d t Hm Hw Ht2 Hz) as (tok & q & eq & Hp & Hg & Hcase); cbn [parseredirs].
  assert (peek s "<>" = (true, print_redir f m ++ t)) as -> by (rewrite <- Hp; unfold peek; rewrite Htext, <- E, Hskip; done).
  cbn [negb]; rewrite Hg, (gettoken_word f t Hw Ht2 Hz), Z.eqb_refl; cbn [negb]; rewrite Hcase, Ht1.
  assert (inside buf (f ++ t)) as Hi2.
  { eapply inside_sub; [exact Hi1|]; unfold print_redir; rewrite <- app_assoc; eexists (_ ++ [32]); by rewrite <- app_assoc. }
  destruct (IH fuel (REDIR c (pos (length buf) (f ++ t), pos (length buf) t) m d) t k Hr Hk) as (c' & H1 & H2).
  - enough (length t < length (print_redir f m ++ t))%nat by lia; unfold print_redir; rewrite !length_app; simpl; lia.
  - eapply inside_sub; [exact Hi2|by exists f].
  - done.
  - exists c'; split; [exact H1|]; rewrite H2; cbn [map_strings foldl]; by rewrite (word_of_pos (f ++ t) f t).
Qed.

(** ** Arguments *)

Lemma parse_args_none fuel n c s k : stop STOPS k -> at_text s k -> parse_args (length buf) (S fuel) n c s = PRet c k.
Proof.
  intros Hk Hs; cbn [parse_args]; pose proof (proj1 (stop_text STOPS k ltac:(tokens) Hk)) as Hsk.
  assert (peek s "|)&;" = peek k "|)&;") as -> by (unfold peek; by rewrite Hs).
  rewrite (peek_stop STOPS k) by (first [done|tokens]).
  destruct Hk as [->|(c0 & t & -> & Hc)]; [done|]; unfold STOPS in Hc; cbn [bytes_of] in Hc; rewrite !elem_of_cons, elem_of_nil in Hc.
  by destruct_or? Hc; subst c0.
Qed.

Lemma parse_args_print ws : forall fuel n c s rs k,
  ws <> [] -> Forall word ws -> redirs_wf rs -> stop STOPS k -> (n + length ws < MAXARGS)%nat -> (length s < fuel)%nat -> inside buf s ->
  at_text s (print_args ws ++ print_redirs rs ++ k) ->
  gives (parse_args (length buf) fuel n c s) (foldl redir (foldl add_arg (map_strings (word_of buf) c) ws) rs) k.
Proof.
  induction ws as [|w ws IH]; intros fuel n c s rs k Hne Hws Hr Hk Hn Hf Hi Hs; [done|]; (destruct fuel as [|fuel]; [lia|]).
  apply Forall_cons in Hws as [Hw Hws]; set (t := print_args ws ++ print_redirs rs ++ k).
  assert (skip_space s = w ++ t) as Hs'.
  { rewrite Hs; unfold print_args; cbn [fmap list_fmap concat]; rewrite <- app_assoc; cbn [app skip_space]; by apply skip_space_word. }
  assert (inside buf (w ++ t)) as Hi1 by (rewrite <- Hs'; by apply inside_skip).
  assert (length (w ++ t) <= length s)%nat as Hl1 by (rewrite <- Hs'; apply length_skip).
  assert (inside buf t) as Hit by (eapply inside_sub; [exact Hi1|by exists w]).
  assert (Forall (fun x => x <> 0) t) as Hz by by eapply nonzero_suffix.
  destruct (redirs_hd rs k Hr Hk) as [Hsk Hhd].
  assert (~ wordc (hd0 t)) as Ht by (destruct ws; [done|by intros (_ & H & _)]).
  assert (0 < length w)%nat as Hlw by (destruct Hw as [? _]; destruct w; [done|simpl; lia]).
  rewrite length_app in Hl1; cbn [parse_args].
  assert (peek s "|)&;" = (false, w ++ t)) as ->.
  { rewrite <- (peek_word w t "|)&;" Hw) by tokens; unfold peek; by rewrite Hs', skip_space_word. }
  rewrite (gettoken_word w t Hw Ht Hz); change (chr "a" =? 0) with false; rewrite Z.eqb_refl; cbn [negb].
  cbn [length] in Hn; rewrite bool_decide_eq_false_2 by lia; pose proof (length_skip t) as Hlt.
  set (c1 := add_arg c _); assert (map_strings (word_of buf) c1 = add_arg (map_strings (word_of buf) c) w) as Hc1.
  { unfold c1; rewrite map_add_arg; by rewrite (word_of_pos (w ++ t) w t). }
  cbn [foldl]; rewrite <- Hc1; destruct ws as [|w2 ws].
  - assert (t = print_redirs rs ++ k) as Et by done; rewrite Et in *; rewrite Hsk; cbn [foldl].
    destruct (parseredirs_print rs (S (length (print_redirs rs ++ k))) c1 (print_redirs rs ++ k) k Hr Hk ltac:(lia) Hit eq_refl) as (c' & -> & <-).
    cbn [pbind]; exists c'; split; [|done]; destruct fuel; [lia|]; by apply parse_args_none.
  - assert (skip_space t = w2 ++ (print_args ws ++ print_redirs rs ++ k)) as Et.
    { unfold t, print_args; cbn [fmap list_fmap concat]; rewrite <- app_assoc; cbn [app skip_space].
      apply Forall_cons in Hws as [Hw2 _]; by apply skip_space_word. }
    apply Forall_cons in Hws as Hw2; destruct Hw2 as [Hw2 _]; cbn [parseredirs].
    assert (peek (skip_space t) "<>" = (false, skip_space t)) as -> by (rewrite Et; apply peek_word; [done|tokens|tokens]).
    cbn [negb pbind]; apply IH; auto; [cbn [length] in *; lia|lia|by apply inside_skip|unfold at_text; by rewrite skip_space_idem].
Qed.

(** ** Commands *)

(** A symbol at the beginning of the text. *)
Lemma peek_symbol s c t toks : c ∈ symbols -> at_text s (c :: t) -> peek s toks = (in_set (bytes_of toks) c, c :: t).
Proof.
  intros Hc Hs; unfold peek; rewrite Hs; unfold symbols in Hc; cbn [bytes_of] in Hc; rewrite !elem_of_cons, elem_of_nil in Hc.
  by destruct_or? Hc; subst c.
Qed.

Lemma not_open s t : at_text s t -> (t = [] \/ hd0 (skip_space t) <> chr "(") -> peek s "(" = (false, skip_space t).
Proof.
  intros Hs Ht; unfold peek; rewrite Hs; f_equal; destruct Ht as [->|Ht]; [done|].
  destruct (Z.eqb_spec (hd0 (skip_space t)) 0) as [->|H0]; [done|]; cbn [negb andb].
  destruct (in_set (bytes_of "(") _) eqn:E; [|done]; apply in_set_elem in E; [|done|by repeat constructor].
  by apply list_elem_of_singleton in E.
Qed.

Lemma stop_hd l k c : stop l k -> c ∉ bytes_of l -> c <> 0 -> hd0 k <> c.
Proof. intros [->|(d & t & -> & Hd)] Hc H0; [done|]; cbn; by intros ->. Qed.

Lemma simple_hd ws rs k : Forall word ws -> redirs_wf rs -> stop STOPS k ->
  hd0 (skip_space (print_args ws ++ print_redirs rs ++ k)) <> chr "(".
Proof.
  intros Hw Hr Hk; destruct ws as [|w ws].
  - cbn [print_args fmap list_fmap concat app]; rewrite (proj1 (redirs_hd rs k Hr Hk)); destruct rs as [|[[f m] d] rs].
    + cbn; eapply stop_hd; [exact Hk| |done]; unfold STOPS; cbn [bytes_of]; rewrite !elem_of_cons, elem_of_nil; by intros [|[|[|[|]]]].
    + apply Forall_cons in Hr as [[_ Hm] _]; cbn [fst snd] in Hm; destruct Hm as [[-> ->]|[[-> ->]|[-> ->]]]; done.
  - apply Forall_cons in Hw as [Hw _]; unfold print_args; cbn [fmap list_fmap concat]; rewrite <- app_assoc; cbn [app skip_space].
    change (in_set whitespace 32) with true; cbn [orb]; rewrite skip_space_word by done.
    destruct (hd_word w Hw) as (c & w' & -> & Hc); cbn; intros ->; by destruct Hc as (_ & _ & H).
Qed.

Lemma fold_args ws : foldl add_arg (EXEC []) ws = EXEC (A := list Z) ws.
Proof.
  enough (forall l, foldl add_arg (EXEC l) ws = EXEC (A := list Z) (l ++ ws)) as H by apply (H []).
  induction ws as [|w ws IH]; intros l; cbn [foldl add_arg]; [by rewrite app_nil_r|]; by rewrite IH, <- app_assoc.
Qed.

(** A command without parentheses. *)
Lemma parse_simple line ws rs s k :
  Forall word ws -> (length ws < MAXARGS)%nat -> redirs_wf rs -> stop STOPS k -> inside buf s ->
  at_text s (print_args ws ++ print_redirs rs ++ k) ->
  gives (parseexec (length buf) line s) (foldl redir (EXEC ws) rs) k.
Proof.
  intros Hw Hn Hr Hk Hi Hs; unfold parseexec, execcmd; rewrite (not_open s _ Hs) by (right; by apply simple_hd).
  rewrite <- Hs; pose proof (inside_skip s Hi) as Hi1; set (s1 := skip_space s) in *.
  assert (at_text s1 (print_args ws ++ print_redirs rs ++ k)) as Hs1 by (unfold at_text, s1; by rewrite skip_space_idem).
  destruct ws as [|w ws].
  - destruct (parseredirs_print rs (S (length s1)) (EXEC []) s1 k Hr Hk ltac:(lia) Hi1 Hs1) as (c' & -> & Hc'); cbn [pbind].
    exists c'; split; [by apply parse_args_none|exact Hc'].
  - assert (parseredirs (length buf) (S (length s1)) (EXEC []) s1 = PRet (EXEC []) s1) as ->.
    { cbn [parseredirs]; assert (s1 = w ++ (print_args ws ++ print_redirs rs ++ k)) as E.
      { unfold s1; rewrite Hs; unfold print_args; cbn [fmap list_fmap concat]; rewrite <- app_assoc; cbn [app skip_space].
        apply Forall_cons in Hw as [Hw _]; by apply skip_space_word. }
      apply Forall_cons in Hw as [Hw _]; rewrite E, peek_word by (first [done|tokens]); done. }
    cbn [pbind]; rewrite <- (fold_args (w :: ws)); apply (parse_args_print (w :: ws) _ 0 (EXEC []) s1 rs k); auto; lia.
Qed.

Section sub.
Context (line : list Z -> pres cmd) (bound : nat).
Hypothesis Hline : forall c s k, ast_wf c -> inside buf s -> (length s < bound)%nat -> stop ")" k ->
  at_text s (print c ++ k) -> gives (line s) c k.

Lemma parse_block core rs s k :
  ast_wf core -> redirs_wf rs -> stop STOPS k -> inside buf s -> (length s <= bound)%nat ->
  at_text s (chr "(" :: print core ++ chr ")" :: print_redirs rs ++ k) ->
  gives (parseexec (length buf) line s) (foldl redir core rs) k.
Proof.
  intros Hc Hr Hk Hi Hb Hs; unfold parseexec; set (t := print core ++ chr ")" :: print_redirs rs ++ k) in *.
  pose proof (peek_symbol s (chr "(") t "(" ltac:(tokens) Hs) as Hp; change (in_set (bytes_of "(") (chr "(")) with true in Hp.
  rewrite Hp; unfold parseblock; rewrite (peek_symbol (chr "(" :: t) (chr "(") t "(") by (first [done|tokens]).
  change (in_set (bytes_of "(") (chr "(")) with true; cbn [negb].
  change (gettoken (chr "(" :: t)) with (chr "(", chr "(" :: t, t, skip_space t).
  destruct (peek_token buf Hbuf s "(" (chr "(" :: t) (chr "(") (chr "(" :: t) t (skip_space t) Hi Hp eq_refl) as [Hi2 Hl2].
  destruct (Hline core (skip_space t) (chr ")" :: print_redirs rs ++ k)) as (c1 & -> & Hc1); auto; [lia| | |].
  { right; exists (chr ")"), (print_redirs rs ++ k); split; [done|by left]. }
  { unfold at_text; by rewrite skip_space_idem. }
  cbn [pbind]; set (t2 := print_redirs rs ++ k); rewrite (peek_symbol (chr ")" :: t2) (chr ")") t2 ")") by (first [done|tokens]).
  change (in_set (bytes_of ")") (chr ")")) with true; cbn [negb].
  change (gettoken (chr ")" :: t2)) with (chr ")", chr ")" :: t2, t2, skip_space t2).
  unfold t2; rewrite (proj1 (redirs_hd rs k Hr Hk)), <- Hc1; apply parseredirs_print; auto; [|done].
  eapply inside_sub; [exact Hi|]; etrans; [|apply skip_space_suffix]; rewrite Hs; cbn [skip_space].
  change (in_set whitespace (chr "(")) with false; cbn [orb]; exists (chr "(" :: print core ++ [chr ")"]); unfold t; cbn [app].
  by rewrite <- app_assoc.
Qed.

Lemma parseexec_print c s k :
  ast_wf c -> stop STOPS k -> inside buf s -> (length s <= bound)%nat -> at_text s (paren 0 c (print c) ++ k) ->
  gives (parseexec (length buf) line s) c k.
Proof.
  intros Hc Hk Hi Hb Hs; destruct (decompose c Hc) as (core & rs & -> & Hcore & Hr & Hnr & Hp).
  rewrite Hp, <- app_assoc in Hs; destruct core as [ws|d f m x|l r|l r|d]; [|by destruct (Hnr d f m x)|..].
  - destruct Hcore; by apply parse_simple.
  - rewrite paren_text in Hs by (simpl; lia); by apply parse_block.
  - rewrite paren_text in Hs by (simpl; lia); by apply parse_block.
  - rewrite paren_text in Hs by (simpl; lia); by apply parse_block.
Qed.

(** After a symbol the parser goes on with the text behind it. *)
Lemma next_token s c t toks : c ∈ bytes_of "|();&<" -> inside buf s -> at_text s (c :: t) -> in_set (bytes_of toks) c = true ->
  exists q eq s2, peek s toks = (true, c :: t) /\ gettoken (c :: t) = (c, q, eq, s2) /\
    inside buf s2 /\ (length s2 < length s)%nat /\ at_text s2 t.
Proof.
  intros Hc Hi Hs Hin; assert (c ∈ symbols) as Hsym.
  { revert Hc; unfold symbols; cbn [bytes_of]; rewrite !elem_of_cons, elem_of_nil; tauto. }
  pose proof (peek_symbol s c t toks Hsym Hs) as Hp; rewrite Hin in Hp.
  assert (gettoken (c :: t) = (c, c :: t, t, skip_space t)) as Hg.
  { cbn [bytes_of] in Hc; rewrite !elem_of_cons, elem_of_nil in Hc; by destruct_or? Hc; subst c. }
  destruct (peek_token buf Hbuf s toks (c :: t) _ _ _ _ Hi Hp Hg) as [Hi2 Hl2].
  exists (c :: t), t, (skip_space t); split_and!; auto; unfold at_text; by rewrite skip_space_idem.
Qed.

Lemma peek_stop_false l k toks : bytes_of l ⊆ symbols -> stop l k -> Forall (fun c => in_set (bytes_of toks) c = false) (bytes_of l) ->
  peek k toks = (false, k).
Proof.
  intros Hl Hk Hf; rewrite (peek_stop l k toks Hl Hk); destruct Hk as [->|(c & t & -> & Hc)]; [done|]; cbn [hd0 hd].
  rewrite Forall_forall in Hf; by rewrite (Hf c Hc), andb_false_r.
Qed.

Lemma stop_sub l l' k : bytes_of l ⊆ bytes_of l' -> stop l k -> stop l' k.
Proof. intros Hl [->|(c & t & -> & Hc)]; [by left|]; right; exists c, t; auto. Qed.

Lemma stop_cons l c t : c ∈ bytes_of l -> stop l (c :: t).
Proof. right; eauto. Qed.

(** What follows a printed command is in the line. *)
Lemma rest_inside s x k : inside buf s -> at_text s (x ++ k) -> skip_space k = k -> inside buf k /\ (length k <= length s)%nat.
Proof.
  intros Hi Hs Hk; assert (k `suffix_of` skip_space (x ++ k)) as Hsuf.
  { clear Hs; induction x as [|c x IH]; cbn [app]; [by rewrite Hk|]; cbn [skip_space].
    destruct (in_set whitespace c); [done|]; by exists (c :: x). }
  assert (k `suffix_of` s) as H by (etrans; [exact Hsuf|]; rewrite <- Hs; apply skip_space_suffix).
  split; [by eapply inside_sub|by apply suffix_length].
Qed.

Lemma parsepipe_print c : forall fuel s k,
  ast_wf c -> stop ")&;" k -> inside buf s -> (length s < fuel)%nat -> (length s <= bound)%nat -> at_text s (paren 1 c (print c) ++ k) ->
  gives (parsepipe (length buf) line fuel s) c k.
Proof.
  assert (forall c fuel s k, ast_wf c -> stop ")&;" k -> inside buf s -> (length s <= bound)%nat ->
    at_text s (paren 0 c (print c) ++ k) -> gives (parsepipe (length buf) line (S fuel) s) c k) as Hbase.
  { intros d fuel s k Hd Hk Hi Hb Hs; cbn [parsepipe].
    destruct (parseexec_print d s k Hd) as (c' & -> & Hc'); auto; [eapply stop_sub; [|exact Hk]; tokens|]; cbn [pbind].
    rewrite (peek_stop_false ")&;" k "|") by (first [done|tokens]); by exists c'. }
  induction c as [ws|c _ f m x|l _ r IHr|l _ r _|c _]; intros [|fuel] s k Hc Hk Hi Hf Hb Hs; try lia; try by apply Hbase.
  destruct Hc as [Hl Hr]; cbn [parsepipe]; rewrite paren_none in Hs by done; cbn [print] in Hs; rewrite <- app_assoc in Hs; cbn [app] in Hs.
  destruct (parseexec_print l s (chr "|" :: paren 1 r (print r) ++ k) Hl) as (c' & E & Hc'); auto; [by apply stop_cons; left|].
  rewrite E; cbn [pbind]; destruct (rest_inside s _ (chr "|" :: paren 1 r (print r) ++ k) Hi Hs) as [Hi1 Hl1]; [done|].
  destruct (next_token _ (chr "|") (paren 1 r (print r) ++ k) "|" ltac:(tokens) Hi1 eq_refl eq_refl) as (q & eq & s2 & -> & -> & Hi2 & Hl2 & Hs2).
  destruct (IHr fuel s2 k Hr Hk Hi2) as (r' & -> & Hr'); [lia|lia|done|]; exists (PIPE c' r'); cbn [pbind map_strings]; by rewrite Hc', Hr'.
Qed.
End sub.

(** ** Background commands *)

Fixpoint backs {A} (n : nat) (c : command A) : command A := match n with O => c | S n => backs n (BACK c) end.

Lemma map_backs {A B} (f : A -> B) n c : map_strings f (backs n c) = backs n (map_strings f c).
Proof. revert c; induction n as [|n IH]; intros c; cbn [backs]; [done|]; by rewrite IH. Qed.

Lemma backs_S {A} n (c : command A) : backs (S n) c = BACK (backs n c).
Proof. revert c; induction n as [|n IH]; intros c; [done|]; cbn [backs] in *; by rewrite IH. Qed.

Lemma decompose_back c : ast_wf c -> exists n d, c = backs n d /\ ast_wf d /\
  paren 2 c (print c) = paren 1 d (print d) ++ replicate n (chr "&").
Proof.
  induction c as [ws|c _ f m x|l _ r _|l _ r _|c IH]; intros Hc; try by (eexists 0%nat, _; rewrite app_nil_r; split_and!; [done|exact Hc|done]).
  destruct (IH Hc) as (n & d & -> & Hd & E); exists (S n), d; rewrite backs_S; split_and!; [done|done|].
  rewrite paren_none by done; cbn [print]; rewrite E, <- app_assoc; f_equal; by rewrite <- replicate_cons_app.
Qed.

Lemma parse_back_print n : forall fuel c s k,
  stop ");" k -> inside buf s -> (length s < fuel)%nat -> at_text s (replicate n (chr "&") ++ k) ->
  parse_back fuel c s = PRet (backs n c) k.
Proof.
  induction n as [|n IH]; intros [|fuel] c s k Hk Hi Hf Hs; try lia; cbn [parse_back].
  - assert (peek s "&" = peek k "&") as -> by (unfold peek; by rewrite Hs).
    by rewrite (peek_stop_false ");" k "&") by (first [done|tokens]).
  - cbn [replicate app] in Hs.
    destruct (next_token s (chr "&") (replicate n (chr "&") ++ k) "&" ltac:(tokens) Hi Hs eq_refl) as (q & eq & s2 & -> & -> & Hi2 & Hl2 & Hs2).
    apply IH; auto; lia.
Qed.

Lemma pbind_assoc {A B C} (r : pres A) (f : A -> list Z -> pres B) (g : B -> list Z -> pres C) :
  pbind (pbind r f) g = pbind r (fun a s => pbind (f a s) g).
Proof. by destruct r. Qed.

(** ** Lines *)

Lemma parseline_print fuel : forall c s k,
  ast_wf c -> inside buf s -> (length s < fuel)%nat -> stop ")" k -> at_text s (print c ++ k) ->
  gives (parseline (length buf) fuel s) c k.
Proof.
  induction fuel as [|fuel IH]; intros c s k Hc Hi Hf Hk Hs; [lia|]; cbn [parseline].
  assert (forall d s k, ast_wf d -> inside buf s -> (length s < S fuel)%nat -> stop ");" k -> at_text s (paren 2 d (print d) ++ k) ->
    exists d', pbind (parsepipe (length buf) (parseline (length buf) fuel) (S (length s)) s) (fun c s => parse_back (S (length s)) c s) = PRet d' k
      /\ map_strings (word_of buf) d' = d) as Hback.
  { clear c s k Hc Hi Hf Hk Hs; intros c s k Hc Hi Hf Hk Hs; destruct (decompose_back c Hc) as (n & d & -> & Hd & E).
    rewrite E, <- app_assoc in Hs; assert (stop ")&;" (replicate n (chr "&") ++ k)) as Hk2.
    { destruct n; [eapply stop_sub; [|exact Hk]; tokens|apply stop_cons; tokens]. }
    destruct (parsepipe_print (parseline (length buf) fuel) fuel ltac:(intros; by apply IH) d (S (length s)) s _ Hd Hk2 Hi) as (d' & -> & Hd'); [lia|lia|done|].
    cbn [pbind]; destruct (rest_inside s _ _ Hi Hs) as [Hi2 Hl2]; [apply (stop_text ")&;"); [tokens|done]|].
    rewrite (parse_back_print n _ d' _ k) by (first [done|lia]); exists (backs n d'); by rewrite map_backs, Hd'. }
  rewrite <- pbind_assoc.
  assert ((exists l r, c = LIST l r) \/ paren 2 c (print c) = print c) as [(l & r & ->)|E] by (destruct c; eauto).
  - destruct Hc as [Hl Hr]; cbn [print] in Hs; rewrite <- app_assoc in Hs; cbn [app] in Hs.
    destruct (Hback l s (chr ";" :: print r ++ k) Hl Hi Hf) as (l' & -> & Hl'); [apply stop_cons; tokens|done|]; cbn [pbind].
    destruct (rest_inside s _ (chr ";" :: print r ++ k) Hi Hs) as [Hi1 Hl1]; [done|].
    destruct (next_token _ (chr ";") (print r ++ k) ";" ltac:(tokens) Hi1 eq_refl eq_refl) as (q & eq & s2 & -> & -> & Hi2 & Hl2 & Hs2).
    destruct (IH r s2 k Hr Hi2) as (r' & -> & Hr'); [lia|done|done|]; exists (LIST l' r'); cbn [pbind map_strings]; by rewrite Hl', Hr'.
  - destruct (Hback c s k Hc Hi Hf) as (c' & -> & Hc'); [eapply stop_sub; [|exact Hk]; tokens|by rewrite E|]; cbn [pbind].
    rewrite (peek_stop_false ")" k ";") by (first [done|tokens]); by exists c'.
Qed.
End printed.

Lemma print_nonzero c : ast_wf c -> Forall (fun x => x <> 0) (print c).
Proof.
  assert (forall w, word w -> Forall (fun x => x <> 0) w) as Hword by (intros w [_ Hw]; eapply Forall_impl; [exact Hw|]; by intros x [? _]).
  assert (forall n d s, Forall (fun x => x <> 0) s -> Forall (fun x => x <> 0) (paren n d s)) as Hparen.
  { intros n d s Hs; unfold paren; case_bool_decide; [|done]; constructor; [done|]; apply Forall_app; split; [done|by repeat constructor]. }
  induction c as [ws|c IH f m x|l IHl r IHr|l IHl r IHr|c IH]; cbn [ast_wf print].
  - intros [Hw _]; induction Hw as [|w ws Hw _ IH]; cbn [fmap list_fmap concat]; [done|]; apply Forall_app; split; [constructor; [done|auto]|done].
  - intros (Hc & Hf & Hm); apply Forall_app; split; [auto|]; unfold print_redir; apply Forall_app; split; [repeat case_match; by repeat constructor|].
    constructor; auto; done.
  - intros [Hl Hr]; apply Forall_app; split; [auto|]; constructor; [done|auto].
  - intros [Hl Hr]; apply Forall_app; split; [auto|]; constructor; [done|auto].
  - intros Hc; apply Forall_app; split; [auto|by repeat constructor].
Qed.

(** C31. [parsecmd] inverts printing: every command, of any nesting of pipes, lists,
    background marks, parentheses and redirections with legal words and fewer than
    [MAXARGS] arguments, is what the parser reads from its printed form, and the
    strings the command's pointers reach in the cut line are its words. *)
Theorem parse_print c : ast_wf c ->
  exists c' buf, parsecmd (print c) = (PRet c' [], buf) /\ map_strings (string_at buf) c' = c.
Proof.
  intros Hc; pose proof (print_nonzero c Hc) as Hz; set (line := print c).
  destruct (parseline_print line Hz (S (length line)) c line [] Hc) as (c' & E & Hc').
  - unfold inside; done.
  - lia.
  - by left.
  - unfold at_text, line; by rewrite app_nil_r.
  - pose proof (parseline_wf line Hz (S (length line)) line ltac:(lia) ltac:(unfold inside; done)) as Hwf; unfold parses in Hwf; rewrite E in Hwf.
    exists c', (nulterminate c' (line ++ [0])); split; [unfold parsecmd; by rewrite E|].
    rewrite <- Hc'; apply map_strings_ext; intros a Ha; apply string_at_word; [done|apply Hwf|done].
Qed.

Definition ex_ast : ast :=
  LIST (BACK (PIPE (REDIR (EXEC [bytes_of "cat"; bytes_of "-n"]) (bytes_of "in") O_RDONLY 0) (LIST (EXEC []) (EXEC [bytes_of "wc"]))))
       (REDIR (BACK (EXEC [bytes_of "ls"])) (bytes_of "out") (Z.lor O_WRONLY O_CREATE) 1).

Lemma parse_print_witness :
  print ex_ast = bytes_of " cat -n< in|(; wc)&;( ls&)>> out" /\
  exists c' buf, parsecmd (print ex_ast) = (PRet c' [], buf) /\ map_strings (string_at buf) c' = ex_ast.
Proof.
  split; [by vm_compute|]; apply (parse_print ex_ast).
  cbn [ast_wf ex_ast]; unfold redir_ok, word, wordc, MAXARGS; split_and!; try (by repeat constructor); try done; auto; simpl; try lia.
Defined.
