(* ===== verification/ShRun.v ===== *)
(** * Running a command: [runcmd] of [user/sh.c]

    [runcmd] as the system calls it makes ([script]), every failure branch
    included; what a call returns selects the continuation.  [exec] starts a
    program with the caller's descriptors.

    The reference ([wire]) says which programs a command starts and what their
    standard input and output are.  The theorem runs the script against a table of
    descriptors with the kernel's rule of the lowest free one. *)

From S2P Require Import Prelude Riscv CString Ulib Printf Sh ShPrint.

Inductive script :=
| SExit (code : Z)
| SExec (argv : list (list Z)) (failed : script)
| SClose (fd : Z) (k : script)
| SOpen (file : list Z) (mode : Z) (k : Z -> script)
| SDup (fd : Z) (k : script)
| SPipe (k : Z -> Z -> Z -> script)
| SFork (k : Z -> script)
| SWait (k : script)
| SPrint (fd : Z) (text : list Z) (k : script).

(** [fprintf(2, "... %s ...")] as the characters printed. *)
Definition message (a : string) (w : list Z) (b : string) : list Z := bytes_of a ++ w ++ bytes_of b ++ [10].
Definition panic (s : string) : script := SPrint 2 (message s [] EmptyString) (SExit 1).
Definition fork1 (k : Z -> script) : script := SFork (fun pid => if pid =? -1 then panic "fork" else k pid).

Fixpoint runcmd (c : ast) : script :=
  match c with
  | EXEC [] => SExit 1
  | EXEC (path :: args) => SExec (path :: args) (SPrint 2 (message "exec " path " failed") (SExit 0))
  | REDIR c file mode fd =>
      SClose fd (SOpen file mode (fun r => if r <? 0 then SPrint 2 (message "open " file " failed") (SExit 1) else runcmd c))
  | LIST l r => fork1 (fun pid => if pid =? 0 then runcmd l else SWait (runcmd r))
  | PIPE l r =>
      SPipe (fun res p0 p1 => if res <? 0 then panic "pipe" else
        fork1 (fun pid => if pid =? 0 then SClose 1 (SDup p1 (SClose p0 (SClose p1 (runcmd l)))) else
        fork1 (fun pid => if pid =? 0 then SClose 0 (SDup p0 (SClose p0 (SClose p1 (runcmd r)))) else
        SClose p0 (SClose p1 (SWait (SWait (SExit 0)))))))
  | BACK c => fork1 (fun pid => if pid =? 0 then runcmd c else SExit 0)
  end.

(** ** Descriptors *)

(** What a descriptor refers to. *)
Inductive object := OStd (n : nat) | OFile (name : list Z) (mode : Z) | OReadEnd (pipe : nat) | OWriteEnd (pipe : nat).
Definition table : Type := list (option object).

(** The lowest free descriptor. *)
Fixpoint lowest_free (o : object) (t : table) : option (nat * table) :=
  match t with
  | [] => None
  | None :: t => Some (0%nat, Some o :: t)
  | x :: t => '(fd, t) ← lowest_free o t; Some (S fd, x :: t)
  end.

Section system.
(** Which files can be opened. *)
Context (can_open : list Z -> Z -> bool).

(** The programs a script starts, with their descriptors, when [fork] and [exec]
    succeed; pipes are numbered. *)
Fixpoint interp (s : script) (t : table) (n : nat) : list (list (list Z) * table) * nat :=
  match s with
  | SExit _ => ([], n)
  | SExec argv _ => ([(argv, t)], n)
  | SClose fd k => interp k (<[Z.to_nat fd := None]> t) n
  | SOpen file mode k =>
      match (if can_open file mode then lowest_free (OFile file mode) t else None) with
      | Some (fd, t) => interp (k (Z.of_nat fd)) t n
      | None => interp (k (-1)) t n
      end
  | SDup fd k =>
      match t !! Z.to_nat fd with
      | Some (Some o) => match lowest_free o t with Some (_, t) => interp k t n | None => interp k t n end
      | _ => interp k t n
      end
  | SPipe k =>
      match lowest_free (OReadEnd n) t with
      | Some (p0, t0) =>
          match lowest_free (OWriteEnd n) t0 with
          | Some (p1, t1) => interp (k 0 (Z.of_nat p0) (Z.of_nat p1)) t1 (S n)
          | None => interp (k (-1) 0 0) t n
          end
      | None => interp (k (-1) 0 0) t n
      end
  | SFork k =>
      let '(a, n) := interp (k 0) t n in
      let '(b, n) := interp (k 1) t n in (a ++ b, n)
  | SWait k => interp k t n
  | SPrint _ _ k => interp k t n
  end.

(** ** The reference *)

(** The programs of a command with standard input [i] and output [o]. *)
Fixpoint wire (c : ast) (i o : object) (n : nat) : list (list (list Z) * object * object) * nat :=
  match c with
  | EXEC [] => ([], n)
  | EXEC argv => ([(argv, i, o)], n)
  | REDIR c file mode fd =>
      if can_open file mode then
        if fd =? 0 then wire c (OFile file mode) o n else wire c i (OFile file mode) n
      else ([], n)
  | PIPE l r =>
      let '(a, n1) := wire l i (OWriteEnd n) (S n) in
      let '(b, n2) := wire r (OReadEnd n) o n1 in (a ++ b, n2)
  | LIST l r =>
      let '(a, n1) := wire l i o n in
      let '(b, n2) := wire r i o n1 in (a ++ b, n2)
  | BACK c => wire c i o n
  end.

(** Standard input, output and error, and nothing else. *)
Definition std (i o e : object) : table := Some i :: Some o :: Some e :: replicate (Z.to_nat NOFILE - 3) None.

Lemma runcmd_wired c : ast_wf c -> forall i o e n,
  interp (runcmd c) (std i o e) n = ((fun p => (p.1.1, std p.1.2 p.2 e)) <$> (wire c i o n).1, (wire c i o n).2).
Proof.
  induction c as [argv|c IH f m d|l IHl r IHr|l IHl r IHr|c IH]; cbn [ast_wf]; intros Hc i o e n.
  - by destruct argv.
  - destruct Hc as (Hc & _ & Hm); cbn [runcmd wire interp]; destruct (can_open f m) eqn:E; [|done].
    destruct Hm as [[-> ->]|[[-> ->]|[-> ->]]]; apply IH; done.
  - destruct Hc as [Hl Hr]; cbn [runcmd wire].
    change (interp (SPipe _) (std i o e) n) with
      (let '(a, n1) := interp (runcmd l) (std i (OWriteEnd n) e) (S n) in
       let '(b, n2) := let '(a, n1) := interp (runcmd r) (std (OReadEnd n) o e) n1 in let '(b, n2) := ([] : list (list (list Z) * table), n1) in (a ++ b, n2) in
       (a ++ b, n2)).
    rewrite (IHl Hl); destruct (wire l i (OWriteEnd n) (S n)) as [a n1]; cbn [fst snd]; rewrite (IHr Hr).
    destruct (wire r (OReadEnd n) o n1) as [b n2]; cbn [fst snd]; by rewrite fmap_app, app_nil_r.
  - destruct Hc as [Hl Hr]; cbn [runcmd wire]; unfold fork1; cbn [interp].
    change (interp (if 0 =? -1 then _ else _) (std i o e) n) with (interp (runcmd l) (std i o e) n).
    rewrite (IHl Hl); destruct (wire l i o n) as [a n1]; cbn [fst snd].
    change (interp (if 1 =? -1 then _ else _) (std i o e) n1) with (interp (runcmd r) (std i o e) n1).
    rewrite (IHr Hr); destruct (wire r i o n1) as [b n2]; cbn [fst snd]; by rewrite fmap_app.
  - cbn [runcmd wire]; unfold fork1; cbn [interp].
    change (interp (if 0 =? -1 then _ else _) (std i o e) n) with (interp (runcmd c) (std i o e) n).
    rewrite (IH Hc); destruct (wire c i o n) as [a n1]; cbn; by rewrite app_nil_r.
Qed.
End system.

(** C32. [runcmd] connects the programs of a command the way the command says.
    Started with standard input, output and error and nothing else open, and with
    [fork], [exec] and [pipe] successful, it starts exactly the programs of the
    command, in order, each with its arguments, with the input and output its
    redirections and pipes give it, and with no other descriptor open: no end of a
    pipe leaks into a program that does not use it. *)
Theorem runcmd_wires (can_open : list Z -> Z -> bool) c i o e n : ast_wf c ->
  interp can_open (runcmd c) (std i o e) n =
  ((fun p => (p.1.1, std p.1.2 p.2 e)) <$> (wire can_open c i o n).1, (wire can_open c i o n).2).
Proof. intros Hc; by apply runcmd_wired. Qed.

(** "cat <in | (wc; ls >>out)". *)
Definition run_ast : ast :=
  PIPE (REDIR (EXEC [bytes_of "cat"]) (bytes_of "in") O_RDONLY 0)
       (LIST (EXEC [bytes_of "wc"]) (REDIR (EXEC [bytes_of "ls"]) (bytes_of "out") (Z.lor O_WRONLY O_CREATE) 1)).

Lemma runcmd_wires_witness :
  (interp (fun _ _ => true) (runcmd run_ast) (std (OStd 0) (OStd 1) (OStd 2)) 0).1 =
  [([bytes_of "cat"], std (OFile (bytes_of "in") 0) (OWriteEnd 0) (OStd 2));
   ([bytes_of "wc"], std (OReadEnd 0) (OStd 1) (OStd 2));
   ([bytes_of "ls"], std (OReadEnd 0) (OFile (bytes_of "out") 513) (OStd 2))].
Proof.
  rewrite (runcmd_wires (fun _ _ => true) run_ast); [by vm_compute|].
  cbn [ast_wf run_ast]; unfold redir_ok, word, wordc, MAXARGS; split_and!; try (by repeat constructor); try done; auto; simpl; try lia.
Defined.
