(* ===== verification/Umalloc.v ===== *)
(** * The user-level memory allocator, [user/umalloc.c]

    A [Header] has 16 bytes; [p + n] on a [Header *] is [p + 16 * n].  The state is
    the [ptr] and [size] fields of the headers by address, [freep], and the break.
    [sbrk] is a parameter: the new break, or [None] when it fails.

    The free blocks form a circular list in the order of their addresses, which
    starts at [base] (a block of no units); [freep] is any of its nodes.  The
    invariant says so and that free and used blocks tile the heap: they do not
    overlap, and together they have as many units as [sbrk] has delivered. *)

From S2P Require Import Prelude.

Definition HDR : Z := 16.

Record umem := UMem { h_ptr : gmap Z Z; h_size : gmap Z Z; u_freep : Z; u_brk : Z }.

(** [p->s.ptr] and [p->s.size]. *)
Definition sptr (s : umem) (p : Z) : Z := default 0 (h_ptr s !! p).
Definition ssize (s : umem) (p : Z) : Z := default 0 (h_size s !! p).
Definition set_sptr (p q : Z) (s : umem) : umem := UMem (<[p := q]> (h_ptr s)) (h_size s) (u_freep s) (u_brk s).
Definition set_ssize (p n : Z) (s : umem) : umem := UMem (h_ptr s) (<[p := n]> (h_size s)) (u_freep s) (u_brk s).
Definition set_freep (p : Z) (s : umem) : umem := UMem (h_ptr s) (h_size s) p (u_brk s).
Definition set_brk (b : Z) (s : umem) : umem := UMem (h_ptr s) (h_size s) (u_freep s) b.

(** The loop of [free]: the block after which [bp] goes. *)
Fixpoint free_scan (fuel : nat) (s : umem) (bp p : Z) : option Z :=
  match fuel with
  | O => None
  | S fuel =>
      if (p <? bp) && (bp <? sptr s p) then Some p
      else if (sptr s p <=? p) && ((p <? bp) || (bp <? sptr s p)) then Some p
      else free_scan fuel s bp (sptr s p)
  end.

(** A turn for every block; [h_ptr] has an entry for each of them. *)
Definition scan_fuel (s : umem) : nat := S (size (h_ptr s)).

(** The rest of [free]: [bp] is joined to its upper neighbour, or put before it. *)
Definition join_upper (bp p : Z) (s : umem) : umem :=
  if bp + HDR * ssize s bp =? sptr s p then
    set_sptr bp (sptr s (sptr s p)) (set_ssize bp (u32 (ssize s bp + ssize s (sptr s p))) s)
  else set_sptr bp (sptr s p) s.
Definition join_lower (bp p : Z) (s : umem) : umem :=
  if p + HDR * ssize s p =? bp then
    set_sptr p (sptr s bp) (set_ssize p (u32 (ssize s p + ssize s bp)) s)
  else set_sptr p bp s.

Definition free (ap : Z) (s : umem) : option umem :=
  let bp := ap - HDR in
  p ← free_scan (scan_fuel s) s bp (u_freep s);
  Some (set_freep p (join_lower bp p (join_upper bp p s))).

Section allocator.
Context (base : Z) (sbrk : Z -> Z -> option Z).

(** [sbrk] takes an [int].  The result is [freep], or 0. *)
Definition morecore (nu : Z) (s : umem) : option (Z * umem) :=
  let nu := if nu <? 4096 then 4096 else nu in
  match sbrk (u_brk s) (s32 (nu * HDR)) with
  | None => Some (0, s)
  | Some b =>
      let hp := u_brk s in
      s ← free (hp + HDR) (set_ssize hp nu (set_brk b s));
      Some (u_freep s, s)
  end.

(** What [malloc] does with a block that is large enough. *)
Definition take_block (nunits prevp p : Z) (s : umem) : Z * umem :=
  if ssize s p =? nunits then (p + HDR, set_freep prevp (set_sptr prevp (sptr s p) s))
  else
    let s := set_ssize p (u32 (ssize s p - nunits)) s in
    let q := p + HDR * ssize s p in
    (q + HDR, set_freep prevp (set_ssize q nunits s)).

Fixpoint malloc_loop (fuel : nat) (nunits prevp p : Z) (s : umem) : option (Z * umem) :=
  match fuel with
  | O => None
  | S fuel =>
      if nunits <=? ssize s p then Some (take_block nunits prevp p s)
      else if p =? u_freep s then
        '(p, s) ← morecore nunits s;
        if p =? 0 then Some (0, s) else malloc_loop fuel nunits p (sptr s p) s
      else malloc_loop fuel nunits p (sptr s p) s
  end.

Definition nunits_of (nbytes : Z) : Z := u32 ((nbytes + HDR - 1) / HDR + 1).

(** At most once round the list before [morecore] and once after it. *)
Definition malloc (nbytes : Z) (s : umem) : option (Z * umem) :=
  let nunits := nunits_of nbytes in
  let s := if u_freep s =? 0 then set_ssize base 0 (set_freep base (set_sptr base base s)) else s in
  malloc_loop (scan_fuel s + scan_fuel s + 1) nunits (u_freep s) (sptr s (u_freep s)) s.
End allocator.

(** ** Circular lists of blocks *)

(** A block: its address and its number of units. *)
Abbreviation block := (Z * Z)%type.

Definition head_addr (l : list block) (z : Z) : Z := match l with [] => z | b :: _ => b.1 end.

(** The headers of [l] in a row, the last one pointing to [z]. *)
Fixpoint links (s : umem) (l : list block) (z : Z) : Prop :=
  match l with
  | [] => True
  | (a, n) :: l => h_ptr s !! a = Some (head_addr l z) /\ ssize s a = n /\ links s l z
  end.

Definition circ (s : umem) (l : list block) : Prop := links s l (head_addr l 0).

Lemma links_app s l1 l2 z : links s (l1 ++ l2) z <-> links s l1 (head_addr l2 z) /\ links s l2 z.
Proof.
  induction l1 as [|[a n] l1 IH]; cbn [app links]; [tauto|]; rewrite IH.
  assert (head_addr (l1 ++ l2) z = head_addr l1 (head_addr l2 z)) as -> by by destruct l1. tauto.
Qed.

Lemma circ_rot s l1 l2 : circ s (l1 ++ l2) -> circ s (l2 ++ l1).
Proof.
  unfold circ; destruct l1 as [|x l1]; [by rewrite app_nil_r|]; destruct l2 as [|y l2]; [by rewrite app_nil_r|].
  rewrite !links_app; cbn [app head_addr]; tauto.
Qed.

(** Steps that leave the headers of [l] alone. *)
Lemma links_frame s s' l z :
  (forall b, b ∈ l -> h_ptr s' !! b.1 = h_ptr s !! b.1 /\ ssize s' b.1 = ssize s b.1) -> links s l z -> links s' l z.
Proof.
  induction l as [|[a n] l IH]; cbn [links]; [done|]; intros H (H1 & H2 & H3).
  destruct (H (a, n)) as [E1 E2]; [by left|]; cbn [fst] in *; rewrite E1, E2; split_and!; auto.
  apply IH; [|done]; intros b Hb; apply H; by right.
Qed.

Lemma sptr_links s l a n z : links s ((a, n) :: l) z -> sptr s a = head_addr l z /\ ssize s a = n.
Proof. intros (H1 & H2 & _); unfold sptr; by rewrite H1. Qed.

(** A walk along the list, up to the first block that satisfies [stop]. *)
Lemma free_scan_walk s bp x p n y z fuel :
  links s (x ++ (p, n) :: y) z -> (length x < fuel)%nat ->
  Forall (fun b => ~ (b.1 < bp < sptr s b.1) /\ ~ (sptr s b.1 <= b.1 /\ (b.1 < bp \/ bp < sptr s b.1))) x ->
  (p < bp < sptr s p) \/ (sptr s p <= p /\ (p < bp \/ bp < sptr s p)) ->
  free_scan fuel s bp (head_addr (x ++ (p, n) :: y) z) = Some p.
Proof.
  revert fuel; induction x as [|[a m] x IH]; intros [|fuel] Hl Hf Hx Hp; cbn [length] in *; try lia; cbn [app head_addr fst free_scan].
  - destruct (Z.ltb_spec p bp), (Z.ltb_spec bp (sptr s p)), (Z.leb_spec (sptr s p) p); cbn [andb orb]; done || lia.
  - apply Forall_cons in Hx as [[H1 H2] Hx]; cbn [fst] in H1, H2; cbn [app] in Hl.
    destruct (sptr_links _ _ _ _ _ Hl) as [E _]; destruct Hl as (_ & _ & Hl).
    assert ((a <? bp) && (bp <? sptr s a) = false) as -> by (destruct (Z.ltb_spec a bp), (Z.ltb_spec bp (sptr s a)); done || lia).
    assert ((sptr s a <=? a) && ((a <? bp) || (bp <? sptr s a)) = false) as ->.
    { destruct (Z.leb_spec (sptr s a) a), (Z.ltb_spec a bp), (Z.ltb_spec bp (sptr s a)); done || lia. }
    assert (head_addr (x ++ (p, n) :: y) z = sptr s a) as <- by by rewrite E.
    apply IH; auto; lia.
Qed.

Definition last_addr (prevp : Z) (x : list block) : Z := match last x with Some b => b.1 | None => prevp end.

Lemma malloc_walk sbrk nunits s x p n y z fuel prevp :
  links s (x ++ (p, n) :: y) z -> Forall (fun b => b.2 < nunits /\ b.1 <> u_freep s) x ->
  malloc_loop sbrk (length x + fuel) nunits prevp (head_addr (x ++ (p, n) :: y) z) s =
  malloc_loop sbrk fuel nunits (last_addr prevp x) p s.
Proof.
  revert prevp; induction x as [|[a m] x IH]; intros prevp Hl Hx; [done|].
  apply Forall_cons in Hx as [[H1 H2] Hx]; cbn [fst snd] in H1, H2; cbn [app] in Hl.
  destruct (sptr_links _ _ _ _ _ Hl) as [E Em]; destruct Hl as (_ & _ & Hl).
  cbn [length Nat.add app head_addr fst malloc_loop].
  rewrite (proj2 (Z.leb_gt nunits (ssize s a))), (proj2 (Z.eqb_neq a (u_freep s))) by (done || lia).
  assert (head_addr (x ++ (p, n) :: y) z = sptr s a) as <- by by rewrite E.
  rewrite IH by done; f_equal; unfold last_addr; by destruct x using rev_ind; rewrite ?last_snoc, ?app_comm_cons, ?last_snoc.
Qed.

(** ** Pairs in a list *)

Section pairwise.
Context {A : Type} (R : A -> A -> Prop).

Fixpoint pairwise (l : list A) : Prop :=
  match l with
  | [] => True
  | x :: l => Forall (R x) l /\ pairwise l
  end.

Lemma pairwise_app l1 l2 : pairwise (l1 ++ l2) <-> pairwise l1 /\ pairwise l2 /\ (forall x y, x ∈ l1 -> y ∈ l2 -> R x y).
Proof.
  induction l1 as [|a l1 IH]; cbn [app pairwise].
  - split; [intros H; split_and!; auto; by intros ? ? ?%elem_of_nil|tauto].
  - rewrite Forall_app, IH, !Forall_forall; split.
    + intros ((H1 & H2) & H3 & H4 & H5); split_and!; auto; intros x y [->|Hx]%elem_of_cons Hy; auto.
    + intros ((H1 & H2) & H3 & H4); split_and!; auto; intros; apply H4; auto; [by left|by right].
Qed.

Lemma pairwise_perm l l' : (forall x y, R x y -> R y x) -> l ≡ₚ l' -> pairwise l -> pairwise l'.
Proof.
  intros Hsym; induction 1 as [|x l l' Hp IH|x y l|l l' l'' _ IH1 _ IH2]; cbn [pairwise]; auto.
  - intros [H1 H2]; split; [by rewrite <- Hp|auto].
  - intros (H1 & H2 & H3); apply Forall_cons in H1 as [H0 H1]; split_and!; auto; constructor; auto.
Qed.
End pairwise.

(** ** The invariant *)

Definition before (x y : block) : Prop := x.1 < y.1.
Definition apart (x y : block) : Prop := x.1 + HDR * x.2 <= y.1 \/ y.1 + HDR * y.2 <= x.1.
Definition units (l : list block) : Z := foldr (fun b n => b.2 + n) 0 l.

Lemma apart_sym x y : apart x y -> apart y x.
Proof. unfold apart; tauto. Qed.

Lemma units_cons b l : units (b :: l) = b.2 + units l.
Proof. done. Qed.

Lemma units_app l1 l2 : units (l1 ++ l2) = units l1 + units l2.
Proof. unfold units; induction l1 as [|b l1 IH]; cbn [app foldr]; lia. Qed.

Lemma units_perm l l' : l ≡ₚ l' -> units l = units l'.
Proof. unfold units; induction 1; cbn [foldr]; lia. Qed.

Section heap.
(** The heap begins after [base]; its units can be counted in a [uint]. *)
Context (base heap0 limit : Z).
Hypothesis Hbase : 0 < base /\ base + HDR <= heap0.
Hypothesis Hlimit : limit - heap0 < HDR * 2 ^ 32.

Definition block_ok (brk : Z) (b : block) : Prop :=
  heap0 <= b.1 /\ 1 <= b.2 /\ b.1 + HDR * b.2 <= brk /\ (b.1 - heap0) mod HDR = 0.

(** [bs] are the free blocks, [used] the ones the program holds. *)
Record heap_inv (s : umem) (bs used : list block) : Prop := {
  hi_circ : circ s ((base, 0) :: bs);
  hi_sorted : pairwise before ((base, 0) :: bs);
  hi_freep : u_freep s ∈ ((base, 0) :: bs).*1;
  hi_used : Forall (fun b => ssize s b.1 = b.2) used;
  hi_blocks : Forall (block_ok (u_brk s)) (bs ++ used);
  hi_apart : pairwise apart (bs ++ used);
  hi_units : heap0 + HDR * units (bs ++ used) = u_brk s;
  hi_limit : u_brk s <= limit
}.

Lemma units_bound brk l : Forall (block_ok brk) l -> 0 <= units l.
Proof. unfold units; induction 1 as [|b l (_ & H & _) _ IH]; cbn [foldr]; lia. Qed.

Lemma units_elem brk l b : Forall (block_ok brk) l -> b ∈ l -> b.2 <= units l.
Proof.
  intros Hl; induction Hl as [|c l (_ & H & _) Hl IH]; [by intros ?%elem_of_nil|].
  pose proof (units_bound brk l Hl); intros [->|Hb%IH]%elem_of_cons; unfold units in *; cbn [foldr]; lia.
Qed.

(** Where a block that is not free goes in the list. *)
Lemma split_at l bp : pairwise before l -> bp ∉ l.*1 -> (exists b, b ∈ l /\ b.1 < bp) ->
  exists A p B, l = A ++ p :: B /\ p.1 < bp /\ Forall (fun b => bp < b.1) B.
Proof.
  induction l as [|c l IH]; intros Hs Hn (b & Hb & Hlt); [by apply elem_of_nil in Hb|].
  destruct Hs as [Hc Hs]; cbn [fmap list_fmap] in Hn; apply not_elem_of_cons in Hn as [Hnc Hn].
  destruct (decide (Exists (fun x => x.1 < bp) l)) as [He|He].
  - apply Exists_exists in He; destruct (IH Hs Hn He) as (A & p & B & -> & Hp & HB); by exists (c :: A), p, B.
  - exists [], c, l; split_and!; [done| |].
    + apply elem_of_cons in Hb as [->|Hb]; [done|]; destruct He; apply Exists_exists; eauto.
    + apply Forall_forall; intros x Hx; assert (x.1 <> bp) by (intros <-; apply Hn; by apply list_elem_of_fmap_2).
      assert (~ x.1 < bp) by (intros ?; apply He, Exists_exists; eauto); lia.
Qed.

(** A rotation of the list that begins at a given node. *)
Lemma rotate_to s l a : circ s l -> a ∈ l.*1 -> exists U V n, l = U ++ (a, n) :: V /\ circ s ((a, n) :: V ++ U).
Proof.
  intros Hc ([b n] & -> & Hb)%list_elem_of_fmap; apply list_elem_of_split in Hb as (U & V & ->).
  exists U, V, n; split; [done|]; by apply (circ_rot s U ((b, n) :: V)).
Qed.

(** The successor of a node of the list. *)
Lemma sptr_next s A a n B z : links s (A ++ (a, n) :: B) z -> sptr s a = head_addr B z /\ ssize s a = n.
Proof. rewrite links_app; intros [_ H]; by eapply sptr_links. Qed.

Lemma before_trans x y z : before x y -> before y z -> before x z.
Proof. unfold before; lia. Qed.

(** Only the predecessor of [bp] ends the scan of [free]. *)
Lemma free_stops s bs A p n B bp b :
  circ s ((base, 0) :: bs) -> pairwise before ((base, 0) :: bs) -> (base, 0) :: bs = A ++ (p, n) :: B ->
  base < bp -> p < bp -> Forall (fun b => bp < b.1) B -> b ∈ A ++ B ->
  ~ (b.1 < bp < sptr s b.1) /\ ~ (sptr s b.1 <= b.1 /\ (b.1 < bp \/ bp < sptr s b.1)).
Proof.
  intros Hc Hs E Hb0 Hp HB Hb; unfold circ in Hc; cbn [head_addr fst] in Hc; rewrite E in Hc, Hs; destruct b as [b m]; cbn [fst].
  rewrite Forall_forall in HB; apply elem_of_app in Hb as [Hb|Hb]; apply list_elem_of_split in Hb as (X & Y & ->).
  - rewrite <- app_assoc in Hc, Hs; cbn [app] in Hc, Hs; destruct (sptr_next _ _ _ _ _ _ Hc) as [-> _].
    apply pairwise_app in Hs as (_ & [Hs Hs2] & _); rewrite Forall_forall in Hs; unfold before in Hs; cbn [fst] in Hs.
    assert (b < head_addr (Y ++ (p, n) :: B) base <= p) as Hr; [|lia]; destruct Y as [|y Y]; cbn [app head_addr fst].
    + specialize (Hs (p, n)); cbn [fst] in Hs; split; [apply Hs; by left|lia].
    + split; [apply Hs; by left|]; cbn [app pairwise] in Hs2; destruct Hs2 as [Hs2 _]; rewrite Forall_forall in Hs2; unfold before in Hs2.
      specialize (Hs2 (p, n)); cbn [fst] in Hs2; apply Z.lt_le_incl, Hs2, elem_of_app; right; by left.
  - rewrite app_comm_cons, app_assoc in Hc; destruct (sptr_next _ _ _ _ _ _ Hc) as [-> _].
    assert (bp < b) as Hgt by (apply (HB (b, m)), elem_of_app; right; by left).
    destruct Y as [|y Y]; cbn [head_addr]; [lia|].
    rewrite app_comm_cons, app_assoc in Hs; apply pairwise_app in Hs as (_ & [Hs _] & _); apply Forall_cons in Hs as [Hs _]; unfold before in Hs; cbn [fst] in Hs; lia.
Qed.

(** ** The scan of [free] *)

Lemma ascending_NoDup l : pairwise before l -> NoDup l.*1.
Proof.
  induction l as [|b l IH]; cbn [pairwise fmap list_fmap]; [constructor|]; intros [H1 H2]; constructor; auto.
  intros (c & E & Hc)%list_elem_of_fmap; rewrite Forall_forall in H1; specialize (H1 c Hc); unfold before in H1; lia.
Qed.

Lemma links_dom s l z b : links s l z -> b ∈ l -> is_Some (h_ptr s !! b.1).
Proof. intros Hl Hb; apply list_elem_of_split in Hb as (X & Y & ->); destruct b as [a n]; apply links_app in Hl as [_ [H _]]; eauto. Qed.

Lemma nodes_fuel s bs : circ s ((base, 0) :: bs) -> pairwise before ((base, 0) :: bs) -> (S (length bs) <= size (h_ptr s))%nat.
Proof.
  intros Hc Hs; pose proof (ascending_NoDup _ Hs) as Hn; set (l := ((base, 0) :: bs).*1) in *.
  assert (S (length bs) = length l) as -> by (unfold l; by rewrite length_fmap).
  rewrite <- (size_list_to_set (C := gset Z) l Hn), <- size_dom; apply subseteq_size; intros a.
  rewrite elem_of_list_to_set, elem_of_dom; unfold l; intros (b & -> & Hb)%list_elem_of_fmap; by eapply links_dom.
Qed.

Lemma free_scan_finds s bs used bp :
  heap_inv s bs used -> base < bp -> bp ∉ ((base, 0) :: bs).*1 ->
  exists A p n B, (base, 0) :: bs = A ++ (p, n) :: B /\ p < bp /\ Forall (fun b => bp < b.1) B /\
    free_scan (scan_fuel s) s bp (u_freep s) = Some p.
Proof.
  intros [Hc Hs Hf _ _ _ _ _] Hb Hn; destruct (split_at _ bp Hs Hn) as (A & [p n] & B & E & Hp & HB); [exists (base, 0); split; [by left|done]|].
  exists A, p, n, B; split_and!; [done|done|done|]; cbn [fst] in Hp.
  destruct (rotate_to s _ _ Hc Hf) as (U & V & m & E' & Hrot); set (M := (u_freep s, m) :: V ++ U) in *.
  assert (M ≡ₚ (base, 0) :: bs) as HM by (unfold M; rewrite E'; solve_Permutation).
  assert ((p, n) ∈ M) as HpM by (rewrite HM, E; apply elem_of_app; right; by left).
  apply list_elem_of_split in HpM as (X & Y & EM).
  assert (u_freep s = head_addr (X ++ (p, n) :: Y) (u_freep s)) as Hh by by rewrite <- EM.
  rewrite Hh; apply (free_scan_walk s bp X p n Y).
  - rewrite <- EM; exact Hrot.
  - pose proof (nodes_fuel s bs Hc Hs); apply Permutation_length in HM; rewrite EM, length_app in HM; unfold scan_fuel; cbn [length] in *; lia.
  - apply Forall_forall; intros b HbX; eapply (free_stops s bs A p n B); eauto.
    assert (b ∈ A ++ (p, n) :: B) as Hin by (rewrite <- E, <- HM, EM; apply elem_of_app; by left).
    assert (b.1 <> p) as Hne.
    { pose proof (ascending_NoDup _ Hs) as Hnd; rewrite <- HM, EM, fmap_app in Hnd; cbn [fmap list_fmap fst] in Hnd.
      apply NoDup_app in Hnd as (_ & Hnd & _); intros Eb; apply (Hnd p); [rewrite <- Eb; by apply list_elem_of_fmap_2|by left]. }
    apply elem_of_app in Hin as [?|[->|?]%elem_of_cons]; [apply elem_of_app; by left|done|apply elem_of_app; by right].
  - unfold circ in Hc; cbn [head_addr fst] in Hc; rewrite E in Hc; destruct (sptr_next _ _ _ _ _ _ Hc) as [-> _].
    destruct B as [|b B]; cbn [head_addr]; [|apply Forall_cons in HB as [HB _]; lia].
    right; split; [|lia]; destruct A as [|a A]; cbn [app] in E; [injection E; intros; subst; lia|]; injection E as <- E.
    destruct Hs as [Hs _]; rewrite Forall_forall in Hs; specialize (Hs (p, n)); unfold before in Hs; cbn [fst] in Hs.
    apply Z.lt_le_incl, Hs; rewrite E; apply elem_of_app; right; by left.
Qed.

(** ** Tilings *)

Definition tiling (brk : Z) (l : list block) : Prop :=
  Forall (block_ok brk) l /\ pairwise apart l /\ heap0 + HDR * units l = brk.

Lemma tiling_perm brk l l' : l ≡ₚ l' -> tiling brk l -> tiling brk l'.
Proof.
  intros Hp (H1 & H2 & H3); split_and!; [by rewrite <- Hp| |by rewrite <- (units_perm l l')].
  by eapply pairwise_perm; [apply apart_sym|exact Hp|].
Qed.

(** Adjacent blocks become one, and a block becomes two. *)
Lemma tiling_merge brk a m k l : tiling brk ((a, m) :: (a + HDR * m, k) :: l) -> tiling brk ((a, m + k) :: l).
Proof.
  intros (H1 & (H2 & H3 & H4) & H5); apply Forall_cons in H1 as [Ha H1]; apply Forall_cons in H1 as [Hk H1]; apply Forall_cons in H2 as [_ H2].
  unfold block_ok in Ha, Hk; cbn [fst snd] in Ha, Hk; unfold HDR in *; split_and!.
  - constructor; [|done]; unfold block_ok; cbn [fst snd]; unfold HDR; split_and!; lia.
  - split; [|done]; rewrite Forall_forall in *; intros [b j] Hb; specialize (H1 _ Hb); specialize (H2 _ Hb); specialize (H3 _ Hb).
    unfold apart, block_ok in *; cbn [fst snd] in *; unfold HDR in *; lia.
  - rewrite !units_cons in H5; rewrite units_cons; cbn [snd] in *; unfold HDR in *; lia.
Qed.

Lemma tiling_split brk a m k l : 1 <= k -> 1 <= m -> tiling brk ((a, m + k) :: l) -> tiling brk ((a, m) :: (a + HDR * m, k) :: l).
Proof.
  intros Hk0 Hm0 (H1 & (H2 & H3) & H4); apply Forall_cons in H1 as [Ha H1]; unfold block_ok in Ha; cbn [fst snd] in Ha; unfold HDR in *; split_and!.
  - repeat (constructor; [unfold block_ok; cbn [fst snd]; unfold HDR; split_and!; try lia|]); [|done].
    replace (a + 16 * m - heap0) with (a - heap0 + m * 16) by lia; rewrite Z_mod_plus_full; apply Ha.
  - rewrite Forall_forall in H2; split; [constructor; [unfold apart; cbn [fst snd]; unfold HDR; lia|]|split; [|done]];
      apply Forall_forall; intros [b j] Hb; specialize (H2 _ Hb); unfold apart in *; cbn [fst snd] in *; unfold HDR in *; lia.
  - rewrite units_cons in H4; rewrite !units_cons; cbn [snd] in *; unfold HDR in *; lia.
Qed.

Lemma tiling_size brk l b : tiling brk l -> brk <= limit -> b ∈ l -> 1 <= b.2 < 2 ^ 32.
Proof.
  intros (H1 & _ & H3) Hb Hin; pose proof (units_elem brk l b H1 Hin) as Hu; rewrite Forall_forall in H1; destruct (H1 b Hin) as (_ & H & _).
  unfold HDR in *; lia.
Qed.

Lemma tiling_addr brk l1 b l2 c : tiling brk (l1 ++ b :: l2) -> c ∈ l1 ++ l2 -> c.1 <> b.1.
Proof.
  intros Ht Hc; assert (tiling brk (b :: (l1 ++ l2))) as (H1 & (H2 & _) & _) by (eapply tiling_perm; [|exact Ht]; by rewrite Permutation_middle).
  apply Forall_cons in H1 as [(_ & Hb & _) H1]; rewrite Forall_forall in H1, H2; specialize (H2 c Hc); destruct (H1 c Hc) as (_ & Hc' & _).
  unfold apart, HDR in H2; lia.
Qed.

(** ** Joining *)

(** Nothing but the header at [a] changes. *)
Definition same_but (a : Z) (s s' : umem) : Prop :=
  u_freep s' = u_freep s /\ u_brk s' = u_brk s /\
  forall x, x <> a -> h_ptr s' !! x = h_ptr s !! x /\ ssize s' x = ssize s x.

Lemma links_same_but a s s' l z : same_but a s s' -> a ∉ l.*1 -> links s l z -> links s' l z.
Proof.
  intros (_ & _ & H) Ha; apply links_frame; intros b Hb; apply H; intros <-; apply Ha; by apply list_elem_of_fmap_2.
Qed.

Lemma same_but_put a q n s : same_but a s (set_sptr a q (set_ssize a n s)).
Proof. split_and!; [done|done|]; intros x Hx; unfold ssize; cbn; by rewrite !lookup_insert_ne. Qed.
Lemma same_but_ptr a q s : same_but a s (set_sptr a q s).
Proof. split_and!; [done|done|]; intros x Hx; unfold ssize; cbn; by rewrite lookup_insert_ne. Qed.

Lemma links_put a q n s l z : q = head_addr l z -> a ∉ l.*1 -> links s l z -> links (set_sptr a q (set_ssize a n s)) ((a, n) :: l) z.
Proof.
  intros -> Ha Hl; cbn [links]; split_and!; [by cbn; rewrite lookup_insert_eq|unfold ssize; cbn; by rewrite lookup_insert_eq|].
  by eapply links_same_but; [apply same_but_put|..].
Qed.
Lemma links_ptr a q n s l z : q = head_addr l z -> ssize s a = n -> a ∉ l.*1 -> links s l z -> links (set_sptr a q s) ((a, n) :: l) z.
Proof.
  intros -> Hn Ha Hl; cbn [links]; split_and!; [by cbn; rewrite lookup_insert_eq|by unfold ssize; cbn|].
  by eapply links_same_but; [apply same_but_ptr|..].
Qed.

(** The list from [bp] on, after the first half of [free]. *)
Lemma join_upper_links s bp n p sp B z :
  links s ((p, sp) :: B) z -> ssize s bp = n -> bp ∉ B.*1 -> bp <> p -> z < bp -> 1 <= n ->
  Forall (fun b => 0 <= n + b.2 < 2 ^ 32) B ->
  exists n2 B2, links (join_upper bp p s) ((bp, n2) :: B2) z /\ same_but bp s (join_upper bp p s) /\
    ((n2 = n /\ B2 = B) \/ exists m, B = (bp + HDR * n, m) :: B2 /\ n2 = n + m).
Proof.
  intros Hl Hn Hb Hne Hz Hn1 Hu; destruct (sptr_links _ _ _ _ _ Hl) as [Ep _]; destruct Hl as (_ & _ & Hl); unfold join_upper; rewrite Ep, Hn.
  destruct (Z.eqb_spec (bp + HDR * n) (head_addr B z)) as [E|_].
  - destruct B as [|[b m] B]; cbn [head_addr fst] in *; [unfold HDR in *; lia|]; destruct (sptr_links _ _ _ _ _ Hl) as [Eb Em]; rewrite Eb, Em.
    apply Forall_cons in Hu as [Hu _]; cbn [snd] in Hu; rewrite u32_small by done; cbn [fmap list_fmap] in Hb; apply not_elem_of_cons in Hb as [_ Hb].
    exists (n + m), B; split_and!; [|apply same_but_put|right; exists m; by rewrite E].
    destruct Hl as (_ & _ & Hl); by apply links_put.
  - exists n, B; split_and!; [by apply links_ptr|apply same_but_ptr|by left].
Qed.

(** The list from [p] on, after the second half. *)
Lemma join_lower_links s bp n2 p sp B2 z :
  links s ((bp, n2) :: B2) z -> ssize s p = sp -> p ∉ B2.*1 -> p <> bp -> 0 <= sp + n2 < 2 ^ 32 ->
  exists M, links (join_lower bp p s) M z /\ same_but p s (join_lower bp p s) /\ head_addr M z = p /\
    (M = (p, sp) :: (bp, n2) :: B2 \/ (p + HDR * sp = bp /\ M = (p, sp + n2) :: B2)).
Proof.
  intros Hl Hsp Hp Hne Hu; destruct (sptr_links _ _ _ _ _ Hl) as [Eb Em]; unfold join_lower; rewrite Hsp.
  destruct (Z.eqb_spec (p + HDR * sp) bp) as [E|_].
  - rewrite Eb, Em, u32_small by done; exists ((p, sp + n2) :: B2); split_and!; [|apply same_but_put|done|by right].
    destruct Hl as (_ & _ & Hl); by apply links_put.
  - exists ((p, sp) :: (bp, n2) :: B2); split_and!; [|apply same_but_ptr|done|by left].
    apply links_ptr; auto; cbn [fmap list_fmap fst]; by apply not_elem_of_cons.
Qed.

(** ** [free] *)

Lemma links_freep p s l z : links s l z -> links (set_freep p s) l z.
Proof. apply links_frame; done. Qed.

Lemma heap_inv_perm s bs used used' : used ≡ₚ used' -> heap_inv s bs used -> heap_inv s bs used'.
Proof.
  intros Hp [H1 H2 H3 H4 H5 H6 H7 H8]; split; auto; try by rewrite <- Hp.
  - eapply pairwise_perm; [apply apart_sym|by rewrite <- Hp|done].
  - by rewrite <- (units_perm (bs ++ used)) by by rewrite Hp.
Qed.

Lemma inv_tiling s bs used : heap_inv s bs used -> tiling (u_brk s) (bs ++ used).
Proof. intros []; done. Qed.

Lemma tiling_low brk l b : tiling brk l -> b ∈ l -> base < b.1.
Proof. intros (H & _) Hb; rewrite Forall_forall in H; destruct (H b Hb) as (H1 & _); unfold HDR in *; lia. Qed.

(** The blocks, after both halves of [free]. *)
Lemma free_tiling brk A p sp B bp n used n2 B2 bs M z :
  (base, 0) :: bs = A ++ (p, sp) :: B -> tiling brk (bs ++ (bp, n) :: used) -> base < bp ->
  ((n2 = n /\ B2 = B) \/ exists m, B = (bp + HDR * n, m) :: B2 /\ n2 = n + m) ->
  (M = (p, sp) :: (bp, n2) :: B2 \/ (p + HDR * sp = bp /\ M = (p, sp + n2) :: B2)) ->
  exists bs', (base, 0) :: bs' = A ++ M /\ tiling brk (bs' ++ used) /\ (exists b, b ∈ bs' /\ n <= b.2) /\ (length bs' <= S (length bs))%nat /\
    head_addr M z = p.
Proof.
  intros E Ht Hb Hup Hlow.
  assert (n <= n2 /\ (length B2 <= length B)%nat /\ exists P, bs = P ++ B /\ tiling brk ((bp, n2) :: P ++ B2 ++ used) /\
    ((A = [] /\ P = [] /\ p = base /\ sp = 0) \/ exists A', A = (base, 0) :: A' /\ P = A' ++ [(p, sp)])) as (Hn & HlB & P & -> & Ht1 & HP).
  { assert (exists P, bs = P ++ B /\ ((A = [] /\ P = [] /\ p = base /\ sp = 0) \/ exists A', A = (base, 0) :: A' /\ P = A' ++ [(p, sp)])) as (P & -> & HP).
    { destruct A as [|a A]; cbn [app] in E; [injection E as <- <- ->; exists []; split; [done|by left]|].
      injection E as <- ->; exists (A ++ [(p, sp)]); rewrite <- app_assoc; split; [done|right; by exists A]. }
    destruct Hup as [[-> ->]|(m & -> & ->)].
    - split_and!; [done|done|]; exists P; split_and!; auto; eapply tiling_perm; [|exact Ht]; solve_Permutation.
    - assert (tiling brk ((bp, n) :: (bp + HDR * n, m) :: P ++ B2 ++ used)) as Ht' by (eapply tiling_perm; [|exact Ht]; solve_Permutation).
      split_and!; [|cbn; lia|exists P; split_and!; [done|by apply tiling_merge|done]].
      destruct Ht' as (H & _); apply Forall_cons in H as [_ H]; apply Forall_cons in H as [(_ & H & _) _]; cbn [snd] in H; lia. }
  destruct Hlow as [->|[Ebp ->]].
  - exists (P ++ (bp, n2) :: B2); split_and!.
    + destruct HP as [(-> & -> & -> & ->)|(A' & -> & ->)]; [done|]; cbn [app]; by rewrite <- !app_assoc.
    + eapply tiling_perm; [|exact Ht1]; solve_Permutation.
    + exists (bp, n2); split; [apply elem_of_app; right; by left|done].
    + rewrite !length_app; cbn [length]; lia.
    + done.
  - destruct HP as [(-> & -> & -> & ->)|(A' & -> & ->)]; [unfold HDR in *; lia|].
    assert (tiling brk ((p, sp) :: (p + HDR * sp, n2) :: A' ++ B2 ++ used)) as Ht2 by (rewrite Ebp; eapply tiling_perm; [|exact Ht1]; solve_Permutation).
    exists (A' ++ (p, sp + n2) :: B2); split_and!.
    + cbn [app]; by rewrite <- ?app_assoc.
    + eapply tiling_perm; [|exact (tiling_merge _ _ _ _ _ Ht2)]; solve_Permutation.
    + exists (p, sp + n2); split; [apply elem_of_app; right; by left|]; cbn [snd].
      destruct Ht2 as (H & _); apply Forall_cons in H as [(_ & H & _) _]; cbn [snd] in H; lia.
    + rewrite !length_app; cbn [length]; lia.
    + done.
Qed.

(** The order of the addresses, after both halves of [free]. *)
Lemma free_sorted A p sp B bp n n2 B2 M :
  pairwise before (A ++ (p, sp) :: B) -> p < bp -> Forall (fun b => bp < b.1) B ->
  ((n2 = n /\ B2 = B) \/ exists m, B = (bp + HDR * n, m) :: B2 /\ n2 = n + m) ->
  (M = (p, sp) :: (bp, n2) :: B2 \/ (p + HDR * sp = bp /\ M = (p, sp + n2) :: B2)) ->
  pairwise before (A ++ M).
Proof.
  intros (HA & (HpB & HB) & Hx)%pairwise_app Hp HbB Hup Hlow.
  assert (pairwise before B2 /\ forall b, b ∈ B2 -> bp < b.1) as [HB2 Hb2].
  { rewrite Forall_forall in HbB; destruct Hup as [[_ ->]|(m & -> & _)]; [done|]; split; [apply HB|]; intros b Hb; apply HbB; by right. }
  assert (forall x, x ∈ A -> x.1 < p) as HAp by (intros x Hxin; apply (Hx x (p, sp) Hxin); by left).
  apply pairwise_app; split_and!; [done| |].
  - destruct Hlow as [->|[_ ->]]; cbn [pairwise]; rewrite ?Forall_cons, ?Forall_forall; unfold before; cbn [fst]; split_and!; auto;
      intros b Hb; specialize (Hb2 b Hb); lia.
  - intros x y Hxin Hy; specialize (HAp x Hxin); unfold before; destruct Hlow as [->|[_ ->]]; rewrite !elem_of_cons in Hy;
      destruct_or? Hy; subst; cbn [fst]; try lia; specialize (Hb2 y Hy); lia.
Qed.

(** The sizes that [free] adds up fit a [uint]. *)
Lemma units_sub brk l l' : l ⊆+ l' -> Forall (block_ok brk) l' -> units l <= units l'.
Proof.
  intros [k Hk]%submseteq_Permutation Hl; rewrite (units_perm _ _ Hk), units_app; rewrite Hk in Hl.
  apply Forall_app in Hl as [_ Hl]; pose proof (units_bound _ _ Hl); lia.
Qed.

Lemma join_bounds brk A p sp B bp n used bs :
  (base, 0) :: bs = A ++ (p, sp) :: B -> tiling brk (bs ++ (bp, n) :: used) -> brk <= limit ->
  Forall (fun b => 0 <= n + b.2 < 2 ^ 32) B /\
  (forall n2 B2, (n2 = n /\ B2 = B) \/ (exists m, B = (bp + HDR * n, m) :: B2 /\ n2 = n + m) -> 0 <= sp + n2 < 2 ^ 32).
Proof.
  intros E (Hok & _ & Hsum) Hlim; assert (units (bs ++ (bp, n) :: used) < 2 ^ 32) as Htot by (unfold HDR in *; lia).
  assert (exists P, bs = P ++ B /\ (units P >= sp /\ 0 <= sp)) as (P & -> & HP).
  { destruct A as [|a A]; cbn [app] in E; [injection E as <- <- ->; exists []; split; [done|]; unfold units; cbn; lia|].
    injection E as <- ->; exists (A ++ [(p, sp)]); rewrite <- app_assoc; split; [done|]; rewrite units_app, units_cons; unfold units at 2; cbn [snd foldr].
    apply Forall_app in Hok as [[HA [(_ & Hsp & _) _]%Forall_cons]%Forall_app _]; cbn [snd] in Hsp; pose proof (units_bound _ _ HA); cbn; lia. }
  rewrite !units_app, units_cons in Htot; cbn [snd] in Htot; apply Forall_app in Hok as [[HP1 HB1]%Forall_app [(_ & Hn & _) Hu1]%Forall_cons]; cbn [snd] in Hn.
  pose proof (units_bound _ _ Hu1); pose proof (units_bound _ _ HP1); pose proof (units_bound _ _ HB1); split.
  - apply Forall_forall; intros b Hb; pose proof (units_elem _ _ b HB1 Hb); rewrite Forall_forall in HB1; destruct (HB1 b Hb) as (_ & ? & _); lia.
  - intros n2 B2 [[-> _]|(m & EB & ->)]; [lia|]; rewrite EB in *; rewrite units_cons in *; cbn [snd] in *.
    apply Forall_cons in HB1 as [(_ & Hm & _) HB1]; cbn [snd] in Hm; pose proof (units_bound _ _ HB1); lia.
Qed.

Lemma free_spec s bs bp n used :
  heap_inv s bs ((bp, n) :: used) ->
  exists s' bs', free (bp + HDR) s = Some s' /\ heap_inv s' bs' used /\ (exists b, b ∈ bs' /\ n <= b.2) /\
    u_brk s' = u_brk s /\ (length bs' <= S (length bs))%nat.
Proof.
  intros Hinv; pose proof (inv_tiling _ _ _ Hinv) as Ht; pose proof Hinv as [Hc Hs Hf Hu _ _ _ Hlim].
  assert (base < bp) as Hb by (apply (tiling_low _ _ (bp, n) Ht), elem_of_app; right; by left).
  assert (forall b, b ∈ bs ++ used -> b.1 <> bp) as Hapart by (intros b Hin; by apply (tiling_addr _ bs (bp, n) used b Ht)).
  assert (bp ∉ ((base, 0) :: bs).*1) as Hnot.
  { cbn [fmap list_fmap fst]; rewrite not_elem_of_cons; split; [lia|]; intros (b & -> & Hin)%list_elem_of_fmap; apply (Hapart b); [apply elem_of_app; by left|done]. }
  destruct (free_scan_finds s bs _ bp Hinv Hb Hnot) as (A & p & sp & B & E & Hp & HB & Escan).
  assert (forall b, b ∈ A ++ (p, sp) :: B -> b = (base, 0) \/ b ∈ bs) as Hin by (intros b; rewrite <- E; apply elem_of_cons).
  pose proof (ascending_NoDup _ Hs) as Hnd; rewrite E in Hc, Hs, Hnd; rewrite fmap_app in Hnd; cbn [fmap list_fmap fst] in Hnd.
  apply NoDup_app in Hnd as (_ & HnA & [HnB _]%NoDup_cons).
  unfold circ in Hc; replace (head_addr (A ++ (p, sp) :: B) 0) with base in Hc by by rewrite <- E.
  apply links_app in Hc as [HlA HlB]; cbn [head_addr fst] in HlA; apply Forall_cons in Hu as [Hbp Hu]; cbn [fst snd] in Hbp.
  assert (bp ∉ A.*1 /\ bp ∉ B.*1) as [HbA HbB].
  { rewrite E in Hnot; rewrite fmap_app, elem_of_app in Hnot; cbn [fmap list_fmap] in Hnot; rewrite elem_of_cons in Hnot; tauto. }
  destruct (join_bounds _ _ _ _ _ _ _ _ _ E Ht Hlim) as [Hbd1 Hbd2].
  destruct (tiling_size _ _ (bp, n) Ht Hlim) as [Hn1 _]; [apply elem_of_app; right; by left|]; cbn [snd] in Hn1.
  destruct (join_upper_links s bp n p sp B base HlB Hbp HbB ltac:(lia) Hb Hn1 Hbd1) as (n2 & B2 & HlU & HsU & Hup).
  set (s1 := join_upper bp p s) in *; assert (ssize s1 p = sp) as Hsp.
  { destruct HsU as (_ & _ & H); rewrite (proj2 (H p ltac:(lia))); by destruct (sptr_links _ _ _ _ _ HlB). }
  assert (p ∉ B2.*1) as HpB2.
  { destruct Hup as [[_ ->]|(m & EB & _)]; [done|]; rewrite EB in HnB; cbn [fmap list_fmap] in HnB; by apply not_elem_of_cons in HnB as [_ ?]. }
  destruct (join_lower_links s1 bp n2 p sp B2 base HlU Hsp HpB2 ltac:(lia) (Hbd2 n2 B2 Hup)) as (M & HlM & HsM & HhM & Hlow).
  set (s2 := join_lower bp p s1) in *.
  destruct (free_tiling (u_brk s) A p sp B bp n used n2 B2 bs M base E Ht Hb Hup Hlow) as (bs' & EL & Ht' & Hbig & Hlen & _).
  exists (set_freep p s2), bs'; split_and!; auto.
  - unfold free; replace (bp + HDR - HDR) with bp by lia; rewrite Escan; done.
  - assert (u_brk s2 = u_brk s) as Hbrk by (destruct HsM as (_ & -> & _); by destruct HsU as (_ & -> & _)).
    destruct Ht' as (T1 & T2 & T3); split; rewrite ?EL; try (cbn; rewrite Hbrk; done); auto.
    + unfold circ; replace (head_addr (A ++ M) 0) with base by by rewrite <- EL.
      apply links_freep, links_app; rewrite HhM; split; [|done].
      eapply links_same_but; [exact HsM| |]; [intros Hin'; by apply (HnA p Hin'); left|]; by eapply links_same_but.
    + by eapply free_sorted.
    + cbn; rewrite fmap_app, elem_of_app; right; destruct Hlow as [->|[_ ->]]; by left.
    + apply Forall_forall; intros b Hbu; rewrite Forall_forall in Hu; rewrite <- (Hu b Hbu).
      assert (b.1 <> bp) as H1 by (apply Hapart, elem_of_app; by right).
      assert (b.1 <> p) as H2; [|destruct HsM as (_ & _ & HM); destruct HsU as (_ & _ & HU); rewrite <- (proj2 (HU _ H1)); apply (HM _ H2)].
      destruct (Hin (p, sp)) as [Ep|Hpb]; [apply elem_of_app; right; by left|injection Ep as -> _|].
      * pose proof (tiling_low _ _ b Ht); assert (base < b.1); [apply (tiling_low _ _ b Ht), elem_of_app; right; by right|lia].
      * apply list_elem_of_split in Hpb as (X & Y & EX); rewrite EX, <- app_assoc in Ht; cbn [app] in Ht.
        apply (tiling_addr _ X (p, sp) (Y ++ (bp, n) :: used) b Ht); rewrite !elem_of_app, elem_of_cons; tauto.
  - cbn; destruct HsM as (_ & -> & _); destruct HsU as (_ & -> & _); done.
Qed.

(** ** The search of [malloc] *)

Lemma first_fit nunits (M : list block) : (exists b, b ∈ M /\ nunits <= b.2) ->
  exists X b Y, M = X ++ b :: Y /\ nunits <= b.2 /\ Forall (fun c => c.2 < nunits) X.
Proof.
  induction M as [|c M IH]; intros (b & Hb & Hn); [by apply elem_of_nil in Hb|].
  destruct (decide (nunits <= c.2)) as [Hc|Hc]; [by exists [], c, M|].
  destruct IH as (X & d & Y & -> & Hd & HX); [apply elem_of_cons in Hb as [->|Hb]; [lia|eauto]|].
  exists (c :: X), d, Y; split_and!; auto; constructor; [lia|done].
Qed.

(** Neighbours in a rotation are neighbours in the list, unless they are its ends. *)
Lemma unrotate {A} (W1 W2 C D : list A) x y :
  W2 ++ W1 = C ++ x :: y :: D -> head (W1 ++ W2) <> Some y -> exists U V, W1 ++ W2 = U ++ x :: y :: V.
Proof.
  intros E Hh; apply app_eq_inv in E as [(k & -> & E)|(k & -> & ->)].
  - destruct k as [|? [|? k]]; cbn [app] in E.
    + rewrite <- E; by exists [], (D ++ C ++ []).
    + injection E as -> <-; done.
    + injection E as -> -> ->; exists (W1 ++ C), k; by rewrite <- app_assoc.
  - exists k, (D ++ W2); by rewrite <- app_assoc.
Qed.

Lemma last_split (f : block) (X : list block) : exists C ps, f :: X = C ++ [(last_addr f.1 X, ps)].
Proof.
  unfold last_addr; destruct X as [|x X] using rev_ind; [exists [], f.2; by destruct f|].
  rewrite last_snoc; exists (f :: X), x.2; by destruct x.
Qed.

(** The list seen from [freep]: [freep] comes last. *)
Lemma from_freep s bs used : heap_inv s bs used ->
  exists U m V, (base, 0) :: bs = U ++ (u_freep s, m) :: V /\ circ s ((V ++ U) ++ [(u_freep s, m)]) /\
    (forall z, sptr s (u_freep s) = head_addr ((V ++ U) ++ [(u_freep s, m)]) z) /\ u_freep s ∉ (V ++ U).*1.
Proof.
  intros [Hc Hs Hf _ _ _ _ _]; destruct (rotate_to s _ _ Hc Hf) as (U & V & m & E & Hrot); exists U, m, V; split_and!; [done| | |].
  - by apply (circ_rot s [(u_freep s, m)] (V ++ U)).
  - intros z; destruct (sptr_links _ _ _ _ _ Hrot) as [-> _]; by destruct (V ++ U).
  - pose proof (ascending_NoDup _ Hs) as Hn; rewrite E in Hn; rewrite fmap_app in *; cbn [fmap list_fmap fst] in Hn.
    apply NoDup_app in Hn as (_ & Hn1 & [Hn2 _]%NoDup_cons); rewrite elem_of_app; intros [H|H]; [done|]; apply (Hn1 _ H); by left.
Qed.

Lemma malloc_finds sbrk s bs used nunits fuel :
  heap_inv s bs used -> 1 <= nunits -> (exists b, b ∈ bs /\ nunits <= b.2) -> (length bs < fuel)%nat ->
  exists A prevp ps p n B, (base, 0) :: bs = A ++ (prevp, ps) :: (p, n) :: B /\ nunits <= n /\
    malloc_loop sbrk fuel nunits (u_freep s) (sptr s (u_freep s)) s = Some (take_block nunits prevp p s).
Proof.
  intros Hinv Hn1 (b & Hb & Hbn) Hf; destruct (from_freep s bs used Hinv) as (U & m & V & E & Hc & Hnext & Hnf).
  set (f := u_freep s) in *; set (M := (V ++ U) ++ [(f, m)]) in *.
  assert (M ≡ₚ (base, 0) :: bs) as HM by (unfold M; rewrite E; solve_Permutation).
  destruct (first_fit nunits M) as (X & [p n] & Y & EM & Hn & HX); [exists b; split; [rewrite HM; by right|done]|]; cbn [snd] in Hn.
  assert (X `prefix_of` V ++ U) as [K EX].
  { destruct Y as [|y Y _] using rev_ind; unfold M in EM; [apply app_inj_tail in EM as [-> _]; exists []; by rewrite app_nil_r|].
    rewrite app_comm_cons, app_assoc in EM; apply app_inj_tail in EM as [-> _]; by exists ((p, n) :: Y). }
  assert (Forall (fun c => c.2 < nunits /\ c.1 <> f) X) as HX'.
  { rewrite Forall_forall in *; intros c Hcx; split; [auto|]; intros Ec; apply Hnf; rewrite EX, fmap_app, elem_of_app; left.
    rewrite <- Ec; by apply list_elem_of_fmap_2. }
  assert (exists A ps B, (base, 0) :: bs = A ++ (last_addr f X, ps) :: (p, n) :: B) as (A & ps & B & EA).
  { assert (exists W1 W2 C ps D, (base, 0) :: bs = W1 ++ W2 /\ W2 ++ W1 = C ++ (last_addr f X, ps) :: (p, n) :: D) as (W1 & W2 & C & ps & D & EW & ER).
    { unfold M in EM; rewrite EX, <- app_assoc in EM; apply app_inv_head in EM; destruct K as [|z K]; cbn [app] in EM.
      - injection EM as Ef Em EY; rewrite app_nil_r in EX; destruct X as [|x X _] using rev_ind.
        + apply app_nil in EX as [-> ->]; cbn [app] in E; injection E; intros; lia.
        + rewrite <- Ef, <- Em; exists (U ++ [(f, m)]), V, X, x.2, []; split; [by rewrite <- app_assoc|]; unfold last_addr; rewrite last_snoc.
          rewrite app_assoc, EX, <- app_assoc; by destruct x.
      - injection EM as Ez EY; subst z; destruct (last_split (f, m) X) as (C & ps & EC); cbn [fst] in EC; exists U, ((f, m) :: V), C, ps, K; split; [done|].
        cbn [app]; rewrite EX, app_comm_cons, EC, <- app_assoc; done. }
    rewrite EW; destruct (unrotate W1 W2 C D _ _ ER) as (A & B & ->); [|eauto]; rewrite <- EW; intros H; injection H; intros; lia. }
  exists A, (last_addr f X), ps, p, n, B; split_and!; [done|done|].
  assert (length X < fuel)%nat as HlX.
  { apply Permutation_length in HM; rewrite EM, length_app in HM; cbn [length] in HM; lia. }
  assert (exists z, links s (X ++ (p, n) :: Y) z /\ sptr s f = head_addr (X ++ (p, n) :: Y) z) as (z & Hl & ->).
  { exists (head_addr M 0); rewrite <- EM; split; [exact Hc|apply Hnext]. }
  replace fuel with (length X + S (fuel - length X - 1))%nat by lia; rewrite (malloc_walk sbrk nunits s X p n Y z) by done; cbn [malloc_loop].
  assert (ssize s p = n) as ->; [by destruct (sptr_next _ _ _ _ _ _ Hl)|by rewrite (proj2 (Z.leb_le nunits n))].
Qed.

(** No block fits: the walk comes back to [freep]. *)
Lemma malloc_none sbrk s bs used nunits fuel :
  heap_inv s bs used -> 1 <= nunits -> Forall (fun b => b.2 < nunits) bs ->
  malloc_loop sbrk (length bs + S fuel) nunits (u_freep s) (sptr s (u_freep s)) s =
  ('(p, s) ← morecore sbrk nunits s; if p =? 0 then Some (0, s) else malloc_loop sbrk fuel nunits p (sptr s p) s).
Proof.
  intros Hinv Hn1 Hall; destruct (from_freep s bs used Hinv) as (U & m & V & E & Hc & Hnext & Hnf).
  set (f := u_freep s) in *; assert (Forall (fun b => b.2 < nunits) (U ++ (f, m) :: V)) as Hall' by (rewrite <- E; constructor; [cbn; lia|done]).
  apply Forall_app in Hall' as [HU [Hm HV]%Forall_cons]; cbn [snd] in Hm.
  assert (length bs = length (V ++ U)) as -> by (apply (f_equal length) in E; rewrite !length_app in *; cbn [length] in *; lia).
  rewrite (Hnext (head_addr ((V ++ U) ++ [(f, m)]) 0)).
  assert (Forall (fun b => b.2 < nunits /\ b.1 <> u_freep s) (V ++ U)) as HX.
  { apply Forall_forall; intros b Hb; split; [rewrite Forall_forall in HU, HV; apply elem_of_app in Hb as [Hb|Hb]; auto|].
    intros Eb; apply Hnf; fold f in Eb; rewrite <- Eb; by apply list_elem_of_fmap_2. }
  rewrite (malloc_walk sbrk nunits s (V ++ U) f m [] (head_addr ((V ++ U) ++ [(f, m)]) 0) _ _ Hc HX).
  cbn [malloc_loop]; unfold circ in Hc; destruct (sptr_next _ _ _ _ _ _ Hc) as [_ ->].
  by rewrite (proj2 (Z.leb_gt nunits m)), Z.eqb_refl by lia.
Qed.

(** ** Taking a block *)

Lemma take_exact s bs used A prevp ps p n B :
  heap_inv s bs used -> (base, 0) :: bs = A ++ (prevp, ps) :: (p, n) :: B -> 1 <= n ->
  exists bs', heap_inv (set_freep prevp (set_sptr prevp (sptr s p) s)) bs' ((p, n) :: used).
Proof.
  intros Hinv E Hn; pose proof (inv_tiling _ _ _ Hinv) as Ht; destruct Hinv as [Hc Hs _ Hu _ _ _ Hlim].
  pose proof (ascending_NoDup _ Hs) as Hnd; rewrite E in Hc, Hs, Hnd; unfold circ in Hc.
  replace (head_addr (A ++ (prevp, ps) :: (p, n) :: B) 0) with base in Hc by by rewrite <- E.
  apply links_app in Hc as [HlA Hl2]; cbn [head_addr fst] in HlA; destruct (sptr_links _ _ _ _ _ Hl2) as [_ Eps]; destruct Hl2 as (_ & _ & Hl2).
  destruct (sptr_links _ _ _ _ _ Hl2) as [Ep En]; destruct Hl2 as (_ & _ & HlB).
  rewrite fmap_app in Hnd; cbn [fmap list_fmap fst] in Hnd; apply NoDup_app in Hnd as (_ & HnA & [HnB _]%NoDup_cons); apply not_elem_of_cons in HnB as [_ HnB].
  assert (exists bs', (base, 0) :: bs' = A ++ (prevp, ps) :: B /\ bs ≡ₚ (p, n) :: bs') as (bs' & E' & Hp).
  { destruct A as [|a A]; cbn [app] in E; [injection E as <- <- ->; by exists B|].
    injection E as <- ->; exists (A ++ (prevp, ps) :: B); split; [done|]; solve_Permutation. }
  assert (tiling (u_brk s) (bs' ++ (p, n) :: used)) as (T1 & T2 & T3) by (eapply tiling_perm; [|exact Ht]; rewrite Hp; solve_Permutation).
  exists bs'; split; auto; rewrite ?E'.
  - unfold circ; replace (head_addr (A ++ (prevp, ps) :: B) 0) with base by by rewrite <- E'.
    apply links_freep, links_app; split.
    + eapply links_same_but; [apply same_but_ptr| |done]; intros Hin; apply (HnA _ Hin); by left.
    + apply links_ptr; auto.
  - apply pairwise_app in Hs as (H1 & (H2 & H3 & H4) & H5); apply pairwise_app; split_and!; [done|split; [by apply Forall_cons in H2 as [_ H2]|done]|].
    intros x y Hx Hy; apply H5; [done|]; rewrite !elem_of_cons in *; tauto.
  - cbn; rewrite fmap_app, elem_of_app; right; by left.
Qed.

Lemma take_part s bs used A prevp ps p n B nunits :
  heap_inv s bs used -> (base, 0) :: bs = A ++ (prevp, ps) :: (p, n) :: B -> 1 <= nunits < n ->
  let q := p + HDR * (n - nunits) in
  exists bs', heap_inv (set_freep prevp (set_ssize q nunits (set_ssize p (n - nunits) s))) bs' ((q, nunits) :: used).
Proof.
  intros Hinv E Hn q; pose proof (inv_tiling _ _ _ Hinv) as Ht; destruct Hinv as [Hc Hs _ Hu _ _ _ Hlim].
  assert (exists Q, bs = Q ++ (p, n) :: B /\ A ++ [(prevp, ps)] = (base, 0) :: Q) as (Q & -> & EQ).
  { destruct A as [|a A]; cbn [app] in E; [injection E as <- <- ->; by exists []|].
    injection E as <- ->; exists (A ++ [(prevp, ps)]); rewrite <- app_assoc; done. }
  assert (tiling (u_brk s) ((p, n - nunits) :: (q, nunits) :: Q ++ B ++ used)) as Ht'.
  { apply tiling_split; [lia|lia|]; replace (n - nunits + nunits) with n by lia; eapply tiling_perm; [|exact Ht]; solve_Permutation. }
  set (bs' := Q ++ (p, n - nunits) :: B); assert (tiling (u_brk s) (bs' ++ (q, nunits) :: used)) as Ht2 by (eapply tiling_perm; [|exact Ht']; unfold bs'; solve_Permutation).
  assert (forall b, b ∈ bs' ++ used -> b.1 <> q) as Hq by (intros b Hb; by apply (tiling_addr _ bs' (q, nunits) used b Ht2)).
  assert (base < q) as Hbq by (apply (tiling_low _ _ (q, nunits) Ht2), elem_of_app; right; by left).
  assert (forall b, b ∈ Q ++ B ++ used -> b.1 <> p) as Hp by (intros b Hb; apply (tiling_addr (u_brk s) Q (p, n) (B ++ used) b); [by rewrite <- app_assoc in Ht|done]).
  assert (base < p) as Hbp by (apply (tiling_low _ _ (p, n) Ht); rewrite !elem_of_app, elem_of_cons; tauto).
  assert (p <> q) as Hpq by (apply (Hq (p, n - nunits)); unfold bs'; rewrite !elem_of_app, elem_of_cons; tauto).
  assert (forall x k, ssize (set_freep prevp (set_ssize q nunits (set_ssize p k s))) x = if decide (x = q) then nunits else if decide (x = p) then k else ssize s x) as Hsz.
  { intros x k; unfold ssize; cbn; destruct (decide (x = q)) as [->|]; [by rewrite lookup_insert_eq|]; rewrite lookup_insert_ne by done.
    destruct (decide (x = p)) as [->|]; [by rewrite lookup_insert_eq|by rewrite lookup_insert_ne]. }
  destruct Ht2 as (T1 & T2 & T3); exists bs'; split; auto.
  - unfold circ in *; cbn [head_addr fst] in *; unfold bs'; rewrite app_comm_cons in *; apply links_app in Hc as [Hl1 Hl2]; apply links_app; split.
    + eapply links_frame; [|exact Hl1]; intros b Hb; split; [done|]; rewrite Hsz, !decide_False; [done| |].
      * apply elem_of_cons in Hb as [->|Hb]; [cbn; lia|]; apply Hp, elem_of_app; by left.
      * apply elem_of_cons in Hb as [->|Hb]; [cbn; lia|]; apply Hq; unfold bs'; rewrite !elem_of_app; tauto.
    + destruct Hl2 as (Hl2 & _ & Hl3); cbn [links]; split_and!; [done|by rewrite Hsz, decide_False, decide_True|].
      eapply links_frame; [|exact Hl3]; intros b Hb; split; [done|]; rewrite Hsz, !decide_False; [done| |].
      * apply Hp; rewrite !elem_of_app; tauto.
      * apply Hq; unfold bs'; rewrite !elem_of_app, elem_of_cons; tauto.
  - unfold bs'; rewrite app_comm_cons in *; apply pairwise_app in Hs as (H1 & (H2 & H3) & H4); apply pairwise_app; split_and!; [done|split; [exact H2|done]|].
    intros x y Hx Hy; apply elem_of_cons in Hy as [->|Hy]; [apply (H4 x (p, n) Hx); by left|apply H4; [done|by right]].
  - cbn [set_freep u_freep]; unfold bs'; rewrite app_comm_cons, <- EQ, !fmap_app, !elem_of_app; left; right; by left.
  - constructor; [by rewrite Hsz, decide_True|]; rewrite Forall_forall in *; intros b Hb; rewrite Hsz, !decide_False; [by apply Hu| |].
    + apply Hp; rewrite !elem_of_app; tauto.
    + apply Hq; rewrite elem_of_app; tauto.
Qed.

Lemma take_block_spec s bs used A prevp ps p n B nunits :
  heap_inv s bs used -> (base, 0) :: bs = A ++ (prevp, ps) :: (p, n) :: B -> 1 <= nunits <= n ->
  exists q s' bs', take_block nunits prevp p s = (q + HDR, s') /\ heap_inv s' bs' ((q, nunits) :: used).
Proof.
  intros Hinv E Hn; pose proof (inv_tiling _ _ _ Hinv) as Ht; pose proof (hi_limit _ _ _ Hinv) as Hlim.
  assert (ssize s p = n) as Esz.
  { pose proof (hi_circ _ _ _ Hinv) as Hc; unfold circ in Hc; rewrite E in Hc at 1; change (A ++ (prevp, ps) :: (p, n) :: B) with (A ++ [(prevp, ps)] ++ (p, n) :: B) in Hc.
    rewrite app_assoc in Hc; by destruct (sptr_next _ _ _ _ _ _ Hc). }
  assert (1 <= n < 2 ^ 32) as Hn32.
  { apply (tiling_size _ _ (p, n) Ht Hlim), elem_of_app; left; assert ((p, n) ∈ (base, 0) :: bs) as Hin.
    - rewrite E, elem_of_app, !elem_of_cons; tauto.
    - apply elem_of_cons in Hin as [H|]; [injection H; lia|done]. }
  unfold take_block; rewrite Esz; destruct (Z.eqb_spec n nunits) as [->|Hne].
  - destruct (take_exact s bs used A prevp ps p nunits B Hinv E) as [bs' Hinv']; [lia|]; by eexists p, _, bs'.
  - destruct (take_part s bs used A prevp ps p n B nunits Hinv E) as [bs' Hinv']; [lia|]; cbn zeta in Hinv'.
    assert (ssize (set_ssize p (u32 (n - nunits)) s) p = n - nunits) as -> by (unfold ssize; cbn; rewrite lookup_insert_eq; cbn; apply u32_small; lia).
    rewrite u32_small by lia; by eexists _, _, bs'.
Qed.

(** ** New memory *)

Section sbrk.
Context (sbrk : Z -> Z -> option Z).
Hypothesis Hsbrk : forall b n b', 0 <= n -> sbrk b n = Some b' -> b' = b + n /\ b' <= limit.

Lemma grow_inv s bs used nu b :
  heap_inv s bs used -> 1 <= nu -> b = u_brk s + HDR * nu -> b <= limit ->
  heap_inv (set_ssize (u_brk s) nu (set_brk b s)) bs ((u_brk s, nu) :: used).
Proof.
  intros Hinv Hnu Hb Hlim; pose proof (inv_tiling _ _ _ Hinv) as Ht; destruct Hinv as [Hc Hs Hf Hu Hok Hap Hun _].
  assert (forall x, x ∈ bs ++ used -> x.1 <> u_brk s) as Hne.
  { intros x Hx; rewrite Forall_forall in Hok; destruct (Hok x Hx) as (_ & H1 & H2 & _); unfold HDR in *; lia. }
  assert (base <> u_brk s) as Hbne by (pose proof (units_bound _ _ Hok); unfold HDR in *; lia).
  assert (forall x, x <> u_brk s -> ssize (set_ssize (u_brk s) nu (set_brk b s)) x = ssize s x) as Hsz by (intros x Hx; unfold ssize; cbn; by rewrite lookup_insert_ne).
  split; cbn [set_ssize set_brk u_freep u_brk]; auto.
  - unfold circ in *; eapply links_frame; [|exact Hc]; intros x Hx; split; [done|]; apply Hsz; apply elem_of_cons in Hx as [->|Hx]; [done|].
    apply Hne, elem_of_app; by left.
  - constructor; [unfold ssize; cbn; by rewrite lookup_insert_eq|]; rewrite Forall_forall in *; intros x Hx; rewrite Hsz; [by apply Hu|].
    apply Hne, elem_of_app; by right.
  - rewrite <- Permutation_middle; constructor.
    + unfold block_ok; cbn [fst snd]; pose proof (units_bound _ _ Hok); split_and!; [unfold HDR in *; lia|done|lia|].
      rewrite <- Hun; replace (heap0 + HDR * units (bs ++ used) - heap0) with (units (bs ++ used) * HDR) by lia; by apply Z_mod_mult.
    + eapply Forall_impl; [exact Hok|]; intros x (? & ? & ? & ?); unfold block_ok; split_and!; auto; unfold HDR in *; lia.
  - eapply pairwise_perm; [apply apart_sym|apply Permutation_middle|]; split; [|done].
    rewrite Forall_forall in *; intros x Hx; destruct (Hok x Hx) as (_ & _ & H & _); right; cbn [fst]; done.
  - rewrite units_app, units_cons; rewrite units_app in Hun; cbn [snd]; unfold HDR in *; lia.
Qed.

Lemma morecore_spec s bs used nunits :
  heap_inv s bs used -> 1 <= nunits -> HDR * nunits < 2 ^ 31 ->
  morecore sbrk nunits s = Some (0, s) \/
  exists s' bs', morecore sbrk nunits s = Some (u_freep s', s') /\ u_freep s' <> 0 /\ heap_inv s' bs' used /\
    (exists b, b ∈ bs' /\ nunits <= b.2) /\ (length bs' <= S (length bs))%nat.
Proof.
  intros Hinv Hn Hsz; unfold morecore; set (nu := if nunits <? 4096 then 4096 else nunits).
  assert (nunits <= nu /\ 1 <= nu /\ HDR * nu < 2 ^ 31) as (H1 & H2 & H3) by (unfold nu, HDR in *; destruct (Z.ltb_spec nunits 4096); lia).
  rewrite s32_small by (unfold HDR in *; lia); destruct (sbrk (u_brk s) (nu * HDR)) as [b|] eqn:E; [right|by left].
  apply Hsbrk in E as [Eb Hlim]; [|unfold HDR; lia].
  destruct (free_spec _ _ _ _ _ (grow_inv s bs used nu b Hinv H2 ltac:(lia) Hlim)) as (s' & bs' & E' & Hinv' & (x & Hx & Hxn) & _ & Hlen).
  rewrite E'; cbn; exists s', bs'; split_and!; auto; [|exists x; split; [done|lia]].
  intros E0; pose proof (hi_freep _ _ _ Hinv') as Hf; rewrite E0 in Hf; apply list_elem_of_fmap in Hf as (y & Ey & Hy).
  apply elem_of_cons in Hy as [->|Hy]; [cbn in Ey; lia|].
  assert (base < y.1) by (apply (tiling_low _ _ y (inv_tiling _ _ _ Hinv')), elem_of_app; by left); lia.
Qed.

(** Before the first [malloc] there is no list. *)
Definition alloc_inv (s : umem) (used : list block) : Prop :=
  (u_freep s = 0 /\ used = [] /\ u_brk s = heap0 /\ heap0 <= limit) \/ exists bs, heap_inv s bs used.

Lemma first_inv s : u_freep s = 0 -> u_brk s = heap0 -> heap0 <= limit ->
  heap_inv (set_ssize base 0 (set_freep base (set_sptr base base s))) [] [].
Proof.
  intros Hf Hb Hl; split; cbn [app set_ssize set_freep set_sptr u_freep u_brk]; auto.
  - unfold circ; cbn [head_addr links]; split_and!; [cbn; by rewrite lookup_insert_eq|unfold ssize; cbn; by rewrite lookup_insert_eq|done].
  - cbn [pairwise]; auto.
  - by left.
  - done.
  - unfold units; cbn; lia.
  - lia.
Qed.

Lemma nunits_spec nbytes : 0 <= nbytes < 2 ^ 31 - 2 ^ 16 -> let n := nunits_of nbytes in
  1 <= n /\ HDR * n < 2 ^ 31 /\ nbytes <= HDR * (n - 1) < nbytes + HDR.
Proof.
  intros Hn; unfold nunits_of; pose proof (Z_div_mod_eq_full (nbytes + HDR - 1) HDR); pose proof (Z.mod_pos_bound (nbytes + HDR - 1) HDR ltac:(done)).
  rewrite u32_small; unfold HDR in *; cbn zeta; lia.
Qed.

Lemma malloc_spec s used nbytes :
  alloc_inv s used -> 0 <= nbytes < 2 ^ 31 - 2 ^ 16 ->
  exists r s', malloc base sbrk nbytes s = Some (r, s') /\
    ((r = 0 /\ alloc_inv s' used) \/ exists q, r = q + HDR /\ alloc_inv s' ((q, nunits_of nbytes) :: used)).
Proof.
  intros Hinv Hnb; destruct (nunits_spec nbytes Hnb) as (Hn1 & Hn2 & _); unfold malloc; set (n := nunits_of nbytes) in *.
  set (s1 := if u_freep s =? 0 then _ else s); assert (exists bs, heap_inv s1 bs used) as [bs Hinv1].
  { unfold s1; destruct Hinv as [(Hf & -> & Hb & Hl)|[bs Hbs]]; [rewrite Hf; exists []; by apply first_inv|].
    destruct (Z.eqb_spec (u_freep s) 0) as [E0|_]; [|by exists bs]; exfalso; pose proof (hi_freep _ _ _ Hbs) as Hf; rewrite E0 in Hf.
    apply list_elem_of_fmap in Hf as (y & Ey & [->|Hy]%elem_of_cons); [cbn in Ey; lia|].
    assert (base < y.1) by (apply (tiling_low _ _ y (inv_tiling _ _ _ Hbs)), elem_of_app; by left); lia. }
  clearbody s1; pose proof (nodes_fuel s1 bs (hi_circ _ _ _ Hinv1) (hi_sorted _ _ _ Hinv1)) as Hfuel.
  assert (forall s bs fuel, heap_inv s bs used -> (exists b, b ∈ bs /\ n <= b.2) -> (length bs < fuel)%nat ->
    exists q s', malloc_loop sbrk fuel n (u_freep s) (sptr s (u_freep s)) s = Some (q + HDR, s') /\ alloc_inv s' ((q, n) :: used)) as Hfit.
  { intros s2 bs2 fuel Hi Hb Hf; destruct (malloc_finds sbrk s2 bs2 used n fuel Hi Hn1 Hb Hf) as (A & prevp & ps & p & k & B & E & Hk & ->).
    destruct (take_block_spec s2 bs2 used A prevp ps p k B n Hi E ltac:(lia)) as (q & s' & bs' & -> & Hi'); exists q, s'; split; [done|]; right; eauto. }
  destruct (decide (Exists (fun b => n <= b.2) bs)) as [He|He].
  - apply Exists_exists in He; destruct (Hfit s1 bs (scan_fuel s1 + scan_fuel s1 + 1)%nat Hinv1 He) as (q & s' & -> & Hi'); [unfold scan_fuel; lia|].
    exists (q + HDR), s'; split; [done|]; right; eauto.
  - assert (Forall (fun b => b.2 < n) bs) as Hall by (apply Forall_forall; intros b Hb; destruct (Z.ltb_spec b.2 n); [done|]; destruct He; apply Exists_exists; eauto).
    replace (scan_fuel s1 + scan_fuel s1 + 1)%nat with (length bs + S (scan_fuel s1 + scan_fuel s1 - length bs))%nat by (unfold scan_fuel; lia).
    rewrite (malloc_none sbrk s1 bs used n _ Hinv1 Hn1 Hall).
    destruct (morecore_spec s1 bs used n Hinv1 Hn1 Hn2) as [->|(s2 & bs2 & -> & Hne & Hi2 & Hb2 & Hl2)]; cbn [mbind option_bind].
    + exists 0, s1; split; [done|]; left; split; [done|]; right; eauto.
    + rewrite (proj2 (Z.eqb_neq _ 0) Hne); destruct (Hfit s2 bs2 (scan_fuel s1 + scan_fuel s1 - length bs)%nat Hi2 Hb2) as (q & s' & -> & Hi'); [unfold scan_fuel; lia|].
      exists (q + HDR), s'; split; [done|]; right; eauto.
Qed.
End sbrk.
End heap.

(** ** Programs that allocate *)

(** A call of [malloc], or [free] of the [k]-th block the program holds. *)
Inductive request := Malloc (nbytes : Z) | Free (k : nat).

(** What the program holds: pointers and the sizes it asked for. *)
Definition held : Type := list (Z * Z).

Definition serve (base : Z) (sbrk : Z -> Z -> option Z) (r : request) (sh : umem * held) : option (umem * held) :=
  let '(s, live) := sh in
  match r with
  | Malloc n => '(p, s) ← malloc base sbrk n s; Some (s, if p =? 0 then live else (p, n) :: live)
  | Free k =>
      match live !! k with
      | Some (p, _) => s ← free p s; Some (s, delete k live)
      | None => Some (s, live)
      end
  end.

Fixpoint serve_all (base : Z) (sbrk : Z -> Z -> option Z) (l : list request) (sh : umem * held) : option (umem * held) :=
  match l with
  | [] => Some sh
  | r :: l => sh ← serve base sbrk r sh; serve_all base sbrk l sh
  end.

Definition request_ok (r : request) : Prop := match r with Malloc n => 0 <= n < 2 ^ 31 - 2 ^ 16 | Free _ => True end.

Definition fresh_heap (heap0 : Z) : umem := UMem ∅ ∅ 0 heap0.

(** The block of a pointer. *)
Definition block_of (x : Z * Z) : Z * Z := (x.1 - HDR, nunits_of x.2).

Section program.
Context (base heap0 limit : Z) (sbrk : Z -> Z -> option Z).
Hypothesis Hbase : 0 < base /\ base + HDR <= heap0.
Hypothesis Hlimit : heap0 <= limit < heap0 + HDR * 2 ^ 32.
Hypothesis Hsbrk : forall b n b', 0 <= n -> sbrk b n = Some b' -> b' = b + n /\ b' <= limit.

Definition program_inv (sh : umem * held) : Prop :=
  alloc_inv base heap0 limit sh.1 (block_of <$> sh.2) /\ Forall (fun x => 0 <= x.2 < 2 ^ 31 - 2 ^ 16) sh.2.

Lemma serve_inv r sh : request_ok r -> program_inv sh -> exists sh', serve base sbrk r sh = Some sh' /\ program_inv sh'.
Proof.
  destruct sh as [s live]; intros Hr [Hinv Hsz]; destruct r as [n|k]; cbn [serve fst snd] in *.
  - destruct (malloc_spec base heap0 limit Hbase ltac:(lia) sbrk Hsbrk s _ n Hinv Hr) as (p & s' & -> & [[-> Hi]|(q & -> & Hi)]); cbn [mbind option_bind].
    + by exists (s', live).
    + assert (q + HDR <> 0) as Hne.
      { destruct Hi as [(_ & H & _)|[bs Hi]]; [done|]; apply inv_tiling in Hi; assert (base < q); [|unfold HDR; lia].
        apply (tiling_low base heap0 Hbase _ _ (q, nunits_of n) Hi), elem_of_app; right; by left. }
      rewrite (proj2 (Z.eqb_neq _ 0) Hne); exists (s', (q + HDR, n) :: live); split; [done|]; split; cbn [fst snd]; [|by constructor].
      cbn [fmap list_fmap]; unfold block_of at 1; cbn [fst snd]; by replace (q + HDR - HDR) with q by lia.
  - destruct (live !! k) as [[p n]|] eqn:E; [|by exists (s, live)].
    assert (block_of <$> live ≡ₚ (p - HDR, nunits_of n) :: (block_of <$> delete k live)) as Hperm.
    { rewrite (delete_Permutation live k _ E) at 1; done. }
    destruct Hinv as [(_ & H & _)|[bs Hi]]; [destruct live; done|].
    apply (heap_inv_perm _ _ _ _ _ _ _ Hperm) in Hi; destruct (free_spec base heap0 limit Hbase ltac:(lia) s bs _ _ _ Hi) as (s' & bs' & E' & Hi' & _).
    replace (p - HDR + HDR) with p in E' by lia; rewrite E'; cbn [mbind option_bind]; exists (s', delete k live); split; [done|].
    split; cbn [fst snd]; [right; eauto|]; by apply Forall_delete.
Qed.

Lemma serve_all_inv l sh : Forall request_ok l -> program_inv sh -> exists sh', serve_all base sbrk l sh = Some sh' /\ program_inv sh'.
Proof.
  intros Hl; revert sh; induction Hl as [|r l Hr _ IH]; intros sh Hi; cbn [serve_all]; [by exists sh|].
  destruct (serve_inv r sh Hr Hi) as (sh1 & -> & Hi1); cbn [mbind option_bind]; by apply IH.
Qed.
End program.

(** C29. Any program that asks [malloc] for less than 2^31 - 2^16 bytes at a time and
    frees only what it holds is served safely, on a heap of less than 2^32 headers
    that [sbrk] extends at its end: no call loops, and after every sequence of requests the memory regions
    the program holds have the sizes it asked for, lie in the heap below the break,
    are aligned to headers and do not overlap; the free list and the used blocks
    tile the heap, so that no memory is lost. *)
Theorem malloc_safe base heap0 limit (sbrk : Z -> Z -> option Z) l :
  0 < base /\ base + HDR <= heap0 -> heap0 <= limit < heap0 + HDR * 2 ^ 32 ->
  (forall b n b', 0 <= n -> sbrk b n = Some b' -> b' = b + n /\ b' <= limit) -> Forall request_ok l ->
  exists s live, serve_all base sbrk l (fresh_heap heap0, []) = Some (s, live) /\
    Forall (fun x => heap0 + HDR <= x.1 /\ x.1 + x.2 <= u_brk s /\ (x.1 - heap0) mod HDR = 0) live /\
    pairwise (fun x y => x.1 + x.2 <= y.1 \/ y.1 + y.2 <= x.1) live /\
    alloc_inv base heap0 limit s (block_of <$> live).
Proof.
  intros Hbase Hlimit Hsbrk Hl; destruct (serve_all_inv base heap0 limit sbrk Hbase Hlimit Hsbrk l (fresh_heap heap0, []) Hl) as ([s live] & E & Hi & Hsz).
  { split; [left; cbn; split_and!; lia || done|constructor]. }
  cbn [fst snd] in *; exists s, live; assert (exists bs, tiling heap0 (u_brk s) (bs ++ (block_of <$> live))) as [bs (Hok & Hap & _)].
  { destruct Hi as [(_ & -> & -> & _)|[bs Hi]]; [|exists bs; by eapply inv_tiling].
    exists []; cbn; split_and!; [constructor|done|unfold units; cbn; lia]. }
  apply Forall_app in Hok as [_ Hok]; apply pairwise_app in Hap as (_ & Hap & _); split_and!; [done| | |done].
  - rewrite Forall_fmap in Hok; rewrite Forall_forall in *; intros [p n] Hx; specialize (Hok _ Hx); specialize (Hsz _ Hx); cbn [fst snd] in Hsz.
    destruct (nunits_spec n Hsz) as (_ & _ & Hn); destruct Hok as (H1 & _ & H2 & H3); cbn [compose block_of fst snd] in *; unfold HDR in *; split_and!; [lia|lia|].
    replace (p - heap0) with (p - 16 - heap0 + 1 * 16) by lia; by rewrite Z_mod_plus_full.
  - clear E Hi Hok; induction live as [|[p n] live IH]; [done|]; cbn [pairwise fmap list_fmap] in *; destruct Hap as [H1 H2].
    apply Forall_cons in Hsz as [Hn Hsz]; split; [|auto]; rewrite Forall_fmap in H1; rewrite Forall_forall in *; intros [q m] Hx; specialize (H1 _ Hx).
    specialize (Hsz _ Hx); cbn [fst snd] in *; destruct (nunits_spec n Hn) as (_ & _ & Hn'); destruct (nunits_spec m Hsz) as (_ & _ & Hm').
    unfold apart, block_of in H1; cbn [compose fst snd] in H1; unfold HDR in *; lia.
Qed.

(** Sixteen megabytes of heap; two blocks, one of them freed, and a third. *)
Lemma malloc_safe_witness :
  exists s live, serve_all 4096 (fun b n => if b + n <=? 2 ^ 24 then Some (b + n) else None) [Malloc 100; Malloc 24; Free 1; Malloc 40000] (fresh_heap 8192, []) = Some (s, live) /\
    Forall (fun x => 8192 + HDR <= x.1 /\ x.1 + x.2 <= u_brk s /\ (x.1 - 8192) mod HDR = 0) live /\
    pairwise (fun x y => x.1 + x.2 <= y.1 \/ y.1 + y.2 <= x.1) live /\
    alloc_inv 4096 8192 (2 ^ 24) s (block_of <$> live).
Proof.
  apply (malloc_safe 4096 8192 (2 ^ 24)); [unfold HDR; lia|unfold HDR; lia| |repeat constructor; cbn; lia].
  intros b n b' Hn; destruct (Z.leb_spec (b + n) (2 ^ 24)); [|done]; by intros [= <-].
Defined.

(** C33. A request close to four gigabytes is granted without the memory: the
    product [nu * sizeof(Header)] is cut to the [int] that [sbrk] takes, so
    [malloc(2^32 - 1)] asks for one header, and the pointer it returns is the break
    itself, with none of the bytes asked for behind it. *)
Theorem malloc_huge_unbacked base heap0 (sbrk : Z -> Z -> option Z) :
  0 < base < heap0 -> sbrk heap0 HDR = Some (heap0 + HDR) ->
  exists s, malloc base sbrk (2 ^ 32 - 1) (fresh_heap heap0) = Some (heap0 + HDR, s) /\ u_brk s = heap0 + HDR.
Proof.
  intros Hb Hs; unfold malloc; change (nunits_of (2 ^ 32 - 1)) with (2 ^ 28 + 1); cbn [fresh_heap u_freep Z.eqb].
  set (s1 := set_ssize base 0 _); assert (sptr s1 base = base /\ ssize s1 base = 0) as [E1 E2] by (unfold sptr, ssize; cbn; by rewrite !lookup_insert_eq).
  change (u_freep s1) with base; rewrite E1; replace (scan_fuel s1 + scan_fuel s1 + 1)%nat with (S (S (pred (scan_fuel s1 + scan_fuel s1)))) by (unfold scan_fuel; lia).
  set (k := pred _); cbn [malloc_loop]; rewrite E2; change (2 ^ 28 + 1 <=? 0) with false; change (u_freep s1) with base; rewrite Z.eqb_refl.
  set (s2 := set_ssize heap0 (2 ^ 28 + 1) (set_brk (heap0 + HDR) s1)).
  assert (morecore sbrk (2 ^ 28 + 1) s1 = (s ← free (heap0 + HDR) s2; Some (u_freep s, s))) as ->.
  { unfold morecore; cbv zeta; change (2 ^ 28 + 1 <? 4096) with false; cbn match; change (s32 ((2 ^ 28 + 1) * HDR)) with HDR; change (u_brk s1) with heap0; by rewrite Hs. }
  unfold free; replace (heap0 + HDR - HDR) with heap0 by lia.
  assert (sptr s2 base = base /\ ssize s2 base = 0 /\ ssize s2 heap0 = 2 ^ 28 + 1) as (F1 & F2 & F3).
  { unfold sptr, ssize; cbn; rewrite lookup_insert_eq, !(lookup_insert_ne _ heap0) by lia; by rewrite !lookup_insert_eq. }
  change (u_freep s2) with base; unfold scan_fuel; cbn [free_scan]; rewrite F1.
  rewrite (proj2 (Z.ltb_lt base heap0)), (proj2 (Z.ltb_ge heap0 base)), (proj2 (Z.leb_le base base)) by lia; cbn [andb orb mbind option_bind].
  unfold join_upper; rewrite F1, F3; rewrite (proj2 (Z.eqb_neq (heap0 + HDR * (2 ^ 28 + 1)) base)) by (unfold HDR; lia).
  set (s3 := set_sptr heap0 base s2); unfold join_lower; change (ssize s3 base) with (ssize s2 base); rewrite F2.
  rewrite (proj2 (Z.eqb_neq (base + HDR * 0) heap0)) by (unfold HDR; lia); set (s4 := set_freep base (set_sptr base heap0 s3)).
  change (u_freep s4) with base; rewrite (proj2 (Z.eqb_neq base 0)) by lia.
  assert (sptr s4 base = heap0 /\ ssize s4 heap0 = 2 ^ 28 + 1) as [G1 G2] by (split; [unfold sptr; cbn; by rewrite lookup_insert_eq|exact F3]).
  rewrite G1; cbn [malloc_loop]; rewrite G2; change (2 ^ 28 + 1 <=? 2 ^ 28 + 1) with true; cbn match; unfold take_block; rewrite G2, Z.eqb_refl.
  eexists; split; reflexivity.
Qed.

Lemma malloc_huge_unbacked_witness :
  exists s, malloc 4096 (fun b n => Some (b + n)) (2 ^ 32 - 1) (fresh_heap 8192) = Some (8192 + HDR, s) /\ u_brk s = 8192 + HDR.
Proof. apply (malloc_huge_unbacked 4096 8192 (fun b n => Some (b + n))); [lia|done]. Defined.
