(* ===== verification/Console.v ===== *)
(** * The console and the UART, [kernel/console.c] and [kernel/uart.c]

    Device registers are read and written through [Machine.v]: the values read
    are those the device supplies, the values written are recorded.  A loop that
    waits for the device runs as long as the device has answers left; when they
    run out it spins forever.  The pairs [push_off], [pop_off] around a polled
    write leave nothing behind and are not repeated here. *)

From S2P Require Import Prelude KMonad Memory Riscv Kalloc Vm Machine CString Fs Kernel Printf.

(** ** UART registers *)

Definition RHR : Z := 0.
Definition THR : Z := 0.
Definition IER : Z := 1.
Definition IER_RX_ENABLE : Z := Z.shiftl 1 0.
Definition IER_TX_ENABLE : Z := Z.shiftl 1 1.
Definition FCR : Z := 2.
Definition FCR_FIFO_ENABLE : Z := Z.shiftl 1 0.
Definition FCR_FIFO_CLEAR : Z := Z.shiftl 3 1.
Definition ISR : Z := 2.
Definition LCR : Z := 3.
Definition LCR_EIGHT_BITS : Z := Z.shiftl 3 0.
Definition LCR_BAUD_LATCH : Z := Z.shiftl 1 7.
Definition LSR : Z := 5.
Definition LSR_RX_READY : Z := Z.shiftl 1 0.
Definition LSR_TX_IDLE : Z := Z.shiftl 1 5.

Definition ReadReg (reg : Z) : M mach Z :=
  let! v := io_read (UART0 + reg) in
  ret (u8 v).
Definition WriteReg (reg v : Z) : M mach unit := io_write (UART0 + reg) (u8 v).

Definition uartinit : M mach unit :=
  do! WriteReg IER 0x00;
  do! WriteReg LCR LCR_BAUD_LATCH;
  do! WriteReg 0 0x03;
  do! WriteReg 1 0x00;
  do! WriteReg LCR LCR_EIGHT_BITS;
  do! WriteReg FCR (Z.lor FCR_FIFO_ENABLE FCR_FIFO_CLEAR);
  WriteReg IER (Z.lor IER_TX_ENABLE IER_RX_ENABLE).

(** Wait for the transmit holding register to be empty. *)
Fixpoint uart_wait (fuel : nat) : M mach unit :=
  match fuel with
  | O => diverge
  | S fuel =>
      let! lsr := ReadReg LSR in
      if Z.land lsr LSR_TX_IDLE =? 0 then uart_wait fuel else ret tt
  end.

Definition uartputc_sync (c : Z) : M mach unit :=
  let! m := get in
  do! uart_wait (length (io_in m));
  WriteReg THR c.

Definition uartgetc : M mach Z :=
  let! lsr := ReadReg LSR in
  if negb (Z.land lsr LSR_RX_READY =? 0) then ReadReg RHR else ret (-1).

Definition BACKSPACE : Z := 0x100.
(** [C(x)], control-x. *)
Definition Ctl (x : string) : Z := chr x - chr "@".

Definition consputc (c : Z) : M mach unit :=
  if c =? BACKSPACE then
    do! uartputc_sync 8;
    do! uartputc_sync (chr " ");
    uartputc_sync 8
  else uartputc_sync c.

Section console.
Context {L : KernelLayout} (me : Z).

Definition printf (fmt : string) (args : list varg) : M ksys unit :=
  do! acquire PRLOCK;
  do! for_each (printf_chars (bytes_of fmt) args) (fun c => zoom (consputc c));
  release PRLOCK.

(** The loop of [uartwrite]: the bytes that are left when it has to wait for the
    device. *)
Fixpoint uartwrite_loop (bs : list Z) : M ksys (list Z) :=
  match bs with
  | [] => ret []
  | b :: bs' =>
      let! busy := gets y_txbusy in
      if busy then ret bs else
      do! zoom (WriteReg THR b);
      do! modify (set_txbusy true);
      uartwrite_loop bs'
  end.

Definition uartwrite (bs : list Z) : M ksys unit :=
  do! acquire TXLOCK;
  let! rest := uartwrite_loop bs in
  match rest with
  | [] => release TXLOCK
  | _ => sleep me ChTx TXLOCK
  end.

(** ** Console device *)

Fixpoint consolewrite_loop (fuel : nat) (src : csrc) (n i : Z) : M ksys Z :=
  if negb (i <? n) then ret i else
  match fuel with
  | O => diverge
  | S fuel =>
      let nn := Z.min 32 (n - i) in
      let! pr := getp me in
      let! r := liftm (either_copyin (uproc_of pr) src nn) in
      if r.1 =? -1 then ret i else
      do! uartwrite r.2;
      consolewrite_loop fuel (src_add src nn) n (i + nn)
  end.

Definition consolewrite (src : csrc) (n : Z) : M ksys Z :=
  consolewrite_loop (Z.to_nat n) src n 0.

Definition mod_cons (f : cons -> cons) : M ksys unit := modify (fun s => set_cons (f (y_cons s)) s).
Definition set_r (r : Z) (c : cons) : cons := Cons (cons_buf c) r (cons_w c) (cons_e c).
Definition set_w (w : Z) (c : cons) : cons := Cons (cons_buf c) (cons_r c) w (cons_e c).
Definition set_e (e : Z) (c : cons) : cons := Cons (cons_buf c) (cons_r c) (cons_w c) e.
Definition set_buf (i v : Z) (c : cons) : cons := Cons (aset (cons_buf c) i v) (cons_r c) (cons_w c) (cons_e c).
Definition cons_at (c : cons) (i : Z) : Z := aget 0 (cons_buf c) (i mod INPUT_BUF_SIZE).

(** How the loop of [consoleread] stops, with the bytes stored at a kernel
    destination: done with [n] bytes missing, killed, or waiting for input. *)
Inductive read_stop := ReadEnd (n : Z) (bs : list Z) | ReadKilled | ReadWait (n : Z) (dst : cdst).

Fixpoint consoleread_loop (fuel : nat) (dst : cdst) (target n : Z) : M ksys read_stop :=
  if negb (0 <? n) then ret (ReadEnd n []) else
  match fuel with
  | O => diverge
  | S fuel =>
      let! cs := gets y_cons in
      if cons_r cs =? cons_w cs then
        let! k := killed me in
        if k then
          do! release CONSLOCK;
          ret ReadKilled
        else ret (ReadWait n dst)
      else
        let c := cons_at cs (cons_r cs) in
        do! mod_cons (set_r (u32 (cons_r cs + 1)));
        if c =? Ctl "D" then
          do! (if n <? target then mod_cons (fun c => set_r (u32 (cons_r c - 1)) c) else ret tt);
          ret (ReadEnd n [])
        else
          let! pr := getp me in
          let! r := liftm (either_copyout (uproc_of pr) dst [c]) in
          if r =? -1 then ret (ReadEnd n []) else
          if c =? 10 then ret (ReadEnd (n - 1) [c])
          else
            let! st := consoleread_loop fuel (dst_add dst 1) target (n - 1) in
            ret (match st with ReadEnd n bs => ReadEnd n (c :: bs) | _ => st end)
  end.

Definition consoleread (dst : cdst) (n : Z) : M ksys Z :=
  do! acquire CONSLOCK;
  let! st := consoleread_loop (Z.to_nat n) dst (u32 n) n in
  match st with
  | ReadEnd rest _ =>
      do! release CONSLOCK;
      ret (s32 (u32 n - rest))
  | ReadKilled => ret (-1)
  | ReadWait _ _ => sleep me ChCons CONSLOCK
  end.

(** [proc.c]: [procdump] reads the table without locks. *)
Definition state_name (st : procstate) : string :=
  match st with
  | UNUSED => "unused" | USED => "used" | SLEEPING => "sleep " | RUNNABLE => "runble"
  | RUNNING => "run   " | ZOMBIE => "zombie"
  end.

Definition procdump : M ksys unit :=
  do! printf (String (Ascii.ascii_of_nat 10) "") [];
  for_each (zrange 0 (Z.to_nat NPROC)) (fun i =>
    let! p := getp i in
    if bool_decide (p_state p = UNUSED) then ret tt else
    do! printf "%d %s %s" [VNum (p_pid p); VStr (Some (bytes_of (state_name (p_state p)))); VStr (Some (p_name p))];
    printf (String (Ascii.ascii_of_nat 10) "") []).

(** Control-U: take back the characters of the unfinished line. *)
Fixpoint kill_line (fuel : nat) : M ksys unit :=
  match fuel with
  | O => diverge
  | S fuel =>
      let! cs := gets y_cons in
      if negb (cons_e cs =? cons_w cs) && negb (cons_at cs (u32 (cons_e cs - 1)) =? 10) then
        do! mod_cons (set_e (u32 (cons_e cs - 1)));
        do! zoom (consputc BACKSPACE);
        kill_line fuel
      else ret tt
  end.

(** The edit index runs at most [INPUT_BUF_SIZE] ahead, so [kill_line] takes back
    at most that many characters. *)
Definition consoleintr (c : Z) : M ksys unit :=
  do! acquire CONSLOCK;
  do! (if c =? Ctl "P" then procdump
       else if c =? Ctl "U" then kill_line (S (Z.to_nat INPUT_BUF_SIZE))
       else if (c =? Ctl "H") || (c =? 0x7f) then
         let! cs := gets y_cons in
         if negb (cons_e cs =? cons_w cs) then
           do! mod_cons (set_e (u32 (cons_e cs - 1)));
           zoom (consputc BACKSPACE)
         else ret tt
       else
         let! cs := gets y_cons in
         if negb (c =? 0) && (u32 (cons_e cs - cons_r cs) <? INPUT_BUF_SIZE) then
           let c := if c =? 13 then 10 else c in
           do! zoom (consputc c);
           do! mod_cons (fun cs => set_e (u32 (cons_e cs + 1)) (set_buf (cons_e cs mod INPUT_BUF_SIZE) (u8 c) cs));
           let! cs := gets y_cons in
           if (c =? 10) || (c =? Ctl "D") || (u32 (cons_e cs - cons_r cs) =? INPUT_BUF_SIZE) then
             do! mod_cons (set_w (cons_e cs));
             wakeup me ChCons
           else ret tt
         else ret tt);
  release CONSLOCK.

(** [CONSOLE], the console's major device number. *)
Definition CONSOLE : Z := 1.

Definition consoleinit : M ksys unit :=
  do! zoom uartinit;
  modify (fun s => set_devsw (aset (y_devsw s) CONSOLE (Some DevConsole, Some DevConsole)) s).

(** Read and process incoming characters. *)
Fixpoint uartintr_loop (fuel : nat) : M ksys unit :=
  match fuel with
  | O => diverge
  | S fuel =>
      let! c := zoom uartgetc in
      if c =? -1 then ret tt
      else
        do! consoleintr c;
        uartintr_loop fuel
  end.

Definition uartintr : M ksys unit :=
  let! _ := zoom (ReadReg ISR) in
  do! acquire TXLOCK;
  let! lsr := zoom (ReadReg LSR) in
  do! (if negb (Z.land lsr LSR_TX_IDLE =? 0) then
         do! modify (set_txbusy false);
         wakeup me ChTx
       else ret tt);
  do! release TXLOCK;
  let! m := gets y_mach in
  uartintr_loop (S (length (io_in m))).
End console.
