(* ===== verification/Program.v ===== *)
(** * User programs as interaction trees

    A user program is a tree of the system calls it makes: what a call returns
    selects how the program goes on, so that every failure branch is there, and a
    program that does not end is a tree too.  The tree says nothing about what the
    calls do.

    [must Q t w] says what happens when the program [t] runs in the world [w]: it
    ends, and [Q] holds then, whatever the calls answer, as long as they answer what
    [answers] allows.  The world is a set of files, the bytes still to be read from
    the open descriptors, and what has been written. *)

From S2P Require Import Prelude CString Printf UPrintf Fs.
From ITree Require Import ITree.

(** ** System calls *)

Inductive sysE : Type -> Type :=
| Exit (code : Z) : sysE Empty_set
| Fork : sysE Z
| Wait : sysE (Z * Z)
| Kill (pid : Z) : sysE Z
| Exec (path : list Z) (argv : list (list Z)) : sysE Z
| Pipe : sysE (Z * Z * Z)
| Read (fd n : Z) : sysE (Z * list Z)
| Write (fd : Z) (bs : list Z) : sysE Z
| Close (fd : Z) : sysE Z
| Open (path : list Z) (mode : Z) : sysE Z
| Mknod (path : list Z) (major minor : Z) : sysE Z
| Unlink (path : list Z) : sysE Z
| Fstat (fd : Z) : sysE (Z * stat)
| Link (old new : list Z) : sysE Z
| Mkdir (path : list Z) : sysE Z
| Chdir (path : list Z) : sysE Z
| Dup (fd : Z) : sysE Z
| Getpid : sysE Z
| Sbrk (n type : Z) : sysE Z
| Pause (n : Z) : sysE Z
| Uptime : sysE Z.

Abbreviation prog := (itree sysE).
Abbreviation sys := (ITree.trigger (E := sysE)).

Declare Scope prog_scope.
Delimit Scope prog_scope with prog.
Notation "'let*' x := e 'in' k" := (ITree.bind e (fun x => k)) (at level 10, x name, k at level 200) : prog_scope.
Notation "'do*' e ; k" := (ITree.bind e (fun _ => k)) (at level 10, e at level 100, k at level 200) : prog_scope.
Open Scope prog_scope.

Definition exit {A} (code : Z) : prog A := let* x := sys (Exit code) in match x : Empty_set with end.

(** What calls [main]; what it returns is dropped. *)
Definition start {A} (main : prog A) : prog unit := do* main; exit 0.

Definition SBRK_EAGER : Z := 1.
Definition SBRK_LAZY : Z := 2.
Definition sbrk (n : Z) : prog Z := sys (Sbrk n SBRK_EAGER).
Definition sbrklazy (n : Z) : prog Z := sys (Sbrk n SBRK_LAZY).

(** A loop over the elements of a list. *)
Fixpoint foreach {X} (l : list X) (body : X -> prog unit) : prog unit :=
  match l with [] => Ret tt | x :: l => do* body x; foreach l body end.

(** [putc] writes one character at a time. *)
Definition put (fd : Z) (text : list Z) : prog unit := foreach text (fun c => do* sys (Write fd [c]); Ret tt).
Definition ufprintf (fd : Z) (fmt : string) (ap : list varg) : prog unit := put fd (fprintf fmt ap).
Definition nl : string := String (Ascii.ascii_of_nat 10) EmptyString.

(** ** Running a program *)

(** Calls that are recorded: the process has started a child, waited for one, or
    changed its directory. *)
Inductive note := Forked | Waited | Moved (path : list Z).

(** The files, the bytes left to read by descriptor, the writes so far and the
    recorded calls, oldest first, the free slots of the process table and the
    process's children. *)
Record world := World { w_file : list Z -> option (list Z); w_in : gmap Z (list Z); w_out : list (Z * list Z);
  w_log : list note; w_free : nat; w_kids : nat }.

Definition set_in (m : gmap Z (list Z)) (w : world) : world := World (w_file w) m (w_out w) (w_log w) (w_free w) (w_kids w).
Definition add_out (fd : Z) (bs : list Z) (w : world) : world :=
  World (w_file w) (w_in w) (w_out w ++ [(fd, bs)]) (w_log w) (w_free w) (w_kids w).
Definition add_note (n : note) (w : world) : world := World (w_file w) (w_in w) (w_out w) (w_log w ++ [n]) (w_free w) (w_kids w).
Definition set_procs (free kids : nat) (w : world) : world := World (w_file w) (w_in w) (w_out w) (w_log w) free kids.

(** The bytes of a list of writes that go to a descriptor, and what has been written
    to it. *)
Definition sent (fd : Z) (l : list (Z * list Z)) : list Z := concat (map snd (filter (fun x => x.1 = fd) l)).
Definition written (fd : Z) (w : world) : list Z := sent fd (w_out w).

(** The answers of the calls on files in a world without input or output errors:
    [open] delivers a free descriptor above 2, [read] at least one byte unless the
    end of the file is reached, and at most what it is asked for.  [fork] is
    answered as in the parent, and fails when the process table is full; [wait]
    delivers a child, with any status, as long as there is one; [chdir] may fail. *)
Definition answers {X} (e : sysE X) (w : world) : X -> world -> Prop :=
  match e in sysE X return X -> world -> Prop with
  | Open path mode => fun fd w' =>
      match w_file w path with
      | Some l => 2 < fd /\ w_in w !! fd = None /\ w' = set_in (<[fd := l]> (w_in w)) w
      | None => fd = -1 /\ w' = w
      end
  | Read fd n => fun r w' => exists l k, w_in w !! fd = Some l /\ 0 <= k <= n /\ k <= Z.of_nat (length l) /\ (l <> [] -> 0 < n -> 0 < k) /\
      r = (k, take (Z.to_nat k) l) /\ w' = set_in (<[fd := drop (Z.to_nat k) l]> (w_in w)) w
  | Write fd bs => fun n w' => n = Z.of_nat (length bs) /\ w' = add_out fd bs w
  | Close fd => fun r w' => is_Some (w_in w !! fd) /\ r = 0 /\ w' = set_in (delete fd (w_in w)) w
  | Fork => fun pid w' =>
      match w_free w with
      | S free => 0 < pid /\ w' = add_note Forked (set_procs free (S (w_kids w)) w)
      | O => pid = -1 /\ w' = w
      end
  | Wait => fun r w' =>
      match w_kids w with
      | S kids => 0 < r.1 /\ w' = add_note Waited (set_procs (S (w_free w)) kids w)
      | O => r.1 = -1 /\ w' = w
      end
  | Chdir path => fun r w' => (r = 0 \/ r = -1) /\ w' = add_note (Moved path) w
  | _ => fun _ _ => False
  end.

(** The program ends, by returning or with [exit], and then [Q] holds. *)
Inductive must {A} (Q : A + Z -> world -> Prop) : prog A -> world -> Prop :=
| must_ret t w a : observe t = RetF a -> Q (inl a) w -> must Q t w
| must_tau t w t' : observe t = TauF t' -> must Q t' w -> must Q t w
| must_exit t w code k : observe t = VisF (Exit code) k -> Q (inr code) w -> must Q t w
| must_call t w X (e : sysE X) k : observe t = VisF e k ->
    (exists x w', answers e w x w') -> (forall x w', answers e w x w' -> must Q (k x) w') -> must Q t w.

(** ** Rules *)

Lemma observe_bind {A B} (t : prog A) (k : A -> prog B) : observe (ITree.bind t k) =
  match observe t with RetF r => observe (k r) | TauF t' => TauF (ITree.bind t' k) | VisF e h => VisF e (fun x => ITree.bind (h x) k) end.
Proof. unfold ITree.bind, ITree.subst, observe at 1; cbn; by destruct (observe t). Qed.

Lemma must_observe {A} Q (t t' : prog A) w : observe t = observe t' -> must Q t w -> must Q t' w.
Proof. intros E H; revert E; destruct H as [t1 w1 a H1 H2|t1 w1 t2 H1 H2|t1 w1 c k H1 H2|t1 w1 X e k H1 H2 H3]; intros E; rewrite E in H1; [by eapply must_ret|by eapply must_tau|by eapply must_exit|by eapply must_call]. Qed.

Lemma must_return {A} Q (a : A) w : Q (inl a) w -> must Q (Ret a) w.
Proof. by apply must_ret. Qed.

Lemma must_mono {A} (Q Q' : A + Z -> world -> Prop) t w : must Q t w -> (forall r w, Q r w -> Q' r w) -> must Q' t w.
Proof.
  intros H HQ; induction H as [t w a E H|t w t' E H IH|t w c k E H|t w X e k E He H IH];
    [eapply must_ret; eauto|by eapply must_tau|eapply must_exit; eauto|by eapply must_call].
Qed.

(** What a program followed by [k] must establish. *)
Definition then_ {A B} (Q : B + Z -> world -> Prop) (k : A -> prog B) (r : A + Z) (w : world) : Prop :=
  match r with inl a => must Q (k a) w | inr code => Q (inr code) w end.

Lemma must_bind {A B} (Q : B + Z -> world -> Prop) (t : prog A) (k : A -> prog B) w : must (then_ Q k) t w -> must Q (ITree.bind t k) w.
Proof.
  intros H; induction H as [t w a E H|t w t' E H IH|t w c h E H|t w X e h E He H IH]; pose proof (observe_bind t k) as Eb; rewrite E in Eb.
  - by apply (must_observe Q (k a)).
  - by eapply must_tau.
  - by eapply must_exit.
  - by eapply must_call.
Qed.

Lemma must_sys {X} (e : sysE X) Q w : (exists x w', answers e w x w') -> (forall x w', answers e w x w' -> Q (inl x) w') -> must Q (sys e) w.
Proof. intros He H; eapply (must_call Q _ w X e); [done|done|]; intros x w' Hx; apply must_return; auto. Qed.

Lemma must_exits {A} Q code w : Q (inr code) w -> must Q (exit (A := A) code) w.
Proof. intros H; unfold exit; apply must_bind; eapply must_exit; [reflexivity|done]. Qed.

(** One round of a loop. *)
Lemma must_iter {A B} Q (f : A -> prog (A + B)) a w :
  must (then_ Q (fun r => match r with inl a' => ITree.iter f a' | inr b => Ret b end)) (f a) w -> must Q (ITree.iter f a) w.
Proof.
  intros H; apply (must_observe Q (ITree.bind (f a) (fun r => match r with inl a' => Tau (ITree.iter f a') | inr b => Ret b end))); [done|].
  apply must_bind; eapply must_mono; [exact H|]; intros [[a'|b]|c] w'; cbn; [by apply must_tau|done|done].
Qed.

(** ** The calls *)

Lemma must_read fd n l w (Q : (Z * list Z) + Z -> world -> Prop) : w_in w !! fd = Some l -> 0 < n ->
  (forall k, 0 <= k <= n -> k <= Z.of_nat (length l) -> (l <> [] -> 0 < k) ->
     Q (inl (k, take (Z.to_nat k) l)) (set_in (<[fd := drop (Z.to_nat k) l]> (w_in w)) w)) -> must Q (sys (Read fd n)) w.
Proof.
  intros Hl Hn HQ; apply must_sys.
  - eexists _, _, l, (Z.min n (Z.of_nat (length l))); split_and!; eauto; [lia..|]; intros; destruct l; [done|cbn [length]; lia].
  - intros r w' (l' & k & Hl' & H1 & H2 & H3 & -> & ->); rewrite Hl in Hl'; injection Hl' as <-; apply HQ; auto.
Qed.

Lemma must_write fd bs w (Q : Z + Z -> world -> Prop) : Q (inl (Z.of_nat (length bs))) (add_out fd bs w) -> must Q (sys (Write fd bs)) w.
Proof. intros HQ; apply must_sys; [by repeat eexists|]; by intros n w' [-> ->]. Qed.

Lemma must_close fd w (Q : Z + Z -> world -> Prop) : is_Some (w_in w !! fd) -> Q (inl 0) (set_in (delete fd (w_in w)) w) -> must Q (sys (Close fd)) w.
Proof. intros Hi HQ; apply must_sys; [by eexists _, _|]; by intros n w' (_ & -> & ->). Qed.

Lemma free_descriptor (m : gmap Z (list Z)) : exists fd, 2 < fd /\ m !! fd = None.
Proof.
  assert (forall l k, k ∈ l -> k <= foldr Z.max 2 l) as Hmax by (induction l as [|x l IH]; intros k; [by rewrite elem_of_nil|]; rewrite elem_of_cons; intros [->|?%IH]; cbn; lia).
  assert (forall l, 2 <= foldr Z.max 2 l) as Hlow by (induction l; cbn; lia).
  exists (foldr Z.max 2 (map_to_list m).*1 + 1); split; [specialize (Hlow (map_to_list m).*1); lia|].
  destruct (m !! _) as [x|] eqn:E; [|done]; apply elem_of_map_to_list, (list_elem_of_fmap_2 fst), Hmax in E; cbn in E; lia.
Qed.

Lemma must_open path mode l w (Q : Z + Z -> world -> Prop) : w_file w path = Some l ->
  (forall fd, 2 < fd -> w_in w !! fd = None -> Q (inl fd) (set_in (<[fd := l]> (w_in w)) w)) -> must Q (sys (Open path mode)) w.
Proof.
  intros Hf HQ; apply must_sys; cbn; rewrite Hf; [|by intros fd w' (H1 & H2 & ->); apply HQ].
  destruct (free_descriptor (w_in w)) as (fd & H1 & H2); by eexists fd, _.
Qed.

Lemma must_no_open path mode w (Q : Z + Z -> world -> Prop) : w_file w path = None -> Q (inl (-1)) w -> must Q (sys (Open path mode)) w.
Proof. intros Hf HQ; apply must_sys; cbn; rewrite Hf; [by eexists _, _|]; by intros n w' [-> ->]. Qed.

Lemma must_fork free w (Q : Z + Z -> world -> Prop) : w_free w = S free ->
  (forall pid, 0 < pid -> Q (inl pid) (add_note Forked (set_procs free (S (w_kids w)) w))) -> must Q (sys Fork) w.
Proof. intros Hf HQ; apply must_sys; cbn; rewrite Hf; [by eexists 1, _|]; intros pid w' [Hp ->]; auto. Qed.

Lemma must_no_fork w (Q : Z + Z -> world -> Prop) : w_free w = 0%nat -> Q (inl (-1)) w -> must Q (sys Fork) w.
Proof. intros Hf HQ; apply must_sys; cbn; rewrite Hf; [by eexists _, _|]; by intros pid w' [-> ->]. Qed.

Lemma must_wait kids w (Q : (Z * Z) + Z -> world -> Prop) : w_kids w = S kids ->
  (forall pid st, 0 < pid -> Q (inl (pid, st)) (add_note Waited (set_procs (S (w_free w)) kids w))) -> must Q (sys Wait) w.
Proof. intros Hk HQ; apply must_sys; cbn; rewrite Hk; [by eexists (1, 0), _|]; intros [pid st] w' [Hp ->]; auto. Qed.

Lemma must_no_wait w (Q : (Z * Z) + Z -> world -> Prop) : w_kids w = 0%nat -> (forall st, Q (inl (-1, st)) w) -> must Q (sys Wait) w.
Proof. intros Hk HQ; apply must_sys; cbn; rewrite Hk; [by eexists (-1, 0), _|]; intros [pid st] w' [Hp ->]; cbn in Hp; by subst pid. Qed.

Lemma must_chdir path w (Q : Z + Z -> world -> Prop) : (forall r, Q (inl r) (add_note (Moved path) w)) -> must Q (sys (Chdir path)) w.
Proof. intros HQ; apply must_sys; [eexists 0, _; cbn; eauto|]; intros r w' [_ ->]; auto. Qed.

(** ** What has been written *)

Lemma sent_app fd a b : sent fd (a ++ b) = sent fd a ++ sent fd b.
Proof. unfold sent; by rewrite filter_app, map_app, concat_app. Qed.

(** The files, the recorded calls and the processes. *)
Definition rest_of (w : world) : (list Z -> option (list Z)) * list note * (nat * nat) := (w_file w, w_log w, (w_free w, w_kids w)).

(** Nothing has happened but writes, of these bytes to these descriptors. *)
Definition wrote (l : list (Z * list Z)) (w w' : world) : Prop :=
  rest_of w' = rest_of w /\ w_in w' = w_in w /\ forall x, written x w' = written x w ++ sent x l.

Lemma writes_nil w : wrote [] w w.
Proof. split_and!; auto; intros x; cbn; by rewrite app_nil_r. Qed.

Lemma writes_trans a b w w1 w2 : wrote a w w1 -> wrote b w1 w2 -> wrote (a ++ b) w w2.
Proof. intros (A1 & A2 & A3) (B1 & B2 & B3); split_and!; [congruence..|]; intros x; by rewrite B3, A3, sent_app, app_assoc. Qed.

Lemma wrote_add fd bs w : wrote [(fd, bs)] w (add_out fd bs w).
Proof. split_and!; auto; intros x; unfold written, add_out; cbn [w_out]; apply sent_app. Qed.

(** Only the bytes count, not how they were cut. *)
Lemma wrote_same a b w w' : (forall x, sent x a = sent x b) -> wrote a w w' -> wrote b w w'.
Proof. intros E (H1 & H2 & H3); split_and!; auto; intros x; by rewrite <- E. Qed.

Lemma sent_cut fd a b x : sent x [(fd, a); (fd, b)] = sent x [(fd, a ++ b)].
Proof. unfold sent; rewrite !filter_cons; cbn [fst]; destruct (decide (fd = x)); cbn; by rewrite ?app_nil_r. Qed.

Lemma wrote_more fd a b w w1 w2 : wrote [(fd, a)] w w1 -> wrote [(fd, b)] w1 w2 -> wrote [(fd, a ++ b)] w w2.
Proof. intros Ha Hb; eapply wrote_same; [apply sent_cut|by eapply (writes_trans [(fd, a)])]. Qed.

Lemma wrote_none fd w : wrote [(fd, [])] w w.
Proof. eapply wrote_same, writes_nil; intros x; unfold sent; rewrite filter_cons; by destruct (decide _). Qed.

Lemma must_put fd text w (Q : unit + Z -> world -> Prop) : (forall w', wrote [(fd, text)] w w' -> Q (inl tt) w') -> must Q (put fd text) w.
Proof.
  revert w Q; induction text as [|c text IH]; intros w Q HQ; [apply must_return, HQ, wrote_none|]; cbn [put foreach].
  apply must_bind, must_bind, must_write, must_return; cbn; apply IH; intros w' Hw; apply HQ; change (c :: text) with ([c] ++ text).
  eapply wrote_more; [apply wrote_add|done].
Qed.
