(* ===== verification/UserPrograms.v ===== *)
(** * The user programs

    [cat], [wc], [grep], [echo], [ls], [rm], [ln], [mkdir], [kill], [zombie], [init]
    and the small test programs, as interaction trees over the system calls, every
    failure branch included.  [argv] holds the program's name first; strings are the
    bytes before their null byte.

    [cat], [wc] and [grep] treat their arguments the same way ([filter_main]).  The
    theorems say what they write and how they end, for every list of files, some of
    which may be missing, and however [read] cuts a file into pieces. *)

From S2P Require Import Prelude CString Ulib Printf UPrintf FsLayout Fs Sh Grep Console Program.
From ITree Require Import ITree.

Definition O_RDWR : Z := 2.

(** A message of [printf] or [fprintf] that ends in a newline. *)
Definition say (fd : Z) (fmt : string) (ap : list varg) : prog unit := ufprintf fd (fmt +:+ nl) ap.

(** [fprintf] and then [exit]. *)
Definition fail {A} (fd : Z) (fmt : string) (ap : list varg) : prog A := do* say fd fmt ap; exit 1.

(** [argv[i]] as an argument of [printf]. *)
Definition str (s : list Z) : varg := VStr (Some s).

(** ** Programs that read files *)

(** The loop over the files, which stops at the first one that cannot be opened. *)
Definition each_file (efd : Z) (fmt : string) (body : Z -> list Z -> prog unit) (files : list (list Z)) : prog unit :=
  foreach files (fun name =>
    let* fd := sys (Open name O_RDONLY) in
    if fd <? 0 then fail efd fmt [str name]
    else do* body fd name; do* sys (Close fd); Ret tt).

(** Without files the program reads its standard input. *)
Definition filter_main (efd : Z) (fmt : string) (body : Z -> list Z -> prog unit) (files : list (list Z)) : prog unit :=
  match files with
  | [] => do* body 0 []; exit 0
  | _ => do* each_file efd fmt body files; exit 0
  end.

(** *** cat *)

Definition cat_step (fd : Z) (_ : unit) : prog (unit + Z) :=
  let* r := sys (Read fd 512) in
  if 0 <? r.1 then
    let* n := sys (Write 1 r.2) in
    if n =? r.1 then Ret (inl tt) else fail 2 "cat: write error" []
  else Ret (inr r.1).

Definition cat (fd : Z) : prog unit :=
  let* n := ITree.iter (cat_step fd) tt in
  if n <? 0 then fail 2 "cat: read error" [] else Ret tt.

Definition cat_main (argv : list (list Z)) : prog unit := filter_main 2 "cat: cannot open %s" (fun fd _ => cat fd) (drop 1 argv).

(** *** wc *)

(** Lines, words, characters and whether the last character is in a word. *)
Record counts := Counts { nl_ : Z; nw : Z; nc : Z; inword : bool }.

Definition wc_char (k : counts) (c : Z) : counts :=
  let l := if c =? 10 then s32 (nl_ k + 1) else nl_ k in
  if in_set [32; 13; 9; 10; 11] c then Counts l (nw k) (s32 (nc k + 1)) false
  else if negb (inword k) then Counts l (s32 (nw k + 1)) (s32 (nc k + 1)) true
  else Counts l (nw k) (s32 (nc k + 1)) true.

Definition wc_step (fd : Z) (k : counts) : prog (counts + counts * Z) :=
  let* r := sys (Read fd 512) in
  Ret (if 0 <? r.1 then inl (foldl wc_char k r.2) else inr (k, r.1)).

Definition wc (fd : Z) (name : list Z) : prog unit :=
  let* kn := ITree.iter (wc_step fd) (Counts 0 0 0 false) in
  let '(k, n) := kn in
  if n <? 0 then fail 1 "wc: read error" []
  else say 1 "%d %d %d %s" [VNum (nl_ k); VNum (nw k); VNum (nc k); str name].

Definition wc_main (argv : list (list Z)) : prog unit := filter_main 1 "wc: cannot open %s" wc (drop 1 argv).

(** *** grep *)

(** The loop over the lines in the buffer; every turn consumes a byte. *)
Fixpoint grep_scan (fuel : nat) (pattern data : list Z) : prog (list Z) :=
  match fuel with
  | O => Ret data
  | S fuel =>
      match strchr data NEWLINE with
      | None => Ret data
      | Some q =>
          do* (if match_ pattern (take q data) then do* sys (Write 1 (take q data ++ [NEWLINE])); Ret tt else Ret tt);
          grep_scan fuel pattern (drop (S q) data)
      end
  end.

Definition grep_step (pattern : list Z) (fd : Z) (held : list Z) : prog (list Z + unit) :=
  let* r := sys (Read fd (GREPBUF - Z.of_nat (length held) - 1)) in
  if 0 <? r.1 then
    let* rest := grep_scan (length (held ++ r.2)) pattern (held ++ r.2) in
    Ret (inl rest)
  else Ret (inr tt).

Definition grep_fd (pattern : list Z) (fd : Z) : prog unit := ITree.iter (grep_step pattern fd) [].

Definition grep_main (argv : list (list Z)) : prog unit :=
  match drop 1 argv with
  | [] => fail 2 "usage: grep pattern [file ...]" []
  | pattern :: files => filter_main 1 "grep: cannot open %s" (fun fd _ => grep_fd pattern fd) files
  end.

(** ** echo *)

Fixpoint echo_loop (args : list (list Z)) : prog unit :=
  match args with
  | [] => Ret tt
  | a :: rest =>
      do* sys (Write 1 (cstr a));
      do* sys (Write 1 (match rest with [] => [10] | _ => [32] end));
      echo_loop rest
  end.

Definition echo_main (argv : list (list Z)) : prog unit := do* echo_loop (drop 1 argv); exit 0.

(** ** ls *)

(** The loop that walks [p] back to a slash: the characters after it. *)
Fixpoint after_slash (p : nat) (path : list Z) : list Z :=
  if aget 0 path (Z.of_nat p) =? chr "/" then drop (S p) path
  else match p with O => path | S p => after_slash p path end.

Definition fmtname (path : list Z) : list Z :=
  let p := after_slash (length path) path in
  if DIRSIZ <=? strlen p then p
  else p ++ replicate (Z.to_nat (DIRSIZ - strlen p)) 32.

(** [stat] of [user/ulib.c]. *)
Definition stat_path (n : list Z) : prog (Z * stat) :=
  let* fd := sys (Open n O_RDONLY) in
  if fd <? 0 then Ret (-1, Stat 0 0 0 0 0) else
  let* r := sys (Fstat fd) in
  do* sys (Close fd);
  Ret r.

Definition ls_entry (path : list Z) (st : stat) : prog unit :=
  say 1 "%s %d %d %d" [str (fmtname path); VNum (st_type st); VNum (st_ino st); VNum (st_size st)].

(** One turn of the loop over the directory; [buf] is the path and a slash. *)
Definition ls_step (fd : Z) (buf : list Z) (_ : unit) : prog (unit + unit) :=
  let* r := sys (Read fd sizeof_dirent) in
  if negb (r.1 =? sizeof_dirent) then Ret (inr tt) else
  let de := dirent_decode r.2 in
  if de_inum de =? 0 then Ret (inl tt) else
  let path := buf ++ cstr (de_name de) in
  let* s := stat_path path in
  do* (if s.1 <? 0 then say 1 "ls: cannot stat %s" [str path] else ls_entry path s.2);
  Ret (inl tt).

Definition ls (path : list Z) : prog unit :=
  let* fd := sys (Open path O_RDONLY) in
  if fd <? 0 then say 2 "ls: cannot open %s" [str path] else
  let* r := sys (Fstat fd) in
  if r.1 <? 0 then do* say 2 "ls: cannot stat %s" [str path]; do* sys (Close fd); Ret tt else
  let st := r.2 in
  do* (if (st_type st =? T_DEVICE) || (st_type st =? T_FILE) then ls_entry path st
       else if st_type st =? T_DIR then
         if 512 <? strlen path + 1 + DIRSIZ + 1 then say 1 "ls: path too long" []
         else ITree.iter (ls_step fd (path ++ [chr "/"])) tt
       else Ret tt);
  do* sys (Close fd);
  Ret tt.

Definition ls_main (argv : list (list Z)) : prog unit :=
  match drop 1 argv with
  | [] => do* ls (bytes_of "."); exit 0
  | paths => do* foreach paths ls; exit 0
  end.

(** ** rm, mkdir, ln, kill *)

(** The loop over the arguments, left at the first call that fails. *)
Fixpoint until_error (call : list Z -> prog Z) (fmt : string) (names : list (list Z)) : prog unit :=
  match names with
  | [] => Ret tt
  | name :: names =>
      let* r := call name in
      if r <? 0 then say 2 fmt [str name] else until_error call fmt names
  end.

Definition rm_main (argv : list (list Z)) : prog unit :=
  match drop 1 argv with
  | [] => fail 2 "Usage: rm files..." []
  | names => do* until_error (fun name => sys (Unlink name)) "rm: %s failed to delete" names; exit 0
  end.

Definition mkdir_main (argv : list (list Z)) : prog unit :=
  match drop 1 argv with
  | [] => fail 2 "Usage: mkdir files..." []
  | names => do* until_error (fun name => sys (Mkdir name)) "mkdir: %s failed to create" names; exit 0
  end.

Definition ln_main (argv : list (list Z)) : prog unit :=
  match argv with
  | [_; old; new] =>
      let* r := sys (Link old new) in
      do* (if r <? 0 then say 2 "link %s %s: failed" [str old; str new] else Ret tt);
      exit 0
  | _ => fail 2 "Usage: ln old new" []
  end.

Definition kill_main (argv : list (list Z)) : prog unit :=
  match drop 1 argv with
  | [] => fail 2 "usage: kill pid..." []
  | pids => do* foreach pids (fun a => do* sys (Kill (atoi a)); Ret tt); exit 0
  end.

(** ** zombie and init *)

Definition zombie_main : prog unit :=
  let* pid := sys Fork in
  do* (if 0 <? pid then do* sys (Pause 5); Ret tt else Ret tt);
  exit 0.

(** [init] waits for the shell it has started and reaps every other child. *)
Definition init_wait (pid : Z) (_ : unit) : prog (unit + unit) :=
  let* r := sys Wait in
  let wpid := r.1 in
  if wpid =? pid then Ret (inr tt)
  else if wpid <? 0 then fail 1 "init: wait returned an error" []
  else Ret (inl tt).

Definition init_step (_ : unit) : prog (unit + unit) :=
  do* say 1 "init: starting sh" [];
  let* pid := sys Fork in
  if pid <? 0 then fail 1 "init: fork failed" []
  else if pid =? 0 then
    do* sys (Exec (bytes_of "sh") [bytes_of "sh"]);
    fail 1 "init: exec sh failed" []
  else
    do* ITree.iter (init_wait pid) tt;
    Ret (inl tt).

Definition init_main : prog unit :=
  let* fd := sys (Open (bytes_of "console") O_RDWR) in
  do* (if fd <? 0 then
         do* sys (Mknod (bytes_of "console") CONSOLE 0);
         do* sys (Open (bytes_of "console") O_RDWR); Ret tt
       else Ret tt);
  do* sys (Dup 0);
  do* sys (Dup 0);
  ITree.iter init_step tt.

(** ** Reading a descriptor to its end *)

(** The descriptor has been read to its end, and [bs] has been written to standard
    output. *)
Definition consumed (fd : Z) (bs : list Z) (w w' : world) : Prop :=
  rest_of w' = rest_of w /\ w_in w' = <[fd := []]> (w_in w) /\ forall x, written x w' = written x w ++ sent x [(1, bs)].

Lemma consumed_end fd w : w_in w !! fd = Some [] -> consumed fd [] w (set_in (<[fd := []]> (w_in w)) w).
Proof. intros H; split_and!; auto; intros x; destruct (wrote_none 1 w) as (_ & _ & Hs); apply Hs. Qed.

(** A piece has been read, [a] written, and the rest consumed. *)
Lemma consumed_step fd l a b w w1 w' :
  wrote [(1, a)] (set_in (<[fd := l]> (w_in w)) w) w1 -> consumed fd b w1 w' -> consumed fd (a ++ b) w w'.
Proof.
  intros (A1 & A2 & A3) (B1 & B2 & B3); split_and!; [by rewrite B1, A1|rewrite B2, A2; apply insert_insert_eq|].
  intros x; rewrite B3, A3, <- sent_cut, <- app_assoc; f_equal; symmetry; apply (sent_app x [(1, a)]).
Qed.

Lemma consumed_more fd a b w w1 w' : consumed fd a w w1 -> wrote [(1, b)] w1 w' -> consumed fd (a ++ b) w w'.
Proof.
  intros (A1 & A2 & A3) (B1 & B2 & B3); split_and!; [congruence..|].
  intros x; rewrite B3, A3, <- sent_cut, <- app_assoc; f_equal; symmetry; apply (sent_app x [(1, a)]).
Qed.

Lemma wrote_in fd l w w' bs : wrote bs (set_in (<[fd := l]> (w_in w)) w) w' -> w_in w' !! fd = Some l.
Proof. intros (_ & -> & _); apply lookup_insert_eq. Qed.

(** What the next turn of a loop that reads [fd] gets: at the end of the file no
    byte, before it a piece [l1] of what is left. *)
Lemma must_piece fd n l w (Q : (Z * list Z) + Z -> world -> Prop) : w_in w !! fd = Some l -> 0 < n ->
  (l = [] -> Q (inl (0, [])) (set_in (<[fd := []]> (w_in w)) w)) ->
  (forall l1 l2, l = l1 ++ l2 -> l1 <> [] -> Z.of_nat (length l1) <= n -> (length l2 < length l)%nat ->
     Q (inl (Z.of_nat (length l1), l1)) (set_in (<[fd := l2]> (w_in w)) w)) -> must Q (sys (Read fd n)) w.
Proof.
  intros Hl Hn Hend Hmore; eapply must_read; [done|done|]; intros k Hk Hkl Hpos; destruct (decide (l = [])) as [->|Hne].
  { cbn in Hkl; assert (k = 0) as -> by lia; by apply Hend. }
  specialize (Hpos Hne); assert (length (take (Z.to_nat k) l) = Z.to_nat k) as Hlen by (rewrite length_take; lia).
  specialize (Hmore (take (Z.to_nat k) l) (drop (Z.to_nat k) l)); rewrite Hlen, Z2Nat.id in Hmore by lia; apply Hmore.
  - by rewrite take_drop.
  - intros E; rewrite E in Hlen; cbn in Hlen; lia.
  - lia.
  - rewrite length_drop; destruct l; [done|cbn [length] in *; lia].
Qed.

Lemma must_cat_loop fd l : forall w (Q : Z + Z -> world -> Prop), w_in w !! fd = Some l ->
  (forall w', consumed fd l w w' -> Q (inl 0) w') -> must Q (ITree.iter (cat_step fd) tt) w.
Proof.
  induction l as [l IH] using (induction_ltof1 _ (@length Z)); intros w Q Hl HQ; apply must_iter; unfold cat_step; apply must_bind.
  eapply must_piece; [done|lia|intros ->; apply must_return; apply must_return; apply HQ; by apply consumed_end|].
  intros l1 l2 -> Hne _ Hlt; cbn [then_ fst snd]; rewrite (proj2 (Z.ltb_lt 0 _)) by (destruct l1; [done|cbn; lia]).
  apply must_bind, must_write; cbn [then_]; rewrite Z.eqb_refl; apply must_return; cbn [then_].
  apply (IH l2); [done|by eapply wrote_in, wrote_add|]; intros w' Hc; apply HQ; eapply consumed_step; [apply wrote_add|done].
Qed.

Lemma must_cat fd l w (Q : unit + Z -> world -> Prop) : w_in w !! fd = Some l ->
  (forall w', consumed fd l w w' -> Q (inl tt) w') -> must Q (cat fd) w.
Proof. intros Hl HQ; apply must_bind; eapply must_cat_loop; [done|]; intros w' Hc; apply must_return; by apply HQ. Qed.

(** ** A list of files *)

Lemma must_say fd fmt ap w (Q : unit + Z -> world -> Prop) :
  (forall w', wrote [(fd, fprintf (fmt +:+ nl) ap)] w w' -> Q (inl tt) w') -> must Q (say fd fmt ap) w.
Proof. apply must_put. Qed.

Lemma must_fail {A} fd fmt ap w (Q : A + Z -> world -> Prop) :
  (forall w', wrote [(fd, fprintf (fmt +:+ nl) ap)] w w' -> Q (inr 1) w') -> must Q (fail fd fmt ap) w.
Proof. intros H; apply must_bind, must_say; intros w' Hw; apply must_exits; auto. Qed.

Section files.
Context (efd : Z) (fmt : string) (out : list Z -> list Z -> list Z).

(** What is written for a list of files, up to the first one that is missing, and
    whether one is. *)
Fixpoint each_result (file : list Z -> option (list Z)) (files : list (list Z)) : list (Z * list Z) * bool :=
  match files with
  | [] => ([], false)
  | name :: files =>
      match file name with
      | None => ([(efd, fprintf (fmt +:+ nl) [str name])], true)
      | Some l => let '(o, failed) := each_result file files in ((1, out name l) :: o, failed)
      end
  end.

(** What is written and the exit status; without files, standard input is read. *)
Definition filter_result (w : world) (files : list (list Z)) : list (Z * list Z) * Z :=
  match files with
  | [] => ([(1, out [] (default [] (w_in w !! 0)))], 0)
  | _ => let '(o, failed) := each_result (w_file w) files in (o, if failed then 1 else 0)
  end.

(** The program ends as its result says: it has written that, and nothing else, the
    descriptors it has opened are closed, and it exits with that status. *)
Definition ends_with (files : list (list Z)) (w : world) (e : unit + Z) (w' : world) : Prop :=
  e = inr (filter_result w files).2 /\ rest_of w' = rest_of w /\ (files <> [] -> w_in w' = w_in w) /\
  forall x, written x w' = written x w ++ sent x (filter_result w files).1.

(** The inputs [body] is meant for. *)
Definition inputs_ok (ok : list Z -> Prop) (files : list (list Z)) (w : world) : Prop :=
  (exists l, w_in w !! 0 = Some l /\ ok l) /\ Forall (fun name => from_option ok True (w_file w name)) files.

Context (ok : list Z -> Prop) (body : Z -> list Z -> prog unit).
Context (Hbody : forall fd name l w (Q : unit + Z -> world -> Prop), w_in w !! fd = Some l -> ok l ->
  (forall w', consumed fd (out name l) w w' -> Q (inl tt) w') -> must Q (body fd name) w).

Lemma must_each_file files w (Q : unit + Z -> world -> Prop) :
  Forall (fun name => from_option ok True (w_file w name)) files ->
  (forall w', wrote (each_result (w_file w) files).1 w w' -> Q (if (each_result (w_file w) files).2 then inr 1 else inl tt) w') ->
  must Q (each_file efd fmt body files) w.
Proof.
  intros Hf; revert w Hf Q; induction files as [|name files IH]; intros w Hf Q HQ; [apply must_return, HQ, writes_nil|].
  apply Forall_cons in Hf as [Hok Hf]; cbn [each_file foreach each_result] in *; apply must_bind, must_bind; destruct (w_file w name) as [l|] eqn:E.
  - eapply must_open; [done|]; intros fd Hfd Hfree; cbn [then_]; rewrite (proj2 (Z.ltb_ge fd 0)) by lia; apply must_bind.
    eapply (Hbody fd name l); [apply lookup_insert_eq|done|]; intros w1 (H1 & H2 & H3); cbn [set_in w_file w_in] in H2; injection H1 as H0 H1 H4 H5; cbn [then_].
    apply must_bind, must_close; [rewrite H2; by rewrite lookup_insert_eq|]; cbn [then_]; apply must_return; cbn [then_].
    assert (delete fd (w_in w1) = w_in w) as Hd by (rewrite H2, insert_insert_eq; by apply delete_insert_id).
    rewrite Hd; apply IH; cbn [set_in w_file]; rewrite H0; [done|]; intros w' Hw; destruct (each_result (w_file w) files) as [o failed].
    apply HQ; cbn [fst]; eapply (writes_trans [(1, out name l)]); [|exact Hw]; split_and!; [unfold rest_of; cbn; congruence|done|exact H3].
  - eapply must_no_open; [done|]; cbn [then_]; change (-1 <? 0) with true; cbv iota; apply must_fail; exact HQ.
Qed.

Lemma must_filter files w : inputs_ok ok files w -> must (ends_with files w) (filter_main efd fmt body files) w.
Proof.
  intros [(l & Hl & Hok) Hf]; destruct files as [|name files]; cbn [filter_main].
  - apply must_bind; eapply Hbody; [done|done|]; intros w' (H1 & H2 & H3); apply must_exits.
    unfold ends_with, filter_result; rewrite Hl; cbn [fst snd default]; by split_and!.
  - apply must_bind, must_each_file; [done|]; intros w' Hw; unfold ends_with, filter_result.
    destruct (each_result (w_file w) (name :: files)) as [o []]; cbn [fst snd then_] in *; destruct Hw as (H1 & H2 & H3); [|apply must_exits]; by split_and!.
Qed.
End files.

(** ** What [wc] counts *)

Definition blank (c : Z) : bool := bool_decide (c ∈ [32; 13; 9; 10; 11]).

(** The text between the blanks; a word is a piece that is not empty. *)
Fixpoint pieces (l : list Z) : list (list Z) :=
  match l with
  | [] => [[]]
  | c :: l => if blank c then [] :: pieces l else match pieces l with p :: ps => (c :: p) :: ps | [] => [[c]] end
  end.
Definition words (l : list Z) : list (list Z) := filter (fun p => p <> []) (pieces l).
Definition newlines (l : list Z) : list Z := filter (fun c => c = 10) l.

Definition wc_line (name l : list Z) : list Z :=
  fprintf ("%d %d %d %s" +:+ nl) [VNum (Z.of_nat (length (newlines l))); VNum (Z.of_nat (length (words l))); VNum (Z.of_nat (length l)); str name].

Lemma in_set_blank c : in_set [32; 13; 9; 10; 11] c = blank c.
Proof.
  unfold blank; destruct (decide (c = 0)) as [->|Hc]; [done|]; apply eq_bool_prop_intro; rewrite bool_decide_spec.
  rewrite Is_true_true, in_set_elem; [done|done|repeat constructor; done].
Qed.

Lemma pieces_cons l : exists p ps, pieces l = p :: ps.
Proof. destruct l as [|c l]; cbn [pieces]; [by eexists _, _|]; destruct (blank c); [by eexists _, _|]; destruct (pieces l); by eexists _, _. Qed.

(** A word that has begun before [l] is not counted again. *)
Definition begun (k : counts) (l : list Z) : Z := if inword k && negb (blank (hd 32 l)) then 1 else 0.

Lemma words_cons c l : Z.of_nat (length (words (c :: l))) =
  if blank c then Z.of_nat (length (words l)) else Z.of_nat (length (words l)) + 1 - (if negb (blank (hd 32 l)) then 1 else 0).
Proof.
  unfold words; cbn [pieces]; destruct (blank c) eqn:Ec; [by rewrite filter_cons_False by auto|].
  destruct (pieces_cons l) as (p & ps & E); rewrite E, filter_cons_True by done; destruct l as [|d l]; cbn [pieces hd] in *.
  - injection E as <- <-; done.
  - destruct (blank d); cbn [negb].
    + injection E as <- <-; rewrite (filter_cons_False _ []) by auto; cbn [length]; lia.
    + destruct (pieces l) as [|q qs]; injection E as <- <-; rewrite filter_cons_True by done; cbn [length]; lia.
Qed.

Lemma wc_chars l : forall k, 0 <= nl_ k -> 0 <= nw k -> 0 <= nc k -> nl_ k + Z.of_nat (length l) < 2 ^ 31 -> nw k + Z.of_nat (length l) < 2 ^ 31 -> nc k + Z.of_nat (length l) < 2 ^ 31 ->
  let k' := foldl wc_char k l in
  nl_ k' = nl_ k + Z.of_nat (length (newlines l)) /\ nw k' = nw k + Z.of_nat (length (words l)) - begun k l /\ nc k' = nc k + Z.of_nat (length l).
Proof.
  induction l as [|c l IH]; intros [a w n b]; cbn [nl_ nw nc inword length foldl]; intros Ha Hw Hn Ha' Hw' Hn'.
  { unfold begun; cbn [inword hd]; change (blank 32) with true; rewrite andb_false_r.
    change (length (newlines [])) with 0%nat; change (length (words [])) with 0%nat; lia. }
  rewrite words_cons; unfold begun; cbn [inword hd]; unfold newlines; rewrite filter_cons.
  set (a' := if c =? 10 then a + 1 else a).
  assert (a' = a + Z.of_nat (length (if decide (c = 10) then c :: newlines l else newlines l)) - Z.of_nat (length (newlines l)) /\ a <= a' <= a + 1) as [Ea Hb].
  { unfold a'; destruct (Z.eqb_spec c 10), (decide (c = 10)); cbn [length]; lia. }
  assert (wc_char (Counts a w n b) c = Counts a' (if blank c || b then w else w + 1) (n + 1) (negb (blank c))) as ->.
  { unfold wc_char; cbn [nl_ nw nc inword]; rewrite in_set_blank, !s32_small by lia; fold a'; by destruct (blank c), b. }
  fold (newlines l); destruct (IH (Counts a' (if blank c || b then w else w + 1) (n + 1) (negb (blank c)))) as (H1 & H2 & H3);
    cbn [nl_ nw nc]; [lia|destruct (blank c || b); lia|lia|lia|destruct (blank c || b); lia|lia|].
  cbn [nl_ nw nc] in *; rewrite H1, H2, H3; unfold begun; cbn [inword]; split_and!; [lia| |lia].
  destruct (blank c), b, (blank (hd 32 l)); cbn [orb negb andb]; lia.
Qed.

Lemma must_wc_loop fd l : forall k w (Q : (counts * Z) + Z -> world -> Prop), w_in w !! fd = Some l ->
  (forall w', consumed fd [] w w' -> Q (inl (foldl wc_char k l, 0)) w') -> must Q (ITree.iter (wc_step fd) k) w.
Proof.
  induction l as [l IH] using (induction_ltof1 _ (@length Z)); intros k w Q Hl HQ; apply must_iter; unfold wc_step; apply must_bind.
  eapply must_piece; [done|lia|intros ->; apply must_return; apply must_return; apply HQ; by apply consumed_end|].
  intros l1 l2 -> Hne _ Hlt; cbn [then_ fst snd]; rewrite (proj2 (Z.ltb_lt 0 _)) by (destruct l1; [done|cbn; lia]).
  apply must_return; cbn [then_]; apply (IH l2); [done|apply lookup_insert_eq|]; intros w' Hc; rewrite <- foldl_app.
  apply HQ; eapply (consumed_step fd l2 []); [apply wrote_none|done].
Qed.

Lemma must_wc fd name l w (Q : unit + Z -> world -> Prop) : w_in w !! fd = Some l -> Z.of_nat (length l) < 2 ^ 31 ->
  (forall w', consumed fd (wc_line name l) w w' -> Q (inl tt) w') -> must Q (wc fd name) w.
Proof.
  intros Hl Hlen HQ; apply must_bind; eapply must_wc_loop; [done|]; intros w1 Hc; cbn [then_].
  destruct (wc_chars l (Counts 0 0 0 false)) as (E1 & E2 & E3); cbn [nl_ nw nc] in *; [lia..|].
  rewrite E1, E2, E3, Z.sub_0_r, !Z.add_0_l; change (0 <? 0) with false; cbv iota; apply must_say; intros w2 Hw.
  apply HQ; by eapply (consumed_more fd []).
Qed.

(** ** What [grep] prints *)

Lemma must_grep_scan fuel pattern data : forall w (Q : list Z + Z -> world -> Prop),
  (forall w', wrote [(1, (scan_lines fuel pattern data).1)] w w' -> Q (inl (scan_lines fuel pattern data).2) w') ->
  must Q (grep_scan fuel pattern data) w.
Proof.
  revert data; induction fuel as [|fuel IH]; intros data w Q HQ; cbn [grep_scan scan_lines] in *; [apply must_return, HQ, wrote_none|].
  destruct (strchr data NEWLINE) as [q|]; [|apply must_return, HQ, wrote_none].
  destruct (scan_lines fuel pattern (drop (S q) data)) as [o rest] eqn:E; apply must_bind; destruct (match_ pattern (take q data)).
  - apply must_bind, must_write; apply must_return; apply IH; rewrite E; intros w' Hw; apply HQ; eapply wrote_more; [apply wrote_add|done].
  - apply must_return; apply IH; rewrite E; exact HQ.
Qed.

Lemma must_grep_loop pattern fd l : forall held w (Q : unit + Z -> world -> Prop), w_in w !! fd = Some l -> grep_ok held l ->
  (forall w', consumed fd (concat (printed pattern <$> (lines (held ++ l)).1)) w w' -> Q (inl tt) w') -> must Q (ITree.iter (grep_step pattern fd) held) w.
Proof.
  induction l as [l IH] using (induction_ltof1 _ (@length Z)); intros held w Q Hl Hok HQ; apply must_iter; unfold grep_step; apply must_bind.
  eapply must_piece; [done|by apply grep_room in Hok; lia| |].
  - intros ->; apply must_return; apply must_return; apply HQ; rewrite app_nil_r, (grep_held held) by apply Hok; by apply consumed_end.
  - intros l1 l2 -> Hne _ Hlt; cbn [then_ fst snd]; rewrite (proj2 (Z.ltb_lt 0 _)) by (destruct l1; [done|cbn; lia]).
    destruct (scan_step pattern held l1 l2 Hok) as (Hok' & E); apply must_bind, must_grep_scan; intros w1 Hw; apply must_return; cbn [then_].
    apply (IH l2); [done|by eapply wrote_in|done|]; intros w' Hc; apply HQ; rewrite E; by eapply consumed_step.
Qed.

(** The lines that match, each with its newline. *)
Definition matching (pattern l : list Z) : list Z :=
  concat ((fun line => line ++ [NEWLINE]) <$> filter (fun line => match_ pattern line = true) (lines l).1).

Lemma printed_matching pattern l : concat (printed pattern <$> (lines l).1) = matching pattern l.
Proof.
  unfold matching; induction (lines l).1 as [|x ls IH]; cbn [fmap list_fmap concat]; [done|].
  rewrite filter_cons; unfold printed at 1; rewrite IH; destruct (match_ pattern x); [|done]; by rewrite decide_True.
Qed.

Lemma must_grep pattern fd l w (Q : unit + Z -> world -> Prop) : w_in w !! fd = Some l -> grep_ok [] l ->
  (forall w', consumed fd (matching pattern l) w w' -> Q (inl tt) w') -> must Q (grep_fd pattern fd) w.
Proof. intros Hl Hok HQ; eapply must_grep_loop; [done|done|]; cbn [app]; rewrite printed_matching; exact HQ. Qed.

(** ** The programs *)

(** [cat] copies.  It ends, and has written to standard output the contents of
    its files, in order, up to the first one that cannot be opened, or its standard
    input when it has no arguments; for a file that cannot be opened it has written
    the message to standard error and exits with status 1, otherwise with 0.  It has
    written nothing else, and has closed every descriptor it has opened.  This holds
    however [read] cuts the files into pieces. *)
Theorem cat_copies argv w : is_Some (w_in w !! 0) ->
  must (ends_with 2 "cat: cannot open %s" (fun _ l => l) (drop 1 argv) w) (cat_main argv) w.
Proof.
  intros [l Hl]; apply (must_filter 2 "cat: cannot open %s" (fun _ l => l) (fun _ => True) (fun fd _ => cat fd)).
  - intros fd _ l' w' Q Hl' _; by apply must_cat.
  - split; [by eauto|]; apply Forall_forall; intros name _; by destruct (w_file w name).
Qed.

(** [wc] counts.  For each of its files, up to the first that cannot be opened, or
    for its standard input, it prints the number of newlines, of words and of bytes,
    where the words are the non-empty pieces between blanks, also when a [read] cuts
    a word in two.  A file that cannot be opened is reported and ends the program
    with status 1.  A file has less than 2^31 bytes. *)
Theorem wc_counts argv w : inputs_ok (fun l => Z.of_nat (length l) < 2 ^ 31) (drop 1 argv) w ->
  must (ends_with 1 "wc: cannot open %s" wc_line (drop 1 argv) w) (wc_main argv) w.
Proof. intros Hi; eapply must_filter; [|done]; intros fd name l w' Q; apply must_wc. Qed.

(** C38. The program [grep] prints, for its files in order, exactly the lines that match
    its pattern, up to the first file that cannot be opened, when no file holds a
    null byte and every line is shorter than 1023 bytes, so that it fits the buffer.
    The lines are those that end in a newline: what follows the last one in a file is
    not printed. *)
Theorem grep_files name pattern files w : inputs_ok (grep_ok []) files w ->
  must (ends_with 1 "grep: cannot open %s" (fun _ => matching pattern) files w) (grep_main (name :: pattern :: files)) w.
Proof.
  intros Hi; apply (must_filter 1 "grep: cannot open %s" (fun _ => matching pattern) (grep_ok []) (fun fd _ => grep_fd pattern fd)); [|done].
  intros fd n l w' Q; apply must_grep.
Qed.

(** ** An example *)

(** Two files; standard input holds "in". *)
Definition small_world : world :=
  World (fun name => if bool_decide (name = bytes_of "a") then Some (bytes_of "one two" ++ [10; 32] ++ bytes_of "three" ++ [10])
                     else if bool_decide (name = bytes_of "b") then Some (bytes_of "four" ++ [10]) else None)
        {[0 := bytes_of "in"]} [] [] 0 0.

Lemma cat_copies_witness :
  must (fun e w' => e = inr 1 /\ written 1 w' = bytes_of "four" ++ [10] ++ bytes_of "one two" ++ [10; 32] ++ bytes_of "three" ++ [10] /\
                    written 2 w' = bytes_of "cat: cannot open c" ++ [10])
    (cat_main [bytes_of "cat"; bytes_of "b"; bytes_of "a"; bytes_of "c"; bytes_of "b"]) small_world.
Proof.
  eapply must_mono; [apply (cat_copies [bytes_of "cat"; bytes_of "b"; bytes_of "a"; bytes_of "c"; bytes_of "b"] small_world); by vm_compute; eexists|].
  intros e w' (-> & _ & _ & H); split_and!; [by vm_compute|rewrite H; by vm_compute..].
Defined.

Lemma wc_counts_witness :
  must (fun e w' => e = inr 0 /\ written 1 w' = bytes_of "2 3 15 a" ++ [10] ++ bytes_of "1 1 5 b" ++ [10])
    (wc_main [bytes_of "wc"; bytes_of "a"; bytes_of "b"]) small_world.
Proof.
  eapply must_mono; [apply (wc_counts [bytes_of "wc"; bytes_of "a"; bytes_of "b"] small_world)|].
  - split; [by exists (bytes_of "in")|repeat constructor].
  - intros e w' (-> & _ & _ & H); split_and!; [by vm_compute|rewrite H; by vm_compute].
Defined.

Lemma grep_files_witness :
  must (fun e w' => e = inr 0 /\ written 1 w' = bytes_of "one two" ++ [10])
    (grep_main [bytes_of "grep"; bytes_of "o.*o"; bytes_of "a"; bytes_of "b"]) small_world.
Proof.
  eapply must_mono; [apply (grep_files (bytes_of "grep") (bytes_of "o.*o") [bytes_of "a"; bytes_of "b"] small_world)|].
  - split; [exists (bytes_of "in")|]; repeat constructor; by vm_compute.
  - intros e w' (-> & _ & _ & H); split_and!; [by vm_compute|rewrite H; by vm_compute].
Defined.
