(* ===== verification/ShMain.v ===== *)
(** * The shell's main loop: [getcmd] and [main] of [user/sh.c]

    The shell reads a line, changes its directory itself for [cd], and otherwise
    forks a child that parses the line and runs the command ([ShRun.v]), for which it
    waits.  The theorem says which calls a session makes, line by line, up to the end
    of its input. *)

From S2P Require Import Prelude CString Ulib Printf UPrintf Fs Sh ShPrint ShRun Program UserPrograms.
From ITree Require Import ITree.

(** The calls of [runcmd]. *)
Fixpoint run_script (s : script) : prog unit :=
  match s with
  | SExit code => exit code
  | SExec argv failed => do* sys (Exec (hd [] argv) argv); run_script failed
  | SClose fd k => do* sys (Close fd); run_script k
  | SOpen file mode k => let* fd := sys (Open file mode) in run_script (k fd)
  | SDup fd k => do* sys (Dup fd); run_script k
  | SPipe k => let* r := sys Program.Pipe in run_script (k r.1.1 r.1.2 r.2)
  | SFork k => let* pid := sys Fork in run_script (k pid)
  | SWait k => do* sys Wait; run_script k
  | SPrint fd text k => do* put fd text; run_script k
  end.

Definition sh_panic {A} (s : string) : prog A := fail 2 "%s" [str (bytes_of s)].

Definition sh_fork1 : prog Z :=
  let* pid := sys Fork in
  if pid =? -1 then sh_panic "fork" else Ret pid.

(** [parsecmd] with the messages of its errors; the parser has enough fuel. *)
Definition sh_parsecmd (s : list Z) : prog ast :=
  match parseline (length s) (S (length s)) s with
  | PRet c rest =>
      let '(_, rest) := peek rest "" in
      if negb (bool_decide (rest = [])) then do* say 2 "leftovers: %s" [str rest]; sh_panic "syntax"
      else Ret (map_strings (string_at (nulterminate c (s ++ [0]))) c)
  | PPanic m => sh_panic m
  | PFuel => ITree.spin
  end.

(** [gets] one character at a time; [room] is [max - 1 - i]. *)
Fixpoint sh_gets (room : nat) : prog (list Z) :=
  match room with
  | O => Ret []
  | S room =>
      let* r := sys (Read 0 1) in
      if r.1 <? 1 then Ret [] else
      let c := hd0 r.2 in
      if (c =? 10) || (c =? 13) then Ret [c]
      else let* l := sh_gets room in Ret (c :: l)
  end.

(** The result, and the string in the buffer, which [memset] has cleared. *)
Definition getcmd (nbuf : Z) : prog (Z * list Z) :=
  do* sys (Write 2 (bytes_of "$ "));
  let* buf := sh_gets (Z.to_nat (nbuf - 1)) in
  Ret (if hd0 buf =? 0 then -1 else 0, cstr buf).

(** The first loop of [main]. *)
Definition sh_open (_ : unit) : prog (unit + unit) :=
  let* fd := sys (Open (bytes_of "console") O_RDWR) in
  if fd <? 0 then Ret (inr tt)
  else if 3 <=? fd then do* sys (Close fd); Ret (inr tt)
  else Ret (inl tt).

Fixpoint skip_blank (cmd : list Z) : list Z :=
  match cmd with
  | c :: rest => if (c =? 32) || (c =? 9) then skip_blank rest else cmd
  | [] => []
  end.

(** One line. *)
Definition sh_line (buf : list Z) : prog unit :=
  let cmd := skip_blank buf in
  if hd0 cmd =? 10 then Ret tt
  else if (aget 0 cmd 0 =? chr "c") && (aget 0 cmd 1 =? chr "d") && (aget 0 cmd 2 =? 32) then
    let path := drop 3 (take (length cmd - 1) cmd) in
    let* r := sys (Chdir path) in
    if r <? 0 then say 2 "cannot cd %s" [str path] else Ret tt
  else
    let* pid := sh_fork1 in
    do* (if pid =? 0 then let* c := sh_parsecmd cmd in run_script (runcmd c) else Ret tt);
    do* sys Wait; Ret tt.

Definition sh_step (_ : unit) : prog (unit + unit) :=
  let* r := getcmd 100 in
  if r.1 <? 0 then Ret (inr tt) else do* sh_line r.2; Ret (inl tt).

Definition sh_main : prog unit :=
  do* ITree.iter sh_open tt;
  do* ITree.iter sh_step tt;
  exit 0.

(** ** A session *)

(** The calls of a line without its newline: none when it is blank, [chdir] to what
    follows "cd ", or a child that is waited for. *)
Definition line_calls (line : list Z) : list note :=
  let cmd := skip_blank line in
  if bool_decide (cmd = []) then []
  else if bool_decide (take 3 cmd = bytes_of "cd ") then [Moved (drop 3 cmd)]
  else [Forked; Waited].

(** A line that fits the buffer. *)
Definition typed (line : list Z) : Prop := (length line < 99)%nat /\ Forall (fun c => c <> 0 /\ c <> 10 /\ c <> 13) line.

Lemma set_in_same w fd l : w_in w !! fd = Some l -> set_in (<[fd := l]> (w_in w)) w = w.
Proof. intros H; rewrite insert_id by done; by destruct w. Qed.

(** The characters [gets] of [Ulib.v] delivers. *)
Lemma must_gets room : forall l w (Q : list Z + Z -> world -> Prop), w_in w !! 0 = Some l ->
  Q (inl (gets_loop room l).1) (set_in (<[0 := (gets_loop room l).2]> (w_in w)) w) -> must Q (sh_gets room) w.
Proof.
  induction room as [|room IH]; intros l w Q Hl HQ; cbn [sh_gets].
  { apply must_return; cbn [gets_loop fst snd] in HQ; by rewrite set_in_same in HQ. }
  apply must_bind; eapply must_piece; [done|lia|intros ->; by apply must_return|]; intros l1 l2 -> Hne Hlen _.
  destruct l1 as [|c [|d l1]]; [done| |cbn in Hlen; lia]; cbn [gets_loop app] in HQ; cbn [then_ length fst snd hd0 hd].
  change (Z.of_nat 1 <? 1) with false; cbv iota; destruct ((c =? 10) || (c =? 13)); [by apply must_return|].
  apply must_bind; apply (IH l2); [apply lookup_insert_eq|]; cbn [set_in w_in]; rewrite insert_insert_eq.
  destruct (gets_loop room l2) as [b r]; by apply must_return.
Qed.

Lemma gets_typed room line rest : (length line < room)%nat -> Forall (fun c => c <> 0 /\ c <> 10 /\ c <> 13) line ->
  gets_loop room (line ++ 10 :: rest) = (line ++ [10], rest).
Proof.
  revert room; induction line as [|c line IH]; intros [|room]; cbn [length app gets_loop]; [lia|done|lia|].
  intros Hl [(_ & H1 & H2) Hf]%Forall_cons; rewrite (proj2 (Z.eqb_neq c 10)), (proj2 (Z.eqb_neq c 13)), IH by (done || lia); done.
Qed.

Lemma skip_blank_line line : skip_blank (line ++ [10]) = skip_blank line ++ [10].
Proof. induction line as [|c line IH]; cbn [app skip_blank]; [done|]; by destruct (_ || _). Qed.

Lemma skip_blank_all (P : Z -> Prop) line : Forall P line -> Forall P (skip_blank line).
Proof. induction 1 as [|c line Hc Hl IH]; cbn [skip_blank]; [done|]; destruct (_ || _); auto. Qed.

(** [main]'s test for "cd ". *)
Lemma is_cd cmd :
  (aget 0 (cmd ++ [10]) 0 =? chr "c") && (aget 0 (cmd ++ [10]) 1 =? chr "d") && (aget 0 (cmd ++ [10]) 2 =? 32) = bool_decide (take 3 cmd = bytes_of "cd ").
Proof.
  apply eq_bool_prop_intro; rewrite bool_decide_spec, !andb_True, !Is_true_true, !Z.eqb_eq.
  unfold aget; change (Z.to_nat 0) with 0%nat; change (Z.to_nat 1) with 1%nat; change (Z.to_nat 2) with 2%nat.
  change (chr "c") with 99; change (chr "d") with 100; change (bytes_of "cd ") with [99; 100; 32].
  destruct cmd as [|a [|b [|c cmd]]]; cbn; [intuition congruence..|].
  split; [by intros [[-> ->] ->]|by intros [= -> -> ->]].
Qed.

(** What one line adds to the record; its child has ended. *)
Definition logs (l : list note) (w w' : world) : Prop :=
  w_in w' = w_in w /\ w_log w' = w_log w ++ l /\ w_free w' = w_free w /\ w_kids w' = w_kids w.

Lemma must_line line w (Q : unit + Z -> world -> Prop) : typed line -> w_free w <> 0%nat ->
  (forall w', logs (line_calls line) w w' -> Q (inl tt) w') -> must Q (sh_line (line ++ [10])) w.
Proof.
  intros [_ Hf] Hfree HQ; unfold sh_line, line_calls in *; rewrite skip_blank_line; apply skip_blank_all in Hf; set (cmd := skip_blank line) in *.
  destruct cmd as [|c cmd'] eqn:E; [by apply must_return, HQ; split_and!; [|by rewrite app_nil_r|..]|]; rewrite <- E in *.
  assert ((hd0 (cmd ++ [10]) =? 10) = false) as -> by (apply Z.eqb_neq; rewrite E in *; cbn; apply Forall_cons in Hf as [(_ & ? & _) _]; done).
  rewrite (bool_decide_eq_false_2 (cmd = [])) in HQ by (by rewrite E); rewrite is_cd; case_bool_decide as Hcd.
  - rewrite length_app, Nat.add_sub, take_app_length; apply must_bind, must_chdir; intros r; cbn [then_].
    destruct (r <? 0); [|by apply must_return, HQ]; apply must_say; intros w' (H1 & H2 & _); injection H1 as H0 H1 H3 H4; by apply HQ.
  - destruct (w_free w) as [|free] eqn:Hw; [done|]; apply must_bind, must_bind; eapply must_fork; [done|]; intros pid Hpid; cbn [then_]; rewrite (proj2 (Z.eqb_neq pid (-1))) by lia.
    apply must_return; cbn [then_]; rewrite (proj2 (Z.eqb_neq pid 0)) by lia; apply must_bind, must_return, must_bind; eapply must_wait; [done|]; intros pid' st _.
    apply must_return, HQ; split_and!; cbn; [done|by rewrite <- app_assoc|done|done].
Qed.

Lemma must_lines ls : forall w (Q : unit + Z -> world -> Prop), Forall typed ls -> w_free w <> 0%nat -> w_in w !! 0 = Some (concat ((fun l => l ++ [10]) <$> ls)) ->
  (forall w', w_log w' = w_log w ++ concat (line_calls <$> ls) -> Q (inl tt) w') -> must Q (ITree.iter sh_step tt) w.
Proof.
  induction ls as [|line ls IH]; intros w Q Hls Hfree Hin HQ; apply must_iter; unfold sh_step, getcmd; apply must_bind, must_bind, must_write; cbn [then_];
    apply must_bind; (eapply must_gets; [exact Hin|]); change (Z.to_nat (100 - 1)) with 99%nat; cbn [fmap list_fmap concat] in *.
  { by do 3 apply must_return; apply HQ; rewrite app_nil_r. }
  apply Forall_cons in Hls as [Hl Hls]; rewrite <- app_assoc; cbn [app]; rewrite gets_typed by apply Hl; cbn [fst snd].
  assert (Forall (fun c => c <> 0) (line ++ [10])) as Hz by (apply Forall_app; split; [eapply Forall_impl; [apply Hl|]; by intros ? []|by repeat constructor]).
  apply must_return; cbn [then_ fst snd]; rewrite cstr_id by done.
  assert ((hd0 (line ++ [10]) =? 0) = false) as -> by (apply Z.eqb_neq; by destruct line; [|apply Forall_cons in Hz as [? _]]).
  apply must_bind, must_line; [done|done|]; intros w' (H1 & H2 & H3 & H4); apply must_return; apply IH; [done|by rewrite H3|rewrite H1; apply lookup_insert_eq|].
  intros w'' H5; apply HQ; rewrite H5, H2; by rewrite <- app_assoc.
Qed.

(** The console is opened and closed again, or cannot be opened. *)
Lemma must_sh_open w (Q : unit + Z -> world -> Prop) : (forall w', logs [] w w' -> Q (inl tt) w') -> must Q (ITree.iter sh_open tt) w.
Proof.
  intros HQ; apply must_iter; unfold sh_open; apply must_bind; destruct (w_file w (bytes_of "console")) as [l|] eqn:E.
  - eapply must_open; [done|]; intros fd Hfd Hfree; cbn [then_]; rewrite (proj2 (Z.ltb_ge fd 0)), (proj2 (Z.leb_le 3 fd)) by lia.
    apply must_bind, must_close; [cbn; by rewrite lookup_insert_eq|]; do 2 apply must_return; apply HQ; split_and!; cbn; [by apply delete_insert_id|by rewrite app_nil_r|done|done].
  - apply must_no_open; [done|]; cbn [then_]; change (-1 <? 0) with true; cbv iota; do 2 apply must_return; apply HQ; split_and!; [done|by rewrite app_nil_r|done|done].
Qed.

(** C40. A session of the shell.  With lines that fit its buffer on standard input, and a
    free slot in the process table, the shell ends with status 0 when its input ends.  Until then
    it makes, line by line, exactly these calls: none for a blank line, [chdir] by
    itself to the rest of a line that begins with "cd ", also when that fails, and
    for every other line one child, for which it waits before it reads on. *)
Theorem sh_session ls w : Forall typed ls -> w_free w <> 0%nat -> w_in w !! 0 = Some (concat ((fun l => l ++ [10]) <$> ls)) ->
  must (fun e w' => e = inr 0 /\ w_log w' = w_log w ++ concat (line_calls <$> ls)) sh_main w.
Proof.
  intros Hls Hfree Hin; apply must_bind, must_sh_open; intros w1 (H1 & H2 & H3 & _); apply must_bind; eapply (must_lines ls); [done|by rewrite H3|by rewrite H1|].
  intros w' H; apply must_exits; by rewrite H, H2, app_nil_r.
Qed.

(** "cd dir", a blank line, and " ls | wc". *)
Definition session_lines : list (list Z) := [bytes_of "cd dir"; bytes_of "  "; bytes_of " ls | wc"].

Lemma sh_session_witness :
  must (fun e w' => e = inr 0 /\ w_log w' = [Moved (bytes_of "dir"); Forked; Waited]) sh_main
    (World (fun _ => None) {[0 := concat ((fun l => l ++ [10]) <$> session_lines)]} [] [] 1 0).
Proof.
  eapply must_mono; [apply (sh_session session_lines)|].
  - repeat constructor; done.
  - done.
  - done.
  - by intros e w' [-> ->].
Defined.
