(* ===== verification/TestPrograms.v ===== *)
(** * The small test programs

    [forktest], [stressfs], [logstress], [forphan] and [dorphan] as interaction trees.
    The theorem says what verdict [forktest] gives, depending on the size of the
    process table. *)

From S2P Require Import Prelude CString Printf UPrintf Sh Program UserPrograms.
From ITree Require Import ITree.

(** ** forktest *)

Definition N : nat := 1000.

Definition print (s : string) : prog unit := do* sys (Write 1 (bytes_of (s +:+ nl))); Ret tt.

(** The first loop, with [k] turns left: the number of children. *)
Fixpoint forktest_forks (k : nat) (n : Z) : prog Z :=
  match k with
  | O => Ret n
  | S k =>
      let* pid := sys Fork in
      if pid <? 0 then Ret n
      else if pid =? 0 then exit 0
      else forktest_forks k (n + 1)
  end.

Fixpoint forktest_waits (n : nat) : prog unit :=
  match n with
  | O => Ret tt
  | S n =>
      let* r := sys Wait in
      if r.1 <? 0 then do* print "wait stopped early"; exit 1 else forktest_waits n
  end.

Definition forktest : prog unit :=
  do* print "fork test";
  let* n := forktest_forks N 0 in
  if n =? Z.of_nat N then do* print "fork claimed to work N times!"; exit 1 else
  do* forktest_waits (Z.to_nat n);
  let* r := sys Wait in
  if negb (r.1 =? -1) then do* print "wait got too many"; exit 1
  else print "fork test OK".

Definition forktest_main : prog unit := do* forktest; exit 0.

(** ** stressfs *)

Definition O_CREATE_RDWR : Z := Z.lor O_CREATE O_RDWR.

(** The loop that forks at most [k] more times; the parent leaves it. *)
Fixpoint stressfs_forks (k : nat) (i : Z) : prog Z :=
  match k with
  | O => Ret i
  | S k => let* pid := sys Fork in if 0 <? pid then Ret i else stressfs_forks k (i + 1)
  end.

Definition stressfs_main : prog unit :=
  do* say 1 "stressfs starting" [];
  let data := replicate 512 (chr "a") in
  let* i := stressfs_forks 4 0 in
  do* say 1 "write %d" [VNum i];
  let path := bytes_of "stressfs" ++ [u8 (chr "0" + i)] in
  let* fd := sys (Open path O_CREATE_RDWR) in
  do* foreach (seq 0 20) (fun _ => do* sys (Write fd data); Ret tt);
  do* sys (Close fd);
  do* say 1 "read" [];
  let* fd := sys (Open path O_RDONLY) in
  do* foreach (seq 0 20) (fun _ => do* sys (Read fd 512); Ret tt);
  do* sys (Close fd);
  do* sys Wait;
  exit 0.

(** ** logstress *)

(** What the child for the [i]th argument does.  It fills [SZ] bytes from the start of
    a buffer of 500 bytes, and writes them. *)
Definition logstress_child (name file : list Z) (i : Z) : prog unit :=
  let* fd := sys (Open file O_CREATE_RDWR) in
  if fd <? 0 then fail 1 "%s: create %s failed" [str name; str file] else
  let buf := replicate 2000 (u8 (chr "0" + i)) in
  do* foreach (seq 0 250) (fun _ =>
    let* n := sys (Write fd buf) in
    if negb (n =? 2000) then fail 1 "write failed %d" [VNum n] else Ret tt);
  exit 0.

Fixpoint logstress_forks (name : list Z) (files : list (list Z)) (i : Z) : prog unit :=
  match files with
  | [] => Ret tt
  | file :: files =>
      let* pid1 := sys Fork in
      if pid1 <? 0 then fail 1 "%s: fork failed" [str name]
      else if pid1 =? 0 then logstress_child name file i
      else logstress_forks name files (i + 1)
  end.

Definition logstress_main (argv : list (list Z)) : prog unit :=
  do* logstress_forks (hd [] argv) (drop 1 argv) 1;
  foreach (drop 1 argv) (fun _ =>
    let* r := sys Wait in
    if negb (r.2 =? 0) then exit r.2 else Ret tt).

(** ** forphan and dorphan *)

Definition pause_forever : prog unit := ITree.iter (fun _ : unit => do* sys (Pause 1000); Ret (inl tt)) tt.

Definition forphan_main (argv : list (list Z)) : prog unit :=
  let s := str (hd [] argv) in
  let ff := bytes_of "file0" in
  let* fd := sys (Open ff (Z.lor O_CREATE O_WRONLY)) in
  if fd <? 0 then fail 1 "%s: open failed" [s] else
  let* st := sys (Fstat fd) in
  if st.1 <? 0 then fail 2 "%s: cannot stat %s" [s; str (bytes_of "ff")] else
  let* r := sys (Unlink ff) in
  if r <? 0 then fail 1 "%s: unlink failed" [s] else
  let* r := sys (Open ff O_RDONLY) in
  if negb (r =? -1) then fail 1 "%s: open successed" [s] else
  do* say 1 "wait for kill and reclaim %d" [VNum (Fs.st_ino st.2)];
  pause_forever.

Definition dorphan_main (argv : list (list Z)) : prog unit :=
  let s := str (hd [] argv) in
  let* r := sys (Mkdir (bytes_of "dd")) in
  if negb (r =? 0) then fail 1 "%s: mkdir dd failed" [s] else
  let* r := sys (Chdir (bytes_of "dd")) in
  if negb (r =? 0) then fail 1 "%s: chdir dd failed" [s] else
  let* r := sys (Unlink (bytes_of "../dd")) in
  if r <? 0 then fail 1 "%s: unlink failed" [s] else
  do* say 1 "wait for kill and reclaim" [];
  pause_forever.

(** ** The verdict of [forktest] *)

(** Only the processes have changed. *)
Definition procs (free kids : nat) (w w' : world) : Prop := w_free w' = free /\ w_kids w' = kids /\ w_out w' = w_out w.

Lemma must_print s w (Q : unit + Z -> world -> Prop) : Q (inl tt) (add_out 1 (bytes_of (s +:+ nl)) w) -> must Q (print s) w.
Proof. intros HQ; by apply must_bind, must_write, must_return. Qed.

Lemma must_forks k : forall n w (Q : Z + Z -> world -> Prop), let m := Nat.min k (w_free w) in
  (forall w', procs (w_free w - m) (w_kids w + m) w w' -> Q (inl (n + Z.of_nat m)) w') -> must Q (forktest_forks k n) w.
Proof.
  induction k as [|k IH]; intros n w Q; cbn zeta; cbn [forktest_forks Nat.min]; intros HQ.
  { apply must_return; rewrite <- (Z.add_0_r n); apply HQ; split_and!; [lia|lia|done]. }
  apply must_bind; destruct (w_free w) as [|free] eqn:Hf.
  - apply must_no_fork; [done|]; apply must_return; rewrite <- (Z.add_0_r n); apply HQ; split_and!; [lia|lia|done].
  - eapply must_fork; [done|]; intros pid Hp; cbn [then_]; rewrite (proj2 (Z.ltb_ge pid 0)), (proj2 (Z.eqb_neq pid 0)) by lia.
    apply IH; cbn [add_note set_procs w_free w_kids w_out]; intros w' (H1 & H2 & H3).
    replace (n + 1 + Z.of_nat (Nat.min k free)) with (n + Z.of_nat (S (Nat.min k free))) by lia; apply HQ; split_and!; [lia|lia|done].
Qed.

Lemma must_waits n : forall w (Q : unit + Z -> world -> Prop), w_kids w = n ->
  (forall w', procs (w_free w + n) 0 w w' -> Q (inl tt) w') -> must Q (forktest_waits n) w.
Proof.
  induction n as [|n IH]; intros w Q Hk HQ; cbn [forktest_waits].
  { apply must_return, HQ; split_and!; [lia|lia|done]. }
  apply must_bind; eapply must_wait; [done|]; intros pid st Hp; cbn [then_ fst]; rewrite (proj2 (Z.ltb_ge pid 0)) by lia.
  apply IH; [done|]; cbn [add_note set_procs w_free w_kids w_out]; intros w' (H1 & H2 & H3); apply HQ; split_and!; [lia|lia|done].
Qed.

(** The verdict of [forktest], run by a process without children.  With fewer than
    [N] free slots in the process table it forks until that fails, collects every
    child, finds no other, reports success, and leaves the table as it was; with
    [N] or more it reports that [fork] claims to work [N] times and exits with 1. *)
Theorem forktest_verdict w : w_kids w = 0%nat ->
  must (fun e w' =>
    if decide (w_free w < N)%nat then
      e = inr 0 /\ written 1 w' = written 1 w ++ bytes_of ("fork test" +:+ nl +:+ "fork test OK" +:+ nl) /\ w_free w' = w_free w /\ w_kids w' = 0%nat
    else e = inr 1 /\ written 1 w' = written 1 w ++ bytes_of ("fork test" +:+ nl +:+ "fork claimed to work N times!" +:+ nl)) forktest_main w.
Proof.
  intros Hk; apply must_bind, must_bind, must_print; cbn [then_]; apply must_bind, must_forks; cbn [add_out w_free w_kids]; rewrite Hk, Nat.add_0_l, Z.add_0_l.
  set (w0 := add_out 1 _ w); intros w1 (H1 & H2 & H3); cbn [then_]; destruct (decide (w_free w < N)%nat) as [Hlt|Hge].
  - rewrite Nat.min_r in * by lia; rewrite (proj2 (Z.eqb_neq _ _)) by lia; rewrite Nat2Z.id; apply must_bind, must_waits; [done|].
    intros w2 (A1 & A2 & A3); cbn [then_]; apply must_bind, must_no_wait; [done|]; intros st; cbn [then_ fst]; change (-1 =? -1) with true; cbn [negb].
    apply must_print; cbn [then_]; apply must_exits; split_and!; [done| |cbn; lia|done].
    unfold written, add_out; cbn [w_out]; rewrite A3, H3; unfold w0, add_out; cbn [w_out]; by rewrite !sent_app, <- app_assoc.
  - rewrite Nat.min_l, Z.eqb_refl by lia; apply must_bind, must_print, must_exits; split; [done|].
    unfold written, add_out; cbn [w_out]; rewrite H3; unfold w0, add_out; cbn [w_out]; by rewrite !sent_app, <- app_assoc.
Qed.

(** The kernel's table has 64 slots; [init], the shell and [forktest] take three. *)
Lemma forktest_verdict_witness :
  must (fun e w' => e = inr 0 /\ written 1 w' = bytes_of ("fork test" +:+ nl +:+ "fork test OK" +:+ nl)) forktest_main
    (World (fun _ => None) ∅ [] [] 61 0).
Proof.
  eapply must_mono; [apply (forktest_verdict (World (fun _ => None) ∅ [] [] 61 0)); reflexivity|].
  intros e w'; cbv beta; rewrite decide_True by (cbn; unfold N; lia); by intros (-> & -> & _).
Defined.
