(* ===== verification/Grind.v ===== *)
(** * [user/grind.c]: random system calls

    The random number generator, and the program as an interaction tree.  A turn of
    [go]'s loop is a function of the generator's state, the descriptor it keeps open
    and its buffer.  The theorem says that the generator computes the recurrence it
    is meant to, without overflow. *)

From S2P Require Import Prelude CString Ulib Printf UPrintf Fs Sh Program UserPrograms TestPrograms.
From ITree Require Import ITree.

(** ** The generator *)

(** The result and [*ctx]; [/] and [%] of a [long] round towards zero. *)
Definition do_rand (ctx : Z) : Z * Z :=
  let x := ctx mod 2147483646 + 1 in
  let hi := Z.quot x 127773 in
  let lo := Z.rem x 127773 in
  let x := 16807 * lo - 2836 * hi in
  let x := if x <? 0 then x + 2147483647 else x in
  let x := x - 1 in
  (s32 x, u64 x).

(** The result and the new [rand_next]. *)
Definition rand (rand_next : Z) : Z * Z := do_rand rand_next.

(** ** go *)

Record gstate := GState { rand_next : Z; g_fd : Z; g_buf : list Z; iters : Z }.

Definition call {X} (e : sysE X) : prog unit := do* sys e; Ret tt.
Definition path (s : string) : list Z := bytes_of s.

(** [close(open(name, O_CREATE|O_RDWR))] *)
Definition touch (name : string) : prog unit := let* fd := sys (Open (path name) O_CREATE_RDWR) in call (Close fd).

(** A child that runs [body] and exits, or the end of the program. *)
Definition in_child (body : prog unit) : prog Z :=
  let* pid := sys Fork in
  if pid =? 0 then do* body; exit 0
  else if pid <? 0 then fail 1 "grind: fork failed" []
  else Ret pid.

Definition go_chdir (name msg : string) : prog unit :=
  let* r := sys (Chdir (path name)) in
  if negb (r =? 0) then fail 1 msg [] else Ret tt.

(** Branch 19. *)
Definition go_pipe : prog unit :=
  let* p := sys Program.Pipe in
  let '(r, p0, p1) := p in
  if r <? 0 then fail 1 "grind: pipe failed" [] else
  do* in_child (
    do* sys Fork; do* sys Fork;
    let* n := sys (Write p1 (path "x")) in
    do* (if negb (n =? 1) then say 1 "grind: pipe write failed" [] else Ret tt);
    let* r := sys (Read p0 1) in
    if negb (r.1 =? 1) then say 1 "grind: pipe read failed" [] else Ret tt);
  do* sys (Close p0); do* sys (Close p1); call Wait.

(** Branch 21. *)
Definition go_create : prog unit :=
  do* sys (Unlink (path "c"));
  let* fd1 := sys (Open (path "c") O_CREATE_RDWR) in
  if fd1 <? 0 then fail 1 "grind: create c failed" [] else
  let* n := sys (Write fd1 (path "x")) in
  if negb (n =? 1) then fail 1 "grind: write c failed" [] else
  let* st := sys (Fstat fd1) in
  if negb (st.1 =? 0) then fail 1 "grind: fstat failed" [] else
  if negb (st_size st.2 =? 1) then fail 1 "grind: fstat reports wrong size %d" [VNum (st_size st.2)] else
  if 200 <? st_ino st.2 then fail 1 "grind: fstat reports crazy i-number %d" [VNum (st_ino st.2)] else
  do* sys (Close fd1); call (Unlink (path "c")).

(** Branch 22, "echo hi | cat": its two children, and the parent. *)
Definition fail_with {A} (msg : string) (code : Z) : prog A := do* say 2 msg []; exit code.

Definition go_echo (a0 a1 b0 b1 : Z) : prog unit :=
  do* sys (Close b0); do* sys (Close b1); do* sys (Close a0); do* sys (Close 1);
  let* r := sys (Dup a1) in
  if negb (r =? 1) then fail_with "grind: dup failed" 1 else
  do* sys (Close a1);
  do* sys (Exec (path "grindir/../echo") [path "echo"; path "hi"]);
  fail_with "grind: echo: not found" 2.

Definition go_cat (a0 a1 b0 b1 : Z) : prog unit :=
  do* sys (Close a1); do* sys (Close b0); do* sys (Close 0);
  let* r := sys (Dup a0) in
  if negb (r =? 0) then fail_with "grind: dup failed" 4 else
  do* sys (Close a0); do* sys (Close 1);
  let* r := sys (Dup b1) in
  if negb (r =? 1) then fail_with "grind: dup failed" 5 else
  do* sys (Close b1);
  do* sys (Exec (path "/cat") [path "cat"]);
  fail_with "grind: cat: not found" 6.

(** [read(fd, buf + i, 1)] into a buffer. *)
Definition read1 (fd : Z) (i : nat) (buf : list Z) : prog (list Z) :=
  let* r := sys (Read fd 1) in Ret (if 0 <? r.1 then <[i := hd0 r.2]> buf else buf).

Definition go_pipeline : prog unit :=
  let* aa := sys Program.Pipe in
  let '(ra, a0, a1) := aa in
  if ra <? 0 then fail_with "grind: pipe failed" 1 else
  let* bb := sys Program.Pipe in
  let '(rb, b0, b1) := bb in
  if rb <? 0 then fail_with "grind: pipe failed" 1 else
  let* pid1 := sys Fork in
  if pid1 =? 0 then go_echo a0 a1 b0 b1
  else if pid1 <? 0 then fail_with "grind: fork failed" 3 else
  let* pid2 := sys Fork in
  if pid2 =? 0 then go_cat a0 a1 b0 b1
  else if pid2 <? 0 then fail_with "grind: fork failed" 7 else
  do* sys (Close a0); do* sys (Close a1); do* sys (Close b1);
  let* buf := read1 b0 0 (replicate 4 0) in
  let* buf := read1 b0 1 buf in
  let* buf := read1 b0 2 buf in
  do* sys (Close b0);
  let* st1 := sys Wait in
  let* st2 := sys Wait in
  if negb (st1.2 =? 0) || negb (st2.2 =? 0) || negb (strcmp buf (path "hi" ++ [10]) =? 0)
  then fail 1 (String.concat (String (Ascii.ascii_of_nat 34) EmptyString) ["grind: exec pipeline failed %d %d "; "%s"; ""]) [VNum st1.2; VNum st2.2; str (cstr buf)]
  else Ret tt.

(** The branches that keep [fd] and [buf]. *)
Definition go_branch (break0 what : Z) : prog unit :=
  if what =? 1 then touch "grindir/../a"
  else if what =? 2 then touch "grindir/../grindir/../b"
  else if what =? 3 then call (Unlink (path "grindir/../a"))
  else if what =? 4 then do* go_chdir "grindir" "grind: chdir grindir failed"; do* sys (Unlink (path "../b")); call (Chdir (path "/"))
  else if what =? 9 then do* sys (Mkdir (path "grindir/../a")); do* touch "a/../a/./a"; call (Unlink (path "a/a"))
  else if what =? 10 then do* sys (Mkdir (path "/../b")); do* touch "grindir/../b/b"; call (Unlink (path "b/b"))
  else if what =? 11 then do* sys (Unlink (path "b")); call (Link (path "../grindir/./../a") (path "../b"))
  else if what =? 12 then do* sys (Unlink (path "../grindir/../a")); call (Link (path ".././b") (path "/grindir/../a"))
  else if what =? 13 then do* in_child (Ret tt); call Wait
  else if what =? 14 then do* in_child (do* sys Fork; call Fork); call Wait
  else if what =? 15 then do* sbrk 6011; Ret tt
  else if what =? 16 then
    let* top := sbrk 0 in
    if break0 <? top then let* top := sbrk 0 in do* sbrk (s32 (- (top - break0))); Ret tt else Ret tt
  else if what =? 17 then
    let* pid := in_child (touch "a") in
    do* go_chdir "../grindir/.." "grind: chdir failed"; do* sys (Kill pid); call Wait
  else if what =? 18 then do* in_child (let* pid := sys Getpid in call (Kill pid)); call Wait
  else if what =? 19 then go_pipe
  else if what =? 20 then
    do* in_child (do* sys (Unlink (path "a")); do* sys (Mkdir (path "a")); do* sys (Chdir (path "a")); do* sys (Unlink (path "../a"));
                  do* sys (Open (path "x") O_CREATE_RDWR); call (Unlink (path "x")));
    call Wait
  else if what =? 21 then go_create
  else if what =? 22 then go_pipeline
  else Ret tt.

(** One turn of the loop. *)
Definition go_step (which_child : bool) (break0 : Z) (g : gstate) : prog (gstate + unit) :=
  let iters := u64 (iters g + 1) in
  do* (if iters mod 500 =? 0 then call (Write 1 (path (if which_child then "B" else "A"))) else Ret tt);
  let '(r, ctx) := rand (rand_next g) in
  let what := Z.rem r 23 in
  if what =? 5 then
    do* sys (Close (g_fd g));
    let* fd := sys (Open (path "/grindir/../a") O_CREATE_RDWR) in
    Ret (inl (GState ctx fd (g_buf g) iters))
  else if what =? 6 then
    do* sys (Close (g_fd g));
    let* fd := sys (Open (path "/./grindir/./../b") O_CREATE_RDWR) in
    Ret (inl (GState ctx fd (g_buf g) iters))
  else if what =? 7 then
    do* sys (Write (g_fd g) (g_buf g));
    Ret (inl (GState ctx (g_fd g) (g_buf g) iters))
  else if what =? 8 then
    let* r := sys (Read (g_fd g) 999) in
    Ret (inl (GState ctx (g_fd g) (r.2 ++ drop (length r.2) (g_buf g)) iters))
  else
    do* go_branch break0 what;
    Ret (inl (GState ctx (g_fd g) (g_buf g) iters)).

Definition go (which_child : bool) (rand_next : Z) : prog unit :=
  let* break0 := sbrk 0 in
  do* sys (Mkdir (path "grindir"));
  do* go_chdir "grindir" "grind: chdir grindir failed";
  do* sys (Chdir (path "/"));
  ITree.iter (go_step which_child break0) (GState rand_next (-1) (replicate 999 0) 0).

(** ** iter and main *)

Definition grind_iter (rand_next : Z) : prog unit :=
  do* sys (Unlink (path "a"));
  do* sys (Unlink (path "b"));
  let* pid1 := sys Fork in
  if pid1 <? 0 then fail 1 "grind: fork failed" [] else
  if pid1 =? 0 then do* go false (Z.lxor rand_next 31); exit 0 else
  let* pid2 := sys Fork in
  if pid2 <? 0 then fail 1 "grind: fork failed" [] else
  if pid2 =? 0 then do* go true (Z.lxor rand_next 7177); exit 0 else
  let* w := sys Wait in
  let st1 := if w.1 <? 0 then -1 else w.2 in
  do* (if negb (st1 =? 0) then do* sys (Kill pid1); call (Kill pid2) else Ret tt);
  do* sys Wait;
  exit 0.

Definition grind_step (rand_next : Z) : prog (Z + unit) :=
  let* pid := sys Fork in
  if pid =? 0 then do* grind_iter rand_next; exit 0 else
  do* (if 0 <? pid then call Wait else Ret tt);
  do* sys (Pause 20);
  Ret (inl (u64 (rand_next + 1))).

Definition grind_main : prog unit := ITree.iter grind_step 1.

(** ** The generator's recurrence *)

Section schrage.
Context (x : Z) (Hx : 1 <= x <= 2147483646).

Definition schrage : Z := 16807 * Z.rem x 127773 - 2836 * Z.quot x 127773.

Lemma schrage_range : - 2147483647 < schrage < 2147483647 /\ schrage = 16807 * x - 2147483647 * Z.quot x 127773.
Proof.
  unfold schrage; pose proof (Z.quot_rem' x 127773); pose proof (Z.rem_bound_pos x 127773 ltac:(lia) ltac:(lia)).
  assert (0 <= Z.quot x 127773 < 16808) by (rewrite Z.quot_div_nonneg by lia; split; [apply Z.div_pos; lia|]; apply Z.div_lt_upper_bound; lia).
  revert H H0 H1; generalize (Z.quot x 127773), (Z.rem x 127773); clear; lia.
Qed.

(** The modulus is prime to the multiplier, so that 0 is not reached. *)
Lemma minstd_nonzero : 7 ^ 5 * x mod (2 ^ 31 - 1) <> 0.
Proof.
  change (7 ^ 5) with 16807; change (2 ^ 31 - 1) with 2147483647; rewrite Z.mod_divide by lia; intros H.
  apply Z.gauss in H; [|by vm_compute]; apply Z.divide_pos_le in H; lia.
Qed.

Lemma schrage_mod : (if schrage <? 0 then schrage + 2147483647 else schrage) = 7 ^ 5 * x mod (2 ^ 31 - 1).
Proof.
  change (7 ^ 5) with 16807; change (2 ^ 31 - 1) with 2147483647; destruct schrage_range as [Hr E].
  destruct (Z.ltb_spec schrage 0); [apply (Z.mod_unique_pos _ _ (Z.quot x 127773 - 1))|apply (Z.mod_unique_pos _ _ (Z.quot x 127773))]; lia.
Qed.
End schrage.

(** [do_rand] is the generator of Park and Miller, shifted by one: it multiplies
    [x = ctx mod (2^31 - 2) + 1] by [7^5] modulo [2^31 - 1], without an intermediate
    value outside 31 bits and a sign.  The new state, which it also returns, lies
    between 0 and [2^31 - 3]. *)
Theorem do_rand_minstd ctx (x := ctx mod 2147483646 + 1) (r := 7 ^ 5 * x mod (2 ^ 31 - 1) - 1) :
  do_rand ctx = (r, r) /\ 0 <= r <= 2147483645 /\ - 2 ^ 31 < 16807 * Z.rem x 127773 - 2836 * Z.quot x 127773 < 2 ^ 31.
Proof.
  assert (1 <= x <= 2147483646) as Hx by (pose proof (Z.mod_pos_bound ctx 2147483646); lia).
  pose proof (schrage_mod x Hx) as E; pose proof (minstd_nonzero x Hx) as Hn; pose proof (proj1 (schrage_range x Hx)) as Hr.
  assert (0 <= r <= 2147483645) as Hb by (pose proof (Z.mod_pos_bound (7 ^ 5 * x) (2 ^ 31 - 1)); lia).
  split; [|unfold schrage in Hr; lia]; unfold do_rand; fold x; fold (schrage x); rewrite E; fold r.
  by rewrite s32_small, u64_small by lia.
Qed.
