(* ===== verification/File.v ===== *)
(** * Open files, [kernel/file.c], and [pipealloc] of [kernel/pipe.c]

    A reference to a file is an index of [ftable.file]; the reference counts
    count descriptors and calls in progress. *)

From S2P Require Import Prelude KMonad Memory Riscv Kalloc Vm CString Sleeplock Bio Session FsLayout Log Fs Kernel Pipe Console.

Definition set_fref (r : Z) (f : file) : file :=
  File (f_type f) r (f_readable f) (f_writable f) (f_pipe f) (f_ip f) (f_off f) (f_major f).
Definition set_ftype (t : ftype) (f : file) : file :=
  File t (f_ref f) (f_readable f) (f_writable f) (f_pipe f) (f_ip f) (f_off f) (f_major f).
Definition set_off (o : Z) (f : file) : file :=
  File (f_type f) (f_ref f) (f_readable f) (f_writable f) (f_pipe f) (f_ip f) o (f_major f).

(** The first free entry of the file table. *)
Fixpoint find_file (i : Z) (l : list file) : option Z :=
  match l with
  | [] => None
  | f :: l => if f_ref f =? 0 then Some i else find_file (i + 1) l
  end.

(** [struct stat] as [copyout] sees it: [dev], [ino], [type], [nlink], [size],
    with four bytes of padding before [size]; the padding is whatever the stack
    holds, given by [pad]. *)
Definition stat_encode (pad : list Z) (st : stat) : list Z :=
  le_bytes 4 (st_dev st) ++ le_bytes 4 (st_ino st) ++ le_bytes 2 (st_type st) ++ le_bytes 2 (st_nlink st)
    ++ take 4 pad ++ le_bytes 8 (st_size st).

Section file.
Context {L : KernelLayout} (me : Z).

Definition filealloc : M ksys Z :=
  do! acquire FTABLE;
  let! t := gets y_ftable in
  match find_file 0 t with
  | Some f =>
      do! modf f (set_fref 1);
      do! release FTABLE;
      ret f
  | None =>
      do! release FTABLE;
      ret NULL
  end.

Definition filedup (f : Z) : M ksys Z :=
  do! acquire FTABLE;
  let! ff := getf f in
  if f_ref ff <? 1 then panic "filedup" else
  do! modf f (set_fref (f_ref ff + 1));
  do! release FTABLE;
  ret f.

Definition fileclose (f : Z) : M ksys unit :=
  do! acquire FTABLE;
  let! ff := getf f in
  if f_ref ff <? 1 then panic "fileclose" else
  do! modf f (set_fref (f_ref ff - 1));
  if 0 <? f_ref ff - 1 then release FTABLE
  else
    do! modf f (fun f => set_ftype FD_NONE (set_fref 0 f));
    do! release FTABLE;
    match f_type ff with
    | FD_PIPE => pipeclose me (f_pipe ff) (f_writable ff)
    | FD_INODE | FD_DEVICE =>
        do! liftl me begin_op;
        do! lift me (iput (f_ip ff));
        liftl me end_op
    | FD_NONE => ret tt
    end.

Definition filestat (pad : list Z) (f addr : Z) : M ksys Z :=
  let! p := getp me in
  let! ff := getf f in
  if bool_decide (f_type ff = FD_INODE) || bool_decide (f_type ff = FD_DEVICE) then
    do! lift me (ilock (f_ip ff));
    let! st := lift me (stati (f_ip ff)) in
    do! lift me (iunlock (f_ip ff));
    let! r := liftm (copyout (uproc_of p) (p_pagetable p) addr (stat_encode pad st)) in
    if r <? 0 then ret (-1) else ret 0
  else ret (-1).

(** [devsw[major].read] and [.write], null when there is no device. *)
Definition dev_ok (major : Z) : bool := (0 <=? major) && (major <? NDEV).

Definition fileread (f addr n : Z) : M ksys Z :=
  let! ff := getf f in
  if negb (f_readable ff) then ret (-1) else
  match f_type ff with
  | FD_PIPE => piperead me (f_pipe ff) addr n
  | FD_DEVICE =>
      let! devsw := gets y_devsw in
      if negb (dev_ok (f_major ff)) then ret (-1) else
      match (aget (None, None) devsw (f_major ff)).1 with
      | None => ret (-1)
      | Some DevConsole => consoleread me (UserDst addr) n
      end
  | FD_INODE =>
      do! lift me (ilock (f_ip ff));
      let! p := getp me in
      let! r := lift me (readi (uproc_of p) (f_ip ff) (UserDst addr) (f_off ff) (u32 n)) in
      do! (if 0 <? r.1 then modf f (fun g => set_off (u32 (f_off g + r.1)) g) else ret tt);
      do! lift me (iunlock (f_ip ff));
      ret r.1
  | FD_NONE => panic "fileread"
  end.

(** The most bytes one transaction of [filewrite] writes. *)
Definition write_max : Z := (MAXOPBLOCKS - 1 - 1 - 2) / 2 * BSIZE.

(** Every turn but the last writes [write_max] bytes; the result is [i]. *)
Fixpoint filewrite_loop (fuel : nat) (f addr n i : Z) : M ksys Z :=
  if negb (i <? n) then ret i else
  match fuel with
  | O => diverge
  | S fuel =>
      let n1 := if write_max <? n - i then write_max else n - i in
      do! liftl me begin_op;
      let! ff := getf f in
      do! lift me (ilock (f_ip ff));
      let! p := getp me in
      let! r := lift me (writei (uproc_of p) (f_ip ff) (UserSrc (u64 (addr + i))) (f_off ff) n1) in
      do! (if 0 <? r then modf f (fun g => set_off (u32 (f_off g + r)) g) else ret tt);
      do! lift me (iunlock (f_ip ff));
      do! liftl me end_op;
      if negb (r =? n1) then ret i
      else filewrite_loop fuel f addr n (i + r)
  end.

Definition filewrite (f addr n : Z) : M ksys Z :=
  let! ff := getf f in
  if negb (f_writable ff) then ret (-1) else
  match f_type ff with
  | FD_PIPE => pipewrite me (f_pipe ff) addr n
  | FD_DEVICE =>
      let! devsw := gets y_devsw in
      if negb (dev_ok (f_major ff)) then ret (-1) else
      match (aget (None, None) devsw (f_major ff)).2 with
      | None => ret (-1)
      | Some DevConsole => consolewrite me (UserSrc addr) n
      end
  | FD_INODE =>
      let! i := filewrite_loop (Z.to_nat (n / write_max + 1)) f addr n 0 in
      ret (if i =? n then n else -1)
  | FD_NONE => panic "filewrite"
  end.

(** A page that holds a new pipe; [kalloc] has filled it with 5s. *)
Definition new_pipe : pipe := Pipe (replicate (Z.to_nat PIPESIZE) 5) 0 0 true true.

(** [pipealloc]: the read and the write end, or [None] for the result -1. *)
Definition pipealloc : M ksys (option (Z * Z)) :=
  let bad f0 f1 :=
    do! (if negb (f0 =? NULL) then fileclose f0 else ret tt);
    do! (if negb (f1 =? NULL) then fileclose f1 else ret tt);
    ret None in
  let! f0 := filealloc in
  if f0 =? NULL then bad f0 NULL else
  let! f1 := filealloc in
  if f1 =? NULL then bad f0 f1 else
  let! pi := liftm kalloc in
  if pi =? 0 then bad f0 f1 else
  do! modpi pi (fun _ => new_pipe);
  do! modf f0 (fun f => File FD_PIPE (f_ref f) true false pi (f_ip f) (f_off f) (f_major f));
  do! modf f1 (fun f => File FD_PIPE (f_ref f) false true pi (f_ip f) (f_off f) (f_major f));
  ret (Some (f0, f1)).
End file.
