(* ===== verification/FileWrite.v ===== *)
(** * The chunks of [filewrite]

    [filewrite] cuts a write into chunks of at most [write_max] bytes of user memory
    and gives each a transaction of its own; a chunk fits the log space the
    transaction has reserved. *)

From S2P Require Import Prelude KMonad Memory Riscv Kalloc Vm VmProofs UserVm UserMem UserLife Sleeplock Bio Session FsLayout Log LogProofs LogSystem Fs FsTx FsBlocks FsFiles FsData FsWrite FsExample Kernel File.

(** The bytes of a user buffer; an address has 64 bits. *)
Definition user_bytes (m : kmem) (U : umap) (va n : Z) : list Z :=
  map (fun i => uview (k_mem m) U (u64 (va + i))) (zrange 0 (Z.to_nat n)).

Lemma length_user_bytes m U va n : 0 <= n -> Z.of_nat (length (user_bytes m U va n)) = n.
Proof. intros; unfold user_bytes; rewrite length_map, length_zrange; lia. Qed.

(** A part of a buffer that does not wrap around. *)
Lemma user_bytes_part m U va n o k : 0 <= o -> 0 <= k -> o + k <= n -> u64 (va + o) + k <= 2 ^ 64 ->
  take (Z.to_nat k) (drop (Z.to_nat o) (user_bytes m U va n)) = map (uview (k_mem m) U) (zrange (u64 (va + o)) (Z.to_nat k)).
Proof.
  intros Ho Hk Hle Hw; pose proof (u64_range (va + o)); apply list_eq; intros i; destruct (decide (i < Z.to_nat k)%nat).
  - rewrite lookup_take_lt, lookup_drop by done; unfold user_bytes; rewrite !list_lookup_fmap, !lookup_zrange by lia; cbn; do 2 f_equal.
    replace (va + (0 + Z.of_nat (Z.to_nat o + i))) with (va + o + Z.of_nat i) by lia; unfold u64 in *; rewrite <- Zplus_mod_idemp_l; apply Z.mod_small; lia.
  - rewrite !lookup_ge_None_2; [done|rewrite length_map, length_zrange; lia|rewrite length_take; lia].
Qed.

(** The buffer is aligned to blocks like the offset in the file, or all of it is
    mapped: no copy for a block stops half way. *)
Definition whole (U : umap) (off va n : Z) : Prop :=
  (va - off) mod BSIZE = 0 \/ forall x, va <= x < va + n -> exists pa perm, U !! (x / 4096) = Some (pa, perm) /\ set perm PTE_U = true.

Section chunk.
Context {L : KernelLayout} (p : uproc).

(** Within one page [copyin] copies everything or nothing. *)
Lemma copyin_page_spec s free t U va len c :
  uspace s free t U -> KMEM ∉ c_held c -> 0 <= va < 2 ^ 64 -> 0 < len -> va mod 4096 + len <= 4096 ->
  up_pagetable p = pt_root t -> up_sz p <= ulimit * 4096 ->
  wp (copyin p (pt_root t) va len) c s (fun r c' s' =>
    c' = c /\ (exists free' t' U', lazy_ext s s' free free' t t' U U' (up_sz p)) /\
    (r = (0, map (uview (k_mem s) U) (zrange va (Z.to_nat len))) \/ r = (-1, []))).
Proof.
  intros Hu Hk Hva Hl Hfit Hpt Hsz; pose proof (Z.mod_pos_bound va 4096 ltac:(lia)); pose proof (Z.div_mod va 4096 ltac:(lia)).
  unfold copyin; change PGSIZE with 4096; assert (0 <= len / 4096) by (apply Z.div_pos; lia).
  replace (Z.to_nat (len / 4096 + 2)) with (S (S (Z.to_nat (len / 4096)))) by lia; cbn [copyin_loop].
  rewrite (proj2 (Z.eqb_neq len 0)) by lia; rewrite PGROUNDDOWN_vpn by lia; apply bind_assoc_wp; wp_step.
  eapply wp_mono; [apply (translate_spec p s free t U (va / 4096)); auto; lia|].
  intros pa0 c' s1 (-> & f1 & t1 & U1 & He & [(-> & _)|(Hpa & _ & perm & HU1 & _)]).
  { wp_steps; split; [done|]; split; [by exists f1, t1, U1|by right]. }
  rewrite (proj2 (Z.eqb_neq pa0 0)) by done; wp_steps; change PGSIZE with 4096.
  replace (Z.min (4096 - (va - va / 4096 * 4096)) len) with len by lia; rewrite Z.sub_diag; cbn [Z.eqb]; wp_steps.
  split; [done|]; split; [by exists f1, t1, U1|]; left; cbn [fst snd]; rewrite app_nil_r; f_equal.
  replace (va - va / 4096 * 4096) with (va mod 4096) by lia; rewrite (rdn_uview _ U1 va _ pa0 perm) by (done || lia); apply map_ext, He.
Qed.

(** User memory as a source for [writei]; reading it may map pages. *)
Lemma user_source m free t U off va n c :
  uspace m free t U -> KMEM ∉ c_held c -> up_pagetable p = pt_root t -> up_sz p <= ulimit * 4096 ->
  0 <= va < 2 ^ 64 -> 0 <= n -> whole U off va n ->
  source p (fun m' => exists free' t' U', lazy_ext m m' free free' t t' U U' (up_sz p)) True c off (UserSrc va) (user_bytes m U va n).
Proof.
  intros Hu Hk Hpt Hsz Hva Hn Hwh; split; [cbn; by rewrite Z.add_0_r, u64_small|].
  intros o k m' (f1 & t1 & U1 & He) Ho Hkk Hle Hmod; rewrite length_user_bytes in Hle by done; cbn [src_add either_copyin].
  pose proof (u64_range (va + o)) as Hr; rewrite Hpt, <- (lz_root _ _ _ _ _ _ _ _ _ He).
  assert (up_pagetable p = pt_root t1) as Hpt1 by (by rewrite (lz_root _ _ _ _ _ _ _ _ _ He)).
  assert (forall b, map (uview (k_mem m') U1) b = map (uview (k_mem m) U) b) as Hview by (intros b; apply map_ext, He).
  destruct Hwh as [Hal|Hmap].
  - assert (u64 (va + o) mod 4096 + k <= 4096) as Hpage.
    { change BSIZE with 1024 in *; unfold u64; Z.div_mod_to_equations; lia. }
    assert (u64 (va + o) + k <= 2 ^ 64) as Hnw by (Z.div_mod_to_equations; lia).
    eapply wp_mono; [apply (copyin_page_spec m' f1 t1 U1 (u64 (va + o)) k); auto; apply He|].
    intros r c' m2 (-> & (f2 & t2 & U2 & He2) & Hres); split; [done|]; split; [exists f2, t2, U2; by eapply lazy_ext_trans|].
    rewrite user_bytes_part by lia; rewrite Hview in Hres; destruct Hres; auto.
  - assert (va + o + k <= ulimit * 4096) as Hlim.
    { destruct (Hmap (va + o + k - 1)) as (pa & perm & HU & _); [lia|]; destruct (us_dom _ _ _ _ Hu _ _ _ HU) as ((_ & Hv) & _).
      pose proof (Z.div_mod (va + o + k - 1) 4096 ltac:(lia)); pose proof (Z.mod_pos_bound (va + o + k - 1) 4096 ltac:(lia)); lia. }
    rewrite ulimit_eq in Hlim; rewrite user_bytes_part, u64_small by (rewrite ?u64_small; lia); rewrite u64_small in Hr by lia.
    eapply wp_mono; [apply (copyin_spec p m' f1 t1 U1 (va + o) k); auto; [apply He|lia]|].
    intros r c' m2 (-> & f2 & t2 & U2 & He2 & Hres); split; [done|]; split; [exists f2, t2, U2; by eapply lazy_ext_trans|]; left.
    destruct Hres as [[-> _]|(_ & x & Hx & Hbad)]; [by rewrite Hview|exfalso].
    destruct (Hmap x) as (pa & perm & HU & Hperm); [lia|]; pose proof (lz_old _ _ _ _ _ _ _ _ _ He _ _ HU) as HU1.
    destruct Hbad as [Hn1|[Hn1 _]]; [|congruence]; apply Hn1; unfold readable; by rewrite HU1.
Qed.
End chunk.

Section reservation.
Context {D pid : Z} {home : Z -> Prop} {TS : TxStore D pid home}.
Context (sb : superblock) (Hg : geometry home sb) (Hone : sb_size sb <= BPB).
Context {L : KernelLayout} (p : uproc).

(** C21. A chunk of [filewrite] stays within its reservation.  [writei] of at most
    [write_max] bytes of the memory of a process, at any offset of a well-formed file
    and at the beginning of a transaction, as [filewrite] calls it, returns with at
    most [MAXOPBLOCKS] blocks logged, the number [begin_op] has reserved, however
    many blocks it allocates; the file is well formed, and the process sees its
    memory unchanged.  The buffer is aligned to blocks like the offset, and then may
    be unmapped in part or in whole, or it is mapped. *)
Theorem write_fits_reservation m l it ip g g0 d inum off va n free t U c :
  is_inode (D := D) it ip -> i_inum (aget inode0 it ip) = inum -> inum_ok sb inum ->
  fstate (TS := TS) sb l g g0 [] [] d -> good_file sb g d -> quiet_ctx pid c -> KMEM ∉ c_held c ->
  uspace m free t U -> up_pagetable p = pt_root t -> up_sz p <= ulimit * 4096 ->
  0 <= off < 2 ^ 32 -> 0 <= va < 2 ^ 64 -> 0 <= n <= write_max -> whole U off va n ->
  wp (writei p ip (UserSrc va) off n) c (Fsys m l sb (with_d it ip d)) (fun r c' s' =>
    c' = c /\ exists m' l' g' bl' d', s' = Fsys m' l' sb (with_d it ip d') /\ fstate (TS := TS) sb l' g' g0 bl' [] d' /\
    Z.of_nat (length bl') <= MAXOPBLOCKS /\ exists free' t' U', lazy_ext m m' free free' t t' U U' (up_sz p)).
Proof.
  intros Hi En Hin Hst Hgf Hc Hk Hu Hpt Hsz Ho Hva Hn Hwh; change write_max with 3072 in Hn.
  pose proof (user_source p m free t U off va n c Hu Hk Hpt Hsz Hva ltac:(lia) Hwh) as Hsrc.
  pose proof (length_user_bytes m U va n ltac:(lia)) as Hlen; rewrite <- Hlen.
  eapply wp_mono; [eapply (writei_fits sb Hg Hone p); eauto; [exists free, t, U; by apply lazy_ext_refl|rewrite Hlen; change BSIZE with 1024; lia]|].
  intros r c' s' (-> & m1 & l1 & g1 & bl1 & d1 & -> & Hm1 & Hst1 & Hle); split; [done|]; exists m1, l1, g1, bl1, d1; auto.
Qed.
End reservation.

(** 3000 bytes at address 100 of the process of [UserLife]. *)
Lemma write_fits_reservation_witness :
  exists l, wp (writei (L := small_layout) user_proc 0 (UserSrc 100) 0 3000) (Ctx 1 []) (Fsys machine l sb_example (with_d itable0 0 empty_file)) (fun r c' s' =>
    exists g' (bl' : list Z) d', Z.of_nat (length bl') <= MAXOPBLOCKS /\ file_ok sb_example g' d').
Proof.
  destruct begun0 as [l Hl]; exists l; destruct inode0_ok as (I1 & I2 & I3); eapply wp_mono.
  - apply (write_fits_reservation (TS := store0) sb_example geometry0 one_bitmap0 (L := small_layout) user_proc machine l itable0 0 disk_view disk_view
             empty_file 5 0 100 3000 machine_free parent parent_map); auto.
    + by apply FsExample.file0.
    + apply empty_file_ok.
    + apply quiet0.
    + apply not_elem_of_nil.
    + apply machine_space.
    + rewrite ulimit_eq; vm_compute; discriminate.
    + by vm_compute.
    + by vm_compute.
    + right; intros x Hx; exists (page 6), FAULT_PERM; split; [|done].
      replace (x / 4096) with 0 by (symmetry; apply Z.div_small; lia); apply lookup_singleton_eq.
  - intros r c' s' (_ & m' & l' & g' & bl' & d' & _ & H & Hle & _); exists g', bl', d'; split; [exact Hle|apply H].
Defined.
