(* ===== verification/KernelExample.v ===== *)
(** * A small kernel state

    One user process with one page of memory and a pipe, on the memory of
    [UserLife.v]: an instance on which the theorems about the kernel apply. *)

From S2P Require Import Prelude KMonad Memory Riscv Kalloc Vm VmProofs UserVm UserMem UserLife Machine Sleeplock Bio Session FsLayout Log Fs Virtio Kernel Spaces Pipe PipeProofs PipeSystem File.

Definition ex_mach : mach := Mach (fun _ => 0) [] [].
Definition ex_vdisk : vdisk :=
  VDisk (replicate 8 desc0) 0 (replicate 8 0) 0 (replicate 8 0) (replicate 8 true) 0 (replicate 8 info0) (replicate 8 req0) [] ex_mach.
Definition ex_fs : fsys :=
  Fsys machine (LState bss_log (Bio (Disk ∅ []) (replicate 30 buf0) 0 0)) (Superblock 0 0 0 0 0 0 0 0) (replicate 50 inode0).
Definition ex_proc : proc :=
  Proc RUNNING None 0 0 1 NULL (KSTACK 0) 4096 (pt_root parent) (page 5) context0 (replicate 16 NULL) NULLI (replicate 16 0).
Definition ex_pipe : Z := page 10.
Definition ex_sys : ksys :=
  KSys ex_fs (replicate 100 file0) {[ex_pipe := new_pipe]} (ex_proc :: replicate 63 proc0) 0 2 0
    (replicate 10 (None, None)) (Cons (replicate 128 0) 0 0 0) false ex_vdisk ex_mach.
Definition ex_spaces : gmap Z (ptree * umap) := {[0 := (parent, parent_map)]}.

Lemma ex_mem_inv : mem_inv (L := small_layout) ex_sys ex_spaces [ex_pipe].
Proof.
  split.
  - exists machine_free; split.
    + apply machine_kalloc.
    + unfold ex_spaces; intros i t U [_ Hi]%lookup_singleton_Some; simplify_eq; apply machine_space.
    + repeat constructor; by vm_compute.
    + by apply (bool_decide_unpack _); vm_compute.
  - unfold ex_spaces; intros i t U [<- Hi]%lookup_singleton_Some; simplify_eq; split_and!; [done..|].
    rewrite ulimit_eq; by vm_compute.
Qed.

Lemma ex_sleeping i ch : ~ sleeping_on ex_sys i ch.
Proof.
  intros (Hi & Hs & _); change NPROC with 64 in Hi; assert (In i (zrange 0 64)) as Hin by (apply list_elem_of_In, elem_of_zrange; lia).
  cbn in Hin; repeat (destruct Hin as [<-|Hin]; [by vm_compute in Hs|]); done.
Qed.

Lemma ex_pipe_state : pipe_state (L := small_layout) ex_pipe ex_sys ex_spaces [ex_pipe].
Proof.
  assert (pipe_at ex_sys ex_pipe = new_pipe) as Hp by (unfold pipe_at; cbn [y_pipes ex_sys]; by rewrite lookup_singleton_eq).
  split; [apply ex_mem_inv|by vm_compute| |intros i; split; intros H; exfalso; revert H; apply ex_sleeping].
  rewrite Hp; split; [apply length_replicate|apply Forall_replicate; unfold byte_ok; lia|cbn; lia|cbn; lia|by vm_compute].
Qed.

(** Three bytes go in, two come out. *)
Definition ex_ops : list pipe_op := [OpWrite 0 0 3 0; OpRead 0 100 2].

Lemma pipe_fifo_witness :
  exists s' W D, run_ops (L := small_layout) ex_pipe (dom ex_spaces) ex_ops ex_sys = Some s' /\
    W = D ++ pipe_bytes (pipe_at s' ex_pipe).
Proof.
  destruct (pipe_fifo (L := small_layout) ex_pipe ex_ops ex_sys ex_spaces [ex_pipe] ex_pipe_state eq_refl)
    as (s' & W & D & Hr & _ & Hq & _).
  exists s', W, D; split; [exact Hr|exact Hq].
Defined.

Lemma pipe_no_lost_wakeup_witness :
  exists s', run_ops (L := small_layout) ex_pipe (dom ex_spaces) ex_ops ex_sys = Some s' /\
    forall i j, ~ (sleeping_on s' i (ChPipeRead ex_pipe) /\ sleeping_on s' j (ChPipeWrite ex_pipe)).
Proof.
  destruct (run_ops_spec (L := small_layout) ex_pipe ex_ops ex_sys ex_spaces [ex_pipe] ex_pipe_state)
    as (s' & _ & _ & _ & Hr & _).
  exists s'; split; [exact Hr|].
  exact (proj2 (proj2 (pipe_no_lost_wakeup (L := small_layout) ex_pipe ex_ops ex_sys ex_spaces [ex_pipe] s' ex_pipe_state Hr))).
Defined.
