(* ===== verification/Proc.v ===== *)
(** * Processes, [kernel/proc.c]

    Allocation and release of process slots with their trap frame and page
    table, [fork], [exit], [wait], [kill] and the growth of user memory.  The
    scheduler and the interleaving of processes are in [Sched.v]. *)

From S2P Require Import Prelude KMonad Memory Riscv Kalloc Vm CString Sleeplock Bio Session FsLayout Log Fs Kernel File.

(** Addresses of kernel functions the code stores in memory or registers. *)
Class KernelSyms := { forkret_addr : Z; usertrap_addr : Z; kernelvec_addr : Z; uservec_addr : Z }.

Section vmproc.
Context {L : KernelLayout}.

(** [trapframe] is [p->trapframe]. *)
Definition proc_pagetable (trapframe : Z) : M kmem pagetable_t :=
  let! pagetable := uvmcreate in
  if pagetable =? 0 then ret 0 else
  let! r := mappages pagetable TRAMPOLINE PGSIZE trampoline (Z.lor PTE_R PTE_X) in
  if r <? 0 then
    do! uvmfree pagetable 0;
    ret 0
  else
  let! r := mappages pagetable TRAPFRAME PGSIZE trapframe (Z.lor PTE_R PTE_W) in
  if r <? 0 then
    do! uvmunmap pagetable TRAMPOLINE 1 false;
    do! uvmfree pagetable 0;
    ret 0
  else ret pagetable.

Definition proc_freepagetable (pagetable : pagetable_t) (sz : Z) : M kmem unit :=
  do! uvmunmap pagetable TRAMPOLINE 1 false;
  do! uvmunmap pagetable TRAPFRAME 1 false;
  uvmfree pagetable sz.
End vmproc.

Section proc.
Context {L : KernelLayout} {Y : KernelSyms} (me : Z).

Definition procinit : M ksys unit :=
  for_each (zrange 0 (Z.to_nat NPROC)) (fun i => modp i (fun p => set_kstack (KSTACK i) (set_state UNUSED p))).

Definition allocpid : M ksys Z :=
  do! acquire PIDLOCK;
  let! pid := gets y_nextpid in
  do! modify (set_nextpid (s32 (pid + 1)));
  do! release PIDLOCK;
  ret pid.

Definition freeproc (i : Z) : M ksys unit :=
  let! p := getp i in
  do! (if negb (p_trapframe p =? 0) then liftm (kfree (p_trapframe p)) else ret tt);
  do! modp i (set_trapframe 0);
  do! (if negb (p_pagetable p =? 0) then liftm (proc_freepagetable (p_pagetable p) (p_sz p)) else ret tt);
  do! modp i (set_pagetable 0);
  do! modp i (set_sz 0);
  do! modp i (set_pid 0);
  do! modp i (set_parent NULL);
  do! modp i (fun p => set_name (aset (p_name p) 0 0) p);
  do! modp i (set_chan None);
  do! modp i (set_killed 0);
  do! modp i (set_xstate 0);
  modp i (set_state UNUSED).

(** Returns with the lock of the slot held. *)
Definition allocproc : M ksys Z :=
  let! found := for_find (zrange 0 (Z.to_nat NPROC)) (fun i =>
    do! acquire (PROCLOCK i);
    let! p := getp i in
    if bool_decide (p_state p = UNUSED) then ret (Some i)
    else
      do! release (PROCLOCK i);
      ret None) in
  match found with
  | None => ret NULL
  | Some i =>
      let! pid := allocpid in
      do! modp i (set_pid pid);
      do! modp i (set_state USED);
      let! tf := liftm kalloc in
      do! modp i (set_trapframe tf);
      if tf =? 0 then
        do! freeproc i;
        do! release (PROCLOCK i);
        ret NULL
      else
      let! pagetable := liftm (proc_pagetable tf) in
      do! modp i (set_pagetable pagetable);
      if pagetable =? 0 then
        do! freeproc i;
        do! release (PROCLOCK i);
        ret NULL
      else
      do! modp i (fun p => set_context (Context forkret_addr (u64 (p_kstack p + PGSIZE)) (replicate 12 0)) p);
      ret i
  end.

(** The first process; its directory is the root. *)
Definition userinit : M ksys unit :=
  let! i := allocproc in
  do! modify (set_initproc i);
  let! p := getp i in
  let! cwd := lift me (namei (uproc_of p) (p_cwd p) [SLASH]) in
  do! modp i (set_cwd cwd);
  do! modp i (set_state RUNNABLE);
  release (PROCLOCK i).

Definition growproc (n : Z) : M ksys Z :=
  let! p := getp me in
  let sz := p_sz p in
  if 0 <? n then
    let! sz := liftm (uvmalloc (p_pagetable p) sz (u64 (sz + n)) PTE_W) in
    if sz =? 0 then ret (-1)
    else
      do! modp me (set_sz sz);
      ret 0
  else if n <? 0 then
    let! sz := liftm (uvmdealloc (p_pagetable p) sz (u64 (sz + n))) in
    do! modp me (set_sz sz);
    ret 0
  else
    do! modp me (set_sz sz);
    ret 0.

(** [*(np->trapframe) = *(p->trapframe)] *)
Definition copy_trapframe (dst src : Z) : M kmem unit :=
  mod_mem (fun m => wrn m dst (rdn m src (Z.to_nat sizeof_trapframe))).

Definition kfork : M ksys Z :=
  let! np := allocproc in
  if np =? NULL then ret (-1) else
  let! p := getp me in
  let! q := getp np in
  let! r := liftm (uvmcopy (p_pagetable p) (p_pagetable q) (p_sz p)) in
  if r <? 0 then
    do! freeproc np;
    do! release (PROCLOCK np);
    ret (-1)
  else
  do! modp np (set_sz (p_sz p));
  do! liftm (copy_trapframe (p_trapframe q) (p_trapframe p));
  do! tf_set (p_trapframe q) tf_a0 0;
  do! for_each (zrange 0 (Z.to_nat NOFILE)) (fun i =>
        let f := aget NULL (p_ofile p) i in
        if negb (f =? NULL) then
          let! f := filedup f in
          modp np (set_ofile i f)
        else ret tt);
  let! cwd := lift me (idup (p_cwd p)) in
  do! modp np (set_cwd cwd);
  do! modp np (copy_name (safestrcpy (p_name p) 16));
  do! release (PROCLOCK np);
  do! acquire WAITLOCK;
  do! modp np (set_parent me);
  do! release WAITLOCK;
  do! acquire (PROCLOCK np);
  do! modp np (set_state RUNNABLE);
  do! release (PROCLOCK np);
  ret (p_pid q).

Definition reparent (i : Z) : M ksys unit :=
  for_each (zrange 0 (Z.to_nat NPROC)) (fun j =>
    let! pp := getp j in
    if p_parent pp =? i then
      let! init := gets y_initproc in
      do! modp j (set_parent init);
      wakeup me (ChProc init)
    else ret tt).

(** Does not return: it ends in the scheduler. *)
Definition kexit {A} (status : Z) : M ksys A :=
  let! init := gets y_initproc in
  if me =? init then panic "init exiting" else
  do! for_each (zrange 0 (Z.to_nat NOFILE)) (fun fd =>
        let! p := getp me in
        let f := aget NULL (p_ofile p) fd in
        if negb (f =? NULL) then
          do! fileclose me f;
          modp me (set_ofile fd NULL)
        else ret tt);
  do! liftl me begin_op;
  let! p := getp me in
  do! lift me (iput (p_cwd p));
  do! liftl me end_op;
  do! modp me (set_cwd NULLI);
  do! acquire WAITLOCK;
  do! reparent me;
  let! p := getp me in
  do! wakeup me (ChProc (p_parent p));
  do! acquire (PROCLOCK me);
  do! modp me (set_xstate status);
  do! modp me (set_state ZOMBIE);
  do! release WAITLOCK;
  sched me ChNone.

(** The scan of [kwait] over the table: the result of the call when it returns
    from inside the loop, and whether there was a child. *)
Definition kwait_scan (addr : Z) : M ksys (option Z * bool) :=
  let fix scan l havekids :=
    match l with
    | [] => ret (None, havekids)
    | i :: l =>
        let! pp := getp i in
        if p_parent pp =? me then
          do! acquire (PROCLOCK i);
          let! pp := getp i in
          if bool_decide (p_state pp = ZOMBIE) then
            let! p := getp me in
            let! r := (if negb (addr =? 0)
                       then liftm (copyout (uproc_of p) (p_pagetable p) addr (le_bytes 4 (p_xstate pp)))
                       else ret 0) in
            if r <? 0 then
              do! release (PROCLOCK i);
              do! release WAITLOCK;
              ret (Some (-1), true)
            else
              do! freeproc i;
              do! release (PROCLOCK i);
              do! release WAITLOCK;
              ret (Some (p_pid pp), true)
          else
            do! release (PROCLOCK i);
            scan l true
        else scan l havekids
    end in
  scan (zrange 0 (Z.to_nat NPROC)) false.

(** A parent with living children sleeps and scans again when woken. *)
Definition kwait (addr : Z) : M ksys Z :=
  do! acquire WAITLOCK;
  let! r := kwait_scan addr in
  match r with
  | (Some v, _) => ret v
  | (None, havekids) =>
      let! stop := (if negb havekids then ret true else killed me) in
      if stop then
        do! release WAITLOCK;
        ret (-1)
      else sleep me (ChProc me) WAITLOCK
  end.

Definition kkill (pid : Z) : M ksys Z :=
  let! r := for_find (zrange 0 (Z.to_nat NPROC)) (fun i =>
    do! acquire (PROCLOCK i);
    let! p := getp i in
    if p_pid p =? pid then
      do! modp i (set_killed 1);
      do! (if bool_decide (p_state p = SLEEPING) then modp i (set_state RUNNABLE) else ret tt);
      do! release (PROCLOCK i);
      ret (Some 0)
    else
      do! release (PROCLOCK i);
      ret None) in
  match r with
  | Some v => ret v
  | None => ret (-1)
  end.

Definition yield : M ksys unit :=
  do! acquire (PROCLOCK me);
  do! modp me (set_state RUNNABLE);
  sched me ChNone.
End proc.
