(* ===== verification/ProcMem.v ===== *)
(** * The page tables of processes

    [proc_pagetable] makes an address space whose only entries are the
    trampoline and the trap frame, above user memory; [proc_freepagetable] takes
    it apart.  [pspace] is an address space together with those two entries. *)

From S2P Require Import Prelude KMonad Memory Riscv Kalloc Vm VmProofs UserVm UserMem UserLife Spaces CString Sleeplock Bio Session FsLayout Log Fs Kernel File Proc.

Definition TF_PAGE : Z := ulimit.
Definition TR_PAGE : Z := ulimit + 1.
Definition TF_PERM : Z := Z.lor PTE_R PTE_W.
Definition TR_PERM : Z := Z.lor PTE_R PTE_X.

Lemma TF_range : TF_PAGE <= TF_PAGE <= TR_PAGE.
Proof. unfold TF_PAGE, TR_PAGE; lia. Qed.
Lemma TR_range : TF_PAGE <= TR_PAGE <= TR_PAGE.
Proof. unfold TF_PAGE, TR_PAGE; lia. Qed.
Lemma TF_PERM_range : 0 <= TF_PERM < 1024.
Proof. by vm_compute. Qed.
Lemma TR_PERM_range : 0 <= TR_PERM < 1024.
Proof. by vm_compute. Qed.
#[export] Hint Resolve TF_range TR_range TF_PERM_range TR_PERM_range : xv6.

(** The entries of the two pages above user memory. *)
Definition high_is (m : mem) (t : ptree) (H : umap) : Prop :=
  forall v, TF_PAGE <= v <= TR_PAGE -> pte_of m t (v * 4096) = pte_for (H !! v).

Section procmem.
Context {L : KernelLayout}.

(** Entries above user memory are not for the user. *)
Definition high_ok (H : umap) : Prop :=
  forall v pa perm, H !! v = Some (pa, perm) ->
    TF_PAGE <= v <= TR_PAGE /\ 0 <= pa < 2 ^ 56 /\ pa mod 4096 = 0 /\ 0 <= perm < 1024 /\ set perm PTE_U = false.

Record pspace (s : kmem) (free : list Z) (t : ptree) (U H : umap) : Prop := {
  ps_space : uspace s free t U;
  ps_high : high_is (k_mem s) t H;
  ps_ok : high_ok H
}.

Lemma high_va v : TF_PAGE <= v <= TR_PAGE -> 0 <= v * 4096 < MAXVA /\ (v * 4096) / 4096 = v.
Proof.
  unfold TF_PAGE, TR_PAGE; rewrite ulimit_eq; change MAXVA with (2 ^ 38); intros; split; [lia|by rewrite Z.div_mul].
Qed.

Lemma high_vpn va : ulimit * 4096 <= va < MAXVA -> TF_PAGE <= va / 4096 <= TR_PAGE.
Proof.
  unfold TF_PAGE, TR_PAGE; rewrite ulimit_eq; change MAXVA with (2 ^ 38); intros.
  pose proof (Z.div_mod va 4096 ltac:(lia)); pose proof (Z.mod_pos_bound va 4096 ltac:(lia)); lia.
Qed.

Lemma set_pte_for H v : high_ok H -> set (pte_for (H !! v)) PTE_U = false.
Proof.
  intros Hok; destruct (H !! v) as [[pa perm]|] eqn:E; [|done]; destruct (Hok _ _ _ E) as (_ & Hpa & _ & Hp & Hu).
  cbn [pte_for]; by rewrite set_leaf_U.
Qed.

Lemma high_pte m t H va : high_is m t H -> ulimit * 4096 <= va < MAXVA -> pte_of m t va = pte_for (H !! (va / 4096)).
Proof.
  intros Hh Hva; pose proof (high_vpn _ Hva) as Hv; rewrite <- Hh by done; destruct (high_va _ Hv) as [Hr Hd].
  apply pte_of_page; [|done|by rewrite Hd]; rewrite ulimit_eq in Hva; change MAXVA with (2 ^ 38) in *; lia.
Qed.

Lemma high_same m m' t t' H : high_is m t H -> same_high m m' t t' -> high_is m' t' H.
Proof.
  intros Hh Hs v Hv; destruct (high_va _ Hv) as [Hr _]; rewrite Hs; [by apply Hh|].
  unfold TF_PAGE in Hv; rewrite ulimit_eq in *; lia.
Qed.

(** The table changed at most above user memory. *)
Lemma uspace_high s s' free free' t t' U H :
  uspace s free t U -> tbl_ext s s' free free' t t' ->
  (forall v, 0 <= v < ulimit -> pte_of (k_mem s') t' (v * 4096) = pte_of (k_mem s) t (v * 4096)) ->
  high_is (k_mem s') t' H -> high_ok H -> uspace s' free' t' U.
Proof.
  intros Hu He Hlow Hh Hok; split; [apply He|intros v Hv; rewrite Hlow by done; by apply Hu| |apply Hu|].
  - intros va Hva; rewrite (high_pte _ _ _ _ Hh) by done; by apply set_pte_for.
  - rewrite (Permutation_app_comm (upages U)), app_assoc, (te_pages _ _ _ _ _ _ He), <- app_assoc.
    rewrite (Permutation_app_comm free); apply Hu.
Qed.

Lemma vpn_sep v w : (w * 4096) / 4096 = (v * 4096) / 4096 <-> w = v.
Proof. rewrite !Z.div_mul by lia; done. Qed.

(** Mapping the trampoline or the trap frame. *)
Lemma map_high_spec s free t U H v pa perm c :
  pspace s free t U H -> KMEM ∉ c_held c -> TF_PAGE <= v <= TR_PAGE -> H !! v = None ->
  0 <= pa < 2 ^ 55 -> pa mod 4096 = 0 -> 0 <= perm < 1024 -> set perm PTE_U = false ->
  wp (mappages (pt_root t) (v * 4096) PGSIZE pa perm) c s (fun r c' s' =>
    c' = c /\ exists free' t', tbl_ext s s' free free' t t' /\
    ((r = 0 /\ pspace s' free' t' U (<[v := (pa, perm)]> H)) \/ (r = -1 /\ pspace s' free' t' U H))).
Proof.
  intros [Hu Hh Hok] Hk Hv HH Hpa Hal Hp HpU; destruct (high_va v Hv) as [Hva Hvd]; change PGSIZE with (1 * 4096).
  eapply wp_mono; [apply (mappages_spec s free t); auto; try lia|].
  - apply Hu.
  - apply Z_mod_mult.
  - unfold TF_PAGE, TR_PAGE in Hv; rewrite ulimit_eq in Hv; change MAXVA with (2 ^ 38); lia.
  - intros va Hva'; assert (va / 4096 = v) as E by (pose proof (same_page (v * 4096) va (Z_mod_mult _ _)); lia).
    rewrite (pte_of_page _ _ va (v * 4096)), Hh, HH; auto; [|by rewrite E, Hvd].
    unfold TF_PAGE, TR_PAGE in Hv; rewrite ulimit_eq in Hv; change MAXVA with (2 ^ 38); lia.
  - intros r c' s' (-> & free' & t' & k & He & Hm & Hr); split; [done|]; exists free', t'; split; [done|].
    assert (forall w, 0 <= w * 4096 < MAXVA -> pte_of (k_mem s') t' (w * 4096) =
      if decide (w = v /\ k = 1) then leaf_pte pa perm else pte_of (k_mem s) t (w * 4096)) as Hpte.
    { intros w Hw; rewrite Hm by done; destruct (decide (w = v /\ k = 1)) as [[-> ->]|Hn].
      - rewrite decide_True, Z.sub_diag by lia; f_equal; change (0 / 4096) with 0; lia.
      - rewrite decide_False; [done|]; intros ?; apply Hn; lia. }
    assert (forall w, 0 <= w < ulimit -> pte_of (k_mem s') t' (w * 4096) = pte_of (k_mem s) t (w * 4096)) as Hlow.
    { intros w Hw; rewrite Hpte by (by apply vpn_va); rewrite decide_False; [done|]; unfold TF_PAGE in Hv; lia. }
    assert (high_is (k_mem s') t' (if decide (k = 1) then <[v := (pa, perm)]> H else H)) as Hh'.
    { intros w Hw; rewrite Hpte by (by apply high_va); rewrite Hh by done; destruct (decide (k = 1)) as [->|Hne].
      - destruct (decide (w = v /\ 1 = 1)) as [[-> _]|E]; [by rewrite lookup_insert_eq|].
        rewrite lookup_insert_ne; [done|]; intros ->; by apply E.
      - rewrite decide_False by lia; done. }
    destruct Hr as [[-> ->]|(-> & Hk' & ->)]; [left|right]; (split; [done|]); [rewrite decide_True in Hh' by done|rewrite decide_False in Hh' by lia].
    + assert (high_ok (<[v := (pa, perm)]> H)).
      { intros w q pm; rewrite lookup_insert_Some; intros [[<- [= <- <-]]|[_ Hw]]; [split_and!; auto; lia|by apply Hok]. }
      split; auto; by eapply uspace_high.
    + split; auto; by eapply uspace_high.
Qed.

(** Unmapping it; the page is not freed. *)
Lemma unmap_high_spec s free t U H v c :
  pspace s free t U H -> KMEM ∉ c_held c -> TF_PAGE <= v <= TR_PAGE ->
  wp (uvmunmap (pt_root t) (v * 4096) 1 false) c s (fun _ c' s' =>
    c' = c /\ pspace s' free t U (delete v H) /\ same_except (pt_pages t) (k_mem s) (k_mem s')).
Proof.
  intros [Hu Hh Hok] Hk Hv; destruct (high_va v Hv) as [Hva Hvd].
  assert (v * 4096 < 2 ^ 38) by (change (2 ^ 38) with MAXVA; lia).
  unfold uvmunmap; change PGSIZE with 4096; rewrite Z_mod_mult, Z.eqb_refl; cbn [negb]; rewrite u64_small by lia.
  change (Z.to_nat 1) with 1%nat; cbn [uvmunmap_loop].
  destruct (Z.ltb_spec (v * 4096) (v * 4096 + 1 * 4096)); [|lia]; change PGSIZE with 4096; cbn [negb]; rewrite u64_small by lia.
  destruct (Z.ltb_spec (v * 4096 + 4096) (v * 4096 + 1 * 4096)) as [Hl|_]; [lia|]; cbn [negb].
  pose proof (Hh v Hv) as Hpte; unfold pte_of in Hpte.
  assert (H !! v = None -> delete v H = H) as Hid by (intros; by rewrite delete_id).
  wp_step; eapply wp_mono; [apply (walk_spec s free t); auto; apply Hu|]; intros a c' s' (-> & -> & ->).
  destruct (leaf_page t (v * 4096)) as [p|] eqn:Ep.
  2:{ change (0 =? 0) with true; cbn iota; wp_steps; rewrite Hid; [split_and!; auto; [by split|apply same_except_refl]|].
      destruct (H !! v) as [[pa perm]|] eqn:E; [|done]; pose proof (pte_for_valid pa perm) as E'; rewrite <- Hpte in E'; done. }
  destruct (Z.eqb_spec (p + 8 * PX 0 (v * 4096)) 0) as [E|_]; [by eapply walk_leaf_nonzero in E; [|apply Hu|]|].
  unfold read_pte, write_pte, mod_mem; wp_steps; rewrite Hpte; destruct (H !! v) as [[pa perm]|] eqn:E.
  2:{ wp_steps; rewrite Hid by done; split_and!; auto; [by split|apply same_except_refl]. }
  rewrite pte_for_valid; cbn [negb]; wp_steps.
  destruct (pte_write s free t (v * 4096) p 0) as [He Hp']; auto; [apply Hu|lia|].
  assert (high_is (k_mem (set_mem (wr64 (k_mem s) (p + 8 * PX 0 (v * 4096)) 0) s)) t (delete v H)) as Hh'.
  { intros w Hw; rewrite Hp' by (by apply high_va); destruct (decide (w * 4096 / 4096 = v * 4096 / 4096)) as [->%vpn_sep|Hn].
    - by rewrite lookup_delete_eq.
    - rewrite lookup_delete_ne by congruence; by apply Hh. }
  assert (high_ok (delete v H)) by (intros w q pm [_ Hw]%lookup_delete_Some; by apply Hok).
  split; [done|]; split; [split; auto|apply He].
  eapply uspace_high; eauto; intros w Hw; rewrite Hp' by (by apply vpn_va); rewrite decide_False; [done|].
  rewrite vpn_sep; unfold TF_PAGE in Hv; lia.
Qed.

(** ** [proc_pagetable] and [proc_freepagetable] *)

Definition proc_high (tf : Z) : umap := <[TF_PAGE := (tf, TF_PERM)]> {[TR_PAGE := (trampoline, TR_PERM)]}.

Lemma TF_TR : TF_PAGE <> TR_PAGE.
Proof. unfold TF_PAGE, TR_PAGE; lia. Qed.

Lemma proc_high_delete tf : delete TF_PAGE (delete TR_PAGE (proc_high tf)) = ∅.
Proof.
  unfold proc_high; apply map_eq; intros v; rewrite lookup_empty, !lookup_delete_None, lookup_insert_None, lookup_singleton_None.
  destruct (decide (TF_PAGE = v)), (decide (TR_PAGE = v)); auto.
Qed.

Lemma pspace_free_spec s free t U sz c :
  pspace s free t U ∅ -> KMEM ∉ c_held c -> 0 <= sz <= ulimit * 4096 -> (forall v, pgup sz <= v -> U !! v = None) ->
  wp (uvmfree (pt_root t) sz) c s (fun _ c' s' => c' = c /\ exists free',
    kalloc_inv s' free' /\ free' ≡ₚ pt_pages t ++ upages U ++ free /\
    same_except (pt_pages t ++ upages U) (k_mem s) (k_mem s')).
Proof.
  intros [Hu Hh _] Hk Hsz Htop; apply uvmfree_spec; auto; intros va Hva.
  by rewrite (high_pte _ _ _ _ Hh), lookup_empty by done.
Qed.

(** [kfree] of all pages of a process's table. *)
Lemma proc_freepagetable_spec s free t U tf sz c :
  pspace s free t U (proc_high tf) -> KMEM ∉ c_held c -> 0 <= sz <= ulimit * 4096 -> (forall v, pgup sz <= v -> U !! v = None) ->
  wp (proc_freepagetable (pt_root t) sz) c s (fun _ c' s' => c' = c /\ exists free',
    kalloc_inv s' free' /\ free' ≡ₚ pt_pages t ++ upages U ++ free /\
    same_except (pt_pages t ++ upages U) (k_mem s) (k_mem s')).
Proof.
  intros Hp Hk Hsz Htop; unfold proc_freepagetable.
  change TRAMPOLINE with (TR_PAGE * 4096); change TRAPFRAME with (TF_PAGE * 4096); wp_step.
  eapply wp_mono; [apply (unmap_high_spec s free t U (proc_high tf)); auto with xv6|].
  intros _ c' s1 (-> & Hp1 & Hm1); wp_step.
  eapply wp_mono; [apply (unmap_high_spec s1 free t U (delete TR_PAGE (proc_high tf))); auto with xv6|].
  intros _ c' s2 (-> & Hp2 & Hm2); rewrite proc_high_delete in Hp2.
  eapply wp_mono; [by apply (pspace_free_spec s2 free t U sz)|].
  intros _ c' s3 (-> & free' & Hk' & Hf & Hm3); split; [done|]; exists free'; split_and!; auto.
  apply (same_except_trans _ _ (k_mem s2)); [|done]; apply (same_except_trans _ _ (k_mem s1));
    (eapply same_except_mono; [|eassumption]); intros p; elt.
Qed.

Lemma high_ok_empty : high_ok ∅.
Proof. intros v pa perm; by rewrite lookup_empty. Qed.

Lemma trampoline_pa : 0 <= trampoline < 2 ^ 55 /\ trampoline mod 4096 = 0.
Proof.
  pose proof trampoline_range; pose proof etext_range; pose proof kend_range; pose proof trampoline_aligned.
  change PGSIZE with 4096 in *; change KERNBASE with 2147483648 in *; change PHYSTOP with 2281701376 in *; lia.
Qed.

(** A new table for a process whose trap frame is the page [tf], or the free
    pages as they were. *)
Definition new_table (s : kmem) (free : list Z) (tf r : Z) (s' : kmem) : Prop :=
  exists free', same_except free (k_mem s) (k_mem s') /\
    ((r = 0 /\ kalloc_inv s' free' /\ free' ≡ₚ free) \/
     (exists t, r = pt_root t /\ r <> 0 /\ pspace s' free' t ∅ (proc_high tf) /\ pt_pages t ++ free' ≡ₚ free)).

Lemma new_table_fail s0 free0 tf s free t c :
  pspace s free t ∅ ∅ -> KMEM ∉ c_held c -> pt_pages t ++ free ≡ₚ free0 -> same_except free0 (k_mem s0) (k_mem s) ->
  wp (do! uvmfree (pt_root t) 0; ret 0) c s (fun r c' s' => c' = c /\ new_table s0 free0 tf r s').
Proof.
  intros Hp Hk Hpp Hm; wp_step.
  eapply wp_mono; [apply (pspace_free_spec s free t ∅ 0); auto; rewrite ulimit_eq; lia|].
  intros _ c' s'' (-> & f'' & Hk'' & Hf & Hm''); wp_steps; split; [done|]; exists f''; split.
  - apply (same_except_trans _ _ (k_mem s)); [done|]; eapply same_except_mono; [|exact Hm'']; intros p; rewrite <- Hpp; elt.
  - left; split_and!; auto; by rewrite Hf.
Qed.

Lemma new_table_ext s0 root f1 s1 s2 f2 t2 :
  only_page root (k_mem s0) (k_mem s1) -> tbl_ext s1 s2 f1 f2 (PTree root ∅ ∅) t2 ->
  pt_pages t2 ++ f2 ≡ₚ root :: f1 /\ same_except (root :: f1) (k_mem s0) (k_mem s2).
Proof.
  intros Ho He; pose proof (te_pages _ _ _ _ _ _ He) as Hp; split; [done|].
  apply (same_except_trans _ _ (k_mem s1)); [apply (only_page_same root); [elt|done]|].
  eapply same_except_mono; [|apply He]; intros p Hin; change (root :: f1) with (pt_pages (PTree root ∅ ∅) ++ f1).
  rewrite <- Hp; elt.
Qed.

Lemma proc_pagetable_spec s free tf c :
  kalloc_inv s free -> KMEM ∉ c_held c -> page_ok tf ->
  wp (proc_pagetable tf) c s (fun r c' s' => c' = c /\ new_table s free tf r s').
Proof.
  intros Hk Hc Htf; pose proof (page_ok_bounds _ Htf) as Htf'; destruct trampoline_pa as [Htr Htr'].
  unfold proc_pagetable; wp_step; eapply wp_mono; [by apply (uvmcreate_spec s free)|]; intros r c' s1 [-> Hr].
  destruct free as [|root f1].
  { destruct Hr as [-> ->]; wp_steps; split; [done|]; exists []; split; [apply same_except_refl|by left]. }
  destruct Hr as (-> & Hu1 & Ho1); pose proof (ki_pages _ _ Hk) as Hpg; apply Forall_cons in Hpg as [Hroot _].
  pose proof (page_ok_bounds _ Hroot); destruct (Z.eqb_spec root 0) as [|_]; [lia|].
  change TRAMPOLINE with (TR_PAGE * 4096); change TRAPFRAME with (TF_PAGE * 4096).
  match goal with |- wp _ _ _ ?Q => set (Φ := Q) end; change root with (pt_root (PTree root ∅ ∅)).
  assert (pspace s1 f1 (PTree root ∅ ∅) ∅ ∅) as Hp1 by (split; [done| |apply high_ok_empty]; by intros v Hv).
  wp_step; eapply wp_mono; [apply (map_high_spec s1 f1 _ ∅ ∅ TR_PAGE trampoline TR_PERM); auto with xv6|].
  intros r c' s2 (-> & f2 & t2 & He2 & [[-> Hp2]|[-> Hp2]]); destruct (new_table_ext _ _ _ _ _ _ _ Ho1 He2) as [Hpp2 Hm2];
    rewrite <- (te_root _ _ _ _ _ _ He2).
  2:{ change (-1 <? 0) with true; cbn iota; by eapply new_table_fail. }
  change (0 <? 0) with false; cbn iota; rewrite insert_empty in Hp2.
  assert ({[TR_PAGE := (trampoline, TR_PERM)]} !! TF_PAGE =@{option (Z * Z)} None) as HTF by (apply lookup_singleton_ne, not_eq_sym, TF_TR).
  wp_step; eapply wp_mono;
    [apply (map_high_spec s2 f2 t2 ∅ _ TF_PAGE tf TF_PERM c Hp2 Hc TF_range HTF ltac:(lia) (proj1 Htf) TF_PERM_range eq_refl)|].
  intros r c' s3 (-> & f3 & t3 & He3 & Hr3); pose proof (tbl_ext_trans _ _ _ _ _ _ _ _ _ He2 He3) as He.
  destruct (new_table_ext _ _ _ _ _ _ _ Ho1 He) as [Hpp Hm]; rewrite <- (te_root _ _ _ _ _ _ He3).
  destruct Hr3 as [[-> Hp3]|[-> Hp3]].
  - change (0 <? 0) with false; cbn iota; wp_steps; split; [done|]; exists f3; split; [done|right]; exists t3; split_and!; auto.
    rewrite (te_root _ _ _ _ _ _ He); cbn; lia.
  - change (-1 <? 0) with true; cbn iota; wp_step.
    eapply wp_mono; [apply (unmap_high_spec s3 f3 t3 ∅ {[TR_PAGE := (trampoline, TR_PERM)]} TR_PAGE); auto with xv6|].
    intros _ c' s4 (-> & Hp4 & Hm4); rewrite delete_singleton_eq in Hp4; eapply new_table_fail; eauto.
    apply (same_except_trans _ _ (k_mem s3)); [done|]; eapply same_except_mono; [|exact Hm4]; intros p; rewrite <- Hpp; elt.
Qed.

(** ** The memory of all processes

    [A] gives the address space and [TF] the trap frame of each process; [X] are
    pages held by others. *)
Record pmem (k : kmem) (free : list Z) (A : gmap Z (ptree * umap)) (TF : gmap Z Z) (X : list Z) : Prop := {
  pm_spaces : spaces k free A ((map_to_list TF).*2 ++ X);
  pm_dom : dom TF = dom A;
  pm_high i t U tf : A !! i = Some (t, U) -> TF !! i = Some tf -> high_is (k_mem k) t (proc_high tf)
}.

Lemma proc_high_ok tf : page_ok tf -> high_ok (proc_high tf).
Proof.
  intros Htf; pose proof (page_ok_bounds _ Htf); destruct trampoline_pa as [Htr Htr']; intros v pa perm.
  unfold proc_high; rewrite lookup_insert_Some, lookup_singleton_Some; intros [[<- [= <- <-]]|(_ & <- & [= <- <-])].
  - refine (conj TF_range (conj _ (conj (proj1 Htf) (conj TF_PERM_range eq_refl)))); lia.
  - refine (conj TR_range (conj _ (conj Htr' (conj TR_PERM_range eq_refl)))); lia.
Qed.

Lemma pmem_tf_in k free A TF X i tf : pmem k free A TF X -> TF !! i = Some tf -> tf ∈ (map_to_list TF).*2.
Proof. intros H Hi; apply list_elem_of_fmap; exists (i, tf); split; [done|by apply elem_of_map_to_list]. Qed.

Lemma pmem_pspace k free A TF X i t U tf :
  pmem k free A TF X -> A !! i = Some (t, U) -> TF !! i = Some tf -> pspace k free t U (proc_high tf) /\ page_ok tf.
Proof.
  intros H Hi Htf; assert (page_ok tf) as Hp.
  { pose proof (sp_other _ _ _ _ (pm_spaces _ _ _ _ _ H)) as HR; rewrite Forall_forall in HR; apply HR.
    apply elem_of_app; left; by eapply pmem_tf_in. }
  split; [split; [by eapply sp_space; [apply H|]|by eapply pm_high|by apply proc_high_ok]|done].
Qed.

(** A step that writes only trap frames, free pages and pages of [X]. *)
Lemma pmem_write k k' free free' A TF X X' :
  pmem k free A TF X -> kalloc_inv k' free' -> same_except ((map_to_list TF).*2 ++ X ++ free) (k_mem k) (k_mem k') ->
  X' ++ free' ≡ₚ X ++ free -> pmem k' free' A TF X'.
Proof.
  intros [Hs Hd Hh] Hk Hm Hp; pose proof (sp_nodup _ _ _ _ Hs) as Hn; pose proof (sp_other _ _ _ _ Hs) as HR.
  split; [|done|].
  - apply (spaces_move k k' free free' A ((map_to_list TF).*2 ++ X)); auto; [by rewrite <- app_assoc|by rewrite <- !app_assoc, Hp].
  - intros i t U tf Hi Htf v Hv; pose proof (sp_space _ _ _ _ Hs _ _ _ Hi) as Hu.
    rewrite (pte_of_frame k free t ((map_to_list TF).*2 ++ X ++ free)); [by eapply Hh|apply Hu|done| |].
    + rewrite app_assoc; apply Forall_app; split; [done|apply Hu].
    + intros p Hin Hpt; rewrite (all_pages_delete _ _ _ Hi) in Hn; unfold space_pages in Hn; cbn [fst snd] in Hn.
      rewrite <- !app_assoc in Hn; apply NoDup_app in Hn as (_ & Hn & _); apply (Hn p Hpt).
      rewrite !elem_of_app in *; tauto.
Qed.

Lemma pmem_step k k' free free' A TF X X' :
  pmem k free A TF X -> kalloc_inv k' free' -> same_except (X ++ free) (k_mem k) (k_mem k') -> X' ++ free' ≡ₚ X ++ free ->
  pmem k' free' A TF X'.
Proof.
  intros Hp Hk Hm Hx; apply (pmem_write k k' free free' A TF X); auto; eapply same_except_mono; [|exact Hm]; intros p; elt.
Qed.

(** Writing a trap frame. *)
Lemma pmem_trapframe k free A TF X i tf m' :
  pmem k free A TF X -> TF !! i = Some tf -> mem_ok m' -> only_page tf (k_mem k) m' -> pmem (set_mem m' k) free A TF X.
Proof.
  intros Hp Hi Hm Ho; pose proof (pmem_tf_in _ _ _ _ _ _ _ Hp Hi) as Hin.
  pose proof (sp_nodup _ _ _ _ (pm_spaces _ _ _ _ _ Hp)) as Hn; pose proof (sp_other _ _ _ _ (pm_spaces _ _ _ _ _ Hp)) as HR.
  rewrite Forall_forall in HR; assert (page_ok tf) as Htf by (apply HR; elt).
  apply (pmem_write k _ free free A TF X); auto; [|apply (only_page_same tf); [elt|done]].
  apply (kalloc_fill k free tf); auto; [apply Hp|]; intros Hf; apply NoDup_app in Hn as (_ & _ & Hn).
  apply NoDup_app in Hn as (_ & Hn & _); apply (Hn tf); [elt|done].
Qed.

Lemma perm_take {B} (x : B) (T Y X : list B) : T ++ x :: Y ++ X ≡ₚ Y ++ (x :: T) ++ X.
Proof.
  cbn [app]; rewrite <- !Permutation_middle, !app_assoc; f_equiv; f_equiv; apply Permutation_app_comm.
Qed.

Lemma pmem_add k free A TF X X' i t U tf :
  pmem k free A TF X -> A !! i = None -> pspace k free t U (proc_high tf) -> X ≡ₚ tf :: pt_pages t ++ upages U ++ X' ->
  pmem k free (<[i := (t, U)]> A) (<[i := tf]> TF) X'.
Proof.
  intros [Hs Hd Hh] Hi [Hu Hh' _] Hp.
  assert (TF !! i = None) as Hti by (apply not_elem_of_dom; rewrite Hd; by apply not_elem_of_dom).
  split; [|by rewrite !dom_insert_L, Hd|].
  - eapply spaces_add; [exact Hs|done|done|]; rewrite map_to_list_insert by done; cbn [fmap list_fmap snd]; rewrite Hp.
    unfold space_pages; cbn [fst snd]; rewrite app_assoc; apply perm_take.
  - intros j tj Uj tfj; rewrite !lookup_insert_Some; intros [[<- [= <- <-]]|[Hne Hj]] [[E [= <-]]|[? Htj]]; try done; by eapply Hh.
Qed.

Lemma pmem_del k free A TF X i t U tf :
  pmem k free A TF X -> A !! i = Some (t, U) -> TF !! i = Some tf ->
  pmem k free (delete i A) (delete i TF) (tf :: pt_pages t ++ upages U ++ X).
Proof.
  intros [Hs Hd Hh] Hi Hti; split; [|by rewrite !dom_delete_L, Hd|].
  - eapply spaces_perm; [by apply spaces_del|]; rewrite <- (map_to_list_delete TF i tf Hti); cbn [fmap list_fmap snd].
    unfold space_pages; cbn [fst snd]; rewrite (app_assoc (pt_pages t) (upages U) X); symmetry; apply perm_take.
  - intros j tj Uj tfj [_ Hj]%lookup_delete_Some [_ Htj]%lookup_delete_Some; by eapply Hh.
Qed.

(** ** What the allocation code does to it *)

Lemma pmem_nodup k free A TF X : pmem k free A TF X -> NoDup (X ++ free) /\ Forall page_ok (X ++ free).
Proof.
  intros [[Hk _ HR Hn] _ _]; split.
  - rewrite <- app_assoc in Hn; by apply NoDup_app in Hn as (_ & _ & (_ & _ & ?)%NoDup_app).
  - apply Forall_app; split; [by apply Forall_app in HR as [_ ?]|apply Hk].
Qed.

Lemma pmem_kalloc k free A TF X : pmem k free A TF X -> kalloc_inv k free.
Proof. intros [[Hk _ _ _] _ _]; done. Qed.

Lemma pmem_kalloc_spec k free A TF X c :
  pmem k free A TF X -> KMEM ∉ c_held c ->
  wp kalloc c k (fun r c' k' => c' = c /\
    ((r = 0 /\ k' = k) \/
     exists f1, free = r :: f1 /\ page_ok r /\ r <> 0 /\ pmem k' f1 A TF (r :: X) /\ only_page r (k_mem k) (k_mem k'))).
Proof.
  intros Hp Hc; eapply wp_mono; [apply (kalloc_spec free); [by eapply pmem_kalloc|done]|].
  intros r c' k' [-> Hr]; split; [done|]; destruct free as [|pa f1]; [by left|].
  destruct Hr as (-> & Hk' & Ho & _); right; exists f1.
  pose proof (pmem_nodup _ _ _ _ _ Hp) as [_ HF]; rewrite Forall_app, Forall_cons in HF; destruct HF as (_ & Hpa & _).
  pose proof (page_ok_bounds _ Hpa); split_and!; auto; [lia|].
  apply (pmem_step k k' (pa :: f1) f1 A TF X); auto; [apply (only_page_same pa); [elt|done]|apply Permutation_middle].
Qed.

Lemma pmem_kfree_spec k free A TF X pa c :
  pmem k free A TF (pa :: X) -> KMEM ∉ c_held c ->
  wp (kfree pa) c k (fun _ c' k' => c' = c /\ pmem k' (pa :: free) A TF X /\ only_page pa (k_mem k) (k_mem k')).
Proof.
  intros Hp Hc; destruct (pmem_nodup _ _ _ _ _ Hp) as [Hn HF].
  cbn [app] in *; apply NoDup_cons in Hn as [Hn _]; apply Forall_cons in HF as [Hpa _].
  eapply wp_mono; [apply (kfree_spec pa free); [by eapply pmem_kalloc|done| |done]; intros Hin; apply Hn; elt|].
  intros _ c' k' (-> & Hk' & Ho); split_and!; auto.
  apply (pmem_step k k' free (pa :: free) A TF (pa :: X)); auto; [apply (only_page_same pa); [elt|done]|].
  by rewrite <- Permutation_middle.
Qed.

Lemma pmem_newtable_spec k free A TF X tf i c :
  pmem k free A TF (tf :: X) -> A !! i = None -> KMEM ∉ c_held c ->
  wp (proc_pagetable tf) c k (fun r c' k' => c' = c /\ exists free', same_except free (k_mem k) (k_mem k') /\
    ((r = 0 /\ pmem k' free' A TF (tf :: X) /\ free' ≡ₚ free) \/
     (exists t, r = pt_root t /\ r <> 0 /\ pmem k' free' (<[i := (t, ∅)]> A) (<[i := tf]> TF) X /\ pt_pages t ++ free' ≡ₚ free))).
Proof.
  intros Hp Hi Hc; destruct (pmem_nodup _ _ _ _ _ Hp) as [_ HF]; cbn [app] in HF; apply Forall_cons in HF as [Htf _].
  eapply wp_mono; [apply (proc_pagetable_spec k free tf); [by eapply pmem_kalloc|done|done]|].
  intros r c' k' (-> & free' & Hm & Hr); split; [done|]; exists free'; split; [done|].
  assert (same_except ((tf :: X) ++ free) (k_mem k) (k_mem k')) as Hm'.
  { eapply same_except_mono; [|exact Hm]; intros p; elt. }
  destruct Hr as [(-> & Hk' & Hf)|(t & -> & Hr & Hps & Hf)]; [left|right].
  - split_and!; auto; apply (pmem_step k k' free free' A TF (tf :: X)); auto; by rewrite Hf.
  - exists t; split_and!; auto; apply (pmem_add k' free' A TF (tf :: pt_pages t ++ X)); auto.
    + apply (pmem_step k k' free free' A TF (tf :: X)); auto; [apply Hps|].
      cbn [app]; rewrite <- app_assoc, (app_assoc (pt_pages t)), (Permutation_app_comm (pt_pages t)), <- app_assoc; by rewrite Hf.
Qed.

Lemma pspace_move k k' free free' t U H pa :
  pspace k free t U H -> page_ok pa -> pa ∉ pt_pages t -> kalloc_inv k' free' -> only_page pa (k_mem k) (k_mem k') ->
  NoDup (pt_pages t ++ upages U ++ free') -> pspace k' free' t U H.
Proof.
  intros [Hu Hh Hok] Hpa Hn Hk Ho Hd; split; [by eapply (uspace_move k)| |done].
  eapply high_same; [exact Hh|]; eapply same_high_page; eauto; apply Hu.
Qed.

Lemma pmem_freetable_spec k free A TF X t U tf sz c :
  pmem k free A TF (pt_pages t ++ upages U ++ X) -> pspace k free t U (proc_high tf) -> KMEM ∉ c_held c ->
  0 <= sz <= ulimit * 4096 -> (forall v, pgup sz <= v -> U !! v = None) ->
  wp (proc_freepagetable (pt_root t) sz) c k (fun _ c' k' => c' = c /\ exists free',
    pmem k' free' A TF X /\ free' ≡ₚ pt_pages t ++ upages U ++ free /\
    same_except (pt_pages t ++ upages U) (k_mem k) (k_mem k')).
Proof.
  intros Hp Hps Hc Hsz Htop; eapply wp_mono; [by apply (proc_freepagetable_spec k free t U tf sz)|].
  intros _ c' k' (-> & free' & Hk' & Hf & Hm); split; [done|]; exists free'; split_and!; auto.
  apply (pmem_step k k' free free' A TF (pt_pages t ++ upages U ++ X)); auto.
  - eapply same_except_mono; [|exact Hm]; intros p; elt.
  - rewrite Hf, !app_assoc; f_equiv; rewrite <- app_assoc, (Permutation_app_comm X); by rewrite <- app_assoc.
Qed.

(** A step of address space [j] that keeps its entries above user memory. *)
Lemma pmem_space_step k k' free free' A TF X j t U t' U' :
  pmem k free A TF X -> A !! j = Some (t, U) -> uspace k' free' t' U' -> same_high (k_mem k) (k_mem k') t t' ->
  pt_pages t' ++ upages U' ++ free' ≡ₚ pt_pages t ++ upages U ++ free ->
  same_except (pt_pages t ++ upages U ++ free) (k_mem k) (k_mem k') ->
  pmem k' free' (<[j := (t', U')]> A) TF X.
Proof.
  intros [Hs Hd Hh] Hj Hu' Hhi Hp Hm.
  destruct (spaces_step k k' free free' A _ j t U t' U' Hs Hj Hu' Hp Hm) as [Hs' _]; split; [done| |].
  - rewrite dom_insert_lookup_L; [done|by rewrite Hj].
  - intros i ti Ui tf; rewrite lookup_insert_Some; intros [[<- [= <- <-]]|[Hne Hi]] Htf.
    + eapply high_same; [by eapply Hh|done].
    + intros v Hv; pose proof (sp_space _ _ _ _ Hs) as Hu; rewrite (pte_of_frame k free ti (pt_pages t ++ upages U ++ free)).
      * by eapply Hh.
      * eapply us_inv, Hu; exact Hi.
      * done.
      * eapply space_pages_ok, Hu; exact Hj.
      * intros p Hin Hpt; rewrite app_assoc in Hin.
        apply (proj2 (spaces_apart _ _ _ _ _ (t, U) p Hs Hj Hin) i (ti, Ui)); [done|done|unfold space_pages; cbn [fst snd]; elt].
Qed.

Lemma NoDup_mid {B} (P Y f : list B) : NoDup (P ++ Y ++ f) -> NoDup (P ++ f).
Proof. rewrite (Permutation_app_comm Y f), app_assoc; by intros [? _]%NoDup_app. Qed.

Lemma pmem_two k free A TF X i j to Uo tn Un :
  pmem k free A TF X -> A !! i = Some (to, Uo) -> A !! j = Some (tn, Un) -> i <> j -> two_spaces k free to Uo tn Un.
Proof.
  intros [Hs _ _] Hi Hj Hne; pose proof (sp_space _ _ _ _ Hs) as Hu; split; [by eapply Hu|by eapply Hu|].
  pose proof (sp_nodup _ _ _ _ Hs) as Hn.
  rewrite (all_pages_delete _ _ _ Hi), (all_pages_delete (delete i A) j (tn, Un)) in Hn by (by rewrite lookup_delete_ne).
  unfold space_pages in Hn; cbn [fst snd] in Hn.
  rewrite (app_assoc (pt_pages tn)), app_assoc; apply (NoDup_mid _ (all_pages (delete j (delete i A)) ++ (map_to_list TF).*2 ++ X)).
  by rewrite <- !app_assoc in *.
Qed.

(** [uvmcopy] between two processes. *)
Lemma pmem_copy_spec k free A TF X i j to Uo tn sz c :
  pmem k free A TF X -> A !! i = Some (to, Uo) -> A !! j = Some (tn, ∅) -> i <> j -> KMEM ∉ c_held c -> 0 <= sz <= ulimit * 4096 ->
  wp (uvmcopy (pt_root to) (pt_root tn) sz) c k (fun r c' k' => c' = c /\ exists free' tn' Un',
    pmem k' free' (<[j := (tn', Un')]> A) TF X /\ copying k k' free free' to Uo tn tn' Un' /\
    ((r = 0 /\ copied_upto (uview (k_mem k) Uo) (k_mem k') Uo Un' (pgup sz)) \/ (r = -1 /\ Un' = ∅))).
Proof.
  intros Hp Hi Hj Hne Hc Hsz; eapply wp_mono; [apply (uvmcopy_spec k free to Uo tn sz); auto; by eapply pmem_two|].
  intros r c' k' (-> & f' & tn' & Un' & Hcp & Hr); split; [done|]; exists f', tn', Un'; split_and!; auto.
  destruct Hcp as [A1 A2 A3 A4 A5 A6]; apply (pmem_space_step k k' free f' A TF X j tn ∅ tn' Un' Hp Hj (ts_new _ _ _ _ _ _ A1) A5 A3).
  eapply same_except_mono; [|exact A6]; intros p; elt.
Qed.
End procmem.
