(* ===== verification/Asm.v ===== *)
(** * The assembly code of the kernel

    [entry.S], [swtch.S], [trampoline.S] and [kernelvec.S] as lists of instructions,
    and a hart that runs them: its general registers, the control registers the code
    uses, and the physical memory.  Loads and stores go through the page table in
    [satp], walked in the same memory.  Addresses the linker chooses are parameters.

    The registers are all but [zero].  The code uses 8-byte loads and stores only; an
    access that is not aligned, or that the page table does not allow, is a fault,
    and the run has no result. *)

From S2P Require Import Prelude KMonad Memory Riscv Kalloc Vm Kernel.

(** ** The hart *)

Inductive reg :=
| ra | sp | gp | tp | t0 | t1 | t2 | s0 | s1 | a0 | a1 | a2 | a3 | a4 | a5 | a6 | a7
| s2 | s3 | s4 | s5 | s6 | s7 | s8 | s9 | s10 | s11 | t3 | t4 | t5 | t6.

#[global] Instance reg_eq_dec : EqDecision reg.
Proof. solve_decision. Defined.

Inductive creg := sscratch | satp | mhartid.

#[global] Instance creg_eq_dec : EqDecision creg.
Proof. solve_decision. Defined.

Record hart := Hart { h_reg : reg -> Z; h_csr : creg -> Z; h_mem : mem }.

Definition set_reg (r : reg) (v : Z) (h : hart) : hart := Hart (fun x => if decide (x = r) then v else h_reg h x) (h_csr h) (h_mem h).
Definition set_csr (r : creg) (v : Z) (h : hart) : hart := Hart (h_reg h) (fun x => if decide (x = r) then v else h_csr h x) (h_mem h).
Definition set_hmem (m : mem) (h : hart) : hart := Hart (h_reg h) (h_csr h) m.

(** ** Address translation: three levels of page tables, as Sv39 defines them

    The leaves of the kernel's tables are on the last level.  In supervisor mode a
    page of the user is not accessible.  No translation while [satp] is 0. *)

Definition next_table (m : mem) (table level va : Z) : option Z :=
  let pte := rd64 m (pte_addr table level va) in
  if set pte PTE_V && negb (set pte (Z.lor PTE_R (Z.lor PTE_W PTE_X))) then Some (PTE2PA pte) else None.

Definition translate (m : mem) (satp acc va : Z) : option Z :=
  if satp =? 0 then Some va
  else if (va <? 0) || (MAXVA <=? va) then None
  else
    l1 ← next_table m (Z.shiftl (Z.land satp (2 ^ 44 - 1)) 12) 2 va;
    l0 ← next_table m l1 1 va;
    let pte := rd64 m (pte_addr l0 0 va) in
    if set pte PTE_V && set pte acc && negb (set pte PTE_U) then Some (PTE2PA pte + va mod 4096) else None.

(** ** Instructions *)

Inductive instr :=
| sd (rs : reg) (off : Z) (rb : reg)      (* sd rs, off(rb) *)
| ld (rd : reg) (off : Z) (rb : reg)      (* ld rd, off(rb) *)
| li (rd : reg) (imm : Z)
| la (rd : reg) (addr : Z)
| addi (rd rs : reg) (imm : Z)
| add (rd rx ry : reg)
| mul (rd rx ry : reg)
| csrw (c : creg) (rs : reg)
| csrr (rd : reg) (c : creg)
| sfence_vma
| jalr (rs : reg) (next : Z)              (* [next] is the address after it *)
| call (f next : Z)
| ret_
| sret.

(** Where a run of straight-line code ends. *)
Inductive exit := Next | Jump (pc : Z) | Sret.

Definition mem_addr (h : hart) (acc : Z) (rb : reg) (off : Z) : option Z :=
  let va := u64 (h_reg h rb + off) in
  if va mod 8 =? 0 then translate (h_mem h) (h_csr h satp) acc va else None.

Definition step (i : instr) (h : hart) : option (hart * exit) :=
  match i with
  | sd rs off rb => pa ← mem_addr h PTE_W rb off; Some (set_hmem (wr64 (h_mem h) pa (h_reg h rs)) h, Next)
  | ld rd off rb => pa ← mem_addr h PTE_R rb off; Some (set_reg rd (rd64 (h_mem h) pa) h, Next)
  | li rd imm => Some (set_reg rd (u64 imm) h, Next)
  | la rd addr => Some (set_reg rd (u64 addr) h, Next)
  | addi rd rs imm => Some (set_reg rd (u64 (h_reg h rs + imm)) h, Next)
  | add rd rx ry => Some (set_reg rd (u64 (h_reg h rx + h_reg h ry)) h, Next)
  | mul rd rx ry => Some (set_reg rd (u64 (h_reg h rx * h_reg h ry)) h, Next)
  | csrw c rs => Some (set_csr c (h_reg h rs) h, Next)
  | csrr rd c => Some (set_reg rd (h_csr h c) h, Next)
  | sfence_vma => Some (h, Next)
  | jalr rs next => Some (set_reg ra next h, Jump (h_reg h rs))
  | call f next => Some (set_reg ra next h, Jump f)
  | ret_ => Some (h, Jump (h_reg h ra))
  | sret => Some (h, Sret)
  end.

Fixpoint run (code : list instr) (h : hart) : option (hart * exit) :=
  match code with
  | [] => Some (h, Next)
  | i :: code => r ← step i h; match r.2 with Next => run code r.1 | _ => Some r end
  end.

(** ** [entry.S] *)

Definition _entry (stack0 start next : Z) : list instr :=
  [la sp stack0; li a0 (1024 * 4); csrr a1 mhartid; addi a1 a1 1; mul a0 a0 a1; add sp sp a0; call start next].

(** ** [swtch.S] *)

Definition swtch : list instr :=
  [sd ra 0 a0; sd sp 8 a0; sd s0 16 a0; sd s1 24 a0; sd s2 32 a0; sd s3 40 a0; sd s4 48 a0;
   sd s5 56 a0; sd s6 64 a0; sd s7 72 a0; sd s8 80 a0; sd s9 88 a0; sd s10 96 a0; sd s11 104 a0;
   ld ra 0 a1; ld sp 8 a1; ld s0 16 a1; ld s1 24 a1; ld s2 32 a1; ld s3 40 a1; ld s4 48 a1;
   ld s5 56 a1; ld s6 64 a1; ld s7 72 a1; ld s8 80 a1; ld s9 88 a1; ld s10 96 a1; ld s11 104 a1;
   ret_].

(** ** [trampoline.S]; [userret] is the address of the label *)

Definition uservec (userret : Z) : list instr :=
  [csrw sscratch a0; li a0 TRAPFRAME;
   sd ra 40 a0; sd sp 48 a0; sd gp 56 a0; sd tp 64 a0; sd t0 72 a0; sd t1 80 a0; sd t2 88 a0;
   sd s0 96 a0; sd s1 104 a0; sd a1 120 a0; sd a2 128 a0; sd a3 136 a0; sd a4 144 a0; sd a5 152 a0;
   sd a6 160 a0; sd a7 168 a0; sd s2 176 a0; sd s3 184 a0; sd s4 192 a0; sd s5 200 a0; sd s6 208 a0;
   sd s7 216 a0; sd s8 224 a0; sd s9 232 a0; sd s10 240 a0; sd s11 248 a0; sd t3 256 a0; sd t4 264 a0;
   sd t5 272 a0; sd t6 280 a0;
   csrr t0 sscratch; sd t0 112 a0;
   ld sp 8 a0; ld tp 32 a0; ld t0 16 a0; ld t1 0 a0;
   sfence_vma; csrw satp t1; sfence_vma; jalr t0 userret].

Definition userret : list instr :=
  [sfence_vma; csrw satp a0; sfence_vma; li a0 TRAPFRAME;
   ld ra 40 a0; ld sp 48 a0; ld gp 56 a0; ld tp 64 a0; ld t0 72 a0; ld t1 80 a0; ld t2 88 a0;
   ld s0 96 a0; ld s1 104 a0; ld a1 120 a0; ld a2 128 a0; ld a3 136 a0; ld a4 144 a0; ld a5 152 a0;
   ld a6 160 a0; ld a7 168 a0; ld s2 176 a0; ld s3 184 a0; ld s4 192 a0; ld s5 200 a0; ld s6 208 a0;
   ld s7 216 a0; ld s8 224 a0; ld s9 232 a0; ld s10 240 a0; ld s11 248 a0; ld t3 256 a0; ld t4 264 a0;
   ld t5 272 a0; ld t6 280 a0;
   ld a0 112 a0; sret].

(** ** [kernelvec.S]: up to the call of [kerneltrap], and after it *)

Definition kernelvec (kerneltrap next : Z) : list instr :=
  [addi sp sp (-256);
   sd ra 0 sp; sd gp 16 sp; sd tp 24 sp; sd t0 32 sp; sd t1 40 sp; sd t2 48 sp; sd a0 72 sp; sd a1 80 sp;
   sd a2 88 sp; sd a3 96 sp; sd a4 104 sp; sd a5 112 sp; sd a6 120 sp; sd a7 128 sp; sd t3 216 sp;
   sd t4 224 sp; sd t5 232 sp; sd t6 240 sp; call kerneltrap next].

Definition kernelvec_return : list instr :=
  [ld ra 0 sp; ld gp 16 sp; ld t0 32 sp; ld t1 40 sp; ld t2 48 sp; ld a0 72 sp; ld a1 80 sp; ld a2 88 sp;
   ld a3 96 sp; ld a4 104 sp; ld a5 112 sp; ld a6 120 sp; ld a7 128 sp; ld t3 216 sp; ld t4 224 sp;
   ld t5 232 sp; ld t6 240 sp; addi sp sp 256; sret].
