(* ===== verification/Trampoline.v ===== *)
(** * Traps and context switches

    What the assembly code does: [uservec] saves the registers of the user in the
    trap frame and enters the kernel, [userret] restores them; [swtch] saves one
    kernel thread and resumes another; [kernelvec] interrupts kernel code without
    changing its registers. *)

From S2P Require Import Prelude KMonad Memory Riscv Kalloc Vm VmProofs UserVm Spaces Kernel Proc ProcMem Asm.

(** ** Blocks of stores and loads *)

Definition saves (b : reg) (l : list (reg * Z)) : list instr := map (fun x => sd x.1 x.2 b) l.
Definition loads (b : reg) (l : list (reg * Z)) : list instr := map (fun x => ld x.1 x.2 b) l.

(** [m'] is [m] but for the [n] bytes at [pa]. *)
Definition same_out (pa n : Z) (m m' : mem) : Prop := forall x, x < pa \/ pa + n <= x -> rd m' x = rd m x.

(** The words of the [n] bytes at [va] are those at [pa], readable and writable,
    whatever is stored in them. *)
Definition window (m : mem) (stp va pa n : Z) : Prop :=
  0 <= va /\ va + n < 2 ^ 64 /\ va mod 8 = 0 /\
  forall m', same_out pa n m m' -> forall acc o, acc = PTE_R \/ acc = PTE_W -> 0 <= o -> o + 8 <= n -> translate m' stp acc (va + o) = Some (pa + o).

(** Offsets of words in an area of [n] bytes. *)
Definition fields (n : Z) (l : list (reg * Z)) : Prop := Forall (fun x => 0 <= x.2 /\ x.2 + 8 <= n /\ x.2 mod 8 = 0) l.

#[export] Instance fields_dec n l : Decision (fields n l).
Proof. unfold fields; apply _. Defined.

Lemma window_same m m' stp va pa n : window m stp va pa n -> same_out pa n m m' -> window m' stp va pa n.
Proof. intros (H1 & H2 & H3 & H4) Hs; split_and!; auto; intros m'' Hs'; apply H4; intros x Hx; rewrite Hs', Hs; auto. Qed.

Lemma window_addr h acc va pa n b o : window (h_mem h) (h_csr h satp) va pa n -> h_reg h b = va -> acc = PTE_R \/ acc = PTE_W ->
  0 <= o -> o + 8 <= n -> o mod 8 = 0 -> mem_addr h acc b o = Some (pa + o).
Proof.
  intros (H1 & H2 & H3 & H4) Hb Ha Ho Hn Hm; unfold mem_addr; rewrite Hb, u64_small by lia.
  assert ((va + o) mod 8 = 0) as -> by (rewrite Z.add_mod, H3, Hm by lia; done); by apply H4.
Qed.

Definition stores (m : mem) (pa : Z) (f : reg -> Z) (l : list (reg * Z)) : mem := foldl (fun m x => wr64 m (pa + x.2) (f x.1)) m l.

Lemma stores_range pa f lo n l : forall m, Forall (fun x => lo <= x.2 /\ x.2 + 8 <= lo + n) l -> same_out (pa + lo) n m (stores m pa f l).
Proof.
  induction l as [|[r o] l IH]; intros m Hl x Hx; [done|]; apply Forall_cons in Hl as [Ho Hl]; cbn [fst snd] in Ho; cbn [stores foldl fst snd].
  unfold stores in IH; rewrite (IH _ Hl) by lia; apply rd_wr64_out; lia.
Qed.

Lemma stores_out pa f n l m : fields n l -> same_out pa n m (stores m pa f l).
Proof. intros Hl; rewrite <- (Z.add_0_r pa) at 1; apply stores_range; eapply Forall_impl; [done|]; cbn; lia. Qed.

Lemma mem_ok_stores pa f l : forall m, mem_ok m -> mem_ok (stores m pa f l).
Proof. induction l as [|x l IH]; intros m Hm; [done|]; apply (IH (wr64 m (pa + x.2) (f x.1))), mem_ok_wr64, Hm. Qed.

Lemma run_saves va pa n b l k : forall h, window (h_mem h) (h_csr h satp) va pa n -> h_reg h b = va -> fields n l ->
  run (saves b l ++ k) h = run k (set_hmem (stores (h_mem h) pa (h_reg h) l) h).
Proof.
  induction l as [|[r o] l IH]; intros h Hw Hb Hl; [by destruct h|]; apply Forall_cons in Hl as [(H1 & H2 & H3) Hl]; cbn [fst snd] in *.
  cbn [saves map app run step fst snd]; rewrite (window_addr h _ va pa n b o) by auto; cbn [mbind option_bind fst snd].
  fold (saves b l); rewrite IH; [done| |done|done]; cbn [h_mem h_csr set_hmem]; eapply window_same; [done|]; intros x Hx; apply rd_wr64_out; lia.
Qed.

(** The word at an offset is the register stored there last. *)
Lemma stores_get pa f l : forall m r o, (r, o) ∈ l -> NoDup l.*2 -> Forall (fun x => x.2 mod 8 = 0) l -> rd64 (stores m pa f l) (pa + o) = u64 (f r).
Proof.
  induction l as [|[r' o'] l IH]; intros m r o Hin Hn Hl; [by apply not_elem_of_nil in Hin|].
  apply NoDup_cons in Hn as [Hn Hn']; apply Forall_cons in Hl as [Ho' Hl]; cbn [fst snd] in *; cbn [stores foldl fst snd]; apply elem_of_cons in Hin as [[= -> ->]|Hin].
  - assert (forall m, rd64 (foldl (fun m x => wr64 m (pa + x.2) (f x.1)) m l) (pa + o') = rd64 m (pa + o')) as ->; [|apply rd64_wr64_eq].
    clear IH; induction l as [|[r o] l IHl]; intros m'; [done|]; apply Forall_cons in Hl as [Ho Hl]; cbn [foldl fst snd] in *.
    apply not_elem_of_cons in Hn as [Hne Hn]; apply NoDup_cons in Hn' as [_ Hn']; cbn [fst snd] in *; rewrite IHl by done; apply rd64_wr64_ne; Z.div_mod_to_equations; lia.
  - by apply IH.
Qed.

Definition loaded (m : mem) (pa : Z) (l : list (reg * Z)) (h : hart) : hart := foldl (fun h x => set_reg x.1 (rd64 m (pa + x.2)) h) h l.

Lemma loaded_rest m pa l : forall h, h_csr (loaded m pa l h) = h_csr h /\ h_mem (loaded m pa l h) = h_mem h.
Proof. induction l as [|x l IH]; intros h; [done|]; apply (IH (set_reg x.1 (rd64 m (pa + x.2)) h)). Qed.

Lemma loaded_other m pa l r : forall h, r ∉ l.*1 -> h_reg (loaded m pa l h) r = h_reg h r.
Proof.
  induction l as [|x l IH]; intros h Hr; [done|]; cbn in Hr; apply not_elem_of_cons in Hr as [Hx Hr]; cbn [loaded foldl].
  unfold loaded in IH; rewrite IH by done; cbn; by rewrite decide_False.
Qed.

Lemma loaded_get m pa l r o : forall h, (r, o) ∈ l -> NoDup l.*1 -> h_reg (loaded m pa l h) r = rd64 m (pa + o).
Proof.
  induction l as [|x l IH]; intros h Hin Hn; [by apply not_elem_of_nil in Hin|]; cbn in Hn; apply NoDup_cons in Hn as [Hx Hn].
  apply elem_of_cons in Hin as [<-|Hin]; [|by apply IH].
  change (h_reg (loaded m pa l (set_reg r (rd64 m (pa + o)) h)) r = rd64 m (pa + o)); rewrite loaded_other by done; cbn; by rewrite decide_True.
Qed.

Lemma run_loads va pa n b l k : forall h, window (h_mem h) (h_csr h satp) va pa n -> h_reg h b = va -> b ∉ l.*1 -> fields n l ->
  run (loads b l ++ k) h = run k (loaded (h_mem h) pa l h).
Proof.
  induction l as [|[r o] l IH]; intros h Hw Hb Hnb Hl; [done|]; apply Forall_cons in Hl as [(H1 & H2 & H3) Hl]; cbn in H1, H2, H3, Hnb; apply not_elem_of_cons in Hnb as [Hne Hnb].
  cbn [loads map app run step fst snd]; rewrite (window_addr h _ va pa n b o) by auto; cbn [mbind option_bind fst snd].
  fold (loads b l); rewrite IH; [done|done| |done|done]; cbn; by rewrite decide_False.
Qed.

(** ** [trampoline.S] *)

(** The field of the trap frame for a register of the user. *)
Definition tf_reg (r : reg) : trapframe :=
  match r with
  | ra => TF_ra | sp => TF_sp | gp => TF_gp | tp => TF_tp | t0 => TF_t0 | t1 => TF_t1 | t2 => TF_t2 | s0 => TF_s0 | s1 => TF_s1
  | a0 => TF_a0 | a1 => TF_a1 | a2 => TF_a2 | a3 => TF_a3 | a4 => TF_a4 | a5 => TF_a5 | a6 => TF_a6 | a7 => TF_a7
  | s2 => TF_s2 | s3 => TF_s3 | s4 => TF_s4 | s5 => TF_s5 | s6 => TF_s6 | s7 => TF_s7 | s8 => TF_s8 | s9 => TF_s9 | s10 => TF_s10
  | s11 => TF_s11 | t3 => TF_t3 | t4 => TF_t4 | t5 => TF_t5 | t6 => TF_t6
  end.

Definition field_of (r : reg) : Z := tf_off (tf_reg r).

(** All registers but [a0], in the order of the code. *)
Definition user_regs : list (reg * Z) :=
  map (fun r => (r, field_of r)) [ra; sp; gp; tp; t0; t1; t2; s0; s1; a1; a2; a3; a4; a5; a6; a7; s2; s3; s4; s5; s6; s7; s8; s9; s10; s11; t3; t4; t5; t6].

Lemma user_regs_all r : r <> a0 -> (r, field_of r) ∈ user_regs.
Proof. intros Hr; apply (list_elem_of_fmap_2 (fun r => (r, field_of r))); destruct r; try done; repeat constructor. Qed.

Lemma user_regs_fields : fields 4096 user_regs /\ NoDup user_regs.*1 /\ NoDup user_regs.*2 /\ a0 ∉ user_regs.*1 /\ Forall (fun x => x.2 mod 8 = 0 /\ 40 <= x.2 <= 280 /\ x.2 <> 112) user_regs.
Proof. repeat split; apply (bool_decide_unpack _); by vm_compute. Qed.

Lemma uservec_spec h tf userret : window (h_mem h) (h_csr h satp) TRAPFRAME tf 4096 -> let m := h_mem h in
  exists h', run (uservec userret) h = Some (h', Jump (rd64 m (tf + tf_kernel_trap))) /\
    (forall r, rd64 (h_mem h') (tf + field_of r) = u64 (h_reg h r)) /\ same_out (tf + 40) 248 m (h_mem h') /\
    h_reg h' sp = rd64 m (tf + tf_kernel_sp) /\ h_reg h' tp = rd64 m (tf + tf_kernel_hartid) /\ h_reg h' ra = userret /\
    h_csr h' satp = rd64 m (tf + tf_kernel_satp) /\ (mem_ok m -> mem_ok (h_mem h')).
Proof.
  intros Hw m; destruct user_regs_fields as (F1 & F2 & F3 & F4 & F5); set (h1 := set_reg a0 (u64 TRAPFRAME) (set_csr sscratch (h_reg h a0) h)).
  assert (uservec userret = csrw sscratch a0 :: li a0 TRAPFRAME :: saves a0 user_regs ++ csrr t0 sscratch :: saves a0 [(t0, 112)] ++
    loads a0 [(sp, 8); (tp, 32); (t0, 16); (t1, 0)] ++ [sfence_vma; csrw satp t1; sfence_vma; jalr t0 userret]) as -> by reflexivity.
  change (run (csrw sscratch a0 :: li a0 TRAPFRAME :: ?K) h) with (run K h1).
  rewrite (run_saves TRAPFRAME tf 4096) by done; set (m1 := stores (h_mem h1) tf (h_reg h1) user_regs).
  set (h2 := set_reg t0 (h_reg h a0) (set_hmem m1 h1)).
  change (run (csrr t0 sscratch :: ?k) (set_hmem m1 h1)) with (run k h2).
  assert (same_out tf 4096 m m1) as Hs1 by (by apply stores_out); assert (window m1 (h_csr h satp) TRAPFRAME tf 4096) as Hw1 by (by eapply window_same).
  rewrite (run_saves TRAPFRAME tf 4096) by (done || (apply (bool_decide_unpack _); by vm_compute)); set (m2 := stores (h_mem h2) tf (h_reg h2) [(t0, 112)]).
  assert (same_out tf 4096 m1 m2) as Hs2 by (apply stores_out, (bool_decide_unpack _); by vm_compute).
  rewrite (run_loads TRAPFRAME tf 4096); [|by eapply window_same|done|apply (bool_decide_unpack _); by vm_compute|apply (bool_decide_unpack _); by vm_compute].
  assert (same_out (tf + 40) 248 m m2) as Hs.
  { intros x Hx; unfold m2, h2; cbn [stores foldl fst snd h_mem set_reg set_hmem]; rewrite rd_wr64_out by lia.
    apply (stores_range tf _ 40 248); [|done]; eapply Forall_impl; [exact F5|]; cbn; lia. }
  assert (forall o, 0 <= o -> o + 8 <= 40 -> rd64 m2 (tf + o) = rd64 m (tf + o)) as Hk by (intros o Ho Ho'; apply rd64_ext; intros x Hx; apply Hs; lia).
  set (L := [(sp, 8); (tp, 32); (t0, 16); (t1, 0)]) in *; change (h_mem (set_hmem m2 h2)) with m2; set (h4 := loaded m2 tf L (set_hmem m2 h2)).
  assert (forall r o, (r, o) ∈ L -> 0 <= o /\ o + 8 <= 40 -> h_reg h4 r = rd64 m (tf + o)) as HL.
  { intros r o Hin [Ho Ho']; rewrite <- Hk by done; apply loaded_get; [done|apply (bool_decide_unpack _); by vm_compute]. }
  exists (set_reg ra userret (set_csr satp (h_reg h4 t1) h4)); split_and!.
  - change (Some (set_reg ra userret (set_csr satp (h_reg h4 t1) h4), Jump (h_reg h4 t0)) = Some (set_reg ra userret (set_csr satp (h_reg h4 t1) h4), Jump (rd64 m (tf + 16)))).
    by rewrite (HL t0 16) by (by repeat constructor).
  - intros r; change (h_mem (set_reg ra userret (set_csr satp (h_reg h4 t1) h4))) with m2.
    destruct (decide (r = a0)) as [->|Hr]; [unfold m2; cbn [stores foldl fst snd]; apply rd64_wr64_eq|].
    transitivity (rd64 m1 (tf + field_of r)); [apply rd64_wr64_ne; destruct r; try done; unfold field_of, tf_reg, tf_off; cbn [fst snd]; lia|].
    transitivity (u64 (h_reg h1 r)); [|unfold h1; cbn; by rewrite decide_False].
    apply stores_get; [by apply user_regs_all|done|]; eapply Forall_impl; [exact F5|]; cbn; tauto.
  - exact Hs.
  - apply (HL sp 8); [by repeat constructor|lia].
  - apply (HL tp 32); [by repeat constructor|lia].
  - done.
  - apply (HL t1 0); [by repeat constructor|lia].
  - intros Hm; change (mem_ok m2); by apply mem_ok_stores, mem_ok_stores.
Qed.

Lemma userret_spec h tf : window (h_mem h) (h_reg h a0) TRAPFRAME tf 4096 ->
  exists h', run userret h = Some (h', Sret) /\ h_mem h' = h_mem h /\ h_csr h' satp = h_reg h a0 /\
    forall r, h_reg h' r = rd64 (h_mem h) (tf + field_of r).
Proof.
  intros Hw; destruct user_regs_fields as (F1 & F2 & F3 & F4 & F5); set (h1 := set_reg a0 (u64 TRAPFRAME) (set_csr satp (h_reg h a0) h)).
  assert (userret = sfence_vma :: csrw satp a0 :: sfence_vma :: li a0 TRAPFRAME :: loads a0 user_regs ++ [ld a0 112 a0; sret]) as -> by reflexivity.
  change (run (sfence_vma :: csrw satp a0 :: sfence_vma :: li a0 TRAPFRAME :: ?K) h) with (run K h1).
  rewrite (run_loads TRAPFRAME tf 4096) by done; change (h_mem h1) with (h_mem h); set (h2 := loaded (h_mem h) tf user_regs h1).
  destruct (loaded_rest (h_mem h) tf user_regs h1) as [E1 E2]; fold h2 in E1, E2.
  exists (set_reg a0 (rd64 (h_mem h) (tf + 112)) h2); split_and!.
  - cbn [run step]; rewrite (window_addr h2 PTE_R TRAPFRAME tf 4096 a0 112); [done|by rewrite E1, E2| |by left|lia..|done].
    unfold h2; by rewrite loaded_other.
  - exact E2.
  - change (h_csr h2 satp = h_reg h a0); by rewrite E1.
  - intros r; cbn [set_reg h_reg]; destruct (decide (r = a0)) as [->|Hr]; [done|]; apply loaded_get; [by apply user_regs_all|done].
Qed.

Section trap.
Context {L : KernelLayout}.

Lemma next_table_dir m d level va D p : dir_rep m d D -> D (PX level va) = Some p -> page_ok p -> next_table m d level va = Some p.
Proof.
  intros Hd HD Hp; pose proof (page_ok_bounds _ Hp); assert (0 <= p < 2 ^ 56) as Hp' by lia; unfold next_table, pte_addr; cbv zeta.
  assert (rd64 m (d + 8 * PX level va) = leaf_pte p 0) as E by (rewrite Hd, HD by apply PX_range; unfold leaf_pte; by rewrite Z.lor_0_r).
  rewrite !E; rewrite set_leaf_V, leaf_pte_pa by (done || apply Hp || lia); unfold set; rewrite land_flags, leaf_pte_flags by (done || lia); done.
Qed.

(** The root page in [satp]. *)
Lemma satp_root p : page_ok p -> Z.shiftl (Z.land (MAKE_SATP p) (2 ^ 44 - 1)) 12 = p /\ MAKE_SATP p <> 0.
Proof.
  intros Hp; pose proof (page_ok_bounds _ Hp); destruct Hp as [Hal _]; unfold MAKE_SATP; change (2 ^ 44 - 1) with (Z.ones 44).
  rewrite Z.shiftr_div_pow2 by lia; change (2 ^ 12) with 4096; assert (0 <= p / 4096 < 2 ^ 20) as Hr by (split; [apply Z.div_pos; lia|apply Z.div_lt_upper_bound; lia]).
  rewrite Z.land_lor_distr_l, !Z.land_ones by lia; change (SATP_SV39 mod 2 ^ 44) with 0; rewrite Z.lor_0_l, Z.mod_small by lia.
  split; [rewrite Z.shiftl_mul_pow2 by lia; change (2 ^ 12) with 4096; pose proof (Z.div_mod p 4096 ltac:(lia)); lia|].
  intros E; apply Z.lor_eq_0_iff in E as [E _]; done.
Qed.

Lemma translate_leaf m t va acc pa perm : pt_rep m t -> Forall page_ok (pt_pages t) -> 0 <= va < MAXVA ->
  pte_of m t va = leaf_pte pa perm -> 0 <= pa < 2 ^ 56 -> pa mod 4096 = 0 -> 0 <= perm < 1024 ->
  set (leaf_pte pa perm) acc = true -> set perm PTE_U = false -> translate m (MAKE_SATP (pt_root t)) acc va = Some (pa + va mod 4096).
Proof.
  intros [R1 R2 R3 R4 R5] Hpg Hva Hpte Hpa Hal Hperm Hacc Hu; rewrite Forall_forall in Hpg; destruct (satp_root (pt_root t)) as [Er Hr]; [apply Hpg, pages_root|].
  unfold translate; rewrite (proj2 (Z.eqb_neq _ _) Hr), (proj2 (Z.ltb_ge va 0)), (proj2 (Z.leb_gt MAXVA va)) by lia; cbn [orb]; rewrite Er.
  unfold pte_of, leaf_page in Hpte; destruct (pt_l0 t !! (PX 2 va, PX 1 va)) as [p0|] eqn:E0.
  2:{ pose proof (set_leaf_V pa perm) as E; by rewrite <- Hpte in E. }
  destruct (R3 _ _ _ E0) as [p1 E1]; rewrite (next_table_dir m _ 2 va _ p1 R1 E1) by (eapply Hpg, pages_l1; eauto); cbn [mbind option_bind].
  rewrite (next_table_dir m p1 1 va _ p0 (R2 _ _ E1) E0) by (eapply Hpg, pages_l0; eauto); cbn [mbind option_bind].
  unfold pte_addr; rewrite Hpte, set_leaf_V, Hacc, set_leaf_U, Hu, leaf_pte_pa by done; done.
Qed.

(** A page that the table maps for the kernel to read and write can be used through
    its virtual address, whatever is stored in it. *)
Lemma mapped_window s free t va pa perm n : vm_inv s free t -> page_ok pa -> pa ∉ pt_pages t ->
  0 <= perm < 1024 -> set perm PTE_R = true -> set perm PTE_W = true -> set perm PTE_U = false ->
  0 <= va < MAXVA -> va mod 8 = 0 -> 0 <= n -> va mod 4096 + n <= 4096 -> pte_of (k_mem s) t va = leaf_pte pa perm ->
  window (k_mem s) (MAKE_SATP (pt_root t)) va (pa + va mod 4096) n.
Proof.
  intros Hv Hpa Hn Hp HR HW HU Hva Hal Hn0 Hfit Hpte; pose proof (page_ok_bounds _ Hpa) as Hb; change MAXVA with (2 ^ 38) in *.
  pose proof (Z.mod_pos_bound va 4096 ltac:(lia)); split_and!; [lia| |done|]; [pose proof (Z.div_mod va 4096 ltac:(lia)); lia|].
  intros m' Hs acc o Hacc Ho Ho'; assert (same_except [pa] (k_mem s) m') as Hse by (intros x Hx; apply Hs; destruct (Hx pa); [by left|lia|lia]).
  assert (forall p, p ∈ [pa] -> p ∉ pt_pages t) as Hd by (by intros p ->%list_elem_of_singleton).
  assert (Forall page_ok [pa]) as HF by (by constructor).
  assert (0 <= va + o < MAXVA /\ (va + o) / 4096 = va / 4096 /\ (va + o) mod 4096 = va mod 4096 + o) as (H1 & H2 & H3).
  { change MAXVA with (2 ^ 38); Z.div_mod_to_equations; lia. }
  rewrite (translate_leaf m' t _ acc pa perm); [rewrite H3; f_equal; lia| | |done| |lia|apply Hpa|done| |done].
  - by apply (pt_rep_frame s free t [pa]).
  - apply Hv.
  - rewrite (pte_of_frame s free t [pa]) by auto; by rewrite (pte_of_page _ t _ va).
  - assert (0 <= acc < 1024 /\ set perm acc = true) as [Ha1 Ha2] by (by destruct Hacc as [->| ->]).
    unfold set in *; rewrite land_flags, leaf_pte_flags, Z.land_lor_distr_l by (done || lia); destruct (Z.eqb_spec (Z.land perm acc) 0); [done|].
    destruct (Z.eqb_spec (Z.lor (Z.land perm acc) (Z.land PTE_V acc)) 0) as [E|]; [|done]; by apply Z.lor_eq_0_iff in E as [? _].
Qed.

(** The trap frame page of a process is where [uservec] expects it. *)
Lemma pspace_window s free t U tf : pspace s free t U (proc_high tf) -> page_ok tf -> tf ∉ pt_pages t ->
  window (k_mem s) (MAKE_SATP (pt_root t)) TRAPFRAME tf 4096.
Proof.
  intros [Hu Hh _] Htf Hn; assert (TRAPFRAME = TF_PAGE * 4096) as E by (by vm_compute).
  replace tf with (tf + TRAPFRAME mod 4096) at 1 by (change (TRAPFRAME mod 4096) with 0; lia).
  apply (mapped_window s free t TRAPFRAME tf TF_PERM); [apply Hu|done|done|by vm_compute..|].
  rewrite (high_pte _ _ _ _ Hh); [|change MAXVA with (2 ^ 38); rewrite E; unfold TF_PAGE; rewrite ulimit_eq; lia].
  rewrite E, Z.div_mul by done; unfold proc_high; by rewrite lookup_insert_eq.
Qed.

Lemma pmem_window k free A TF X i t U tf : pmem k free A TF X -> A !! i = Some (t, U) -> TF !! i = Some tf ->
  window (k_mem k) (MAKE_SATP (pt_root t)) TRAPFRAME tf 4096.
Proof.
  intros Hp Hi Htf; destruct (pmem_pspace _ _ _ _ _ _ _ _ _ Hp Hi Htf) as [Hs Hok]; apply (pspace_window k free t U); auto.
  intros Hin; pose proof (sp_nodup _ _ _ _ (pm_spaces _ _ _ _ _ Hp)) as Hn; pose proof (pmem_tf_in _ _ _ _ _ _ _ Hp Htf).
  rewrite (all_pages_delete _ _ _ Hi) in Hn; unfold space_pages in Hn; cbn [fst snd] in Hn; rewrite <- !app_assoc in Hn.
  apply NoDup_app in Hn as (_ & Hn & _); apply (Hn tf Hin); rewrite !elem_of_app; auto.
Qed.

(** C9. A trap does not change the registers of the user.  [uservec], entered with the
    registers of a user process and its page table, saves all of them in the trap
    frame of the process, keeps the address spaces of the processes intact, and jumps
    to the kernel's trap handler on the kernel stack, with the hart number and the
    kernel page table of the trap frame.  Whatever the kernel does then, when it
    leaves through [userret] with the page table of the process, the process runs
    with its page table and the registers in its trap frame: a register whose field
    the kernel has not written has the value it had before the trap. *)
Theorem trap_roundtrip k free A TF X i t U tf h userret_addr :
  pmem k free A TF X -> A !! i = Some (t, U) -> TF !! i = Some tf ->
  h_mem h = k_mem k -> h_csr h satp = MAKE_SATP (pt_root t) -> (forall r, 0 <= h_reg h r < 2 ^ 64) ->
  exists h1, run (uservec userret_addr) h = Some (h1, Jump (rd64 (k_mem k) (tf + tf_kernel_trap))) /\
    (h_reg h1 sp = rd64 (k_mem k) (tf + tf_kernel_sp) /\ h_reg h1 tp = rd64 (k_mem k) (tf + tf_kernel_hartid) /\
     h_reg h1 ra = userret_addr /\ h_csr h1 satp = rd64 (k_mem k) (tf + tf_kernel_satp)) /\
    (forall r, rd64 (h_mem h1) (tf + field_of r) = h_reg h r) /\ pmem (set_mem (h_mem h1) k) free A TF X /\
    forall k2 free2 A2 TF2 X2 t2 U2 h2,
      pmem k2 free2 A2 TF2 X2 -> A2 !! i = Some (t2, U2) -> TF2 !! i = Some tf ->
      h_mem h2 = k_mem k2 -> h_reg h2 a0 = MAKE_SATP (pt_root t2) ->
      exists h3, run userret h2 = Some (h3, Sret) /\ h_csr h3 satp = MAKE_SATP (pt_root t2) /\ h_mem h3 = h_mem h2 /\
        forall r, h_reg h3 r = rd64 (k_mem k2) (tf + field_of r) /\
          (rd64 (k_mem k2) (tf + field_of r) = rd64 (h_mem h1) (tf + field_of r) -> h_reg h3 r = h_reg h r).
Proof.
  intros Hp Hi Htf Hm Hsatp Hr; pose proof (pmem_window _ _ _ _ _ _ _ _ _ Hp Hi Htf) as Hw.
  destruct (uservec_spec h tf userret_addr) as (h1 & E1 & Hsv & Hout & Esp & Etp & Era & Ecs & Hok); [by rewrite Hm, Hsatp|]; rewrite Hm in *.
  assert (forall r, rd64 (h_mem h1) (tf + field_of r) = h_reg h r) as Hsaved by (intros r; rewrite Hsv; by apply u64_small).
  exists h1; split_and!; auto.
  - apply (pmem_trapframe k free A TF X i tf); auto; [apply Hok, (pmem_kalloc _ _ _ _ _ Hp)|]; intros x Hx; apply Hout; lia.
  - intros k2 free2 A2 TF2 X2 t2 U2 h2 Hp2 Hi2 Htf2 Hm2 Ha0; pose proof (pmem_window _ _ _ _ _ _ _ _ _ Hp2 Hi2 Htf2) as Hw2.
    destruct (userret_spec h2 tf) as (h3 & E3 & F1 & F2 & F3); [by rewrite Hm2, Ha0|]; rewrite Hm2 in *.
    exists h3; split_and!; auto; [congruence|]; intros r; split; [done|]; intros Er; by rewrite F3, Er.
Qed.
End trap.

(** ** Kernel memory

    The kernel page table maps the memory [P] to itself, whatever is stored in it: no
    page of the table is in [P]. *)
Definition direct (m : mem) (stp : Z) (P : Z -> Prop) : Prop :=
  forall m', (forall x, ~ P x -> rd m' x = rd m x) -> forall acc a, acc = PTE_R \/ acc = PTE_W -> P a -> translate m' stp acc a = Some a.

(** An area of [n] bytes in [P]. *)
Definition area (P : Z -> Prop) (a n : Z) : Prop := 0 <= a /\ a + n < 2 ^ 64 /\ a mod 8 = 0 /\ forall x, a <= x < a + n -> P x.

Lemma direct_window m stp P a n : direct m stp P -> area P a n -> window m stp a a n.
Proof.
  intros Hd (H1 & H2 & H3 & H4); split_and!; auto; intros m' Hs acc o Ha Ho Ho'; apply Hd; auto; [|apply H4; lia].
  intros x Hx; apply Hs; destruct (Z.lt_ge_cases x a); [auto|]; destruct (Z.lt_ge_cases x (a + n)); [by destruct Hx; apply H4|auto].
Qed.

Lemma direct_same m m' stp P a n : direct m stp P -> area P a n -> same_out a n m m' -> direct m' stp P.
Proof.
  intros Hd (_ & _ & _ & H4) Hs m'' Hs'; apply Hd; intros x Hx; rewrite Hs' by done; apply Hs.
  destruct (Z.lt_ge_cases x a); [auto|]; destruct (Z.lt_ge_cases x (a + n)); [by destruct Hx; apply H4|auto].
Qed.

(** ** [swtch.S] *)

Definition callee_saved : list reg := [s0; s1; s2; s3; s4; s5; s6; s7; s8; s9; s10; s11].

(** A [struct context] in memory, and in the registers. *)
Definition rd_context (m : mem) (a : Z) : context := Context (rd64 m a) (rd64 m (a + 8)) (map (fun i => rd64 m (a + (16 + 8 * i))) (zrange 0 12)).
Definition regs_context (h : hart) : context := Context (h_reg h ra) (h_reg h sp) (map (h_reg h) callee_saved).

Definition context_regs : list (reg * Z) := (ra, 0) :: (sp, 8) :: zip callee_saved (map (fun i => 16 + 8 * i) (zrange 0 12)).

Lemma context_regs_ok : fields 112 context_regs /\ NoDup context_regs.*1 /\ NoDup context_regs.*2 /\ a0 ∉ context_regs.*1 /\ a1 ∉ context_regs.*1 /\ Forall (fun x => x.2 mod 8 = 0) context_regs.
Proof. repeat split; apply (bool_decide_unpack _); by vm_compute. Qed.

(** The registers and the context agree when they do word by word. *)
Lemma context_eq m a h : (forall r o, (r, o) ∈ context_regs -> rd64 m (a + o) = h_reg h r) -> rd_context m a = regs_context h.
Proof.
  intros H; assert (Forall (fun x => rd64 m (a + x.2) = h_reg h x.1) context_regs) as HF by (apply Forall_forall; intros [r o]; apply H).
  unfold context_regs, callee_saved in HF; cbn [zrange map zip zip_with] in HF; rewrite !Forall_cons in HF; cbn [fst snd] in HF.
  destruct HF as (E1 & E2 & E3 & E4 & E5 & E6 & E7 & E8 & E9 & E10 & E11 & E12 & E13 & E14 & _); rewrite Z.add_0_r in E1.
  unfold rd_context, regs_context, callee_saved; cbn [zrange map]; by rewrite E1, E2, E3, E4, E5, E6, E7, E8, E9, E10, E11, E12, E13, E14.
Qed.

Lemma swtch_spec h P : let old := h_reg h a0 in let new := h_reg h a1 in let m := h_mem h in
  direct m (h_csr h satp) P -> area P old 112 -> area P new 112 -> old + 112 <= new \/ new + 112 <= old ->
  exists h', run swtch h = Some (h', Jump (x_ra (rd_context m new))) /\
    ((forall r, 0 <= h_reg h r < 2 ^ 64) -> rd_context (h_mem h') old = regs_context h) /\ regs_context h' = rd_context m new /\ same_out old 112 m (h_mem h') /\
    h_csr h' = h_csr h /\ forall r, r ∉ context_regs.*1 -> h_reg h' r = h_reg h r.
Proof.
  intros old new m Hd Ho Hn Hdis; destruct context_regs_ok as (F1 & F2 & F3 & F4 & F5 & F6).
  assert (swtch = saves a0 context_regs ++ loads a1 context_regs ++ [ret_]) as -> by reflexivity.
  rewrite (run_saves old old 112); [|by eapply direct_window|done|done]; set (m1 := stores (h_mem h) old (h_reg h) context_regs).
  assert (same_out old 112 m m1) as Hs by (by apply stores_out).
  rewrite (run_loads new new 112); [|apply (direct_window _ _ P), Hn; by apply (direct_same m _ _ _ old 112)|done..].
  change (h_mem (set_hmem m1 h)) with m1; set (h2 := loaded m1 new context_regs (set_hmem m1 h)).
  destruct (loaded_rest m1 new context_regs (set_hmem m1 h)) as [E1 E2]; fold h2 in E1, E2; cbn [set_hmem h_csr h_mem] in E1, E2.
  assert (regs_context h2 = rd_context m new) as Ec.
  { symmetry; apply context_eq; intros r o Hin; transitivity (rd64 m1 (new + o)); [|symmetry; by apply loaded_get].
    unfold fields in F1; rewrite Forall_forall in F1; destruct (F1 _ Hin) as (? & ? & _); cbn [fst snd] in *; symmetry; apply rd64_ext; intros x Hx; apply Hs; lia. }
  exists h2; split_and!; auto.
  - change (Some (h2, Jump (x_ra (regs_context h2))) = Some (h2, Jump (x_ra (rd_context m new)))); by rewrite Ec.
  - intros Hr; rewrite E2; apply context_eq; intros r o Hin; transitivity (u64 (h_reg h r)); [by apply stores_get|by apply u64_small].
  - intros r Hni; unfold h2; by rewrite loaded_other.
Qed.

(** C10. Context switches.  [swtch] stores the return address, the stack pointer and the
    callee-saved registers in the old context, touches no other memory, and goes on
    with those of the new context.  When any later call, on any hart, switches to
    the old context, and its memory has not been written in between, the thread
    resumes where it called [swtch], with the same stack and callee-saved registers. *)
Theorem swtch_resumes h P : let old := h_reg h a0 in let new := h_reg h a1 in
  direct (h_mem h) (h_csr h satp) P -> area P old 112 -> area P new 112 -> old + 112 <= new \/ new + 112 <= old -> (forall r, 0 <= h_reg h r < 2 ^ 64) ->
  exists h1, run swtch h = Some (h1, Jump (x_ra (rd_context (h_mem h) new))) /\
    rd_context (h_mem h1) old = regs_context h /\ regs_context h1 = rd_context (h_mem h) new /\ same_out old 112 (h_mem h) (h_mem h1) /\ h_csr h1 = h_csr h /\
    forall h2, direct (h_mem h2) (h_csr h2 satp) P -> area P (h_reg h2 a0) 112 -> h_reg h2 a1 = old ->
      h_reg h2 a0 + 112 <= old \/ old + 112 <= h_reg h2 a0 ->
      rd_context (h_mem h2) old = rd_context (h_mem h1) old ->
      exists h3, run swtch h2 = Some (h3, Jump (h_reg h ra)) /\ regs_context h3 = regs_context h.
Proof.
  intros old new Hd Ho Hn Hdis Hr; destruct (swtch_spec h P Hd Ho Hn Hdis) as (h1 & E1 & S1 & L1 & O1 & C1 & _); specialize (S1 Hr); exists h1; split_and!; auto.
  intros h2 Hd2 Ho2 Ea1 Hdis2 Hsame; pose proof (swtch_spec h2 P) as Hsp; cbv zeta in Hsp; rewrite Ea1 in Hsp.
  destruct Hsp as (h3 & E3 & _ & L3 & _); auto; fold old in S1; rewrite Hsame, S1 in *; exists h3; auto.
Qed.

(** ** [kernelvec.S] *)

Definition kernelvec_saved : list (reg * Z) :=
  [(ra, 0); (gp, 16); (tp, 24); (t0, 32); (t1, 40); (t2, 48); (a0, 72); (a1, 80); (a2, 88); (a3, 96); (a4, 104); (a5, 112); (a6, 120); (a7, 128);
   (t3, 216); (t4, 224); (t5, 232); (t6, 240)].
Definition kernelvec_restored : list (reg * Z) :=
  [(ra, 0); (gp, 16); (t0, 32); (t1, 40); (t2, 48); (a0, 72); (a1, 80); (a2, 88); (a3, 96); (a4, 104); (a5, 112); (a6, 120); (a7, 128);
   (t3, 216); (t4, 224); (t5, 232); (t6, 240)].

Lemma kernelvec_regs_ok : fields 256 kernelvec_saved /\ NoDup kernelvec_saved.*2 /\ Forall (fun x => x.2 mod 8 = 0) kernelvec_saved /\
  fields 256 kernelvec_restored /\ NoDup kernelvec_restored.*1 /\ sp ∉ kernelvec_restored.*1 /\ tp ∉ kernelvec_restored.*1 /\
  Forall (fun x => x ∈ kernelvec_saved) kernelvec_restored.
Proof. repeat split; apply (bool_decide_unpack _); by vm_compute. Qed.

(** A register is the stack pointer, the hart number, restored, or callee-saved. *)
Lemma kernelvec_cases r : r = sp \/ r = tp \/ (exists o, (r, o) ∈ kernelvec_restored) \/ (r ∈ callee_saved /\ r ∉ kernelvec_restored.*1).
Proof.
  destruct (decide (r = sp)); [auto|]; destruct (decide (r = tp)); [auto|]; destruct (decide (r ∈ kernelvec_restored.*1)) as [Hin|Hn].
  - apply list_elem_of_fmap in Hin as ([r' o] & -> & Hin); right; right; left; by exists o.
  - do 3 right; split; [|done]; destruct r; try done; try (by repeat constructor); destruct Hn; apply (bool_decide_unpack _); by vm_compute.
Qed.

(** C11. Interrupts in the kernel.  [kernelvec] pushes the registers the C code may
    change on the stack of the interrupted code, wherever the page table maps it
    (the stack of a process is mapped at [KSTACK], that of a scheduler directly),
    and calls [kerneltrap].  If that returns as the calling convention says, with
    the stack pointer and the callee-saved registers unchanged and the stack frame
    mapped as before and untouched, the code after the call puts back every
    register but [tp], which keeps the number of the hart the thread runs on then,
    and returns to the interrupted code. *)
Theorem kernelvec_transparent h pa kerneltrap next : let frame := h_reg h sp - 256 in
  window (h_mem h) (h_csr h satp) frame pa 256 -> (forall r, 0 <= h_reg h r < 2 ^ 64) ->
  exists h1, run (kernelvec kerneltrap next) h = Some (h1, Jump kerneltrap) /\
    h_reg h1 sp = frame /\ h_reg h1 ra = next /\ (forall r, r <> sp -> r <> ra -> h_reg h1 r = h_reg h r) /\ same_out pa 256 (h_mem h) (h_mem h1) /\ h_csr h1 = h_csr h /\
    forall h2, window (h_mem h2) (h_csr h2 satp) frame pa 256 -> h_reg h2 sp = frame -> (forall r, r ∈ callee_saved -> h_reg h2 r = h_reg h1 r) ->
      (forall x, pa <= x < pa + 256 -> rd (h_mem h2) x = rd (h_mem h1) x) ->
      exists h3, run kernelvec_return h2 = Some (h3, Sret) /\ h_mem h3 = h_mem h2 /\ h_csr h3 = h_csr h2 /\
        h_reg h3 tp = h_reg h2 tp /\ forall r, r <> tp -> h_reg h3 r = h_reg h r.
Proof.
  intros frame Hw Hr; destruct kernelvec_regs_ok as (F1 & F2 & F3 & F4 & F5 & F6 & F7 & F8).
  set (h0 := set_reg sp (u64 (h_reg h sp + -256)) h).
  assert (h_reg h0 sp = frame) as E0 by (cbn; apply u64_small; destruct Hw as (? & ? & _); unfold frame in *; lia).
  assert (kernelvec kerneltrap next = addi sp sp (-256) :: saves sp kernelvec_saved ++ [call kerneltrap next]) as -> by reflexivity.
  change (run (addi sp sp (-256) :: ?K) h) with (run K h0).
  rewrite (run_saves frame pa 256) by done; set (m1 := stores (h_mem h0) pa (h_reg h0) kernelvec_saved).
  assert (same_out pa 256 (h_mem h) m1) as Hs by (by apply stores_out).
  exists (set_reg ra next (set_hmem m1 h0)); split_and!; auto.
  - intros r H1 H2; cbn; by rewrite !decide_False.
  - intros h2 Hw2 Esp Hcs Hfr.
    assert (kernelvec_return = loads sp kernelvec_restored ++ [addi sp sp 256; sret]) as -> by reflexivity.
    rewrite (run_loads frame pa 256) by done; set (h3 := loaded (h_mem h2) pa kernelvec_restored h2).
    destruct (loaded_rest (h_mem h2) pa kernelvec_restored h2) as [E1 E2]; fold h3 in E1, E2.
    exists (set_reg sp (u64 (h_reg h3 sp + 256)) h3); split_and!; auto.
    intros r Hr'; cbn [set_reg h_reg]; destruct (kernelvec_cases r) as [->|[->|[(o & Hin)|[Hin Hni]]]]; [| done | |].
    + unfold h3; rewrite decide_True, loaded_other, Esp by done; unfold frame; rewrite u64_small; [lia|]; specialize (Hr sp); lia.
    + rewrite decide_False by (intros ->; apply F6; apply list_elem_of_fmap; by exists (sp, o)).
      unfold h3; rewrite (loaded_get _ _ _ _ o) by done; rewrite Forall_forall in F8; pose proof (F8 _ Hin) as Hin'.
      unfold fields in F1; rewrite Forall_forall in F1; destruct (F1 _ Hin') as (? & ? & _); cbn [fst snd] in *.
      transitivity (rd64 m1 (pa + o)); [apply rd64_ext; intros x Hx; rewrite Hfr by lia; done|].
      transitivity (u64 (h_reg h0 r)); [by apply stores_get|]; cbn; rewrite decide_False by (intros ->; apply F6; apply list_elem_of_fmap; by exists (sp, o)); by apply u64_small.
    + assert (r <> sp /\ r <> ra) as [N1 N2] by (split; intros ->; revert Hin; apply (bool_decide_unpack _); by vm_compute).
      rewrite decide_False by done; unfold h3; rewrite loaded_other, Hcs by done; cbn; by rewrite !decide_False.
Qed.

(** ** [entry.S] *)

(** Each hart starts on a stack of its own in [stack0]. *)
Lemma entry_stack h stack0 start next : 0 <= h_csr h mhartid < NCPU -> 0 <= stack0 -> stack0 + 4096 * NCPU < 2 ^ 64 ->
  exists h', run (_entry stack0 start next) h = Some (h', Jump start) /\ h_reg h' sp = stack0 + (h_csr h mhartid + 1) * 4096 /\ h_mem h' = h_mem h.
Proof.
  intros Hi Hs Hmax; change NCPU with 8 in *; eexists; split_and!; [reflexivity| |reflexivity]; set (i := h_csr h mhartid) in *.
  change (u64 (u64 stack0 + u64 (u64 (1024 * 4) * u64 (i + 1))) = stack0 + (i + 1) * 4096); rewrite (u64_small stack0), (u64_small (1024 * 4)), (u64_small (i + 1)) by lia.
  rewrite (u64_small (1024 * 4 * (i + 1))), u64_small by lia; lia.
Qed.

(** ** Examples *)

(** A hart before paging is switched on, with kernel memory below 1 Mbyte. *)
Definition bare (f : reg -> Z) (m : mem) : hart := Hart f (fun _ => 0) m.
Definition low (x : Z) : Prop := 0 <= x < 2 ^ 20.

Lemma bare_direct m : direct m 0 low.
Proof. by intros m' _ acc a _ _. Qed.

Lemma low_area a n : 0 <= a -> a + n <= 2 ^ 20 -> a mod 8 = 0 -> area low a n.
Proof. intros; split_and!; [lia..|done|unfold low; lia]. Qed.

(** A thread with its registers at 7 switches from the context at 4096 to the one at
    8192, and another one switches back. *)
Definition thread7 : hart := bare (fun r => if decide (r = a0) then 4096 else if decide (r = a1) then 8192 else 7) ∅.

Lemma swtch_resumes_witness : exists h1 h3, run swtch thread7 = Some (h1, Jump 0) /\
  run swtch (set_reg a1 4096 (set_reg a0 8192 h1)) = Some (h3, Jump 7) /\ regs_context h3 = Context 7 7 (replicate 12 7).
Proof.
  destruct (swtch_resumes thread7 low) as (h1 & E1 & S1 & L1 & O1 & Ec & Hres).
  - apply bare_direct.
  - apply low_area; by vm_compute.
  - apply low_area; by vm_compute.
  - by left; vm_compute.
  - intros r; cbn; repeat case_decide; lia.
  - exists h1.
    destruct (Hres (set_reg a1 4096 (set_reg a0 8192 h1))) as (h3 & E3 & C3).
    + cbn; rewrite Ec; apply bare_direct.
    + apply low_area; by vm_compute.
    + done.
    + by right; vm_compute.
    + done.
    + exists h3; split_and!; [exact E1|exact E3|exact C3].
Defined.
