(* ===== verification/ProcLife.v ===== *)
(** * The life of a process

    [procs_inv] ties the process table to the memory of [ProcMem.v]: a slot in
    use has an address space and a trap frame of its own, an unused slot holds
    nothing.  [allocproc] and [freeproc] keep it and lose no page, and [kfork]
    makes a copy of the calling process. *)

From S2P Require Import Prelude KMonad Memory Riscv Kalloc Vm VmProofs UserVm UserMem UserLife CString Sleeplock Bio Session FsLayout Log Fs Kernel Spaces File Proc ProcMem.

Create Rewrite HintDb ksys.

(** ** Slots of the table *)

Lemma proc_at_upd_eq i f s : 0 <= i < Z.of_nat (length (y_proc s)) -> proc_at (upd_proc i f s) i = f (proc_at s i).
Proof. intros; unfold proc_at, upd_proc; cbn [y_proc set_procs]; by rewrite aget_aset_eq. Qed.
Lemma proc_at_upd_ne i j f s : 0 <= i -> 0 <= j -> i <> j -> proc_at (upd_proc i f s) j = proc_at s j.
Proof. intros; unfold proc_at, upd_proc; cbn [y_proc set_procs]; by rewrite aget_aset_ne. Qed.
Lemma length_upd_proc i f s : length (y_proc (upd_proc i f s)) = length (y_proc s).
Proof. unfold upd_proc; cbn [y_proc set_procs]; apply length_aset. Qed.

Lemma upd_proc_compose i f g s :
  0 <= i < Z.of_nat (length (y_proc s)) -> upd_proc i g (upd_proc i f s) = upd_proc i (fun p => g (f p)) s.
Proof.
  intros Hi; unfold upd_proc at 1; rewrite proc_at_upd_eq by done; unfold upd_proc, set_procs; cbn [y_proc y_fs y_ftable y_pipes y_initproc y_nextpid y_ticks y_devsw y_cons y_txbusy y_vdisk y_mach].
  f_equal; unfold aset; by rewrite list_insert_insert_eq.
Qed.

Lemma y_proc_set_kmem k s : y_proc (set_kmem k s) = y_proc s.
Proof. done. Qed.
Lemma y_proc_set_nextpid n s : y_proc (set_nextpid n s) = y_proc s.
Proof. done. Qed.
Lemma proc_at_set_nextpid n s i : proc_at (set_nextpid n s) i = proc_at s i.
Proof. done. Qed.
#[export] Hint Rewrite y_proc_set_kmem y_proc_set_nextpid proc_at_set_nextpid proc_at_set_kmem length_upd_proc : ksys.

Lemma upd_proc_set_kmem i f k s : upd_proc i f (set_kmem k s) = set_kmem k (upd_proc i f s).
Proof. done. Qed.
Lemma upd_proc_set_nextpid i f n s : upd_proc i f (set_nextpid n s) = set_nextpid n (upd_proc i f s).
Proof. done. Qed.
Lemma set_kmem_id s : set_kmem (kmem_of s) s = s.
Proof. destruct s as [[] ? ? ? ? ? ? ? ? ? ? ?]; done. Qed.
Lemma set_kmem_twice k k' s : set_kmem k (set_kmem k' s) = set_kmem k s.
Proof. done. Qed.

(** The locks a process holds while it works on others. *)
Definition no_proc_locks (c : ctx) : Prop :=
  (forall i, PROCLOCK i ∉ c_held c) /\ (KMEM ∉ c_held c) /\ (PIDLOCK ∉ c_held c).

(** What [freeproc] leaves of a slot. *)
Definition reset_slot (p : proc) : proc :=
  Proc UNUSED None 0 0 0 NULL (p_kstack p) 0 0 0 (p_context p) (p_ofile p) (p_cwd p) (aset (p_name p) 0 0).

Section life.
Context {L : KernelLayout} {Y : KernelSyms}.

(** The memory part of [freeproc]. *)
Definition free_memory (tf pt sz : Z) : M kmem unit :=
  do! (if negb (tf =? 0) then kfree tf else ret tt);
  if negb (pt =? 0) then proc_freepagetable pt sz else ret tt.

Lemma wp_liftm_if (b : bool) (m : M kmem unit) c s (Φ : unit -> ctx -> ksys -> Prop) :
  wp (if b then m else ret tt) c (kmem_of s) (fun a c' k' => Φ a c' (set_kmem k' s)) ->
  wp (if b then liftm m else ret tt) c s Φ.
Proof.
  destruct b; intros H; [apply wp_zoom; exact H|]; apply wp_ret.
  change (Φ tt c (lset (lget (S := kmem) s) s)) in H; by rewrite lset_lget in H.
Qed.

Lemma freeproc_split i c s Φ :
  0 <= i < Z.of_nat (length (y_proc s)) ->
  wp (free_memory (p_trapframe (proc_at s i)) (p_pagetable (proc_at s i)) (p_sz (proc_at s i))) c (kmem_of s)
    (fun _ c' k' => Φ tt c' (set_kmem k' (upd_proc i reset_slot s))) ->
  wp (freeproc i) c s Φ.
Proof.
  intros Hi Hw; unfold freeproc, getp, modp, free_memory in *; apply wp_bind_inv in Hw.
  wp_step; wp_step; set (p := proc_at s i) in *; wp_step; apply wp_liftm_if; eapply wp_mono; [exact Hw|].
  intros [] c1 k1 Hw1; cbn beta in Hw1; wp_step; wp_step; wp_step; apply wp_liftm_if.
  eapply wp_mono; [exact Hw1|]; intros [] c2 k2 Hw2; wp_steps.
  rewrite !upd_proc_set_kmem, set_kmem_twice, !upd_proc_compose by (rewrite ?length_upd_proc; exact Hi); exact Hw2.
Qed.

Lemma freeproc_panic i c s e :
  panics (free_memory (p_trapframe (proc_at s i)) (p_pagetable (proc_at s i)) (p_sz (proc_at s i))) c (kmem_of s) e ->
  panics (freeproc i) c s e.
Proof.
  unfold panics, freeproc, getp, modp, free_memory; set (p := proc_at s i); intros H; unfold gets, modify.
  unfold bind at 1; fold p; unfold bind in H.
  assert (forall (b : bool) m c t, (if b then liftm m else ret tt) c t =
    match (if b then m else ret tt) c (kmem_of t) with
    | Ret a c' k w => Ret a c' (set_kmem k t) w | Panic e => Panic e | Block ch c' k => Block ch c' (set_kmem k t) | Diverge => Diverge
    end) as Hif.
  { intros [] m c0 t; [done|]; change (Ret tt c0 t [] = Ret tt c0 (set_kmem (kmem_of t) t) []); by rewrite set_kmem_id. }
  unfold bind at 1; rewrite Hif; destruct (_ c (kmem_of s)) as [[] c1 k1 w1| | |]; [|by injection H as ->|done..].
  unfold bind at 1, bind at 1; rewrite Hif; change (kmem_of (upd_proc i (set_trapframe 0) (set_kmem k1 s))) with k1.
  by destruct (_ c1 k1) as [[] c2 k2 w2| | |]; [|injection H as ->|..].
Qed.

(** ** The invariant *)

Record live_proc (p : proc) (t : ptree) (U : umap) : Prop := {
  lp_state : p_state p <> UNUSED;
  lp_root : p_pagetable p = pt_root t;
  lp_sz : 0 <= p_sz p <= ulimit * 4096;
  lp_top v : pgup (p_sz p) <= v -> U !! v = None;
  lp_ofile : length (p_ofile p) = Z.to_nat NOFILE
}.

Record dead_proc (p : proc) : Prop := {
  dp_state : p_state p = UNUSED;
  dp_trapframe : p_trapframe p = 0;
  dp_pagetable : p_pagetable p = 0;
  dp_sz : p_sz p = 0;
  dp_ofile : p_ofile p = replicate (Z.to_nat NOFILE) NULL
}.

Record procs_inv (s : ksys) (free : list Z) (A : gmap Z (ptree * umap)) (TF : gmap Z Z) (X : list Z) : Prop := {
  pv_mem : pmem (kmem_of s) free A TF X;
  pv_len : length (y_proc s) = Z.to_nat NPROC;
  pv_live i t U : A !! i = Some (t, U) ->
    0 <= i < NPROC /\ live_proc (proc_at s i) t U /\ TF !! i = Some (p_trapframe (proc_at s i));
  pv_dead i : 0 <= i < NPROC -> A !! i = None -> dead_proc (proc_at s i)
}.

(** A step that changes the slots of [A] at most at [i]. *)
Lemma procs_inv_slot s s' free free' A A' TF TF' X i :
  procs_inv s free A TF X -> pmem (kmem_of s') free' A' TF' X -> length (y_proc s') = Z.to_nat NPROC -> 0 <= i < NPROC ->
  (forall j, 0 <= j < NPROC -> j <> i -> proc_at s' j = proc_at s j /\ A' !! j = A !! j /\ TF' !! j = TF !! j) ->
  (forall j x, A' !! j = Some x -> 0 <= j < NPROC) ->
  match A' !! i with
  | Some (t, U) => live_proc (proc_at s' i) t U /\ TF' !! i = Some (p_trapframe (proc_at s' i))
  | None => dead_proc (proc_at s' i)
  end ->
  procs_inv s' free' A' TF' X.
Proof.
  intros Hinv Hp Hlen Hi Hj HA Hslot; split; [done|done| |].
  - intros j t U Hjt; pose proof (HA _ _ Hjt); split; [done|]; destruct (decide (j = i)) as [->|Hne]; [by rewrite Hjt in Hslot|].
    destruct (Hj j) as (-> & HAj & ->); auto; rewrite HAj in Hjt; by apply (pv_live _ _ _ _ _ Hinv) in Hjt as (_ & ? & ?).
  - intros j Hr Hjn; destruct (decide (j = i)) as [->|Hne]; [by rewrite Hjn in Hslot|].
    destruct (Hj j) as (-> & HAj & _); auto; rewrite HAj in Hjn; by eapply pv_dead.
Qed.

Lemma pv_range s free A TF X j x : procs_inv s free A TF X -> A !! j = Some x -> 0 <= j < NPROC.
Proof. intros H; destruct x as [t U]; intros Hj; by apply (pv_live _ _ _ _ _ H) in Hj as [? _]. Qed.

(** ** [freeproc] *)

(** The trap frame is nobody else's page. *)
Lemma tf_fresh k free A TF X i t U tf :
  pmem k free A TF X -> A !! i = Some (t, U) -> TF !! i = Some tf ->
  fresh_page tf free t U /\ NoDup (pt_pages t ++ upages U ++ tf :: free).
Proof.
  intros Hp Hi Hti; destruct (pmem_pspace _ _ _ _ _ _ _ _ _ Hp Hi Hti) as [Hps Htf].
  destruct (pmem_nodup _ _ _ _ _ (pmem_del _ _ _ _ _ _ _ _ _ Hp Hi Hti)) as [Hn _].
  cbn [app] in Hn; apply NoDup_cons in Hn as [Hn _]; rewrite !elem_of_app in Hn; split; [split_and!; auto; tauto|].
  rewrite !app_assoc, <- Permutation_middle, <- app_assoc; constructor; [rewrite !elem_of_app; tauto|apply Hps].
Qed.

Lemma free_memory_spec k free A TF X i t U tf sz c :
  pmem k free A TF X -> A !! i = Some (t, U) -> TF !! i = Some tf -> KMEM ∉ c_held c ->
  0 <= sz <= ulimit * 4096 -> (forall v, pgup sz <= v -> U !! v = None) ->
  wp (free_memory tf (pt_root t) sz) c k (fun _ c' k' => c' = c /\ exists free',
    pmem k' free' (delete i A) (delete i TF) X /\ free' ≡ₚ tf :: pt_pages t ++ upages U ++ free /\
    same_except (tf :: pt_pages t ++ upages U) (k_mem k) (k_mem k')).
Proof.
  intros Hp Hi Hti Hc Hsz Htop; destruct (pmem_pspace _ _ _ _ _ _ _ _ _ Hp Hi Hti) as [Hps Htf].
  pose proof (page_ok_bounds _ Htf); unfold free_memory; destruct (Z.eqb_spec tf 0) as [|_]; [lia|].
  pose proof (pmem_del _ _ _ _ _ _ _ _ _ Hp Hi Hti) as Hd; destruct (tf_fresh _ _ _ _ _ _ _ _ _ Hp Hi Hti) as [Hfr Hnd]; cbn [negb]; wp_step.
  eapply wp_mono; [by apply (pmem_kfree_spec k free (delete i A) (delete i TF) (pt_pages t ++ upages U ++ X) tf)|].
  intros _ c' k1 (-> & Hp1 & Ho1).
  assert (pspace k1 (tf :: free) t U (proc_high tf)) as Hps1.
  { eapply (pspace_move k k1 free (tf :: free) t U _ tf); auto; [apply Hfr|by eapply pmem_kalloc]. }
  assert (pt_root t <> 0) as Hr.
  { destruct (vi_ok _ _ _ _ (us_inv _ _ _ _ (ps_space _ _ _ _ _ Hps1)) (pages_root t)) as [_ [Hlo _]].
    pose proof kend_range; change KERNBASE with 2147483648 in *; lia. }
  destruct (Z.eqb_spec (pt_root t) 0) as [|_]; [done|]; cbn [negb].
  eapply wp_mono; [by eapply (pmem_freetable_spec k1 (tf :: free))|].
  intros _ c' k2 (-> & f2 & Hp2 & Hf2 & Hm2); split; [done|]; exists f2; split_and!; auto.
  - by rewrite Hf2, app_assoc, <- Permutation_middle, <- app_assoc.
  - apply (same_except_trans _ _ (k_mem k1)); [apply (only_page_same tf); [elt|done]|].
    eapply same_except_mono; [|exact Hm2]; intros p; elt.
Qed.

(** The slot of a process goes back; its files must be closed. *)
Lemma freeproc_spec s free A TF X i t U c :
  procs_inv s free A TF X -> A !! i = Some (t, U) -> KMEM ∉ c_held c ->
  p_ofile (proc_at s i) = replicate (Z.to_nat NOFILE) NULL ->
  wp (freeproc i) c s (fun _ c' s' => c' = c /\ exists k' free',
    s' = set_kmem k' (upd_proc i reset_slot s) /\ procs_inv s' free' (delete i A) (delete i TF) X /\
    free' ≡ₚ p_trapframe (proc_at s i) :: pt_pages t ++ upages U ++ free /\
    same_except (p_trapframe (proc_at s i) :: pt_pages t ++ upages U) (k_mem (kmem_of s)) (k_mem k')).
Proof.
  intros Hinv Hi Hc Hof; destruct (pv_live _ _ _ _ _ Hinv _ _ _ Hi) as (Hr & [L1 L2 L3 L4 L5] & Hti).
  pose proof (pv_len _ _ _ _ _ Hinv) as Hlen; change NPROC with 64 in *.
  assert (0 <= i < Z.of_nat (length (y_proc s))) as Hil by (rewrite Hlen; lia).
  apply freeproc_split; [done|]; rewrite L2.
  eapply wp_mono; [eapply (free_memory_spec (kmem_of s) free A TF X i); eauto; apply Hinv|].
  intros _ c' k' (-> & free' & Hp & Hf & Hm); split; [done|]; exists k', free'; split_and!; auto.
  apply (procs_inv_slot s _ free free' A (delete i A) TF (delete i TF) X i); auto.
  - by autorewrite with ksys.
  - intros j Hj Hne; rewrite !lookup_delete_ne by done; split_and!; auto; autorewrite with ksys.
    by rewrite proc_at_upd_ne by (lia || done).
  - intros j x [_ Hj]%lookup_delete_Some; by eapply pv_range.
  - rewrite lookup_delete_eq; autorewrite with ksys; rewrite proc_at_upd_eq by done; by split.
Qed.

(** ** [allocproc] *)

Definition slot_free (i : Z) : M ksys (option Z) :=
  do! acquire (PROCLOCK i);
  let! p := getp i in
  if bool_decide (p_state p = UNUSED) then ret (Some i)
  else
    do! release (PROCLOCK i);
    ret None.

Lemma find_slot_spec s c :
  no_proc_locks c ->
  wp (for_find (zrange 0 (Z.to_nat NPROC)) slot_free) c s (fun r c' s' => s' = s /\
    match r with
    | Some i => 0 <= i < NPROC /\ p_state (proc_at s i) = UNUSED /\ c' = Ctx (c_pid c) (PROCLOCK i :: c_held c)
    | None => c' = c /\ forall i, 0 <= i < NPROC -> p_state (proc_at s i) <> UNUSED
    end).
Proof.
  intros (Hl & _); change NPROC with 64.
  apply (wp_find_range 0 64 slot_free (fun k c' s' => s' = s /\ c' = c /\ forall i, 0 <= i < k -> p_state (proc_at s i) <> UNUSED)).
  - lia.
  - split_and!; auto; lia.
  - intros k c' s' Hk (-> & -> & Hn); unfold slot_free, getp; wp_step; apply wp_acquire; [apply Hl|]; wp_steps.
    case_bool_decide as Hs; wp_steps; [split_and!; auto; lia|].
    split_and!; [done|by destruct c|]; intros i Hi; destruct (decide (i = k)) as [->|]; [done|apply Hn; lia].
  - intros c' s' (-> & -> & Hn); auto.
Qed.

Definition alloc_slot (pid tf pt : Z) (p : proc) : proc :=
  set_context (Context forkret_addr (u64 (p_kstack p + PGSIZE)) (replicate 12 0))
    (set_pagetable pt (set_trapframe tf (set_state USED (set_pid pid p)))).

(** A process identifier for a slot, when its memory could not be had. *)
Lemma unused_slot s free free' A TF X i k' n :
  procs_inv s free A TF X -> pmem k' free' A TF X -> 0 <= i < NPROC -> A !! i = None ->
  procs_inv (set_kmem k' (set_nextpid n (upd_proc i reset_slot s))) free' A TF X.
Proof.
  intros Hinv Hp Hi HA; pose proof (pv_len _ _ _ _ _ Hinv) as Hlen; change NPROC with 64 in *.
  apply (procs_inv_slot s _ free free' A A TF TF X i); auto.
  - by autorewrite with ksys.
  - intros j Hj Hne; split_and!; auto; by apply proc_at_upd_ne; [lia|lia|].
  - intros j x Hj; by eapply pv_range.
  - rewrite HA; autorewrite with ksys; rewrite proc_at_upd_eq by (rewrite Hlen; lia); destruct (pv_dead _ _ _ _ _ Hinv i Hi HA); by split.
Qed.

(** The result of [allocproc]: a slot with a trap frame and an empty address
    space, and its lock held; or nothing, with all pages given back. *)
Definition allocated (s : ksys) (free : list Z) (A : gmap Z (ptree * umap)) (TF : gmap Z Z) (X : list Z) (c : ctx)
    (r : Z) (c' : ctx) (s' : ksys) : Prop :=
  exists k' free', same_except free (k_mem (kmem_of s)) (k_mem k') /\
  ((r = NULL /\ c' = c /\ procs_inv s' free' A TF X /\ free' ≡ₚ free /\
    (s' = s \/ exists i, 0 <= i < NPROC /\ A !! i = None /\ s' = set_kmem k' (set_nextpid (s32 (y_nextpid s + 1)) (upd_proc i reset_slot s)))) \/
   (exists t tf, 0 <= r < NPROC /\ A !! r = None /\ c' = Ctx (c_pid c) (PROCLOCK r :: c_held c) /\
    s' = set_kmem k' (set_nextpid (s32 (y_nextpid s + 1)) (upd_proc r (alloc_slot (y_nextpid s) tf (pt_root t)) s)) /\
    pmem k' free' (<[r := (t, ∅)]> A) (<[r := tf]> TF) X /\ tf :: pt_pages t ++ free' ≡ₚ free)).

(** Giving up: the slot [i], with trap frame but without page table, goes back. *)
Lemma alloc_fail s free A TF X c i g k1 :
  let n := s32 (y_nextpid s + 1) in let c1 := Ctx (c_pid c) (PROCLOCK i :: c_held c) in let p := g (proc_at s i) in
  procs_inv s free A TF X -> no_proc_locks c -> 0 <= i < NPROC -> A !! i = None ->
  (forall q, reset_slot (g q) = reset_slot q) -> p_pagetable p = 0 ->
  wp (if negb (p_trapframe p =? 0) then kfree (p_trapframe p) else ret tt) c1 k1 (fun _ c' k' => c' = c1 /\ exists free',
    pmem k' free' A TF X /\ free' ≡ₚ free /\ same_except free (k_mem (kmem_of s)) (k_mem k')) ->
  wp (do! freeproc i; do! release (PROCLOCK i); ret NULL) c1 (set_kmem k1 (set_nextpid n (upd_proc i g s))) (allocated s free A TF X c).
Proof.
  intros n c1 p Hinv Hl Hi HA Hg Hpt Hw; pose proof (pv_len _ _ _ _ _ Hinv) as Hlen; change NPROC with 64 in *.
  assert (0 <= i < Z.of_nat (length (y_proc s))) as Hil by (rewrite Hlen; lia).
  wp_step; apply freeproc_split; [by autorewrite with ksys|]; autorewrite with ksys; rewrite proc_at_upd_eq by done; fold p.
  unfold free_memory; rewrite Hpt; cbn [Z.eqb negb]; wp_step.
  eapply wp_mono; [exact Hw|]; intros _ c' k' (-> & free' & Hp & Hf & Hm); wp_step; wp_step.
  eapply wp_release; [reflexivity|apply Hl|]; wp_steps.
  assert (set_kmem k' (upd_proc i reset_slot (set_kmem k1 (set_nextpid n (upd_proc i g s)))) =
          set_kmem k' (set_nextpid n (upd_proc i reset_slot s))) as ->.
  { rewrite upd_proc_set_kmem, set_kmem_twice; f_equal; rewrite upd_proc_set_nextpid; f_equal.
    rewrite upd_proc_compose by done; unfold upd_proc; by rewrite Hg. }
  exists k', free'; split; [done|left]; split_and!; [done|by destruct c|by apply unused_slot with free|done|].
  right; exists i; auto.
Qed.

Lemma allocproc_spec s free A TF X c :
  procs_inv s free A TF X -> no_proc_locks c ->
  wp allocproc c s (allocated s free A TF X c).
Proof.
  intros Hinv Hl; destruct (Hl) as (Hlp & Hlk & Hlpid); unfold allocproc; wp_step; eapply wp_mono; [by apply find_slot_spec|].
  intros [i|] c' s' [-> Hr]; [|destruct Hr as [-> _]; wp_steps; exists (kmem_of s), free; split; [apply same_except_refl|left; auto 8]].
  destruct Hr as (Hi & Hun & ->); pose proof (pv_len _ _ _ _ _ Hinv) as Hlen; pose proof (pv_mem _ _ _ _ _ Hinv) as Hp.
  assert (A !! i = None) as HA.
  { destruct (A !! i) as [[t U]|] eqn:E; [|done]; destruct (pv_live _ _ _ _ _ Hinv _ _ _ E) as (_ & [? _] & _); done. }
  assert (0 <= i < Z.of_nat (length (y_proc s))) as Hil by (rewrite Hlen; change NPROC with 64 in *; lia).
  unfold allocpid, modp; do 3 wp_step; apply wp_bind, wp_gets; do 2 wp_step; wp_step; eapply wp_release; [reflexivity|lock_tac|].
  cbn [c_pid]; do 5 wp_step; rewrite !upd_proc_set_nextpid, upd_proc_compose by done.
  set (n := s32 (y_nextpid s + 1)); assert (KMEM ∉ PROCLOCK i :: c_held c) as Hk by lock_tac.
  wp_step; apply wp_zoom; eapply wp_mono; [by apply (pmem_kalloc_spec (kmem_of s) free A TF X)|].
  intros tf c' k1 [-> Htf]; wp_step; wp_step; change (lset k1) with (set_kmem k1).
  rewrite upd_proc_set_kmem, upd_proc_set_nextpid, upd_proc_compose by done.
  destruct (pv_dead _ _ _ _ _ Hinv i Hi HA) as [_ Dt Dp _ _].
  destruct Htf as [[-> ->]|(f1 & -> & Hpa & Hne & Hp1 & Ho1)].
  { apply alloc_fail; auto; cbn; wp_steps; split; [done|]; exists free; split_and!; auto; apply same_except_refl. }
  destruct (Z.eqb_spec tf 0) as [|_]; [done|]; wp_step; apply wp_zoom.
  eapply wp_mono; [by apply (pmem_newtable_spec k1 f1 A TF X tf i)|].
  intros pt c' k2 (-> & f2 & Hm2 & Hr); wp_step; wp_step; change (lset k2) with (set_kmem k2).
  rewrite set_kmem_twice, upd_proc_set_kmem, upd_proc_set_nextpid, upd_proc_compose by done.
  assert (same_except (tf :: f1) (k_mem (kmem_of s)) (k_mem k2)) as Hm.
  { apply (same_except_trans _ _ (k_mem k1)); [apply (only_page_same tf); [elt|done]|].
    eapply same_except_mono; [|exact Hm2]; intros p; elt. }
  destruct Hr as [(-> & Hp2 & Hf2)|(t & -> & Hpt & Hp2 & Hf2)].
  - apply alloc_fail; auto; cbn [set_pagetable set_trapframe p_trapframe]; destruct (Z.eqb_spec tf 0) as [|_]; [done|]; cbn [negb].
    eapply wp_mono; [by apply (pmem_kfree_spec k2 f2 A TF X tf)|]; intros _ c' k3 (-> & Hp3 & Ho3); split; [done|].
    exists (tf :: f2); split_and!; [done|by rewrite Hf2|].
    apply (same_except_trans _ _ (k_mem k2)); [done|]; apply (only_page_same tf); [elt|done].
  - destruct (Z.eqb_spec (pt_root t) 0) as [|_]; [done|]; wp_steps; rewrite upd_proc_set_kmem, upd_proc_set_nextpid, upd_proc_compose by done.
    exists k2, f2; split; [done|right]; exists t, tf; split; [done|]; split; [done|].
    split; [done|]; split; [done|]; split; [done|by rewrite Hf2].
Qed.
End life.
