(* ===== verification/Fork.v ===== *)
(** * [kfork] copies a process

    The child has the memory, the registers (but for [a0]), the open files, the
    directory and the name of its parent; when it cannot be made, nothing has
    changed and no page is lost. *)

From S2P Require Import Prelude KMonad Memory Riscv Kalloc Vm VmProofs UserVm UserMem UserLife CString Sleeplock Bio Session FsLayout Log Fs Kernel Spaces File Proc ProcMem ProcLife.

(** ** The open files *)

(** One more reference to each file of [fs]. *)
Definition dup_ref (ft : list file) (f : Z) : list file :=
  if f =? NULL then ft else aset ft f (set_fref (f_ref (aget file0 ft f) + 1) (aget file0 ft f)).
Definition dup_refs (fs : list Z) (ft : list file) : list file := foldl dup_ref ft fs.

Definition count_file (f : Z) (fs : list Z) : Z := Z.of_nat (length (filter (fun g => g = f) fs)).

(** Open files are entries in use of the file table. *)
Definition files_ok (ft : list file) (fs : list Z) : Prop :=
  length ft = Z.to_nat NFILE /\ Forall (fun f => f = NULL \/ (0 <= f < NFILE /\ 1 <= f_ref (aget file0 ft f))) fs.

Lemma count_file_cons f g fs : count_file f (g :: fs) = (if decide (g = f) then 1 else 0) + count_file f fs.
Proof. unfold count_file; rewrite filter_cons; destruct (decide (g = f)); cbn [length]; lia. Qed.

Lemma dup_ref_other ft g f : 0 <= f -> (g = NULL \/ 0 <= g) -> g <> f -> aget file0 (dup_ref ft g) f = aget file0 ft f.
Proof.
  intros Hf Hg Hne; unfold dup_ref; destruct (Z.eqb_spec g NULL) as [|Hn]; [done|].
  apply aget_aset_ne; [destruct Hg; [done|lia]|done|done].
Qed.

Lemma length_dup_ref ft f : length (dup_ref ft f) = length ft.
Proof. unfold dup_ref; destruct (f =? NULL); [done|apply length_aset]. Qed.

Lemma files_ok_dup ft f fs : files_ok ft (f :: fs) -> files_ok (dup_ref ft f) fs.
Proof.
  intros [Hl [Hf Hfs]%Forall_cons]; split; [by rewrite length_dup_ref|]; eapply Forall_impl; [exact Hfs|].
  intros g [->|[Hg Hr]]; [by left|right]; split; [done|]; unfold dup_ref; destruct (Z.eqb_spec f NULL) as [|Hn]; [done|].
  destruct Hf as [|[Hf Hrf]]; [done|]; destruct (decide (f = g)) as [->|Hne].
  - rewrite aget_aset_eq by (rewrite Hl; lia); cbn; lia.
  - by rewrite aget_aset_ne by lia.
Qed.

Lemma dup_refs_spec fs ft f :
  files_ok ft fs -> 0 <= f < NFILE ->
  aget file0 (dup_refs fs ft) f = set_fref (f_ref (aget file0 ft f) + count_file f fs) (aget file0 ft f).
Proof.
  revert ft; induction fs as [|g fs IH]; intros ft Hok Hf.
  - change (count_file f []) with 0; rewrite Z.add_0_r; cbn [dup_refs foldl]; unfold set_fref; by destruct (aget file0 ft f).
  - change (dup_refs (g :: fs) ft) with (dup_refs fs (dup_ref ft g)); rewrite IH, count_file_cons by (done || by apply files_ok_dup).
    destruct Hok as [Hl [Hg _]%Forall_cons]; destruct (decide (g = f)) as [->|Hne].
    + unfold dup_ref; destruct (Z.eqb_spec f NULL) as [->|_]; [unfold NULL in Hf; lia|].
      rewrite aget_aset_eq by (rewrite Hl; lia); cbn; unfold set_fref; cbn; f_equal; lia.
    + rewrite dup_ref_other; [f_equal; lia|lia| |done]; destruct Hg as [|[? _]]; [by left|right; lia].
Qed.

(** The loop of [kfork] over the parent's files. *)
Definition dup_file (np : Z) (fs : list Z) (i : Z) : M ksys unit :=
  let f := aget NULL fs i in
  if negb (f =? NULL) then
    let! f := filedup f in
    modp np (set_ofile i f)
  else ret tt.

Lemma files_ok_take ft fs k : files_ok ft fs -> files_ok (dup_refs (take k fs) ft) (drop k fs).
Proof.
  revert ft fs; induction k as [|k IH]; intros ft fs Hok; [by rewrite take_0, drop_0|].
  destruct fs as [|f fs]; [by rewrite take_nil, drop_nil|]; cbn [take drop].
  change (dup_refs (f :: take k fs) ft) with (dup_refs (take k fs) (dup_ref ft f)); by apply IH, files_ok_dup.
Qed.

Lemma filling fs (k n : nat) x :
  length fs = n -> (k < n)%nat -> fs !! k = Some x ->
  <[k := x]> (take k fs ++ replicate (n - k) NULL) = take (S k) fs ++ replicate (n - S k) NULL.
Proof.
  intros Hl Hk Hx; rewrite insert_app_r_alt by (rewrite length_take; lia); rewrite length_take, Nat.min_l, Nat.sub_diag by lia.
  replace (n - k)%nat with (S (n - S k)) by lia; cbn [replicate]; erewrite take_S_r by done; by rewrite <- app_assoc.
Qed.

Lemma set_ftable_twice t t' s : set_ftable t (set_ftable t' s) = set_ftable t s.
Proof. done. Qed.
Lemma upd_proc_set_ftable i f t s : upd_proc i f (set_ftable t s) = set_ftable t (upd_proc i f s).
Proof. done. Qed.

Lemma upd_file_set_ftable f g t s : upd_file f g (set_ftable t s) = set_ftable (aset t f (g (aget file0 t f))) s.
Proof. done. Qed.

Lemma dup_files_spec s np fs c :
  0 <= np < Z.of_nat (length (y_proc s)) -> p_ofile (proc_at s np) = replicate (Z.to_nat NOFILE) NULL ->
  files_ok (y_ftable s) fs -> length fs = Z.to_nat NOFILE -> FTABLE ∉ c_held c ->
  wp (for_each (zrange 0 (Z.to_nat NOFILE)) (dup_file np fs)) c s (fun _ c' s' => c' = c /\
    s' = set_ftable (dup_refs fs (y_ftable s)) (upd_proc np (set_ofiles fs) s)).
Proof.
  intros Hnp Hof Hok Hlen Hc; change NOFILE with 16 in *; change (Z.to_nat 16) with 16%nat in *.
  set (fill := fun k : Z => take (Z.to_nat k) fs ++ replicate (16 - Z.to_nat k) NULL).
  apply (wp_for_range 16 _ (fun k c' s' => c' = c /\
    s' = set_ftable (dup_refs (take (Z.to_nat k) fs) (y_ftable s)) (upd_proc np (set_ofiles (fill k)) s))); [lia| | |].
  - split; [done|]; change (fill 0) with (replicate 16 NULL); rewrite <- Hof; unfold upd_proc.
    change (dup_refs (take (Z.to_nat 0) fs) (y_ftable s)) with (y_ftable s).
    replace (set_ofiles (p_ofile (proc_at s np)) (proc_at s np)) with (proc_at s np) by (by destruct (proc_at s np)).
    unfold proc_at; rewrite aset_id; by destruct s.
  - intros k c' s' Hk (-> & ->); unfold dup_file.
    destruct (lookup_lt_is_Some_2 fs (Z.to_nat k)) as [f Hf]; [lia|]; rewrite (aget_lookup NULL _ _ f) by (done || lia).
    pose proof (files_ok_take _ _ (Z.to_nat k) Hok) as [Hl Hk']; rewrite (drop_S _ _ _ Hf) in Hk'; apply Forall_cons in Hk' as [Hf' _].
    assert (dup_refs (take (Z.to_nat (k + 1)) fs) (y_ftable s) = dup_ref (dup_refs (take (Z.to_nat k) fs) (y_ftable s)) f) as ->.
    { replace (Z.to_nat (k + 1)) with (S (Z.to_nat k)) by lia; erewrite take_S_r by done; unfold dup_refs; by rewrite foldl_app. }
    assert (fill (k + 1) = aset (fill k) k f) as Hfill.
    { unfold fill, aset; replace (Z.to_nat (k + 1)) with (S (Z.to_nat k)) by lia; symmetry; apply filling; auto; lia. }
    unfold dup_ref; destruct (Z.eqb_spec f NULL) as [->|Hn]; cbn [negb].
    + wp_steps; split; [done|]; rewrite Hfill; repeat f_equal; unfold aset, fill.
      rewrite list_insert_id; [done|]; rewrite lookup_app_r, length_take, Nat.min_l, Nat.sub_diag by (rewrite ?length_take; lia).
      by replace (16 - Z.to_nat k)%nat with (S (15 - Z.to_nat k)) by lia.
    + destruct Hf' as [|[Hfr Href]]; [done|]; unfold filedup, getf, modf, modp; wp_steps.
      set (ft := dup_refs (take (Z.to_nat k) fs) (y_ftable s)) in *; change (file_at (set_ftable ft ?t) f) with (aget file0 ft f).
      destruct (Z.ltb_spec (f_ref (aget file0 ft f)) 1); [lia|]; wp_steps.
      split; [by destruct c|]; rewrite upd_file_set_ftable, upd_proc_set_ftable, upd_proc_compose by done; f_equal.
      by rewrite Hfill.
  - intros c' s' (-> & ->); split; [done|]; unfold fill; rewrite take_ge by (rewrite Hlen; lia).
    change (replicate (16 - Z.to_nat 16) NULL) with (@nil Z); by rewrite app_nil_r.
Qed.

(** ** The directory *)

Definition dup_cwd (ip : Z) (s : ksys) : ksys := set_fs (upd_inode ip (fun i => set_ref (i_ref i + 1) i) (y_fs s)) s.

Lemma upd_proc_dup_cwd i f ip s : upd_proc i f (dup_cwd ip s) = dup_cwd ip (upd_proc i f s).
Proof. done. Qed.

Lemma idup_lift_spec me ip s c :
  ITABLE ∉ c_held c -> wp (lift me (idup ip)) c s (fun r c' s' => c' = c /\ r = ip /\ s' = dup_cwd ip s).
Proof.
  intros Hc; assert (wp (idup ip) c (y_fs s) (fun r c' f => c' = c /\ r = ip /\ f = upd_inode ip (fun i => set_ref (i_ref i + 1) i) (y_fs s))) as Hw.
  { unfold idup, modi; wp_steps; by destruct c. }
  assert (forall a c' f w, idup ip c (y_fs s) = Ret a c' f w -> w = []) as Hnw.
  { intros a c' f w; unfold idup, modi, bind; rewrite acquire_ret by done; unfold modify, release; cbn.
    destruct (holding _ _); [|done]; cbn; by intros [= _ _ _ <-]. }
  unfold wp, lift in *; destruct (idup ip c (y_fs s)) as [a c' f w| | |] eqn:E; try done.
  rewrite (Hnw _ _ _ _ eq_refl); cbn [foldl]; destruct Hw as (-> & -> & ->); split_and!; auto; by destruct s.
Qed.

(** ** The trap frame *)

Definition copy_frame (m : mem) (tfn tfo : Z) : mem :=
  wr64 (wrn m tfn (rdn m tfo (Z.to_nat sizeof_trapframe))) (tfn + tf_a0) 0.

Lemma rdn_length m a n : length (rdn m a n) = n.
Proof. unfold rdn; by rewrite length_map, length_zrange. Qed.

Lemma copy_frame_spec m tfn tfo :
  mem_ok m ->
  mem_ok (copy_frame m tfn tfo) /\ only_page tfn m (copy_frame m tfn tfo) /\
  forall off, 0 <= off < sizeof_trapframe -> rd (copy_frame m tfn tfo) (tfn + off) =
    if decide (tf_a0 <= off < tf_a0 + 8) then 0 else rd m (tfo + off).
Proof.
  intros Hm; unfold copy_frame; change sizeof_trapframe with 288; change tf_a0 with 112; split_and!.
  - apply mem_ok_wr64, mem_ok_wrn, Hm.
  - intros x Hx; rewrite rd_wr64_out, rd_wrn_out by (rewrite ?rdn_length; lia); done.
  - intros off Hoff; case_decide; [apply rd_wr64_zero; lia|]; rewrite rd_wr64_out by lia.
    replace (tfn + off) with (tfn + Z.of_nat (Z.to_nat off)) by lia.
    rewrite (rd_wrn_in _ _ _ _ (rd m (tfo + Z.of_nat (Z.to_nat off)))) by (apply rdn_lookup; lia).
    rewrite u8_small by apply Hm; f_equal; lia.
Qed.

(** ** [kfork] *)

Section fork.
Context {L : KernelLayout} {Y : KernelSyms} (me : Z).

(** The child in its slot. *)
Definition child_slot (pid tf pt : Z) (parent p : proc) : proc :=
  Proc RUNNABLE (p_chan p) (p_killed p) (p_xstate p) pid me (p_kstack p) (p_sz parent) pt tf
    (Context forkret_addr (u64 (p_kstack p + PGSIZE)) (replicate 12 0))
    (p_ofile parent) (p_cwd parent) (blit (p_name p) 0 (safestrcpy (p_name parent) 16)).

Record forked (s s' : ksys) (A A' : gmap Z (ptree * umap)) (np r : Z) : Prop := {
  fk_slot : 0 <= np < NPROC /\ p_state (proc_at s np) = UNUSED;
  fk_pid : r = y_nextpid s /\ p_pid (proc_at s' np) = r /\ y_nextpid s' = s32 (r + 1);
  fk_run : p_state (proc_at s' np) = RUNNABLE /\ p_parent (proc_at s' np) = me;
  fk_sz : p_sz (proc_at s' np) = p_sz (proc_at s me);
  fk_mem va : sees (kmem_of s') A' np va = sees (kmem_of s) A me va;
  fk_regs off : 0 <= off < sizeof_trapframe ->
    rd (k_mem (kmem_of s')) (p_trapframe (proc_at s' np) + off) =
    if decide (tf_a0 <= off < tf_a0 + 8) then 0 else rd (k_mem (kmem_of s)) (p_trapframe (proc_at s me) + off);
  fk_ofile : p_ofile (proc_at s' np) = p_ofile (proc_at s me);
  fk_files f : 0 <= f < NFILE ->
    file_at s' f = set_fref (f_ref (file_at s f) + count_file f (p_ofile (proc_at s me))) (file_at s f);
  fk_cwd : p_cwd (proc_at s' np) = p_cwd (proc_at s me);
  fk_inode : fs_itable (y_fs s') = fs_itable (upd_inode (p_cwd (proc_at s me)) (fun i => set_ref (i_ref i + 1) i) (y_fs s))
}.

(** The processes there were before. *)
Definition others_same (s s' : ksys) (A A' : gmap Z (ptree * umap)) : Prop :=
  forall j, is_Some (A !! j) ->
    proc_at s' j = proc_at s j /\ forall va, sees (kmem_of s') A' j va = sees (kmem_of s) A j va.

(** The calling process can fork: it exists and its files are open. *)
Record can_fork (s : ksys) (free : list Z) (A : gmap Z (ptree * umap)) (TF : gmap Z Z) (X : list Z) (c : ctx) : Prop := {
  cf_inv : procs_inv s free A TF X;
  cf_me : is_Some (A !! me);
  cf_files : files_ok (y_ftable s) (p_ofile (proc_at s me));
  cf_locks : c_held c = []
}.

(** A slot that was taken holds an address space. *)
Lemma procs_inv_add s free A TF X s' free' np t U tf :
  procs_inv s free A TF X -> 0 <= np < NPROC -> A !! np = None ->
  pmem (kmem_of s') free' (<[np := (t, U)]> A) (<[np := tf]> TF) X ->
  (forall j, 0 <= j < NPROC -> j <> np -> proc_at s' j = proc_at s j) -> length (y_proc s') = length (y_proc s) ->
  live_proc (proc_at s' np) t U -> p_trapframe (proc_at s' np) = tf ->
  procs_inv s' free' (<[np := (t, U)]> A) (<[np := tf]> TF) X.
Proof.
  intros Hinv Hnp HA Hp Hj Hlen Hl Htf.
  eapply (procs_inv_slot s s' free free' A _ TF _ X np); auto.
  - rewrite Hlen; apply Hinv.
  - intros j Hr Hne; rewrite !lookup_insert_ne by done; auto.
  - intros j x; rewrite lookup_insert_Some; intros [[<- _]|[_ Hx]]; [done|by eapply pv_range].
  - rewrite !lookup_insert_eq; by rewrite Htf.
Qed.

(** Views only depend on the pages of the space. *)
Lemma sees_frame k k' free A TF X F j va :
  pmem k free A TF X -> same_except F (k_mem k) (k_mem k') -> (forall p, p ∈ F -> p ∈ X ++ free) ->
  sees k' A j va = sees k A j va.
Proof.
  intros Hp Hm HF; unfold sees; destruct (A !! j) as [[t U]|] eqn:E; [|done].
  pose proof (pm_spaces _ _ _ _ _ Hp) as Hs; pose proof (sp_space _ _ _ _ Hs _ _ _ E) as Hu.
  destruct (pmem_nodup _ _ _ _ _ Hp) as [_ HX].
  apply (view_frame k free t U (X ++ free)); [done|by eapply same_except_mono|done|].
  intros p Hin Hup; pose proof (sp_nodup _ _ _ _ Hs) as Hn; rewrite (all_pages_delete _ _ _ E) in Hn.
  unfold space_pages in Hn; cbn [fst snd] in Hn; rewrite <- !app_assoc in Hn; apply NoDup_app in Hn as (_ & _ & Hn).
  apply NoDup_app in Hn as (_ & Hn & _); apply (Hn p Hup); rewrite !elem_of_app in *; tauto.
Qed.

(** The state in which [allocproc] has given slot [np] to the child. *)
Definition with_slot (k : kmem) (n np : Z) (g : proc -> proc) (s : ksys) : ksys :=
  set_kmem k (set_nextpid n (upd_proc np g s)).

Lemma with_slot_at k n np g s : 0 <= np < Z.of_nat (length (y_proc s)) -> proc_at (with_slot k n np g s) np = g (proc_at s np).
Proof. intros; unfold with_slot; autorewrite with ksys; by apply proc_at_upd_eq. Qed.
Lemma with_slot_other k n np g s j : 0 <= np -> 0 <= j -> np <> j -> proc_at (with_slot k n np g s) j = proc_at s j.
Proof. intros; unfold with_slot; autorewrite with ksys; by apply proc_at_upd_ne. Qed.
Lemma upd_with_slot k n np f g s :
  0 <= np < Z.of_nat (length (y_proc s)) -> upd_proc np f (with_slot k n np g s) = with_slot k n np (fun p => f (g p)) s.
Proof.
  intros; unfold with_slot; by rewrite upd_proc_set_kmem, upd_proc_set_nextpid, upd_proc_compose.
Qed.

(** Nothing but the slot [np], free pages and the next pid has changed. *)
Lemma others_with_slot s free A TF X k n np g A' :
  procs_inv s free A TF X -> 0 <= np < NPROC -> A !! np = None -> same_except free (k_mem (kmem_of s)) (k_mem k) ->
  (forall j, j <> np -> A' !! j = A !! j) -> others_same s (with_slot k n np g s) A A'.
Proof.
  intros Hinv Hnp Hn Hm HA j [[t U] Hj]; pose proof (pv_range _ _ _ _ _ _ _ Hinv Hj); assert (j <> np) as Hne by congruence.
  split; [apply with_slot_other; lia|]; intros va; change (kmem_of (with_slot k n np g s)) with k.
  assert (sees k A' j va = sees k A j va) as -> by (unfold sees; by rewrite HA).
  eapply (sees_frame (kmem_of s) k free A TF X free); [apply Hinv|done|intros p; elt].
Qed.

(** The slot [allocproc] found holds a process without memory. *)
Lemma alloc_inv s free A TF X n np t tf k free' :
  procs_inv s free A TF X -> 0 <= np < NPROC -> A !! np = None ->
  pmem k free' (<[np := (t, ∅)]> A) (<[np := tf]> TF) X ->
  procs_inv (with_slot k n np (alloc_slot (y_nextpid s) tf (pt_root t)) s) free' (<[np := (t, ∅)]> A) (<[np := tf]> TF) X.
Proof.
  intros Hinv Hnp HA Hp; pose proof (pv_len _ _ _ _ _ Hinv) as Hlen.
  assert (0 <= np < Z.of_nat (length (y_proc s))) as Hl by (rewrite Hlen; change NPROC with 64 in *; lia).
  destruct (pv_dead _ _ _ _ _ Hinv np Hnp HA) as [_ _ _ Dsz Dof].
  apply (procs_inv_add s free A TF X); auto; rewrite ?with_slot_at by done; try done.
  - intros j Hj Hne; apply with_slot_other; lia.
  - unfold with_slot; by autorewrite with ksys.
  - split; cbn; rewrite ?Dsz, ?Dof, ?ulimit_eq; auto; lia.
Qed.

Lemma fork_fail s free A TF X c n np t tf k free' :
  let g := alloc_slot (y_nextpid s) tf (pt_root t) in
  procs_inv s free A TF X -> c_held c = [] -> 0 <= np < NPROC -> A !! np = None ->
  pmem k free' (<[np := (t, ∅)]> A) (<[np := tf]> TF) X -> tf :: pt_pages t ++ free' ≡ₚ free ->
  same_except free (k_mem (kmem_of s)) (k_mem k) ->
  wp (do! freeproc np; do! release (PROCLOCK np); ret (-1)) (Ctx (c_pid c) (PROCLOCK np :: c_held c)) (with_slot k n np g s) (fun r c' s' =>
    c' = c /\ r = -1 /\ exists free'', procs_inv s' free'' A TF X /\ free'' ≡ₚ free /\ others_same s s' A A /\
    y_ftable s' = y_ftable s /\ fs_itable (y_fs s') = fs_itable (y_fs s) /\ y_nextpid s' = n).
Proof.
  intros g Hinv Hc Hnp HA Hp Hf Hm; pose proof (pv_len _ _ _ _ _ Hinv) as Hlen.
  assert (0 <= np < Z.of_nat (length (y_proc s))) as Hl by (rewrite Hlen; change NPROC with 64 in *; lia).
  destruct (pv_dead _ _ _ _ _ Hinv np Hnp HA) as [_ _ _ Dsz Dof].
  pose proof (alloc_inv s free A TF X n np t tf k free' Hinv Hnp HA Hp) as Hinv1.
  wp_step; eapply wp_mono; [apply (freeproc_spec _ free' (<[np := (t, ∅)]> A) (<[np := tf]> TF) X np t ∅); auto|].
  { by rewrite lookup_insert_eq. }
  { rewrite Hc; cbn; lock_tac. }
  { by rewrite with_slot_at. }
  intros _ c' s' (-> & k' & f' & -> & Hinv2 & Hf2 & Hm2); wp_step; eapply wp_release; [reflexivity|rewrite Hc; apply not_elem_of_nil|].
  rewrite with_slot_at in * by done; rewrite !delete_insert_id in Hinv2
    by (done || apply not_elem_of_dom; rewrite (pm_dom _ _ _ _ _ (pv_mem _ _ _ _ _ Hinv)); by apply not_elem_of_dom).
  wp_steps; split_and!; [by destruct c|done|]; exists f'; split_and!; [done|by rewrite Hf2, <- Hf| |done|done|done].
  rewrite upd_with_slot by done; unfold with_slot; rewrite set_kmem_twice.
  eapply (others_with_slot s free A TF X k'); eauto; apply (same_except_trans _ _ (k_mem k)); [done|].
  eapply same_except_mono; [|exact Hm2]; intros p; rewrite <- Hf; cbn; elt.
Qed.

(** What [kfork] does once the memory has been copied. *)
Definition fork_rest (np : Z) (p q : proc) : M ksys Z :=
  do! modp np (set_sz (p_sz p));
  do! liftm (copy_trapframe (p_trapframe q) (p_trapframe p));
  do! tf_set (p_trapframe q) tf_a0 0;
  do! for_each (zrange 0 (Z.to_nat NOFILE)) (dup_file np (p_ofile p));
  let! cwd := lift me (idup (p_cwd p)) in
  do! modp np (set_cwd cwd);
  do! modp np (copy_name (safestrcpy (p_name p) 16));
  do! release (PROCLOCK np);
  do! acquire WAITLOCK;
  do! modp np (set_parent me);
  do! release WAITLOCK;
  do! acquire (PROCLOCK np);
  do! modp np (set_state RUNNABLE);
  do! release (PROCLOCK np);
  ret (p_pid q).

Definition child_state (s : ksys) (k : kmem) (n np tf pt : Z) : ksys :=
  let p := proc_at s me in
  dup_cwd (p_cwd p) (set_ftable (dup_refs (p_ofile p) (y_ftable s))
    (with_slot (set_mem (copy_frame (k_mem k) tf (p_trapframe p)) k) n np (child_slot (y_nextpid s) tf pt p) s)).

Lemma fork_rest_spec s c n np tf pt k :
  let g := alloc_slot (y_nextpid s) tf pt in let p := proc_at s me in
  c_held c = [] -> 0 <= np < Z.of_nat (length (y_proc s)) -> p_ofile (proc_at s np) = replicate (Z.to_nat NOFILE) NULL ->
  files_ok (y_ftable s) (p_ofile p) -> length (p_ofile p) = Z.to_nat NOFILE ->
  wp (fork_rest np p (g (proc_at s np))) (Ctx (c_pid c) (PROCLOCK np :: c_held c)) (with_slot k n np g s) (fun r c' s' =>
    c' = c /\ r = y_nextpid s /\ s' = child_state s k n np tf pt).
Proof.
  intros g p Hc Hnp Hof Hok Hlen; unfold fork_rest, modp, tf_set, copy_trapframe, mod_mem; rewrite Hc.
  do 2 wp_step; rewrite upd_with_slot by done; wp_step; apply wp_zoom, wp_modify; wp_step; apply wp_zoom, wp_modify.
  set (k3 := set_mem (copy_frame (k_mem k) tf (p_trapframe p)) k).
  match goal with |- wp ?m ?c _ ?Φ => change (wp m c (with_slot k3 n np (fun q => set_sz (p_sz p) (g q)) s) Φ) end; cbn beta.
  wp_step; eapply wp_mono; [apply (dup_files_spec (with_slot k3 n np (fun q => set_sz (p_sz p) (g q)) s)); auto|].
  { unfold with_slot; by autorewrite with ksys. }
  { by rewrite with_slot_at. }
  { cbn; lock_tac. }
  intros _ c' s' (-> & ->); rewrite upd_with_slot by done; wp_step; eapply wp_mono; [apply idup_lift_spec; cbn; lock_tac|].
  intros r c' s' (-> & -> & ->); wp_steps; split_and!; [by destruct c; cbn in *; subst|done|].
  by rewrite !upd_proc_dup_cwd, !upd_proc_set_ftable, !upd_with_slot by done.
Qed.

(** The pages the fork wrote were free. *)
Lemma fork_footprint s free k1 k2 f1 f2 t t2 U2 to Uo tf tfo :
  same_except free (k_mem (kmem_of s)) (k_mem k1) -> tf :: pt_pages t ++ f1 ≡ₚ free -> copying k1 k2 f1 f2 to Uo t t2 U2 ->
  mem_ok (k_mem k2) -> same_except free (k_mem (kmem_of s)) (k_mem k2) /\
  same_except free (k_mem (kmem_of s)) (copy_frame (k_mem k2) tf tfo).
Proof.
  intros Hm Hf Hcp Hok; assert (same_except free (k_mem (kmem_of s)) (k_mem k2)) as Hm2.
  { apply (same_except_trans _ _ (k_mem k1)); [done|]; eapply same_except_mono; [|apply Hcp]; intros p; rewrite <- Hf; elt. }
  split; [done|]; apply (same_except_trans _ _ (k_mem k2)); [done|]; apply (only_page_same tf); [rewrite <- Hf; elt|].
  by apply copy_frame_spec.
Qed.

(** The child's view of its memory. *)
Lemma child_view g m U U2 v0 va :
  (forall x, g x = uview m U x) -> copied_upto g m U U2 v0 -> (forall v, v0 <= v -> U !! v = None) -> (forall v x, U !! v = Some x -> 0 <= v) ->
  uview m U2 va = g va.
Proof.
  intros Hg Hc Htop Hlow; specialize (Hc (va / 4096)); rewrite Hg; unfold uview at 1.
  pose proof (Z.div_mod va 4096 ltac:(lia)); pose proof (Z.mod_pos_bound va 4096 ltac:(lia)).
  assert (U !! (va / 4096) = None -> uview m U va = 0) as Hz by (intros E; unfold uview; by rewrite E).
  case_decide as Hd.
  - destruct (U !! (va / 4096)) as [[pa perm]|] eqn:E; [destruct Hc as (pa' & -> & Hb)|by rewrite Hc, Hz].
    rewrite Hb, Hg by done; f_equal; lia.
  - rewrite Hc, Hz; [done|]; destruct (U !! (va / 4096)) as [x|] eqn:E; [|done].
    pose proof (Hlow _ _ E); rewrite Htop in E by lia; done.
Qed.

Lemma tf_apart k free A TF X i tf :
  pmem k free A TF X -> TF !! i = Some tf -> (tf ∉ free) /\ forall j t U, A !! j = Some (t, U) -> tf ∉ upages U.
Proof.
  intros Hp Hi; pose proof (pmem_tf_in _ _ _ _ _ _ _ Hp Hi) as Hin; pose proof (sp_nodup _ _ _ _ (pm_spaces _ _ _ _ _ Hp)) as Hn.
  split.
  - intros Hf; apply NoDup_app in Hn as (_ & _ & Hn); apply NoDup_app in Hn as (_ & Hn & _); apply (Hn tf); [elt|done].
  - intros j t U Hj Hu; apply NoDup_app in Hn as (_ & Hn & _); apply (Hn tf); [|elt].
    apply (elem_of_all_pages A j (t, U)); [done|]; unfold space_pages; cbn [fst snd]; elt.
Qed.

(** The child sees what the parent saw when it called [fork]. *)
Lemma fork_memory s free A TF X np tf t to Uo k1 f1 k2 f2 t2 U2 m3 va :
  procs_inv s free A TF X -> A !! me = Some (to, Uo) -> same_except free (k_mem (kmem_of s)) (k_mem k1) ->
  pmem k2 f2 (<[np := (t2, U2)]> A) (<[np := tf]> TF) X -> copying k1 k2 f1 f2 to Uo t t2 U2 ->
  copied_upto (uview (k_mem k1) Uo) (k_mem k2) Uo U2 (pgup (p_sz (proc_at s me))) -> only_page tf (k_mem k2) m3 ->
  uview m3 U2 va = sees (kmem_of s) A me va.
Proof.
  intros Hinv Hme Hm1 Hp2 Hcp Hcu Ho; destruct (pv_live _ _ _ _ _ Hinv _ _ _ Hme) as (_ & [_ _ _ Htop _] & _).
  pose proof (pv_mem _ _ _ _ _ Hinv) as Hp; pose proof (sp_space _ _ _ _ (pm_spaces _ _ _ _ _ Hp) _ _ _ Hme) as Hu.
  assert ((<[np := tf]> TF : gmap Z Z) !! np = Some tf) as Htf by apply lookup_insert_eq.
  assert (<[np := (t2, U2)]> A !! np = Some (t2, U2)) as HA by apply lookup_insert_eq.
  rewrite <- (sees_frame (kmem_of s) k1 free A TF X free me va) by (done || intros p; elt); unfold sees; rewrite Hme.
  rewrite <- (child_view (uview (k_mem k1) Uo) (k_mem k2) Uo U2 (pgup (p_sz (proc_at s me)))); auto.
  - destruct (pmem_pspace _ _ _ _ _ _ _ _ _ Hp2 HA Htf) as [Hps Hok].
    apply (view_frame k2 f2 t2 U2 [tf]); [apply Hps|apply (only_page_same tf); [elt|done]|by apply Forall_singleton|].
    intros p ->%list_elem_of_singleton; exact (proj2 (tf_apart _ _ _ _ _ _ _ Hp2 Htf) _ _ _ HA).
  - intros x; symmetry; apply Hcp.
  - intros v x Hx; destruct x as [pa pm]; by apply (us_dom _ _ _ _ Hu) in Hx as [[? _] _].
Qed.

Lemma fork_success s free A TF X c np tf t to Uo k1 f1 k2 f2 t2 U2 :
  let s' := child_state s k2 (s32 (y_nextpid s + 1)) np tf (pt_root t) in
  let A' := <[np := (t2, U2)]> A in let TF' := <[np := tf]> TF in
  can_fork s free A TF X c -> A !! me = Some (to, Uo) -> 0 <= np < NPROC -> A !! np = None ->
  same_except free (k_mem (kmem_of s)) (k_mem k1) -> tf :: pt_pages t ++ f1 ≡ₚ free ->
  pmem k2 f2 A' TF' X -> copying k1 k2 f1 f2 to Uo t t2 U2 ->
  copied_upto (uview (k_mem k1) Uo) (k_mem k2) Uo U2 (pgup (p_sz (proc_at s me))) ->
  procs_inv s' f2 A' TF' X /\ forked s s' A A' np (y_nextpid s) /\ others_same s s' A A' /\ tf :: space_pages (t2, U2) ++ f2 ≡ₚ free.
Proof.
  intros s' A' TF' [Hinv _ Hfl _] Hme Hnp HA Hm1 Hf1 Hp2 Hcp Hcu; pose proof (pv_len _ _ _ _ _ Hinv) as Hlen.
  assert (0 <= np < Z.of_nat (length (y_proc s))) as Hl by (rewrite Hlen; change NPROC with 64 in *; lia).
  destruct (pv_live _ _ _ _ _ Hinv _ _ _ Hme) as (Hmr & [L1 L2 L3 L4 L5] & Hmt).
  pose proof (pv_mem _ _ _ _ _ Hinv) as Hp; destruct (pmem_pspace _ _ _ _ _ _ _ _ _ Hp Hme Hmt) as [_ Htfo].
  assert (mem_ok (k_mem k2)) as Hok2 by (apply (pmem_kalloc _ _ _ _ _ Hp2)).
  destruct (copy_frame_spec (k_mem k2) tf (p_trapframe (proc_at s me)) Hok2) as (Hok3 & Ho3 & Hregs).
  destruct (fork_footprint s free k1 k2 f1 f2 t t2 U2 to Uo tf (p_trapframe (proc_at s me))) as [Hm2 Hm3]; auto.
  set (k3 := set_mem (copy_frame (k_mem k2) tf (p_trapframe (proc_at s me))) k2) in *.
  assert (TF' !! np = Some tf) as Htf by (by unfold TF'; rewrite lookup_insert_eq).
  assert (A' !! np = Some (t2, U2)) as HA' by (by unfold A'; rewrite lookup_insert_eq).
  pose proof (pmem_trapframe k2 f2 A' TF' X np tf _ Hp2 Htf Hok3 Ho3) as Hp3.
  assert (forall j, 0 <= j < NPROC -> j <> np -> proc_at s' j = proc_at s j) as Hj by (intros; apply with_slot_other; lia).
  assert (proc_at s' np = child_slot (y_nextpid s) tf (pt_root t) (proc_at s me) (proc_at s np)) as Hch by (by apply with_slot_at).
  assert (forall v, pgup (p_sz (proc_at s me)) <= v -> U2 !! v = None) as Htop.
  { intros v Hv; specialize (Hcu v); by rewrite decide_False in Hcu by lia. }
  split; [|split; [|split]].
  - apply (procs_inv_add s free A TF X); auto; [apply (length_upd_proc np (child_slot (y_nextpid s) tf (pt_root t) (proc_at s me)) s)| |by rewrite Hch].
    rewrite Hch; split; cbn; auto; rewrite (cp_root _ _ _ _ _ _ _ _ _ Hcp); done.
  - destruct (pv_dead _ _ _ _ _ Hinv np Hnp HA) as [Dst _ _ _ _]; split; rewrite ?Hch; auto.
    + intros va; unfold sees at 1; rewrite HA'; by apply (fork_memory s free A TF X np tf t to Uo k1 f1 k2 f2 t2 U2).
    + intros off Hoff; change (kmem_of s') with k3; rewrite Hregs by done; case_decide; [done|].
      apply (same_except_page free _ _ (p_trapframe (proc_at s me))); auto; [apply (pmem_kalloc _ _ _ _ _ Hp)| |change sizeof_trapframe with 288 in Hoff; lia].
      exact (proj1 (tf_apart _ _ _ _ _ _ _ Hp Hmt)).
    + intros f Hf; apply dup_refs_spec; auto.
  - intros j Hjs; destruct (Hjs) as [[tj Uj] Hjj]; pose proof (pv_range _ _ _ _ _ _ _ Hinv Hjj); assert (j <> np) by congruence.
    split; [by apply Hj|]; intros va; unfold A'; change (kmem_of s') with k3.
    assert (sees k3 (<[np := (t2, U2)]> A) j va = sees k3 A j va) as -> by (unfold sees; by rewrite lookup_insert_ne).
    apply (sees_frame (kmem_of s) k3 free A TF X free); auto; intros p; elt.
  - unfold space_pages; cbn [fst snd]; rewrite <- app_assoc, (cp_pages _ _ _ _ _ _ _ _ _ Hcp); done.
Qed.

(** The two outcomes of [kfork].  The pages of the child and its trap frame were
    free; if there is no child, all of them are free again.  [allocproc] may have
    taken a process identifier in vain. *)
Definition fork_outcome (s : ksys) (free : list Z) (A : gmap Z (ptree * umap)) (TF : gmap Z Z) (X : list Z) (r : Z) (s' : ksys) : Prop :=
  exists free',
    (r = -1 /\ procs_inv s' free' A TF X /\ free' ≡ₚ free /\ others_same s s' A A /\
     y_ftable s' = y_ftable s /\ fs_itable (y_fs s') = fs_itable (y_fs s) /\
     (y_nextpid s' = y_nextpid s \/ y_nextpid s' = s32 (y_nextpid s + 1))) \/
    (exists np t U tf, let A' := <[np := (t, U)]> A in
     procs_inv s' free' A' (<[np := tf]> TF) X /\ forked s s' A A' np r /\ others_same s s' A A' /\
     tf :: space_pages (t, U) ++ free' ≡ₚ free).

(** The rest of [kfork] once [allocproc] has found slot [np]. *)
Lemma fork_body_spec s free A TF X c np tf t k1 f1 :
  let g := alloc_slot (y_nextpid s) tf (pt_root t) in let n := s32 (y_nextpid s + 1) in
  let p := proc_at s me in let q := g (proc_at s np) in
  can_fork s free A TF X c -> 0 <= np < NPROC -> A !! np = None -> same_except free (k_mem (kmem_of s)) (k_mem k1) ->
  pmem k1 f1 (<[np := (t, ∅)]> A) (<[np := tf]> TF) X -> tf :: pt_pages t ++ f1 ≡ₚ free ->
  wp (let! r := liftm (uvmcopy (p_pagetable p) (p_pagetable q) (p_sz p)) in
      if r <? 0 then
        do! freeproc np;
        do! release (PROCLOCK np);
        ret (-1)
      else fork_rest np p q)
    (Ctx (c_pid c) (PROCLOCK np :: c_held c)) (with_slot k1 n np g s) (fun r c' s' => c' = c /\ fork_outcome s free A TF X r s').
Proof.
  intros g n p q Hcf Hnp HA Hm1 Hp1 Hf1; destruct (Hcf) as [Hinv [[to Uo] Hme] Hfl Hc].
  destruct (pv_live _ _ _ _ _ Hinv _ _ _ Hme) as (Hmr & [L1 L2 L3 L4 L5] & Hmt); assert (np <> me) as Hne by congruence.
  assert (0 <= np < Z.of_nat (length (y_proc s))) as Hl by (rewrite (pv_len _ _ _ _ _ Hinv); change NPROC with 64 in *; lia).
  destruct (pv_dead _ _ _ _ _ Hinv np Hnp HA) as [_ _ _ _ Dof].
  wp_step; apply wp_zoom; unfold p; rewrite L2; change (p_pagetable q) with (pt_root t).
  eapply wp_mono; [apply (pmem_copy_spec k1 f1 (<[np := (t, ∅)]> A) (<[np := tf]> TF) X me np to Uo t (p_sz (proc_at s me))); auto|].
  { by rewrite lookup_insert_ne. }
  { by rewrite lookup_insert_eq. }
  { rewrite Hc; cbn; lock_tac. }
  intros r c' k2 (-> & f2 & t2 & U2 & Hp2 & Hcp & Hr); rewrite insert_insert_eq in Hp2.
  change (lset k2 (with_slot k1 n np g s)) with (with_slot k2 n np g s).
  destruct Hr as [[-> Hcu]|[-> ->]].
  - change (0 <? 0) with false; cbn iota; eapply wp_mono; [by apply fork_rest_spec|].
    intros r c' s' (-> & -> & ->); split; [done|]; exists f2; right; exists np, t2, U2, tf; by eapply fork_success.
  - change (-1 <? 0) with true; cbn iota; unfold g; rewrite <- (cp_root _ _ _ _ _ _ _ _ _ Hcp).
    pose proof (cp_pages _ _ _ _ _ _ _ _ _ Hcp) as Hpp.
    eapply wp_mono; [apply (fork_fail s free A TF X c n np t2 tf k2 f2); auto|].
    { by rewrite Hpp. }
    { apply (same_except_trans _ _ (k_mem k1)); [done|]; eapply same_except_mono; [|apply Hcp]; intros x; rewrite <- Hf1; elt. }
    intros r c' s' (-> & -> & f3 & Hf3); split; [done|]; exists f3; left; tauto.
Qed.

(** C22. [fork] copies the calling process.  Either it returns the new process
    identifier, and then a slot that was unused holds a runnable child of the
    caller with a private copy of its memory, the same registers but for [a0],
    which is 0, and the same open files and directory, each with one more
    reference per use; or it returns -1, and the processes, the file table, the
    inode table and the set of free pages are as before, though a process
    identifier may have been used up.  No other process changes or sees a change
    in its memory.  No page is lost: the child's trap frame, page table and memory
    together with the pages still free are exactly the pages that were free. *)
Theorem kfork_copies s free A TF X c :
  can_fork s free A TF X c ->
  wp (kfork me) c s (fun r c' s' => c' = c /\ fork_outcome s free A TF X r s').
Proof.
  intros Hcf; destruct (Hcf) as [Hinv [[to Uo] Hme] Hfl Hc].
  unfold kfork, getp; wp_step; eapply wp_mono; [apply (allocproc_spec s free A TF X c Hinv)|].
  { unfold no_proc_locks; rewrite Hc; split_and!; intros; apply not_elem_of_nil. }
  intros np c1 s1 (k1 & f1 & Hm1 & [(-> & -> & Hinv1 & Hf1 & Hs1)|(t & tf & Hnp & HA & -> & -> & Hp1 & Hf1)]).
  - change (NULL =? NULL) with true; cbn iota; wp_steps; split; [done|]; exists f1; left.
    destruct Hs1 as [->|(i & Hi & HA & ->)]; split_and!; auto; [by intros j|].
    by apply (others_with_slot s free A TF X).
  - destruct (Z.eqb_spec np NULL) as [->|_]; [unfold NULL in Hnp; lia|].
    do 4 wp_step; change (set_kmem k1 (set_nextpid (s32 (y_nextpid s + 1)) (upd_proc np (alloc_slot (y_nextpid s) tf (pt_root t)) s)))
      with (with_slot k1 (s32 (y_nextpid s + 1)) np (alloc_slot (y_nextpid s) tf (pt_root t)) s).
    pose proof (pv_range _ _ _ _ _ _ _ Hinv Hme) as Hmr; assert (np <> me) by congruence.
    rewrite with_slot_at by (rewrite (pv_len _ _ _ _ _ Hinv); change NPROC with 64 in *; lia).
    rewrite with_slot_other by lia; by apply (fork_body_spec s free A TF X c np tf t k1 f1).
Qed.
End fork.
