(* ===== verification/Exec.v ===== *)
(** * Program execution, [kernel/exec.c]

    [kexec] builds a new user address space from an ELF file and switches the
    process to it; on any failure it frees what it built and the process keeps
    its old image.  [argv] is the list of argument strings. *)

From S2P Require Import Prelude KMonad Memory Riscv Kalloc Vm CString Sleeplock Bio Session FsLayout Log Fs Kernel File Proc.

Definition get64 (l : list Z) (off : Z) : Z := le_val (slice l off 8).

Definition ELF_MAGIC : Z := 0x464C457F.
Definition ELF_PROG_LOAD : Z := 1.

(** The fields of [struct elfhdr] and [struct proghdr] that the code uses. *)
Record elfhdr := Elfhdr { e_magic : Z; e_entry : Z; e_phoff : Z; e_phnum : Z }.
Definition sizeof_elfhdr : Z := 64.
Definition elfhdr_decode (l : list Z) : elfhdr := Elfhdr (get32 l 0) (get64 l 24) (get64 l 32) (get16 l 56).

Record proghdr := Proghdr { ph_type : Z; ph_flags : Z; ph_off : Z; ph_vaddr : Z; ph_filesz : Z; ph_memsz : Z }.
Definition sizeof_proghdr : Z := 56.
Definition proghdr_decode (l : list Z) : proghdr :=
  Proghdr (get32 l 0) (get32 l 4) (get64 l 8) (get64 l 16) (get64 l 32) (get64 l 40).

Definition flags2perm (flags : Z) : Z :=
  let perm := if negb (Z.land flags 0x1 =? 0) then PTE_X else 0 in
  if negb (Z.land flags 0x2 =? 0) then Z.lor perm PTE_W else perm.

(** The part of a path after its last slash. *)
Fixpoint last_elem (last s : list Z) : list Z :=
  match s with
  | [] => last
  | c :: s => if c =? 0 then last else last_elem (if c =? SLASH then s else last) s
  end.

Section exec.
Context {L : KernelLayout} (me : Z).

(** A page per turn.  [readi] stores what it reads at the physical address. *)
Fixpoint loadseg_loop (fuel : nat) (p : uproc) (pagetable : pagetable_t) (va ip offset sz i : Z) : M fsys Z :=
  if negb (i <? sz) then ret 0 else
  match fuel with
  | O => diverge
  | S fuel =>
      let! pa := zoom (walkaddr pagetable (u64 (va + i))) in
      if pa =? 0 then panic "loadseg: address should exist" else
      let n := if sz - i <? PGSIZE then sz - i else PGSIZE in
      let! r := readi p ip KernDst (u32 (offset + i)) n in
      do! zoom (mod_mem (fun m => wrn m pa r.2));
      if negb (r.1 =? n) then ret (-1)
      else loadseg_loop fuel p pagetable va ip offset sz (u32 (i + PGSIZE))
  end.

Definition loadseg (p : uproc) (pagetable : pagetable_t) (va ip offset sz : Z) : M fsys Z :=
  loadseg_loop (Z.to_nat (sz / PGSIZE + 1)) p pagetable va ip offset sz 0.

(** The loop over the program headers, from header [i] at offset [off]: the new
    size, or [inl] with the size reached when it goes to [bad]. *)
Fixpoint load_loop (n : nat) (p : uproc) (pagetable : pagetable_t) (ip off sz : Z) : M fsys (Z + Z) :=
  match n with
  | O => ret (inr sz)
  | S n =>
      let! r := readi p ip KernDst (u32 off) sizeof_proghdr in
      if negb (r.1 =? sizeof_proghdr) then ret (inl sz) else
      let ph := proghdr_decode r.2 in
      let next := load_loop n p pagetable ip (s32 (off + sizeof_proghdr)) in
      if negb (ph_type ph =? ELF_PROG_LOAD) then next sz else
      if ph_memsz ph <? ph_filesz ph then ret (inl sz) else
      if u64 (ph_vaddr ph + ph_memsz ph) <? ph_vaddr ph then ret (inl sz) else
      if negb (ph_vaddr ph mod PGSIZE =? 0) then ret (inl sz) else
      let! sz1 := zoom (uvmalloc pagetable sz (u64 (ph_vaddr ph + ph_memsz ph)) (flags2perm (s32 (ph_flags ph)))) in
      if sz1 =? 0 then ret (inl sz) else
      let! r := loadseg p pagetable (ph_vaddr ph) ip (u32 (ph_off ph)) (u32 (ph_filesz ph)) in
      if r <? 0 then ret (inl sz1) else next sz1
  end.

(** The argument strings, pushed below [sp]: the stack pointer and the addresses
    of the strings, or [None] for [bad]. *)
Fixpoint push_args (p : uproc) (pagetable : pagetable_t) (argv : list (list Z)) (argc sp stackbase : Z)
    : M kmem (option (Z * list Z)) :=
  match argv with
  | [] => ret (Some (sp, []))
  | s :: argv =>
      if MAXARG <=? argc then ret None else
      let sp := u64 (sp - (strlen s + 1)) in
      let sp := sp - sp mod 16 in
      if sp <? stackbase then ret None else
      let! r := copyout p pagetable sp (take (Z.to_nat (strlen s)) s ++ [0]) in
      if r <? 0 then ret None else
      let! rest := push_args p pagetable argv (argc + 1) sp stackbase in
      ret (match rest with Some (sp', us) => Some (sp', sp :: us) | None => None end)
  end.

(** The user stack above the loaded program: guard page, argument strings and the
    [argv] array.  [inl] is [bad] with the size reached. *)
Definition build_stack (p : uproc) (pagetable : pagetable_t) (argv : list (list Z)) (sz : Z) : M kmem (Z + Z * Z) :=
  let sz := PGROUNDUP sz in
  let! sz1 := uvmalloc pagetable sz (u64 (sz + (USERSTACK + 1) * PGSIZE)) PTE_W in
  if sz1 =? 0 then ret (inl sz) else
  let sz := sz1 in
  do! uvmclear pagetable (u64 (sz - (USERSTACK + 1) * PGSIZE));
  let stackbase := u64 (sz - USERSTACK * PGSIZE) in
  let! args := push_args p pagetable argv 0 sz stackbase in
  match args with
  | None => ret (inl sz)
  | Some (sp, us) =>
      let argc := Z.of_nat (length us) in
      let sp := u64 (sp - (argc + 1) * 8) in
      let sp := sp - sp mod 16 in
      if sp <? stackbase then ret (inl sz) else
      let! r := copyout p pagetable sp ((us ++ [0]) ≫= le_bytes 8) in
      if r <? 0 then ret (inl sz) else ret (inr (sz, sp))
  end.

(** The part of [kexec] that can fail with the file still open. *)
Definition load_image (p : proc) (ip : Z) : M fsys (option (Z * Z) + elfhdr * Z * Z) :=
  let! r := readi (uproc_of p) ip KernDst 0 sizeof_elfhdr in
  if negb (r.1 =? sizeof_elfhdr) then ret (inl None) else
  let elf := elfhdr_decode r.2 in
  if negb (e_magic elf =? ELF_MAGIC) then ret (inl None) else
  let! pagetable := zoom (proc_pagetable (p_trapframe p)) in
  if pagetable =? 0 then ret (inl None) else
  let! r := load_loop (Z.to_nat (e_phnum elf)) (uproc_of p) pagetable ip (s32 (e_phoff elf)) 0 in
  match r with
  | inl sz => ret (inl (Some (pagetable, sz)))
  | inr sz => ret (inr (elf, pagetable, sz))
  end.

Definition kexec (path : list Z) (argv : list (list Z)) : M ksys Z :=
  let! p := getp me in
  do! liftl me begin_op;
  let! ip := lift me (namei (uproc_of p) (p_cwd p) path) in
  if ip =? NULLI then
    do! liftl me end_op;
    ret (-1)
  else
  do! lift me (ilock ip);
  let! img := lift me (load_image p ip) in
  match img with
  | inl freeing =>
      do! (match freeing with
           | Some (pagetable, sz) => liftm (proc_freepagetable pagetable sz)
           | None => ret tt
           end);
      do! lift me (iunlockput ip);
      do! liftl me end_op;
      ret (-1)
  | inr (elf, pagetable, sz) =>
      do! lift me (iunlockput ip);
      do! liftl me end_op;
      let! p := getp me in
      let oldsz := p_sz p in
      let! st := liftm (build_stack (uproc_of p) pagetable argv sz) in
      match st with
      | inl sz =>
          do! liftm (proc_freepagetable pagetable sz);
          ret (-1)
      | inr (sz, sp) =>
          do! tf_set (p_trapframe p) tf_a1 sp;
          do! modp me (copy_name (safestrcpy (last_elem path path) 16));
          let oldpagetable := p_pagetable p in
          do! modp me (set_pagetable pagetable);
          do! modp me (set_sz sz);
          do! tf_set (p_trapframe p) tf_epc (e_entry elf);
          do! tf_set (p_trapframe p) tf_sp sp;
          do! liftm (proc_freepagetable oldpagetable oldsz);
          ret (Z.of_nat (length argv))
      end
  end.
End exec.
