(* ===== verification/Sysfile.v ===== *)
(** * System call arguments and file system calls

    The argument fetching of [kernel/syscall.c] and the calls of
    [kernel/sysfile.c].  The result of a call is the value for [a0], -1 for
    failure. *)

From S2P Require Import Prelude KMonad Memory Riscv Kalloc Vm CString Sleeplock Bio Session FsLayout Log Fs Kernel Pipe File Proc Exec.

Definition O_RDONLY : Z := 0x000.
Definition O_WRONLY : Z := 0x001.
Definition O_RDWR : Z := 0x002.
Definition O_CREATE : Z := 0x200.
Definition O_TRUNC : Z := 0x400.

(** A C test of a flag. *)
Definition flag (mode f : Z) : bool := negb (Z.land mode f =? 0).

Section args.
Context {L : KernelLayout} (me : Z).

(** The result and [*ip]. *)
Definition fetchaddr (addr : Z) : M ksys (Z * Z) :=
  let! p := getp me in
  if (p_sz p <=? addr) || (p_sz p <? u64 (addr + 8)) then ret (-1, 0) else
  let! r := liftm (copyin (uproc_of p) (p_pagetable p) addr 8) in
  if negb (r.1 =? 0) then ret (-1, 0) else ret (0, le_val r.2).

(** The length and the bytes in [buf]. *)
Definition fetchstr (addr max : Z) : M ksys (Z * list Z) :=
  let! p := getp me in
  let! r := liftm (copyinstr (p_pagetable p) addr max) in
  if r.1 <? 0 then ret (-1, r.2) else ret (strlen r.2, r.2).

Definition argraw (n : Z) : M ksys Z :=
  let! p := getp me in
  let tf := p_trapframe p in
  if n =? 0 then tf_get tf tf_a0
  else if n =? 1 then tf_get tf tf_a1
  else if n =? 2 then tf_get tf tf_a2
  else if n =? 3 then tf_get tf tf_a3
  else if n =? 4 then tf_get tf tf_a4
  else if n =? 5 then tf_get tf tf_a5
  else panic "argraw".

Definition argint (n : Z) : M ksys Z :=
  let! x := argraw n in
  ret (s32 x).
Definition argaddr (n : Z) : M ksys Z := argraw n.

Definition argstr (n max : Z) : M ksys (Z * list Z) :=
  let! addr := argaddr n in
  fetchstr addr max.

(** ** File descriptors *)

(** The descriptor and the file, or [None] for the result -1. *)
Definition argfd (n : Z) : M ksys (option (Z * Z)) :=
  let! fd := argint n in
  let! p := getp me in
  if (fd <? 0) || (NOFILE <=? fd) then ret None else
  let f := aget NULL (p_ofile p) fd in
  if f =? NULL then ret None else ret (Some (fd, f)).

Definition fdalloc (f : Z) : M ksys Z :=
  let! p := getp me in
  match List.find (fun fd => aget NULL (p_ofile p) fd =? NULL) (zrange 0 (Z.to_nat NOFILE)) with
  | Some fd =>
      do! modp me (set_ofile fd f);
      ret fd
  | None => ret (-1)
  end.

Definition sys_dup : M ksys Z :=
  let! a := argfd 0 in
  match a with
  | None => ret (-1)
  | Some (_, f) =>
      let! fd := fdalloc f in
      if fd <? 0 then ret (-1) else
      let! _ := filedup f in
      ret fd
  end.

Definition sys_read : M ksys Z :=
  let! p := argaddr 1 in
  let! n := argint 2 in
  let! a := argfd 0 in
  match a with
  | None => ret (-1)
  | Some (_, f) => fileread me f p n
  end.

Definition sys_write : M ksys Z :=
  let! p := argaddr 1 in
  let! n := argint 2 in
  let! a := argfd 0 in
  match a with
  | None => ret (-1)
  | Some (_, f) => filewrite me f p n
  end.

Definition sys_close : M ksys Z :=
  let! a := argfd 0 in
  match a with
  | None => ret (-1)
  | Some (fd, f) =>
      do! modp me (set_ofile fd NULL);
      do! fileclose me f;
      ret 0
  end.

Definition sys_fstat (pad : list Z) : M ksys Z :=
  let! st := argaddr 1 in
  let! a := argfd 0 in
  match a with
  | None => ret (-1)
  | Some (_, f) => filestat me pad f st
  end.

(** ** Names *)

Definition getip (ip : Z) : M ksys inode := lift me (geti ip).
Definition set_links (ip k : Z) : M ksys unit := lift me (mod_d ip (fun d => set_nlink (s16 (di_nlink d + k)) d)).

Definition sys_link : M ksys Z :=
  let! old := argstr 0 MAXPATH in
  if old.1 <? 0 then ret (-1) else
  let! new := argstr 1 MAXPATH in
  if new.1 <? 0 then ret (-1) else
  let! p := getp me in
  let u := uproc_of p in
  do! liftl me begin_op;
  let! ip := lift me (namei u (p_cwd p) old.2) in
  if ip =? NULLI then
    do! liftl me end_op;
    ret (-1)
  else
  do! lift me (ilock ip);
  let! i := getip ip in
  if di_type (i_d i) =? T_DIR then
    do! lift me (iunlockput ip);
    do! liftl me end_op;
    ret (-1)
  else
  do! set_links ip 1;
  do! lift me (iupdate ip);
  do! lift me (iunlock ip);
  let bad :=
    do! lift me (ilock ip);
    do! set_links ip (-1);
    do! lift me (iupdate ip);
    do! lift me (iunlockput ip);
    do! liftl me end_op;
    ret (-1) in
  let! d := lift me (nameiparent u (p_cwd p) new.2) in
  let dp := d.1 in
  if dp =? NULLI then bad else
  do! lift me (ilock dp);
  let! di := getip dp in
  let! i := getip ip in
  let! r := (if negb (i_dev di =? i_dev i) then ret (-1) else lift me (dirlink u dp d.2 (i_inum i))) in
  if r <? 0 then
    do! lift me (iunlockput dp);
    bad
  else
  do! lift me (iunlockput dp);
  do! lift me (iput ip);
  do! liftl me end_op;
  ret 0.

(** The entries from the third on; [true] when all are free. *)
Definition isdirempty (u : uproc) (dp : Z) : M fsys bool :=
  let! i := geti dp in
  let! r := for_find (zrange 2 (Z.to_nat ((di_size (i_d i) + sizeof_dirent - 1) / sizeof_dirent - 2))) (fun k =>
    let! de := read_dirent u dp (k * sizeof_dirent) "isdirempty: readi" in
    if negb (de_inum de =? 0) then ret (Some tt) else ret None) in
  ret (match r with Some _ => false | None => true end).

Definition DOT : list Z := [46].
Definition DOTDOT : list Z := [46; 46].

Definition sys_unlink : M ksys Z :=
  let! path := argstr 0 MAXPATH in
  if path.1 <? 0 then ret (-1) else
  let! p := getp me in
  let u := uproc_of p in
  do! liftl me begin_op;
  let! d := lift me (nameiparent u (p_cwd p) path.2) in
  let dp := d.1 in
  let name := d.2 in
  if dp =? NULLI then
    do! liftl me end_op;
    ret (-1)
  else
  do! lift me (ilock dp);
  let bad :=
    do! lift me (iunlockput dp);
    do! liftl me end_op;
    ret (-1) in
  if (namecmp name DOT =? 0) || (namecmp name DOTDOT =? 0) then bad else
  let! e := lift me (dirlookup u dp name) in
  let ip := e.1 in
  if ip =? NULLI then bad else
  do! lift me (ilock ip);
  let! i := getip ip in
  if di_nlink (i_d i) <? 1 then panic "unlink: nlink < 1" else
  let! keep := (if di_type (i_d i) =? T_DIR
                then let! b := lift me (isdirempty u ip) in ret (negb b)
                else ret false) in
  if keep then
    do! lift me (iunlockput ip);
    bad
  else
  let! w := lift me (writei u dp (KernSrc (replicate (Z.to_nat sizeof_dirent) 0)) e.2 sizeof_dirent) in
  if negb (w =? sizeof_dirent) then panic "unlink: writei" else
  do! (if di_type (i_d i) =? T_DIR then
         do! set_links dp (-1);
         lift me (iupdate dp)
       else ret tt);
  do! lift me (iunlockput dp);
  do! set_links ip (-1);
  do! lift me (iupdate ip);
  do! lift me (iunlockput ip);
  do! liftl me end_op;
  ret 0.

(** The inode, locked, or [NULLI]. *)
Definition create (u : uproc) (cwd : Z) (path : list Z) (type major minor : Z) : M fsys Z :=
  let! d := nameiparent u cwd path in
  let dp := d.1 in
  let name := d.2 in
  if dp =? NULLI then ret NULLI else
  do! ilock dp;
  let! e := dirlookup u dp name in
  if negb (e.1 =? NULLI) then
    let ip := e.1 in
    do! iunlockput dp;
    do! ilock ip;
    let! i := geti ip in
    if (type =? T_FILE) && ((di_type (i_d i) =? T_FILE) || (di_type (i_d i) =? T_DEVICE)) then ret ip
    else
      do! iunlockput ip;
      ret NULLI
  else
  let! di := geti dp in
  let! ip := ialloc (i_dev di) type in
  if ip =? NULLI then
    do! iunlockput dp;
    ret NULLI
  else
  do! ilock ip;
  do! mod_d ip (fun d => Dinode (di_type d) major minor 1 (di_size d) (di_addrs d));
  do! iupdate ip;
  let fail :=
    do! mod_d ip (set_nlink 0);
    do! iupdate ip;
    do! iunlockput ip;
    do! iunlockput dp;
    ret NULLI in
  let! i := geti ip in
  let! r := (if type =? T_DIR then
               let! r := dirlink u ip DOT (i_inum i) in
               if r <? 0 then ret r else dirlink u ip DOTDOT (i_inum di)
             else ret 0) in
  if r <? 0 then fail else
  let! r := dirlink u dp name (i_inum i) in
  if r <? 0 then fail else
  do! (if type =? T_DIR then
         do! mod_d dp (fun d => set_nlink (s16 (di_nlink d + 1)) d);
         iupdate dp
       else ret tt);
  do! iunlockput dp;
  ret ip.

(** ** Opening files *)

(** The locked inode that [sys_open] opens, or [NULLI]. *)
Definition open_inode (u : uproc) (cwd : Z) (path : list Z) (omode : Z) : M fsys Z :=
  if flag omode O_CREATE then create u cwd path T_FILE 0 0
  else
    let! ip := namei u cwd path in
    if ip =? NULLI then ret NULLI else
    do! ilock ip;
    let! i := geti ip in
    if (di_type (i_d i) =? T_DIR) && negb (omode =? O_RDONLY) then
      do! iunlockput ip;
      ret NULLI
    else ret ip.

Definition sys_open : M ksys Z :=
  let! omode := argint 1 in
  let! path := argstr 0 MAXPATH in
  if path.1 <? 0 then ret (-1) else
  let! p := getp me in
  do! liftl me begin_op;
  let! ip := lift me (open_inode (uproc_of p) (p_cwd p) path.2 omode) in
  if ip =? NULLI then
    do! liftl me end_op;
    ret (-1)
  else
  let! i := getip ip in
  if (di_type (i_d i) =? T_DEVICE) && negb (dev_ok (di_major (i_d i))) then
    do! lift me (iunlockput ip);
    do! liftl me end_op;
    ret (-1)
  else
  let! f := filealloc in
  let! fd := (if f =? NULL then ret (-1) else fdalloc f) in
  if fd <? 0 then
    do! (if negb (f =? NULL) then fileclose me f else ret tt);
    do! lift me (iunlockput ip);
    do! liftl me end_op;
    ret (-1)
  else
  do! modf f (fun g =>
        File (if di_type (i_d i) =? T_DEVICE then FD_DEVICE else FD_INODE) (f_ref g)
          (negb (flag omode O_WRONLY)) (flag omode O_WRONLY || flag omode O_RDWR) (f_pipe g) ip
          (if di_type (i_d i) =? T_DEVICE then f_off g else 0)
          (if di_type (i_d i) =? T_DEVICE then di_major (i_d i) else f_major g));
  do! (if flag omode O_TRUNC && (di_type (i_d i) =? T_FILE) then lift me (itrunc ip) else ret tt);
  do! lift me (iunlock ip);
  do! liftl me end_op;
  ret fd.

(** [mkdir] and [mknod] after their arguments. *)
Definition make_node (path : Z * list Z) (type major minor : Z) : M ksys Z :=
  let! p := getp me in
  let! ip := (if path.1 <? 0 then ret NULLI
              else lift me (create (uproc_of p) (p_cwd p) path.2 type major minor)) in
  if ip =? NULLI then
    do! liftl me end_op;
    ret (-1)
  else
  do! lift me (iunlockput ip);
  do! liftl me end_op;
  ret 0.

Definition sys_mkdir : M ksys Z :=
  do! liftl me begin_op;
  let! path := argstr 0 MAXPATH in
  make_node path T_DIR 0 0.

Definition sys_mknod : M ksys Z :=
  do! liftl me begin_op;
  let! major := argint 1 in
  let! minor := argint 2 in
  let! path := argstr 0 MAXPATH in
  make_node path T_DEVICE (s16 major) (s16 minor).

Definition sys_chdir : M ksys Z :=
  let! p := getp me in
  do! liftl me begin_op;
  let! path := argstr 0 MAXPATH in
  let! ip := (if path.1 <? 0 then ret NULLI else lift me (namei (uproc_of p) (p_cwd p) path.2)) in
  if ip =? NULLI then
    do! liftl me end_op;
    ret (-1)
  else
  do! lift me (ilock ip);
  let! i := getip ip in
  if negb (di_type (i_d i) =? T_DIR) then
    do! lift me (iunlockput ip);
    do! liftl me end_op;
    ret (-1)
  else
  do! lift me (iunlock ip);
  do! lift me (iput (p_cwd p));
  do! liftl me end_op;
  do! modp me (set_cwd ip);
  ret 0.

(** The argument pages of [sys_exec]: their addresses and whether all arguments
    were fetched, with the strings in the pages.  At most [MAXARG] turns; reaching
    the end of [argv] without a null pointer is an error. *)
Fixpoint exec_args (n : nat) (uargv i : Z) : M ksys (bool * list Z * list (list Z)) :=
  match n with
  | O => ret (false, [], [])
  | S n =>
      let! a := fetchaddr (u64 (uargv + 8 * i)) in
      if a.1 <? 0 then ret (false, [], []) else
      if a.2 =? 0 then ret (true, [], []) else
      let! pa := liftm kalloc in
      if pa =? 0 then ret (false, [], []) else
      let! s := fetchstr a.2 PGSIZE in
      do! liftm (mod_mem (fun m => wrn m pa s.2));
      if s.1 <? 0 then ret (false, [pa], []) else
      let! r := exec_args n uargv (i + 1) in
      ret (r.1.1, pa :: r.1.2, s.2 :: r.2)
  end.

Definition sys_exec : M ksys Z :=
  let! uargv := argaddr 1 in
  let! path := argstr 0 MAXPATH in
  if path.1 <? 0 then ret (-1) else
  let! a := exec_args (Z.to_nat MAXARG) uargv 0 in
  let free := for_each a.1.2 (fun pa => liftm (kfree pa)) in
  if a.1.1 then
    let! r := kexec me path.2 a.2 in
    do! free;
    ret r
  else
    do! free;
    ret (-1).

Definition sys_pipe : M ksys Z :=
  let! fdarray := argaddr 0 in
  let! p := getp me in
  let! a := pipealloc me in
  match a with
  | None => ret (-1)
  | Some (rf, wf) =>
      let! fd0 := fdalloc rf in
      let! fd1 := (if fd0 <? 0 then ret (-1) else fdalloc wf) in
      if fd1 <? 0 then
        do! (if 0 <=? fd0 then modp me (set_ofile fd0 NULL) else ret tt);
        do! fileclose me rf;
        do! fileclose me wf;
        ret (-1)
      else
      let! r := liftm (copyout (uproc_of p) (p_pagetable p) fdarray (le_bytes 4 fd0)) in
      let! r := (if r <? 0 then ret r
                 else liftm (copyout (uproc_of p) (p_pagetable p) (u64 (fdarray + 4)) (le_bytes 4 fd1))) in
      if r <? 0 then
        do! modp me (set_ofile fd0 NULL);
        do! modp me (set_ofile fd1 NULL);
        do! fileclose me rf;
        do! fileclose me wf;
        ret (-1)
      else ret 0
  end.
End args.
