(* ===== verification/Syscall.v ===== *)
(** * System calls and traps

    The process calls of [kernel/sysproc.c], the dispatch of [kernel/syscall.c],
    the trap handlers of [kernel/trap.c] and the boot sequence of
    [kernel/main.c]. *)

From S2P Require Import Prelude KMonad Memory Riscv Kalloc Vm Machine CString Sleeplock Bio Session FsLayout Log Fs Kernel Printf Console Pipe File Proc Exec Sysfile Virtio.

Definition SBRK_EAGER : Z := 1.
Definition SBRK_LAZY : Z := 2.

Section sysproc.
Context {L : KernelLayout} {Y : KernelSyms} (me : Z).

Definition sys_exit : M ksys Z :=
  let! n := argint me 0 in
  kexit me n.

Definition sys_getpid : M ksys Z :=
  let! p := getp me in
  ret (p_pid p).

Definition sys_fork : M ksys Z := kfork me.

Definition sys_wait : M ksys Z :=
  let! p := argaddr me 0 in
  kwait me p.

Definition sys_sbrk : M ksys Z :=
  let! n := argint me 0 in
  let! t := argint me 1 in
  let! p := getp me in
  let addr := p_sz p in
  if (t =? SBRK_EAGER) || (n <? 0) then
    let! r := growproc me n in
    if r <? 0 then ret (-1) else ret addr
  else if u64 (addr + n) <? addr then ret (-1)
  else
    do! modp me (fun p => set_sz (u64 (p_sz p + n)) p);
    ret addr.

(** [ticks0] is the tick count when the call began; a caller that has to wait
    sleeps and tests again. *)
Definition pause_until (ticks0 n : Z) : M ksys Z :=
  let! ticks := gets y_ticks in
  if u32 (ticks - ticks0) <? n then
    let! k := killed me in
    if k then
      do! release TICKSLOCK;
      ret (-1)
    else sleep me ChTicks TICKSLOCK
  else
    do! release TICKSLOCK;
    ret 0.

Definition sys_pause : M ksys Z :=
  let! n := argint me 0 in
  let n := if n <? 0 then 0 else n in
  do! acquire TICKSLOCK;
  let! ticks0 := gets y_ticks in
  pause_until ticks0 n.

Definition sys_kill : M ksys Z :=
  let! pid := argint me 0 in
  kkill pid.

Definition sys_uptime : M ksys Z :=
  do! acquire TICKSLOCK;
  let! xticks := gets y_ticks in
  do! release TICKSLOCK;
  ret xticks.

(** ** Dispatch *)

(** [syscalls[num]], with the numbers of [syscall.h]; [pad] is the uninitialised
    padding that [fstat] copies. *)
Definition syscalls (pad : list Z) (num : Z) : option (M ksys Z) :=
  match num with
  | 1 => Some sys_fork
  | 2 => Some sys_exit
  | 3 => Some sys_wait
  | 4 => Some (sys_pipe me)
  | 5 => Some (sys_read me)
  | 6 => Some sys_kill
  | 7 => Some (sys_exec me)
  | 8 => Some (sys_fstat me pad)
  | 9 => Some (sys_chdir me)
  | 10 => Some (sys_dup me)
  | 11 => Some sys_getpid
  | 12 => Some sys_sbrk
  | 13 => Some sys_pause
  | 14 => Some sys_uptime
  | 15 => Some (sys_open me)
  | 16 => Some (sys_write me)
  | 17 => Some (sys_mknod me)
  | 18 => Some (sys_unlink me)
  | 19 => Some (sys_link me)
  | 20 => Some (sys_mkdir me)
  | 21 => Some (sys_close me)
  | _ => None
  end.

Definition syscall (pad : list Z) : M ksys unit :=
  let! p := getp me in
  let! a7 := tf_get (p_trapframe p) tf_a7 in
  let num := s32 a7 in
  match syscalls pad num with
  | Some call =>
      let! r := call in
      let! p := getp me in
      tf_set (p_trapframe p) tf_a0 r
  | None =>
      do! printf ("%d %s: unknown sys call %d" ++ String (Ascii.ascii_of_nat 10) "") [VNum (p_pid p); VStr (Some (p_name p)); VNum num];
      tf_set (p_trapframe p) tf_a0 (-1)
  end.

(** ** Traps *)

Definition trapinithart : M mach unit := w_stvec kernelvec_addr.

Definition clockintr : M ksys unit :=
  let! id := zoom cpuid in
  do! (if id =? 0 then
         do! acquire TICKSLOCK;
         do! modify (fun s => set_ticks (u32 (y_ticks s + 1)) s);
         do! wakeup me ChTicks;
         release TICKSLOCK
       else ret tt);
  let! t := zoom r_time in
  zoom (w_stimecmp (u64 (t + 1000000))).

Definition devintr : M ksys Z :=
  let! scause := zoom r_scause in
  if scause =? 0x8000000000000009 then
    let! irq := zoom plic_claim in
    do! (if irq =? UART0_IRQ then uartintr me
         else if irq =? VIRTIO0_IRQ then liftv me virtio_disk_intr
         else if negb (irq =? 0) then printf ("unexpected interrupt irq=%d" ++ String (Ascii.ascii_of_nat 10) "") [VNum irq]
         else ret tt);
    do! (if negb (irq =? 0) then zoom (plic_complete irq) else ret tt);
    ret 1
  else if scause =? 0x8000000000000005 then
    do! clockintr;
    ret 2
  else ret 0.

(** What the code between a trap and the return to user space does in order: a
    result of [Killed] stands for the call of [kexit(-1)], which does not return. *)
Definition prepare_return : M ksys unit :=
  let! p := getp me in
  do! zoom intr_off;
  do! zoom (w_stvec (u64 (TRAMPOLINE + (uservec_addr - trampoline))));
  let tf := p_trapframe p in
  let! satp := zoom r_satp in
  do! tf_set tf tf_kernel_satp satp;
  do! tf_set tf tf_kernel_sp (u64 (p_kstack p + PGSIZE));
  do! tf_set tf tf_kernel_trap usertrap_addr;
  let! tp := zoom r_tp in
  do! tf_set tf tf_kernel_hartid tp;
  let! x := zoom r_sstatus in
  let x := Z.land x (u64 (Z.lnot SSTATUS_SPP)) in
  let x := Z.lor x SSTATUS_SPIE in
  do! zoom (w_sstatus x);
  let! epc := tf_get tf tf_epc in
  zoom (w_sepc epc).

(** The system call branch of [usertrap]. *)
Definition trap_syscall (pad : list Z) : M ksys unit :=
  let! p := getp me in
  let! k := killed me in
  do! (if k then kexit me (-1) else ret tt);
  let! epc := tf_get (p_trapframe p) tf_epc in
  do! tf_set (p_trapframe p) tf_epc (u64 (epc + 4));
  do! zoom intr_on;
  syscall pad.

(** [satp] of the user page table. *)
Definition usertrap (pad : list Z) : M ksys Z :=
  let! st := zoom r_sstatus in
  if negb (Z.land st SSTATUS_SPP =? 0) then panic "usertrap: not from user mode" else
  do! zoom (w_stvec kernelvec_addr);
  let! p := getp me in
  let! sepc := zoom r_sepc in
  do! tf_set (p_trapframe p) tf_epc sepc;
  let! scause := zoom r_scause in
  let! which_dev :=
    (if scause =? 8 then
       do! trap_syscall pad;
       ret 0
     else
       let! dev := devintr in
       if negb (dev =? 0) then ret dev else
       let! stval := zoom r_stval in
       let! ok := (if (scause =? 15) || (scause =? 13) then
                     let! m := liftm (vmfault (uproc_of p) (p_pagetable p) stval) in
                     ret (negb (m =? 0))
                   else ret false) in
       if ok then ret 0 else
       do! printf ("usertrap(): unexpected scause 0x%lx pid=%d" ++ String (Ascii.ascii_of_nat 10) "") [VNum scause; VNum (p_pid p)];
       let! sepc := zoom r_sepc in
       do! printf ("            sepc=0x%lx stval=0x%lx" ++ String (Ascii.ascii_of_nat 10) "") [VNum sepc; VNum stval];
       do! setkilled me;
       ret 0) in
  let! k := killed me in
  do! (if k then kexit me (-1) else ret tt);
  do! (if which_dev =? 2 then yield me else ret tt);
  do! prepare_return;
  let! p := getp me in
  ret (MAKE_SATP (p_pagetable p)).

(** [has_proc]: a process is running on this CPU. *)
Definition kerneltrap (has_proc : bool) : M ksys unit :=
  let! sepc := zoom r_sepc in
  let! sstatus := zoom r_sstatus in
  let! scause := zoom r_scause in
  if Z.land sstatus SSTATUS_SPP =? 0 then panic "kerneltrap: not from supervisor mode" else
  let! on := zoom intr_get in
  if on then panic "kerneltrap: interrupts enabled" else
  let! which_dev := devintr in
  if which_dev =? 0 then
    let! sepc := zoom r_sepc in
    let! stval := zoom r_stval in
    do! printf ("scause=0x%lx sepc=0x%lx stval=0x%lx" ++ String (Ascii.ascii_of_nat 10) "") [VNum scause; VNum sepc; VNum stval];
    panic "kerneltrap"
  else
  do! (if (which_dev =? 2) && has_proc then yield me else ret tt);
  do! zoom (w_sepc sepc);
  zoom (w_sstatus sstatus).

(** ** Boot *)

Definition virtio_disk_init : M ksys unit :=
  let! status := liftv me virtio_probe in
  let! desc := liftm kalloc in
  let! avail := liftm kalloc in
  let! used := liftm kalloc in
  if (desc =? 0) || (avail =? 0) || (used =? 0) then panic "virtio disk kalloc" else
  do! liftm (mod_mem (memset desc 0 PGSIZE));
  do! liftm (mod_mem (memset avail 0 PGSIZE));
  do! liftm (mod_mem (memset used 0 PGSIZE));
  liftv me (virtio_setup status desc avail used).

(** [vm.c]: the kernel's page table and the switch to it. *)
Definition kvminit : M ksys Z := liftm kvmmake.
Definition kvminithart (kernel_pagetable : Z) : M mach unit := w_satp (MAKE_SATP kernel_pagetable).

(** [main] on the first CPU, up to the scheduler. *)
Definition main_boot : M ksys unit :=
  let nl := String (Ascii.ascii_of_nat 10) "" in
  do! consoleinit;
  do! printf nl [];
  do! printf ("xv6 kernel is booting" ++ nl) [];
  do! printf nl [];
  do! liftm kinit;
  let! kpt := kvminit in
  do! zoom (kvminithart kpt);
  do! procinit;
  do! zoom trapinithart;
  do! zoom plicinit;
  do! zoom plicinithart;
  do! lift me (zoom binit);
  do! lift me iinit;
  do! virtio_disk_init;
  userinit me.

(** [main] on the other CPUs, once the first has set [started]. *)
Definition main_hart (kernel_pagetable : Z) : M ksys unit :=
  let! id := zoom cpuid in
  do! printf ("hart %d starting" ++ String (Ascii.ascii_of_nat 10) "") [VNum id];
  do! zoom (kvminithart kernel_pagetable);
  do! zoom trapinithart;
  zoom plicinithart.

(** [forkret], the first code of a new process; [first] says whether it is the
    very first process to run. *)
Definition forkret (first : bool) : M ksys unit :=
  do! release (PROCLOCK me);
  do! (if first then
         do! lift me (fsinit ROOTDEV);
         let! p := getp me in
         let! r := kexec me (bytes_of "/init") [bytes_of "/init"] in
         do! tf_set (p_trapframe p) tf_a0 r;
         if u64 r =? u64 (-1) then panic "exec" else ret tt
       else ret tt);
  prepare_return.
End sysproc.
