(* ===== verification/Grow.v ===== *)
(** * Growing and shrinking user memory

    [growproc] keeps the invariant of processes and gives exactly the memory
    asked for; lazy growth by [sys_sbrk] has no upper limit, and an address
    space larger than [MAXVA] stops the kernel when it is freed. *)

From S2P Require Import Prelude KMonad Memory Riscv Kalloc Vm VmProofs UserVm UserMem UserLife CString Sleeplock Bio Session FsLayout Log Fs Kernel Spaces File Proc ProcMem ProcLife Sysfile Syscall.

Section grow.
Context {L : KernelLayout} {Y : KernelSyms} (me : Z).

(** A step of the memory of [me] and of its size. *)
Lemma procs_inv_resize s free A TF X k' free' t U t' U' sz :
  procs_inv s free A TF X -> A !! me = Some (t, U) -> uspace k' free' t' U' -> pt_root t' = pt_root t ->
  same_high (k_mem (kmem_of s)) (k_mem k') t t' ->
  pt_pages t' ++ upages U' ++ free' ≡ₚ pt_pages t ++ upages U ++ free ->
  same_except (pt_pages t ++ upages U ++ free) (k_mem (kmem_of s)) (k_mem k') ->
  0 <= sz <= ulimit * 4096 -> (forall v, pgup sz <= v -> U' !! v = None) ->
  procs_inv (set_kmem k' (upd_proc me (set_sz sz) s)) free' (<[me := (t', U')]> A) TF X /\
  (forall j va, j <> me -> sees k' (<[me := (t', U')]> A) j va = sees (kmem_of s) A j va).
Proof.
  intros Hinv Hme Hu' Hr Hh Hp Hm Hsz Htop; pose proof (pv_mem _ _ _ _ _ Hinv) as Hpm; pose proof (pv_len _ _ _ _ _ Hinv) as Hlen.
  destruct (pv_live _ _ _ _ _ Hinv _ _ _ Hme) as (Hmr & [L1 L2 L3 L4 L5] & Hmt).
  assert (0 <= me < Z.of_nat (length (y_proc s))) as Hml by (rewrite Hlen; change NPROC with 64 in *; lia).
  split.
  - apply (procs_inv_slot s _ free free' A (<[me := (t', U')]> A) TF TF X me); auto.
    + by eapply (pmem_space_step (kmem_of s) k').
    + by autorewrite with ksys.
    + intros j Hj Hne; autorewrite with ksys; rewrite proc_at_upd_ne, lookup_insert_ne by (done || lia); done.
    + intros j x; rewrite lookup_insert_Some; intros [[<- _]|[_ Hx]]; [done|by eapply pv_range].
    + rewrite lookup_insert_eq; autorewrite with ksys; rewrite proc_at_upd_eq by done; split; [|done].
      split; cbn; auto; by rewrite Hr.
  - intros j va Hj; unfold sees; rewrite lookup_insert_ne by done; destruct (A !! j) as [[tj Uj]|] eqn:E; [|done].
    by eapply (proj2 (spaces_step _ k' free free' A _ me t U t' U' (pm_spaces _ _ _ _ _ Hpm) Hme Hu' Hp Hm)).
Qed.

Lemma view_unmapped s s' free t U U' v n freed va :
  uspace s free t U -> unmapped_by s s' free t U (unmap_range U v n) freed -> U' = unmap_range U v n ->
  uview (k_mem s') U' va = if decide (v <= va / 4096 < v + n) then 0 else uview (k_mem s) U va.
Proof.
  intros Hu [B1 B2 B3 B4] ->; unfold uview at 1; rewrite lookup_unmap_range.
  destruct (decide (v <= va / 4096 < v + n)) as [Hd|Hd]; [done|].
  unfold uview; destruct (U !! (va / 4096)) as [[pa pm]|] eqn:E; [|done].
  pose proof (Z.mod_pos_bound va 4096 ltac:(lia)); destruct (us_dom _ _ _ _ Hu _ _ _ E) as (_ & Hpa & _).
  assert (Forall page_ok (freed ++ pt_pages t)) as HF.
  { pose proof (space_pages_ok _ _ _ _ B1) as Hok; rewrite !Forall_app in *; tauto. }
  apply (same_except_page _ _ _ pa _ B3 HF Hpa); [|lia].
  assert (unmap_range U v n !! (va / 4096) = Some (pa, pm)) as E' by (rewrite lookup_unmap_range; by rewrite decide_False).
  destruct (upage_apart _ _ _ _ _ _ _ B1 E') as (N1 & N2 & _); rewrite !elem_of_app in *; tauto.
Qed.

(** [U'] is the map of a process that went from [old] to [sz] bytes: the pages
    that were not there are mapped for the user to read and write, those below
    both sizes are as they were, and none is left above. *)
Definition remapped (U U' : umap) (old sz : Z) : Prop :=
  forall v, if decide (v < pgup sz) then
      if decide (pgup old <= v) then exists pa, U' !! v = Some (pa, Z.lor (Z.lor PTE_R PTE_U) PTE_W) else U' !! v = U !! v
    else U' !! v = None.

(** What [growproc] leaves: process [me] of size [sz] with its pages mapped up to
    there, which reads its memory as before and zeros in the new pages; every page
    it got was free and every page it gave up is. *)
Definition resized (s : ksys) (free : list Z) (A : gmap Z (ptree * umap)) (TF : gmap Z Z) (X : list Z) (sz : Z) (s' : ksys) : Prop :=
  let old := p_sz (proc_at s me) in
  exists k' free' t U t' U', let A' := <[me := (t', U')]> A in
    A !! me = Some (t, U) /\ s' = set_kmem k' (upd_proc me (set_sz sz) s) /\ procs_inv s' free' A' TF X /\
    remapped U U' old sz /\ pt_pages t' ++ upages U' ++ free' ≡ₚ pt_pages t ++ upages U ++ free /\
    (forall va, sees k' A' me va = if decide (va / 4096 < pgup old /\ va / 4096 < pgup sz) then sees (kmem_of s) A me va else 0) /\
    (forall j va, j <> me -> sees k' A' j va = sees (kmem_of s) A j va).

Lemma resize_back s : upd_proc me (set_sz (p_sz (proc_at s me))) s = s.
Proof.
  unfold upd_proc; replace (set_sz (p_sz (proc_at s me)) (proc_at s me)) with (proc_at s me) by (by destruct (proc_at s me)).
  unfold proc_at; rewrite aset_id; by destruct s.
Qed.

Lemma sees_top s free A TF X t U va :
  procs_inv s free A TF X -> A !! me = Some (t, U) -> pgup (p_sz (proc_at s me)) <= va / 4096 -> uview (k_mem (kmem_of s)) U va = 0.
Proof.
  intros Hinv Hme Hv; destruct (pv_live _ _ _ _ _ Hinv _ _ _ Hme) as (_ & [_ _ _ Htop _] & _).
  unfold uview; by rewrite Htop.
Qed.

Lemma pgup_mono a b : a <= b -> pgup a <= pgup b.
Proof. intros; apply Z.div_le_mono; lia. Qed.

Lemma grow_resized s free A TF X t U k' free' t' U' sz :
  let old := p_sz (proc_at s me) in
  procs_inv s free A TF X -> A !! me = Some (t, U) -> grow_ext (kmem_of s) k' free free' t t' U U' ->
  old <= sz <= ulimit * 4096 -> grown U U' (pgup old) (pgup sz) (Z.lor (Z.lor PTE_R PTE_U) PTE_W) ->
  resized s free A TF X sz (set_kmem k' (upd_proc me (set_sz sz) s)).
Proof.
  intros old Hinv Hme [G1 G2 G3 G4 G5 G6 G7] Hsz Hgr; destruct (pv_live _ _ _ _ _ Hinv _ _ _ Hme) as (_ & [_ _ L3 L4 _] & _).
  pose proof (pgup_mono old sz ltac:(lia)) as Hpg.
  assert (remapped U U' old sz) as Hre.
  { intros v; specialize (Hgr v); destruct (decide (v < pgup sz)), (decide (pgup old <= v)), (decide (pgup old <= v < pgup sz)); try lia; auto.
    rewrite Hgr; apply L4; fold old; lia. }
  assert (forall v, pgup sz <= v -> U' !! v = None) as Htop.
  { intros v Hv; specialize (Hre v); by rewrite decide_False in Hre by lia. }
  destruct (procs_inv_resize s free A TF X k' free' t U t' U' sz) as [Hinv' Ho]; auto; [|fold old in L3; lia|].
  { eapply same_except_mono; [|exact G6]; intros p; elt. }
  exists k', free', t, U, t', U'; split_and!; auto; intros va; unfold sees; rewrite lookup_insert_eq, Hme, G5.
  fold old; case_decide as Hd; [done|]; eapply sees_top; eauto; fold old; lia.
Qed.

Lemma shrink_resized s free A TF X t U k' freed sz :
  let old := p_sz (proc_at s me) in let v := pgup sz in let n := pgup old - v in
  procs_inv s free A TF X -> A !! me = Some (t, U) -> unmapped_by (kmem_of s) k' free t U (unmap_range U v n) freed ->
  0 <= sz <= old -> resized s free A TF X sz (set_kmem k' (upd_proc me (set_sz sz) s)).
Proof.
  intros old v n Hinv Hme Hub Hsz; destruct (pv_live _ _ _ _ _ Hinv _ _ _ Hme) as (_ & [_ _ L3 L4 _] & _); fold old in L3, L4.
  assert (uspace (kmem_of s) free t U) as Hu by (eapply sp_space; [apply Hinv|done]); destruct (Hub) as [B1 B2 B3 B4].
  pose proof (pgup_mono sz old ltac:(lia)) as Hv; fold v in Hv.
  assert (remapped U (unmap_range U v n) old sz) as Hre.
  { intros w; rewrite lookup_unmap_range; fold v; repeat case_decide; try lia; try done; apply L4; lia. }
  assert (pt_pages t ++ upages (unmap_range U v n) ++ freed ++ free ≡ₚ pt_pages t ++ upages U ++ free) as Hpp.
  { rewrite B2, !app_assoc; f_equiv; rewrite <- !app_assoc; f_equiv; apply Permutation_app_comm. }
  destruct (procs_inv_resize s free A TF X k' (freed ++ free) t U t (unmap_range U v n) sz) as [Hinv' Ho]; auto.
  - eapply same_except_mono; [|exact B3]; intros p; rewrite B2, !elem_of_app; tauto.
  - lia.
  - intros w Hw; specialize (Hre w); by rewrite decide_False in Hre by (fold v in Hw; lia).
  - exists k', (freed ++ free), t, U, t, (unmap_range U v n); split_and!; auto; intros va; unfold sees; rewrite lookup_insert_eq, Hme.
    rewrite (view_unmapped _ _ _ _ _ _ v n freed va Hu Hub eq_refl); fold old v; repeat case_decide; try lia; try done.
    eapply sees_top; eauto; fold old; lia.
Qed.

(** Nothing done at all. *)
Lemma unresized s free A TF X :
  procs_inv s free A TF X -> is_Some (A !! me) -> resized s free A TF X (p_sz (proc_at s me)) s.
Proof.
  intros Hinv [[t U] Hme]; destruct (pv_live _ _ _ _ _ Hinv _ _ _ Hme) as (_ & [_ _ L3 _ _] & _).
  rewrite <- (set_kmem_id s) at 3; rewrite <- (resize_back s) at 4; eapply grow_resized; eauto; [|lia|].
  - apply grow_refl; eapply sp_space; [apply Hinv|done].
  - intros v; by rewrite decide_False by lia.
Qed.

(** The size [growproc] asks for: a process cannot give up more than it has, and
    such a request leaves it as it is. *)
Definition new_size (sz n : Z) : Z := if sz + n <? 0 then sz else sz + n.

Lemma growproc_spec s free A TF X n c :
  let sz := p_sz (proc_at s me) in
  procs_inv s free A TF X -> is_Some (A !! me) -> KMEM ∉ c_held c -> - 2 ^ 31 <= n -> sz + n <= ulimit * 4096 ->
  wp (growproc me n) c s (fun r c' s' => c' = c /\
    ((r = 0 /\ resized s free A TF X (new_size sz n) s') \/ (r = -1 /\ 0 < n /\ resized s free A TF X sz s'))).
Proof.
  intros sz Hinv Hsome Hc Hlow Hn; destruct (Hsome) as [[t U] Hme].
  destruct (pv_live _ _ _ _ _ Hinv _ _ _ Hme) as (Hmr & [L1 L2 L3 L4 L5] & Hmt); fold sz in L3, L4.
  assert (uspace (kmem_of s) free t U) as Hu by (eapply sp_space; [apply Hinv|done]).
  assert (Hn' := Hn); assert (L3' := L3); rewrite ulimit_eq in Hn', L3'; unfold growproc, getp, modp, new_size; do 2 wp_step; fold sz; rewrite L2.
  destruct (Z.ltb_spec 0 n) as [Hpos|Hneg]; [|destruct (Z.ltb_spec n 0) as [Hlt|Hge]].
  - rewrite u64_small, (proj2 (Z.ltb_ge (sz + n) 0)) by lia.
    wp_step; apply wp_zoom; eapply wp_mono; [apply (uvmalloc_spec (kmem_of s) free t U sz (sz + n) PTE_W); auto; try lia|].
    { by vm_compute. }
    { intros w Hw; apply L4; lia. }
    intros r c' k' (-> & free' & t' & U' & Hg & [[-> Hgr]|[-> ->]]).
    + destruct (Z.eqb_spec (sz + n) 0); [lia|]; wp_steps; split; [done|]; left; split; [done|].
      eapply grow_resized; eauto; fold sz; lia.
    + wp_steps; split; [done|]; right; split_and!; [done|done|].
      rewrite <- (resize_back s) at 2; eapply grow_resized; eauto; fold sz; [lia|]; intros v; by rewrite decide_False by lia.
  - destruct (Z.ltb_spec (sz + n) 0) as [Hbig|Hok].
    + assert (u64 (sz + n) = 2 ^ 64 + (sz + n)) as -> by (unfold u64; symmetry; apply Z.mod_unique with (-1); lia).
      unfold uvmdealloc; rewrite (proj2 (Z.leb_le sz _)) by lia; wp_steps; split; [done|]; left; split; [done|].
      rewrite set_kmem_id; unfold sz; rewrite resize_back; by apply unresized.
    + rewrite u64_small by lia; wp_step; apply wp_zoom; eapply wp_mono; [apply (uvmdealloc_spec (kmem_of s) free t U sz (sz + n)); auto; lia|].
      intros r c' k' (-> & -> & freed & Hub); destruct (Z.leb_spec sz (sz + n)); [lia|]; wp_steps; split; [done|]; left; split; [done|].
      eapply shrink_resized; eauto; fold sz; lia.
  - replace n with 0 in * by lia; rewrite Z.add_0_r, (proj2 (Z.ltb_ge sz 0)) by lia; wp_steps; split; [done|]; left; split; [done|].
    unfold sz; rewrite resize_back; by apply unresized.
Qed.

(** The first two arguments of a system call. *)
Lemma argint_spec k off s c :
  (k = 0 /\ off = tf_a0) \/ (k = 1 /\ off = tf_a1) ->
  wp (argint me k) c s (fun r c' s' =>
    c' = c /\ s' = s /\ r = s32 (rd64 (k_mem (kmem_of s)) (p_trapframe (proc_at s me) + off))).
Proof.
  intros Hk; unfold argint, argraw, getp, tf_get; do 3 wp_step; destruct Hk as [[-> ->]|[-> ->]]; cbn [Z.eqb Pos.eqb];
    apply wp_zoom, wp_gets; wp_steps; (split_and!; [done|apply set_kmem_id|done]).
Qed.

(** C23. [sbrk] resizes the memory of the calling process, eagerly or to give
    memory back, for requests that stay within user memory.  Growing by [n] bytes
    maps every page up to the new size for the process to read and write, zeroed,
    or fails with -1 and the mappings as they were; shrinking unmaps the pages
    above the new size, and a request to give up more than there is leaves
    everything as it is.  Mappings and contents below both sizes are unchanged, as
    is the memory of all other processes; the pages of the process, its page table
    and the free pages are together the same pages as before. *)
Theorem sbrk_resizes s free A TF X c :
  let p := proc_at s me in let word off := s32 (rd64 (k_mem (kmem_of s)) (p_trapframe p + off)) in
  procs_inv s free A TF X -> is_Some (A !! me) -> KMEM ∉ c_held c ->
  word tf_a1 = SBRK_EAGER \/ word tf_a0 < 0 -> p_sz p + word tf_a0 <= ulimit * 4096 ->
  wp (sys_sbrk me) c s (fun r c' s' => c' = c /\
    ((r = p_sz p /\ resized s free A TF X (new_size (p_sz p) (word tf_a0)) s') \/
     (r = -1 /\ 0 < word tf_a0 /\ resized s free A TF X (p_sz p) s'))).
Proof.
  intros p word Hinv Hme Hc Hty Hsz; unfold sys_sbrk, getp.
  wp_step; eapply wp_mono; [apply (argint_spec 0 tf_a0); auto|].
  intros n c' s' (-> & -> & ->); wp_step; eapply wp_mono; [apply (argint_spec 1 tf_a1); auto|].
  intros ty c' s' (-> & -> & ->); fold p; fold (word tf_a0); fold (word tf_a1); do 2 wp_step; fold p.
  replace ((word tf_a1 =? SBRK_EAGER) || (word tf_a0 <? 0)) with true
    by (symmetry; apply orb_true_iff; destruct Hty; [left; by apply Z.eqb_eq|right; by apply Z.ltb_lt]).
  wp_step; eapply wp_mono; [apply (growproc_spec s free A TF X (word tf_a0)); auto; apply s32_range|].
  intros r c' s' (-> & [[-> Hr]|(-> & Hn & Hr)]); cbn [Z.ltb Z.compare]; wp_steps; auto.
Qed.

(** ** Memory beyond [MAXVA] *)

(** One turn of [uvmunmap]. *)
Definition unmap_page (pagetable a : Z) : M kmem unit :=
  let! pte := walk pagetable a false in
  if pte =? 0 then ret tt else
  let! v := read_pte pte in
  if negb (set v PTE_V) then ret tt else
  do! kfree (PTE2PA v);
  write_pte pte 0.

Lemma uvmunmap_loop_S fuel pt a last c s :
  a < last ->
  uvmunmap_loop (S fuel) pt a last true c s = (do! unmap_page pt a; uvmunmap_loop fuel pt (u64 (a + PGSIZE)) last true) c s.
Proof. intros H; unfold unmap_page; rewrite bind_assoc; cbn [uvmunmap_loop]; by rewrite (proj2 (Z.ltb_lt a last) H). Qed.

(** A page above user memory where nothing is mapped is skipped. *)
Lemma unmap_page_high s free t U v c :
  pspace s free t U ∅ -> KMEM ∉ c_held c -> TF_PAGE <= v <= TR_PAGE ->
  wp (unmap_page (pt_root t) (v * 4096)) c s (fun _ c' s' => c' = c /\ s' = s).
Proof.
  intros [Hu Hh _] Hc Hv; destruct (high_va v Hv) as [Hva _]; pose proof (Hh v Hv) as Hpte; rewrite lookup_empty in Hpte.
  unfold unmap_page; wp_step; eapply wp_mono; [apply (walk_spec s free t); [apply Hu|done|exact Hva]|].
  intros a c' s' (-> & -> & ->); unfold pte_of in Hpte; destruct (leaf_page t (v * 4096)) as [p|]; [|by wp_steps].
  destruct (_ =? 0); [by wp_steps|]; unfold read_pte; wp_steps; rewrite Hpte; by wp_steps.
Qed.

Lemma unmap_page_low s free t U v c :
  pspace s free t U ∅ -> KMEM ∉ c_held c -> 0 <= v < ulimit ->
  wp (unmap_page (pt_root t) (v * 4096)) c s (fun _ c' s' => c' = c /\ exists free' U', pspace s' free' t U' ∅).
Proof.
  intros [Hu Hh Hok] Hc Hv; pose proof (uvmunmap_loop_spec 1 s free t U v c Hu Hc) as Hw.
  unfold wp in Hw; rewrite uvmunmap_loop_S in Hw by lia; specialize (Hw ltac:(lia) ltac:(lia)); apply wp_bind_inv in Hw.
  eapply wp_mono; [exact Hw|]; intros [] c' s' H; cbn [uvmunmap_loop] in H.
  replace (u64 (v * 4096 + PGSIZE) <? v * 4096 + Z.of_nat 1 * 4096) with false in H.
  - unfold wp, ret in H; cbn [negb] in H; destruct H as (-> & freed & [B1 B2 B3 B4]); split; [done|]; exists (freed ++ free), (unmap_range U v (Z.of_nat 1)).
    split; [done|by eapply high_same|done].
  - change PGSIZE with 4096; rewrite u64_small by (rewrite ulimit_eq in Hv; lia); symmetry; apply Z.ltb_ge; lia.
Qed.

(** Unmapping up to an address beyond [MAXVA]. *)
Lemma unmap_past_end m : forall s free t U v fuel last c,
  pspace s free t U ∅ -> KMEM ∉ c_held c -> 0 <= v -> v + Z.of_nat m = TR_PAGE + 1 -> MAXVA < last -> (m < fuel)%nat ->
  panics (uvmunmap_loop fuel (pt_root t) (v * 4096) last true) c s "walk".
Proof.
  assert (TR_PAGE + 1 = 2 ^ 26) as HT by (unfold TR_PAGE; rewrite ulimit_eq; lia).
  induction m as [|m IH]; intros s free t U v fuel last c Hp Hc Hv Hm Hl Hf; destruct fuel as [|fuel]; try lia;
    change MAXVA with (2 ^ 38) in Hl; unfold panics; rewrite uvmunmap_loop_S by lia.
  - apply bind_panic; unfold unmap_page; apply bind_panic; unfold walk; destruct (Z.leb_spec MAXVA (v * 4096)) as [|Hlt]; [done|].
    change MAXVA with (2 ^ 38) in Hlt; lia.
  - apply wp_panics; change PGSIZE with 4096; rewrite u64_small by lia; replace (v * 4096 + 4096) with ((v + 1) * 4096) by lia.
    destruct (decide (v < ulimit)) as [Hlo|Hhi].
    + eapply wp_mono; [by apply (unmap_page_low s free t U v)|]; intros _ c' s' (-> & free' & U' & Hp'); eapply IH; eauto; lia.
    + eapply wp_mono; [apply (unmap_page_high s free t U v); [done|done|unfold TF_PAGE; lia]|]; intros _ c' s' (-> & ->); eapply IH; eauto; lia.
Qed.

Lemma uvmfree_past_end s free t U sz c :
  pspace s free t U ∅ -> KMEM ∉ c_held c -> MAXVA < sz < 2 ^ 63 -> panics (uvmfree (pt_root t) sz) c s "walk".
Proof.
  intros Hp Hc Hsz; change MAXVA with (2 ^ 38) in Hsz; unfold uvmfree; apply bind_panic.
  destruct (Z.ltb_spec 0 sz); [|lia]; pose proof (pgup_bounds sz ltac:(lia)).
  rewrite PGROUNDUP_pgup by lia; change PGSIZE with 4096; rewrite Z.div_mul by lia; unfold uvmunmap; cbn [Z.modulo Z.eqb negb].
  change PGSIZE with 4096; change (0 mod 4096 =? 0) with true; cbn [negb]; rewrite u64_small by lia.
  destruct (Z_of_nat_complete (2 ^ 26) ltac:(lia)) as [m Hm].
  apply (unmap_past_end m s free t U 0); [done|done|lia|unfold TR_PAGE; rewrite ulimit_eq; lia|change MAXVA with (2 ^ 38); lia|lia].
Qed.

Lemma free_memory_past_end k free A TF X i t U tf sz c :
  pmem k free A TF X -> A !! i = Some (t, U) -> TF !! i = Some tf -> KMEM ∉ c_held c -> MAXVA < sz < 2 ^ 63 ->
  panics (free_memory tf (pt_root t) sz) c k "walk".
Proof.
  intros Hp Hi Hti Hc Hsz; destruct (pmem_pspace _ _ _ _ _ _ _ _ _ Hp Hi Hti) as [Hps Htf].
  pose proof (page_ok_bounds _ Htf); unfold free_memory; destruct (Z.eqb_spec tf 0) as [|_]; [lia|]; cbn [negb].
  assert (page_ok (pt_root t)) as Hroot by (eapply vi_ok; [apply (us_inv _ _ _ _ (ps_space _ _ _ _ _ Hps))|apply pages_root]).
  pose proof (page_ok_bounds _ Hroot); destruct (Z.eqb_spec (pt_root t) 0) as [|_]; [lia|]; cbn [negb].
  destruct (tf_fresh _ _ _ _ _ _ _ _ _ Hp Hi Hti) as [Hfr Hnd].
  apply wp_panics; eapply wp_mono; [apply (uspace_kfree_spec k free t U tf); [apply Hps|done|done]|].
  intros _ c' k1 (-> & Hu1 & Ho1); unfold proc_freepagetable.
  assert (pspace k1 (tf :: free) t U (proc_high tf)) as Hps1.
  { split; [done| |apply Hps]; eapply high_same; [apply Hps|]; apply (same_high_page k free t tf); [apply (us_inv _ _ _ _ (ps_space _ _ _ _ _ Hps))|done|apply Hfr|done]. }
  change TRAMPOLINE with (TR_PAGE * 4096); change TRAPFRAME with (TF_PAGE * 4096); apply wp_panics.
  eapply wp_mono; [apply (unmap_high_spec k1 (tf :: free) t U (proc_high tf)); auto with xv6|].
  intros _ c' k2 (-> & Hp2 & _); apply wp_panics.
  eapply wp_mono; [apply (unmap_high_spec k2 (tf :: free) t U (delete TR_PAGE (proc_high tf))); auto with xv6|].
  intros _ c' k3 (-> & Hp3 & _); rewrite proc_high_delete in Hp3; by eapply uvmfree_past_end.
Qed.

(** C24. Lazy growth has no limit: [sys_sbrk] accepts any amount that does not
    overflow 64 bits.  Once the size of the process exceeds [MAXVA], releasing it
    stops the whole kernel in [panic("walk")]. *)
Theorem lazy_sbrk_panics s free A TF X c :
  let p := proc_at s me in let word off := s32 (rd64 (k_mem (kmem_of s)) (p_trapframe p + off)) in
  procs_inv s free A TF X -> is_Some (A !! me) -> KMEM ∉ c_held c ->
  word tf_a1 <> SBRK_EAGER -> 0 <= word tf_a0 -> MAXVA < p_sz p + word tf_a0 ->
  wp (sys_sbrk me) c s (fun r c' s' => c' = c /\ r = p_sz p /\ p_sz (proc_at s' me) = p_sz p + word tf_a0 /\
    panics (freeproc me) c' s' "walk").
Proof.
  intros p word Hinv [[t U] Hme] Hc Hty Hn Hsz; destruct (pv_live _ _ _ _ _ Hinv _ _ _ Hme) as (Hmr & [L1 L2 L3 L4 L5] & Hmt).
  pose proof (pv_len _ _ _ _ _ Hinv) as Hlen; pose proof (s32_range (rd64 (k_mem (kmem_of s)) (p_trapframe p + tf_a0))) as Hr.
  fold p in L2, L3, L4; rewrite ulimit_eq in L3; change MAXVA with (2 ^ 38) in Hsz.
  assert (0 <= me < Z.of_nat (length (y_proc s))) as Hml by (rewrite Hlen; change NPROC with 64 in *; lia).
  unfold sys_sbrk, getp, modp; wp_step; eapply wp_mono; [apply (argint_spec 0 tf_a0); auto|].
  intros n c' s' (-> & -> & ->); wp_step; eapply wp_mono; [apply (argint_spec 1 tf_a1); auto|].
  intros ty c' s' (-> & -> & ->); fold p; fold (word tf_a0); fold (word tf_a1) in Hty |- *; fold (word tf_a0) in Hr; do 2 wp_step; fold p.
  destruct (Z.eqb_spec (word tf_a1) SBRK_EAGER) as [|_]; [done|]; destruct (Z.ltb_spec (word tf_a0) 0) as [|_]; [lia|]; cbn [orb].
  rewrite u64_small by lia; destruct (Z.ltb_spec (p_sz p + word tf_a0) (p_sz p)) as [|_]; [lia|]; wp_steps.
  rewrite proc_at_upd_eq by done; fold p; cbn [p_sz set_sz]; rewrite u64_small by lia; split_and!; auto.
  apply freeproc_panic; rewrite proc_at_upd_eq by done; fold p; cbn [p_sz p_trapframe p_pagetable set_sz]; rewrite u64_small, L2 by lia.
  eapply (free_memory_past_end (kmem_of s)); eauto; [apply Hinv|change MAXVA with (2 ^ 38); lia].
Qed.
End grow.
