(* ===== verification/LifeExample.v ===== *)
(** * A kernel with one process

    A machine with twenty free pages on which [allocproc] makes a first process
    and [growproc] gives it memory: the theorems on processes apply to it. *)

From S2P Require Import Prelude KMonad Memory Riscv Kalloc Vm VmProofs UserVm UserMem UserLife Machine CString Sleeplock Bio Session FsLayout Log Fs Virtio Kernel Spaces Pipe PipeProofs PipeSystem File KernelExample Proc ProcMem ProcLife Fork Exec Sysfile Syscall Grow.

Definition big_layout : KernelLayout.
Proof.
  refine {| kend := PHYSTOP - 20 * 4096 - 100; etext := KERNBASE + 4096 * 2; trampoline := KERNBASE + 4096 |};
    unfold PHYSTOP, KERNBASE, PGSIZE; first [lia | reflexivity].
Defined.
Definition example_syms : KernelSyms := {| forkret_addr := KERNBASE; usertrap_addr := KERNBASE; kernelvec_addr := KERNBASE; uservec_addr := KERNBASE |}.

Definition pages20 : list Z := map page (zrange 1 20).
Definition boot_mem : kmem := Kmem (chain (zrange 1 19)) (page 1).
Definition boot_sys : ksys :=
  KSys (Fsys boot_mem (fs_log ex_fs) (fs_sb ex_fs) (fs_itable ex_fs)) (replicate 100 file0) ∅ (replicate 64 proc0) 0 1 0
    (replicate 10 (None, None)) (Cons (replicate 128 0) 0 0 0) false ex_vdisk ex_mach.

Lemma boot_kalloc : kalloc_inv (L := big_layout) boot_mem pages20.
Proof.
  split.
  - unfold boot_mem, chain; cbn [k_mem zrange foldr]; repeat apply mem_ok_wr64; apply mem_ok_empty.
  - vm_compute; auto 30.
  - by apply (bool_decide_unpack _); vm_compute.
  - repeat constructor; by vm_compute.
Qed.

Lemma boot_procs : procs_inv (L := big_layout) boot_sys pages20 ∅ ∅ [].
Proof.
  split; [| |by intros i t U; rewrite lookup_empty|].
  - split; [split; [apply boot_kalloc|by intros i t U; rewrite lookup_empty|apply Forall_nil_2|]|done|by intros i t U tf; rewrite lookup_empty].
    apply (ki_nodup (L := big_layout) _ _ boot_kalloc).
  - by vm_compute.
  - intros i Hi _; unfold proc_at, boot_sys, aget; cbn [y_proc]; rewrite nth_lookup, lookup_replicate_2; [by split|].
    change NPROC with 64 in Hi; lia.
Qed.

(** The value a computation returns, and the state it leaves. *)
Definition value {T B} (m : M T B) (c : ctx) (s : T) : option B := match m c s with Ret a _ _ _ => Some a | _ => None end.
Definition after {T B} (m : M T B) (c : ctx) (s : T) : T := match m c s with Ret _ _ s' _ => s' | _ => s end.

Lemma wp_after {T B} (m : M T B) c s a (Φ : B -> ctx -> T -> Prop) :
  wp m c s Φ -> value m c s = Some a -> exists c', Φ a c' (after m c s).
Proof. unfold wp, value, after; destruct (m c s) as [b c' s' w| | |]; [|done..]; intros H [= <-]; eauto. Qed.

Definition one_proc : ksys := after (allocproc (L := big_layout) (Y := example_syms)) idle boot_sys.

Lemma one_proc_slot : value (allocproc (L := big_layout) (Y := example_syms)) idle boot_sys = Some 0.
Proof. vm_compute; reflexivity. Qed.

Lemma one_proc_inv : exists free t tf, procs_inv (L := big_layout) one_proc free {[0 := (t, ∅)]} {[0 := tf]} [].
Proof.
  destruct (wp_after _ idle boot_sys 0 _ (allocproc_spec (L := big_layout) (Y := example_syms) boot_sys pages20 ∅ ∅ [] idle boot_procs
    ltac:(split_and!; intros; apply not_elem_of_nil)) one_proc_slot) as (c' & k & free & _ & [[? _]|(t & tf & Hr & _ & _ & Hs & Hp & _)]); [done|].
  exists free, t, tf; fold one_proc in Hs; rewrite Hs, <- !insert_empty.
  exact (alloc_inv (L := big_layout) (Y := example_syms) boot_sys pages20 ∅ ∅ [] _ 0 t tf k free boot_procs Hr eq_refl Hp).
Qed.

(** The first process grows by 5000 bytes. *)
Definition grown_proc : ksys := after (growproc (L := big_layout) 0 5000) idle one_proc.

Lemma grown_proc_value : value (growproc (L := big_layout) 0 5000) idle one_proc = Some 0 /\ p_sz (proc_at one_proc 0) = 0.
Proof. split; vm_compute; reflexivity. Qed.

Lemma grown_can_fork : exists free A TF, can_fork (L := big_layout) 0 grown_proc free A TF [] idle.
Proof.
  destruct one_proc_inv as (free & t & tf & Hinv), grown_proc_value as [Hv Hsz].
  assert (p_sz (proc_at one_proc 0) + 5000 <= ulimit * 4096) as Hr by (rewrite Hsz, ulimit_eq; lia).
  destruct (wp_after _ idle one_proc 0 _ (growproc_spec (L := big_layout) 0 one_proc free _ _ [] 5000 idle Hinv
    ltac:(rewrite lookup_singleton_eq; eauto) ltac:(apply not_elem_of_nil) ltac:(lia) Hr) Hv)
    as (c' & _ & [[_ (k & free' & t0 & U0 & t' & U' & _ & Hs & Hinv' & _)]|[? _]]); [|done].
  eexists free', _, _; split; [exact Hinv'|by rewrite lookup_insert_eq; eauto| |done].
  split; [by vm_compute|].
  assert (p_ofile (proc_at grown_proc 0) = replicate 16 NULL) as -> by (vm_compute; reflexivity); apply Forall_replicate; by left.
Qed.

(** The call succeeds: the child is process 2. *)
Lemma kfork_copies_witness : exists free A TF s',
  value (kfork (L := big_layout) (Y := example_syms) 0) idle grown_proc = Some 2 /\
  fork_outcome (L := big_layout) 0 grown_proc free A TF [] 2 s'.
Proof.
  destruct grown_can_fork as (free & A & TF & Hcf).
  assert (value (kfork (L := big_layout) (Y := example_syms) 0) idle grown_proc = Some 2) as Hv by (vm_compute; reflexivity).
  destruct (wp_after _ idle grown_proc 2 _ (kfork_copies (L := big_layout) (Y := example_syms) 0 grown_proc free A TF [] idle Hcf) Hv) as (c' & _ & Hf).
  eexists free, A, TF, _; split; [exact Hv|exact Hf].
Defined.

(** The first process calls with arguments [x] and [y]. *)
Definition with_args (x y : Z) (s : ksys) : ksys :=
  let tf := p_trapframe (proc_at s 0) in let k := kmem_of s in
  set_kmem (set_mem (wr64 (wr64 (k_mem k) (tf + tf_a0) x) (tf + tf_a1) y) k) s.

Lemma with_args_inv x y s free A TF :
  procs_inv (L := big_layout) s free A TF [] -> is_Some (A !! 0) -> procs_inv (L := big_layout) (with_args x y s) free A TF [].
Proof.
  intros [H1 H2 H3 H4] [[t U] H0]; destruct (H3 _ _ _ H0) as (_ & _ & Htf); split; [|done|done|done].
  apply (pmem_trapframe (L := big_layout) _ free A TF [] 0 (p_trapframe (proc_at s 0))); auto.
  - apply mem_ok_wr64, mem_ok_wr64, (pmem_kalloc (L := big_layout) _ _ _ _ _ H1).
  - intros z Hz; rewrite !rd_wr64_out; [done|unfold tf_a0, tf_off; lia|unfold tf_a1, tf_off; lia].
Qed.

Definition sbrk_call : ksys := with_args 5000 SBRK_EAGER one_proc.

Lemma sbrk_call_size :
  new_size (p_sz (proc_at sbrk_call 0)) (s32 (rd64 (k_mem (kmem_of sbrk_call)) (p_trapframe (proc_at sbrk_call 0) + tf_a0))) = 5000.
Proof. vm_compute; reflexivity. Qed.

Lemma sbrk_resizes_witness : exists free A TF s',
  value (sys_sbrk (L := big_layout) 0) idle sbrk_call = Some 0 /\ resized (L := big_layout) 0 sbrk_call free A TF [] 5000 s'.
Proof.
  destruct one_proc_inv as (free & t & tf & Hinv).
  assert (is_Some (({[0 := (t, ∅)]} : gmap Z (ptree * umap)) !! 0)) as H0 by (rewrite lookup_singleton_eq; eauto).
  assert (value (sys_sbrk (L := big_layout) 0) idle sbrk_call = Some 0) as Hv by (vm_compute; reflexivity).
  destruct (wp_after _ idle sbrk_call 0 _ (sbrk_resizes (L := big_layout) 0 sbrk_call free _ _ [] idle (with_args_inv _ _ _ _ _ _ Hinv H0) H0
    ltac:(apply not_elem_of_nil) ltac:(left; vm_compute; reflexivity) ltac:(vm_compute; discriminate)) Hv) as (c' & _ & [[_ Hr]|[? _]]); [|done].
  rewrite sbrk_call_size in Hr; eexists free, _, _, _; split; [exact Hv|exact Hr].
Defined.

(** A process that has reserved all user memory, and asks for 1 Mbyte more. *)
Definition lazy_call : ksys := with_args (2 ^ 20) SBRK_LAZY (upd_proc 0 (set_sz (ulimit * 4096)) one_proc).

Lemma lazy_call_size :
  p_sz (proc_at lazy_call 0) + s32 (rd64 (k_mem (kmem_of lazy_call)) (p_trapframe (proc_at lazy_call 0) + tf_a0)) = ulimit * 4096 + 2 ^ 20.
Proof. vm_compute; reflexivity. Qed.

Lemma lazy_sbrk_panics_witness :
  value (sys_sbrk (L := big_layout) 0) idle lazy_call = Some (ulimit * 4096) /\
  exists s', p_sz (proc_at s' 0) = ulimit * 4096 + 2 ^ 20 /\ panics (freeproc (L := big_layout) 0) idle s' "walk".
Proof.
  destruct one_proc_inv as (free & t & tf & Hinv).
  assert (({[0 := (t, ∅)]} : gmap Z (ptree * umap)) !! 0 = Some (t, ∅)) as H0 by apply lookup_singleton_eq.
  assert (uspace (L := big_layout) (kmem_of one_proc) free t ∅) as Hu by (eapply (sp_space (L := big_layout)); [apply Hinv|exact H0]).
  destruct (procs_inv_resize (L := big_layout) 0 one_proc free {[0 := (t, ∅)]} {[0 := tf]} [] (kmem_of one_proc) free t ∅ t ∅ (ulimit * 4096)
    Hinv H0 Hu eq_refl (fun va _ => eq_refl) (Permutation_refl _) (same_except_refl _ _) ltac:(rewrite ulimit_eq; lia) (fun v _ => lookup_empty v)) as [Hinv' _].
  rewrite insert_singleton_eq, <- upd_proc_set_kmem, set_kmem_id in Hinv'.
  assert (value (sys_sbrk (L := big_layout) 0) idle lazy_call = Some (ulimit * 4096)) as Hv by (vm_compute; reflexivity).
  destruct (wp_after _ idle lazy_call (ulimit * 4096) _ (lazy_sbrk_panics (L := big_layout) 0 lazy_call free _ _ [] idle
    (with_args_inv _ _ _ _ _ _ Hinv' ltac:(rewrite H0; eauto)) ltac:(rewrite H0; eauto)
    ltac:(apply not_elem_of_nil) ltac:(vm_compute; discriminate) ltac:(vm_compute; discriminate) ltac:(vm_compute; reflexivity)) Hv)
    as (c' & -> & _ & Hsz & Hp).
  rewrite lazy_call_size in Hsz; split; [exact Hv|]; eexists; split; [exact Hsz|exact Hp].
Defined.
