(* ===== verification/TrapExample.v ===== *)
(** * A trap on a machine with one process

    The first process of [LifeExample] enters the kernel and returns; an interrupt
    on the kernel stack of a process, mapped at [KSTACK]. *)

From S2P Require Import Prelude KMonad Memory Riscv Kalloc Vm VmProofs UserVm UserMem UserLife Kernel Spaces Proc ProcMem ProcLife LifeExample Asm Trampoline.

(** A hart that runs a process with the table [root], all registers at 42. *)
Definition user_hart (root : Z) (m : mem) : hart := Hart (fun _ => 42) (fun _ => MAKE_SATP root) m.

Lemma trap_roundtrip_witness : exists t tf h1 h3, let m := k_mem (kmem_of one_proc) in
  run (uservec 0) (user_hart (pt_root t) m) = Some (h1, Jump (rd64 m (tf + tf_kernel_trap))) /\
  run userret (set_reg a0 (MAKE_SATP (pt_root t)) h1) = Some (h3, Sret) /\ forall r, h_reg h3 r = 42.
Proof.
  destruct one_proc_inv as (free & t & tf & Hinv); pose proof (pv_mem (L := big_layout) _ _ _ _ _ Hinv) as Hp.
  destruct (trap_roundtrip (L := big_layout) (kmem_of one_proc) free {[0 := (t, ∅)]} {[0 := tf]} [] 0 t ∅ tf (user_hart (pt_root t) (k_mem (kmem_of one_proc))) 0
    Hp (lookup_singleton_eq _ _) (lookup_singleton_eq _ _) eq_refl eq_refl ltac:(intros r; cbn; lia)) as (h1 & E1 & _ & Hs & Hp1 & Hret).
  destruct (Hret _ _ _ _ _ t ∅ (set_reg a0 (MAKE_SATP (pt_root t)) h1) Hp1 (lookup_singleton_eq _ _) (lookup_singleton_eq _ _) eq_refl eq_refl) as (h3 & E3 & _ & _ & R3).
  exists t, tf, h1, h3; split; [exact E1|]; split; [exact E3|]; intros r; destruct (R3 r) as [_ H]; rewrite H; reflexivity.
Defined.

(** A kernel page table that maps page 6 as the stack of process 0. *)
Definition kstack_table : ptree := PTree (page 9) {[255 := page 8]} {[(255, 511) := page 7]}.
Definition kstack_machine : kmem :=
  Kmem (wr64 (wr64 (wr64 ∅ (page 9 + 8 * 255) (dir_pte (Some (page 8)))) (page 8 + 8 * 511) (dir_pte (Some (page 7))))
         (page 7 + 8 * 509) (leaf_pte (page 6) (Z.lor PTE_R PTE_W))) 0.

Lemma kstack_dir d i0 p :
  forallb (fun i => rd64 (k_mem kstack_machine) (d + 8 * i) =? (if i =? i0 then dir_pte (Some p) else 0)) (zrange 0 512) = true ->
  forall i, 0 <= i < 512 -> rd64 (k_mem kstack_machine) (d + 8 * i) = dir_pte (if decide (i = i0) then Some p else None).
Proof.
  rewrite forallb_forall; intros H i Hi; assert (i ∈ zrange 0 512) as Hin by (apply elem_of_zrange; lia).
  apply list_elem_of_In, H, Z.eqb_eq in Hin; rewrite Hin; destruct (Z.eqb_spec i i0), (decide (i = i0)); by try lia.
Qed.

Lemma kstack_inv : vm_inv (L := small_layout) kstack_machine [] kstack_table.
Proof.
  split; [split; [repeat apply mem_ok_wr64; apply mem_ok_empty|done|constructor|constructor]| | |].
  - split; cbn [kstack_table pt_root pt_l1 pt_l0].
    + intros i Hi; rewrite (kstack_dir (page 9) 255 (page 8)) by (done || (vm_compute; reflexivity)); f_equal.
      case_decide as E; [by rewrite E, lookup_singleton_eq|by rewrite lookup_singleton_ne].
    + intros i p [<- <-]%lookup_singleton_Some j Hj; rewrite (kstack_dir (page 8) 511 (page 7)) by (done || (vm_compute; reflexivity)); f_equal.
      case_decide as E; [by rewrite E, lookup_singleton_eq|rewrite lookup_singleton_ne; [done|congruence]].
    + intros i j p [[= <- <-] _]%lookup_singleton_Some; by rewrite lookup_singleton_eq.
    + intros i p [<- _]%lookup_singleton_Some; lia.
    + intros i j p [[= <- <-] _]%lookup_singleton_Some; lia.
  - apply (bool_decide_unpack _); by vm_compute.
  - repeat constructor; by vm_compute.
Qed.

Lemma kstack_window o n : 0 <= o -> 0 < n -> o + n <= 4096 -> o mod 8 = 0 ->
  window (k_mem kstack_machine) (MAKE_SATP (page 9)) (KSTACK 0 + o) (page 6 + o) n.
Proof.
  intros Ho Hn Hfit Hal; change (KSTACK 0) with (2 ^ 38 - 3 * 4096); set (va := 2 ^ 38 - 3 * 4096 + o).
  assert (va mod 4096 = o /\ va / 4096 = 2 ^ 26 - 3 /\ va mod 8 = 0) as (E & Ed & E8) by (unfold va; Z.div_mod_to_equations; lia).
  rewrite <- E at 1; apply (mapped_window (L := small_layout) kstack_machine [] kstack_table va (page 6) (Z.lor PTE_R PTE_W));
    [apply kstack_inv|by vm_compute| |by vm_compute..| |done|lia|lia|].
  - apply (bool_decide_unpack _); by vm_compute.
  - change MAXVA with (2 ^ 38); unfold va; lia.
  - rewrite (pte_of_page _ _ va (KSTACK 0)); [by vm_compute| |by vm_compute|rewrite Ed; by vm_compute].
    change MAXVA with (2 ^ 38); unfold va; lia.
Qed.

(** An interrupt on that stack while all registers but the stack pointer are 7;
    [kerneltrap] changes [t0] and moves to hart 3. *)
Definition interrupted : hart :=
  Hart (fun r => if decide (r = sp) then KSTACK 0 + 4000 else 7) (fun _ => MAKE_SATP (page 9)) (k_mem kstack_machine).

Lemma kernelvec_transparent_witness : exists h1 h3, run (kernelvec 100 200) interrupted = Some (h1, Jump 100) /\
  run kernelvec_return (set_reg tp 3 (set_reg t0 9 h1)) = Some (h3, Sret) /\
  h_reg h3 t0 = 7 /\ h_reg h3 ra = 7 /\ h_reg h3 sp = KSTACK 0 + 4000 /\ h_reg h3 tp = 3.
Proof.
  pose proof (kstack_window 3744 256 ltac:(lia) ltac:(lia) ltac:(lia) ltac:(reflexivity)) as Hw.
  destruct (kernelvec_transparent interrupted (page 6 + 3744) 100 200) as (h1 & E1 & S1 & R1 & O1 & M1 & Ec & Hret).
  - exact Hw.
  - intros r; cbn; case_decide; vm_compute; split; (discriminate || reflexivity).
  - exists h1.
    destruct (Hret (set_reg tp 3 (set_reg t0 9 h1))) as (h3 & E3 & _ & _ & T3 & R3).
    + cbn; rewrite Ec; by eapply window_same.
    + done.
    + intros r Hin; cbn; rewrite !decide_False; [done|intros ->; revert Hin; apply (bool_decide_unpack _); by vm_compute..].
    + done.
    + exists h3; split; [exact E1|]; split; [exact E3|]; split_and!; [rewrite R3 by done; reflexivity..|rewrite T3; reflexivity].
Defined.
